(** * Detecting_walkers: ground-truth boxes (make_bb.py, cleansing.py)

    A shallow embedding of [src/make_bb.py]: the pinhole projection of a
    walker's 3D box ([Walker.get_bounding_box], [Walker.get_2d_bounding_box]),
    the reading of a label file, the nearest-first sort and the occlusion
    scan over the instance buffer, for one frame.

    - Numbers are the program's own: Python [float] and numpy [float64] are
      IEEE 754 binary64, modelled by Rocq's primitive floats with their
      rounding, infinities and nan; Python [int] is [Z].
    - A raised exception is the [Raise] case of [Py.result]; the script has
      no handler, so an exception ends the run.
    - The functions of libm, LAPACK and the builtins [float] and [int] on
      strings are parameters of the model ([Extern]).
    - A frame is given by its semantic raster and the lines of its label
      file, and it yields the rectangles drawn and the detections written.
      The loop over the image files runs against a record of what the
      directory holds ([make_bb.recording]) and yields the files written;
      what OpenCV draws is kept as data.
    - Of [src/cleansing.py], the reader of gt.txt, [draw_bb], the choice of
      the image of a group and the writer of new_gt.txt work on labels as
      values ([cleansing]); the loop over the keys works on labels in a heap,
      with the keys pressed as its input ([editor]).
      [src/simulation.py], which drives the CARLA simulator, is not
      embedded. *)

From Stdlib Require Import ZArith List Bool String Ascii Floats Lia.
From Stdlib Require Import Sorted Permutation DecimalString.
From Stdlib Require Import DecimalZ DecimalPos.
From stdpp Require Import base list.
Import ListNotations.

Local Open Scope Z_scope.

(** ** The Python runtime the script relies on *)

Module Py.

(** The exceptions the script can meet; none is caught anywhere in it. *)
Inductive exn : Type :=
| IndexError
| ValueError
| OverflowError
| LinAlgError.

Inductive result (A : Type) : Type :=
| Ok (a : A)
| Raise (e : exn).

Arguments Ok {A} a.
Arguments Raise {A} e.

Definition bind {A B : Type} (m : result A) (k : A -> result B) : result B :=
  match m with
  | Ok a => k a
  | Raise e => Raise e
  end.

(** [map(f, xs)] forced by [list(...)]: left to right, first error wins. *)
Fixpoint mapM {A B : Type} (f : A -> result B) (xs : list A) : result (list B) :=
  match xs with
  | [] => Ok []
  | x :: r =>
      bind (f x) (fun y => bind (mapM f r) (fun ys => Ok (y :: ys)))
  end.

(** [l[i]] on a Python list: a negative index counts from the end, an index
    out of range raises [IndexError]. *)
Definition norm_index (n : nat) (i : Z) : option nat :=
  let j := if i <? 0 then i + Z.of_nat n else i in
  if (0 <=? j) && (j <? Z.of_nat n) then Some (Z.to_nat j) else None.

Definition getitem {A : Type} (l : list A) (i : Z) : result A :=
  match norm_index (length l) i with
  | Some j =>
      match l !! j with
      | Some a => Ok a
      | None => Raise IndexError
      end
  | None => Raise IndexError
  end.

(** [l[i] = a]. *)
Definition setitem {A : Type} (l : list A) (i : Z) (a : A) : result (list A) :=
  match norm_index (length l) i with
  | Some j => Ok (<[j := a]> l)
  | None => Raise IndexError
  end.

(** [l[a:b]] for literal bounds [0 <= a <= b]. *)
Definition slice {A : Type} (l : list A) (a b : nat) : list A :=
  firstn (b - a) (skipn a l).

(** [for i in range(a, b): body], where the body may [break].  The body
    returns [None] for [break] and the next state otherwise. *)
Fixpoint for_range {S : Type} (n : nat) (i : Z)
  (body : Z -> S -> result (option S)) (s : S) : result S :=
  match n with
  | O => Ok s
  | Datatypes.S n' =>
      bind (body i s) (fun r =>
        match r with
        | None => Ok s
        | Some s' => for_range n' (i + 1) body s'
        end)
  end.

Definition range_len (a b : Z) : nat := Z.to_nat (b - a).

(** [int(x)] on a float: truncation toward zero; [inf] and [nan] raise. *)
Definition int_of_float (x : float) : result Z :=
  match Prim2SF x with
  | S754_nan => Raise ValueError
  | S754_infinity _ => Raise OverflowError
  | S754_zero _ => Ok 0
  | S754_finite s m e =>
      let a := Z.shiftl (Z.pos m) e in
      Ok (if s then - a else a)
  end.

(** [str.split()] with no argument, on a line of characters below U+0100,
    a character being its code point: runs of whitespace separate the
    tokens, leading and trailing whitespace give no token.  The whitespace
    below U+0100 is U+0009 to U+000D, U+001C to U+0020, U+0085 and U+00A0;
    the spaces of Unicode above U+00FF are not characters of such a line. *)
Definition isspace (c : ascii) : bool :=
  let n := nat_of_ascii c in
  ((9 <=? n)%nat && (n <=? 13)%nat) || ((28 <=? n)%nat && (n <=? 32)%nat)
  || (n =? 133)%nat || (n =? 160)%nat.

Fixpoint split_go (s : string) (tok : option string) : list string :=
  match s with
  | EmptyString =>
      match tok with
      | Some t => [t]
      | None => []
      end
  | String c r =>
      if isspace c then
        match tok with
        | Some t => t :: split_go r None
        | None => split_go r None
        end
      else
        split_go r (Some (match tok with
                          | Some t => t ++ String c EmptyString
                          | None => String c EmptyString
                          end)%string)
  end.

Definition split (s : string) : list string := split_go s None.

(** A text file open for reading: the lines not yet read, each with its
    newline.  [readline] returns the empty string at end of file. *)
Definition readline (f : list string) : string * list string :=
  match f with
  | [] => (EmptyString, [])
  | l :: r => (l, r)
  end.

End Py.

Import Py.

(** Sequencing of statements that may raise, in stdpp's monad notation. *)
#[global] Instance result_bind : MBind Py.result :=
  fun A B k m => Py.bind m k.
#[global] Instance result_ret : MRet Py.result := fun A a => Ok a.


(** ** numpy values

    A 4x4 [np.matrix] and the 3x3 calibration array are kept as tuples of
    rows.  A 4x8 (or 3x8) matrix of box corners is kept as the list of its 8
    columns, so that [np.dot(M, cords)] is [M] applied to every column.
    Every entry of a product is accumulated left to right, each product and
    each sum rounded on its own.  numpy hands the product to the BLAS it is
    built with, which may fuse a multiplication and the addition that
    follows into one rounding: an entry can then differ from the one here in
    its last bit. *)

Module np.

Definition vec3 : Type := float * float * float.
Definition vec4 : Type := float * float * float * float.
Definition mat3 : Type := vec3 * vec3 * vec3.
Definition mat4 : Type := vec4 * vec4 * vec4 * vec4.

Definition pi : float := 0x1.921fb54442d18p+1%float.

(** [np.radians(x)] is [x * (pi / 180)]. *)
Definition radians (x : float) : float := (x * (pi / 180))%float.

Definition dot3 (a b : vec3) : float :=
  let '(a0, a1, a2) := a in
  let '(b0, b1, b2) := b in
  (a0 * b0 + a1 * b1 + a2 * b2)%float.

Definition dot4 (a b : vec4) : float :=
  let '(a0, a1, a2, a3) := a in
  let '(b0, b1, b2, b3) := b in
  (a0 * b0 + a1 * b1 + a2 * b2 + a3 * b3)%float.

Definition matvec3 (m : mat3) (v : vec3) : vec3 :=
  let '(r0, r1, r2) := m in
  (dot3 r0 v, dot3 r1 v, dot3 r2 v).

Definition matvec4 (m : mat4) (v : vec4) : vec4 :=
  let '(r0, r1, r2, r3) := m in
  (dot4 r0 v, dot4 r1 v, dot4 r2 v, dot4 r3 v).

Definition col4 (m : mat4) (j : nat) : vec4 :=
  let pick (r : vec4) : float :=
    let '(a0, a1, a2, a3) := r in
    match j with
    | O => a0
    | 1%nat => a1
    | 2%nat => a2
    | _ => a3
    end in
  let '(r0, r1, r2, r3) := m in
  (pick r0, pick r1, pick r2, pick r3).

(** [np.dot(a, b)] of two 4x4 matrices. *)
Definition matmul4 (a b : mat4) : mat4 :=
  let row (r : vec4) : vec4 :=
    (dot4 r (col4 b 0), dot4 r (col4 b 1), dot4 r (col4 b 2), dot4 r (col4 b 3)) in
  let '(r0, r1, r2, r3) := a in
  (row r0, row r1, row r2, row r3).

End np.

(** ** Library functions outside the repository

    The script calls libm through numpy ([np.cos], [np.sin], [np.tan]),
    LAPACK through [np.linalg.inv] (which raises [LinAlgError] on a singular
    matrix), and the builtins [float] and [int] on the tokens of the log.
    The model takes them as given. *)

Record Extern : Type := {
  np_cos : float -> float;
  np_sin : float -> float;
  np_tan : float -> float;
  np_linalg_inv : np.mat4 -> result np.mat4;
  py_float : string -> result float;
  py_int : string -> result Z
}.

(** ** The classes of make_bb.py *)

Module loc.

Record t : Type := { x : float; y : float; z : float }.

(** [loc(info)] reads [info[0]], [info[1]], [info[2]]. *)
Definition init (info : list float) : result t :=
  a ← getitem info 0; b ← getitem info 1; c ← getitem info 2;
  Ok {| x := a; y := b; z := c |}.

End loc.

Module rot.

Record t : Type := { yaw : float; roll : float; pitch : float }.

Definition init (info : list float) : result t :=
  a ← getitem info 0; b ← getitem info 1; c ← getitem info 2;
  Ok {| yaw := a; roll := b; pitch := c |}.

End rot.

Module Extent.

Record t : Type := { x : float; y : float; z : float }.

End Extent.

Module Camera.

Record t : Type := {
  location : loc.t;
  rotation : rot.t;
  height : float;
  width : float;
  fov : float;
  calibration : np.mat3
}.

End Camera.

Module Walker.

Record t : Type := {
  id : Z;
  bb_extent : Extent.t;
  bb_location : loc.t;
  bb_rotation : rot.t;
  location : loc.t;
  rotation : rot.t;
  cam : Camera.t;
  bb2d : option ((Z * Z) * (Z * Z));
  dist : float
}.

End Walker.

(** A projected corner: a row [(u, v, depth)] of the 8x3 matrix [bb]. *)
Definition corner_u (p : np.vec3) : float := p.1.1.
Definition corner_v (p : np.vec3) : float := p.1.2.
Definition corner_depth (p : np.vec3) : float := p.2.

Section Program.

Context (E : Extern).

Definition get_matrix (rotation : rot.t) (location : loc.t) : np.mat4 :=
  let c_y := np_cos E (np.radians (rot.yaw rotation)) in
  let s_y := np_sin E (np.radians (rot.yaw rotation)) in
  let c_r := np_cos E (np.radians (rot.roll rotation)) in
  let s_r := np_sin E (np.radians (rot.roll rotation)) in
  let c_p := np_cos E (np.radians (rot.pitch rotation)) in
  let s_p := np_sin E (np.radians (rot.pitch rotation)) in
  ((c_p * c_y, c_y * s_p * s_r - s_y * c_r, - c_y * s_p * c_r - s_y * s_r,
    loc.x location),
   (s_y * c_p, s_y * s_p * s_r + c_y * c_r, - s_y * s_p * c_r + c_y * s_r,
    loc.y location),
   (s_p, - c_p * s_r, c_p * c_r, loc.z location),
   (0, 0, 0, 1))%float.

(** [Extent(x, y, z)]: three calls of [float]. *)
Definition Extent_init (x y z : string) : result Extent.t :=
  a ← py_float E x; b ← py_float E y; c ← py_float E z;
  Ok {| Extent.x := a; Extent.y := b; Extent.z := c |}.

(** [Camera(setting, info)]. *)
Definition Camera_init (setting info : list string) : result Camera.t :=
  l ← mapM (py_float E) (slice info 0 3);
  location ← loc.init l;
  r ← mapM (py_float E) (slice info 3 6);
  rotation ← rot.init r;
  s ← mapM (py_float E) setting;
  match s with
  | [height; width; fov] =>
      let f := (width / (2 * np_tan E (fov * np.pi / 360)))%float in
      Ok {| Camera.location := location;
            Camera.rotation := rotation;
            Camera.height := height;
            Camera.width := width;
            Camera.fov := fov;
            Camera.calibration :=
              ((f, 0, width / 2), (0, f, height / 2), (0, 0, 1))%float |}
  | _ => Raise ValueError
  end.

(** *** Methods of [Walker] *)

Definition get_distance (self : Walker.t) : float :=
  let cam_loc := Camera.location (Walker.cam self) in
  let obj_loc := Walker.location self in
  ((loc.x cam_loc - loc.x obj_loc) * (loc.x cam_loc - loc.x obj_loc)
   + (loc.y cam_loc - loc.y obj_loc) * (loc.y cam_loc - loc.y obj_loc))%float.

(** The rows of the 8x4 array [cords]. *)
Definition create_bb_points (self : Walker.t) : list np.vec4 :=
  let extent := Walker.bb_extent self in
  let ex := Extent.x extent in
  let ey := Extent.y extent in
  let ez := Extent.z extent in
  [ (ex, ey, - ez, 1);
    (- ex, ey, - ez, 1);
    (- ex, - ey, - ez, 1);
    (ex, - ey, - ez, 1);
    (ex, ey, ez, 1);
    (- ex, ey, ez, 1);
    (- ex, - ey, ez, 1);
    (ex, - ey, ez, 1) ]%float.

Definition walker_to_world (self : Walker.t) (cords : list np.vec4)
  : list np.vec4 :=
  let bb_walker_matrix :=
    get_matrix (Walker.bb_rotation self) (Walker.bb_location self) in
  let walker_world_matrix :=
    get_matrix (Walker.rotation self) (Walker.location self) in
  let bb_world_matrix := np.matmul4 walker_world_matrix bb_walker_matrix in
  map (np.matvec4 bb_world_matrix) cords.

Definition world_to_sensor (self : Walker.t) (cords : list np.vec4)
  : result (list np.vec4) :=
  let sensor_world_matrix :=
    get_matrix (Camera.rotation (Walker.cam self))
               (Camera.location (Walker.cam self)) in
  world_sensor_matrix ← np_linalg_inv E sensor_world_matrix;
  Ok (map (np.matvec4 world_sensor_matrix) cords).

Definition walker_to_sensor (self : Walker.t) (cords : list np.vec4)
  : result (list np.vec4) :=
  let world_cord := walker_to_world self cords in
  world_to_sensor self world_cord.

(** The matrix [bb] before the depth test: one row [(u, v, depth)] per
    corner. *)
Definition project_corner (calibration : np.mat3) (p : np.vec4) : np.vec3 :=
  let '(x, y, z, _) := p in
  let '(b0, b1, b2) := np.matvec3 calibration (y, - z, x)%float in
  (b0 / b2, b1 / b2, b2)%float.

Definition depth_test (bb : list np.vec3) : bool :=
  negb (forallb (fun p => 0 <? corner_depth p)%float bb)
  && negb (forallb (fun p => corner_depth p <? 60)%float bb).

Definition get_bounding_box (self : Walker.t) : result (option (list np.vec3)) :=
  let bb_cords := create_bb_points self in
  cords ← walker_to_sensor self bb_cords;
  let bb := map (project_corner (Camera.calibration (Walker.cam self))) cords in
  if depth_test bb then Ok None else Ok (Some bb).

(** The list comprehension of line 100 over the 8 rows of [bb]: corners are
    visited in order; a corner that passes the test has both coordinates
    converted by [int]. *)
Fixpoint corner_points (bb : list np.vec3) : result (list (Z * Z)) :=
  match bb with
  | [] => Ok []
  | p :: r =>
      if ((0 <=? corner_u p) && (0 <=? corner_v p))%float then
        px ← int_of_float (corner_u p);
        py ← int_of_float (corner_v p);
        ps ← corner_points r;
        Ok ((px, py) :: ps)
      else corner_points r
  end.

(** The loop of lines 104-115 over [(min_x, min_y, max_x, max_y)]. *)
Definition extend_rect (acc : Z * Z * Z * Z) (point : Z * Z) : Z * Z * Z * Z :=
  let '(min_x, min_y, max_x, max_y) := acc in
  let min_x := if point.1 <? min_x then point.1 else min_x in
  let max_x := if max_x <? point.1 then point.1 else max_x in
  let min_y := if point.2 <? min_y then point.2 else min_y in
  let max_y := if max_y <? point.2 then point.2 else max_y in
  (min_x, min_y, max_x, max_y).

Definition rect_of_points (points : list (Z * Z)) : option ((Z * Z) * (Z * Z)) :=
  let '(min_x, min_y, max_x, max_y) :=
    fold_left extend_rect points (100000, 100000, 0, 0) in
  if (max_x - min_x <? 17) || (max_y - min_y <? 35) then None
  else Some ((min_x, min_y), (max_x, max_y)).

Definition get_2d_bounding_box (self : Walker.t)
  : result (option ((Z * Z) * (Z * Z))) :=
  bb ← get_bounding_box self;
  match bb with
  | None => Ok None
  | Some bb =>
      points ← corner_points bb;
      if negb (length points =? 8)%nat then Ok None
      else Ok (rect_of_points points)
  end.

(** [Walker(id, info, cam)].  [bb2d] and [dist] are computed by the methods
    from the attributes assigned before them. *)
Definition Walker_init (id : string) (info : list string) (cam : Camera.t)
  : result Walker.t :=
  id ← py_int E id;
  e0 ← getitem info 0; e1 ← getitem info 1; e2 ← getitem info 2;
  bb_extent ← Extent_init e0 e1 e2;
  l ← mapM (py_float E) (slice info 3 6);
  bb_location ← loc.init l;
  let bb_rotation := {| rot.yaw := 0; rot.roll := 0; rot.pitch := 0 |}%float in
  l ← mapM (py_float E) (slice info 6 9);
  location ← loc.init l;
  r ← mapM (py_float E) (slice info 9 12);
  rotation ← rot.init r;
  let self :=
    {| Walker.id := id;
       Walker.bb_extent := bb_extent;
       Walker.bb_location := bb_location;
       Walker.bb_rotation := bb_rotation;
       Walker.location := location;
       Walker.rotation := rotation;
       Walker.cam := cam;
       Walker.bb2d := None;
       Walker.dist := 0%float |} in
  bb2d ← get_2d_bounding_box self;
  let dist := get_distance self in
  Ok {| Walker.id := id;
        Walker.bb_extent := bb_extent;
        Walker.bb_location := bb_location;
        Walker.bb_rotation := bb_rotation;
        Walker.location := location;
        Walker.rotation := rotation;
        Walker.cam := cam;
        Walker.bb2d := bb2d;
        Walker.dist := dist |}.

(** *** The body of the main loop, for one frame *)

(** The semantic raster: [h] rows of [w] pixels, each a (B, G, R) triple. *)
Definition pixel : Type := Z * Z * Z.

Definition shape0 (semantic : list (list pixel)) : Z :=
  Z.of_nat (length semantic).

Definition shape1 (semantic : list (list pixel)) : Z :=
  match semantic with
  | [] => 0
  | row :: _ => Z.of_nat (length row)
  end.

(** [all(semantic[y][x] == (60,20,220))]. *)
Definition is_pedestrian (p : pixel) : bool :=
  let '(b, g, r) := p in
  (b =? 60) && (g =? 20) && (r =? 220).

(** [[[-1 for _ in range(w)] for _ in range(h)]]. *)
Definition new_instance (h w : Z) : list (list Z) :=
  replicate (Z.to_nat h) (replicate (Z.to_nat w) (-1)).

Definition newline : string := String "010"%char EmptyString.

(** The [while True] loop that reads the actor lines.  At end of file
    [readline] gives the empty string, which has no token. *)
Fixpoint read_walkers (cam : Camera.t) (label : list string)
  (walkers : list Walker.t) : result (list Walker.t) :=
  match label with
  | [] => Ok walkers
  | line :: label =>
      if String.eqb line newline then Ok walkers
      else
        let line_splited := split line in
        if (length line_splited <? 10)%nat then Ok walkers
        else
          tok ← getitem line_splited 1;
          obj ← Walker_init tok (skipn 2 line_splited) cam;
          read_walkers cam label (walkers ++ [obj])
  end.

(** [walkers.sort(key=lambda x: x.dist)]: a stable sort that compares keys
    with [<].  On keys that [<] orders, every stable sort returns the list
    that this insertion sort returns; with a nan among the keys, the result
    of [list.sort] depends on its algorithm and is not what is modelled. *)
Fixpoint insert_walker (w : Walker.t) (sorted : list Walker.t) : list Walker.t :=
  match sorted with
  | [] => [w]
  | v :: r =>
      if (Walker.dist w <? Walker.dist v)%float then w :: v :: r
      else v :: insert_walker w r
  end.

Definition sort_walkers (walkers : list Walker.t) : list Walker.t :=
  fold_left (fun sorted w => insert_walker w sorted) walkers [].

(** The body of the pixel scan (lines 249-251) at [(y, x)]. *)
Definition scan_pixel (semantic : list (list pixel)) (id : Z) (y x : Z)
  (st : list (list Z) * Z) : result (list (list Z) * Z) :=
  let '(instance, cnt) := st in
  row ← getitem instance y;
  v ← getitem row x;
  if v =? -1 then
    srow ← getitem semantic y;
    p ← getitem srow x;
    if is_pedestrian p then
      row ← getitem instance y;
      row' ← setitem row x id;
      instance' ← setitem instance y row';
      Ok (instance', cnt + 1)
    else Ok st
  else Ok st.

Definition scan_row (semantic : list (list pixel)) (w : Z) (id : Z)
  (minx maxx : Z) (y : Z) (st : list (list Z) * Z)
  : result (list (list Z) * Z) :=
  for_range (range_len minx (maxx + 1)) minx
    (fun x st =>
       if w <=? x then Ok None
       else st' ← scan_pixel semantic id y x st; Ok (Some st'))
    st.

(** Lines 245-251. *)
Definition scan (semantic : list (list pixel)) (h w : Z) (id : Z)
  (bb : (Z * Z) * (Z * Z)) (st : list (list Z) * Z)
  : result (list (list Z) * Z) :=
  let '((minx, miny), (maxx, maxy)) := bb in
  for_range (range_len miny (maxy + 1)) miny
    (fun y st =>
       if h <=? y then Ok None
       else st' ← scan_row semantic w id minx maxx y st; Ok (Some st'))
    st.

(** One line of gt.txt: [frame,id,min_x,min_y,width,height,1,1,1]. *)
Record detection : Type := {
  det_frame : Z;
  det_id : Z;
  det_left : Z;
  det_top : Z;
  det_width : Z;
  det_height : Z
}.

Definition str (n : Z) : string :=
  NilZero.string_of_int (Z.to_int n).

Definition gt_line (d : detection) : string :=
  (str (det_frame d) ++ "," ++ str (det_id d) ++ "," ++ str (det_left d)
   ++ "," ++ str (det_top d) ++ "," ++ str (det_width d) ++ ","
   ++ str (det_height d) ++ "," ++ str 1 ++ "," ++ str 1 ++ "," ++ "1"
   ++ newline)%string.

(** What one frame leaves behind: the instance buffer, the rectangles drawn
    on the image and the detections written to gt.txt. *)
Record frame_state : Type := {
  instance : list (list Z);
  drawn : list ((Z * Z) * (Z * Z));
  written : list detection
}.

(** One iteration of the loop of lines 237-257. *)
Definition visit (save : bool) (frame : Z) (semantic : list (list pixel))
  (h w : Z) (walker : Walker.t) (st : frame_state) : result frame_state :=
  match Walker.bb2d walker with
  | None => Ok st
  | Some bb =>
      let '((minx, miny), (maxx, maxy)) := bb in
      let total := (maxx - minx + 1) * (maxy - miny + 1) in
      '(instance', cnt) ← scan semantic h w (Walker.id walker) bb (instance st, 0);
      if (0 <? total) && (10 * cnt <? 2 * total) then
        Ok {| instance := instance'; drawn := drawn st; written := written st |}
      else
        Ok {| instance := instance';
              drawn := drawn st ++ [bb];
              written :=
                if save then
                  written st ++
                    [ {| det_frame := frame;
                         det_id := Walker.id walker;
                         det_left := minx;
                         det_top := miny;
                         det_width := maxx - minx + 1;
                         det_height := maxy - miny + 1 |} ]
                else written st |}
  end.

Fixpoint visit_all (save : bool) (frame : Z) (semantic : list (list pixel))
  (h w : Z) (walkers : list Walker.t) (st : frame_state) : result frame_state :=
  match walkers with
  | [] => Ok st
  | walker :: rest =>
      st' ← visit save frame semantic h w walker st;
      visit_all save frame semantic h w rest st'
  end.

(** Lines 217-230: the camera and the walkers of one label file. *)
Definition parse_label (label : list string) : result (list Walker.t) :=
  let '(vehicle_vel, label) := readline label in
  let '(line, label) := readline label in
  let cam_setting := skipn 1 (split line) in
  let '(line, label) := readline label in
  let cam_info := skipn 1 (split line) in
  cam ← Camera_init cam_setting cam_info;
  read_walkers cam label [].

(** Lines 214-257 for one image whose companions exist: [frame] is the
    counter before the increment of line 214. *)
Definition process_frame (save : bool) (frame : Z)
  (semantic : list (list pixel)) (label : list string) : result frame_state :=
  let frame := frame + 1 in
  walkers ← parse_label label;
  let walkers := sort_walkers walkers in
  let h := shape0 semantic in
  let w := shape1 semantic in
  let instance := new_instance h w in
  visit_all save frame semantic h w walkers
    {| instance := instance; drawn := []; written := [] |}.

End Program.

(** ** Reference values of the library functions

    The examples below run the program on concrete logs.  They use the
    library functions only at a few arguments; [Ref.extern] tabulates the
    values CPython and numpy return there on IEEE doubles and is undefined
    (nan, [ValueError], [LinAlgError]) elsewhere. *)

Module Ref.

Definition float_table (tbl : list (float * float)) (x : float) : float :=
  match find (fun kv => PrimFloat.Leibniz.eqb kv.1 x) tbl with
  | Some kv => kv.2
  | None => nan
  end.

(** cos(0.0) = 1.0, sin(0.0) = 0.0, and tan(0.7853981633974483) =
    0.9999999999999999, the argument being 90 * pi / 360. *)
Definition cos : float -> float := float_table [(0, 1)]%float.
Definition sin : float -> float := float_table [(0, 0)]%float.
Definition tan : float -> float :=
  float_table [(0x1.921fb54442d18p-1, 0x1.fffffffffffffp-1)]%float.

Definition vec4_eqb (a b : np.vec4) : bool :=
  let '(a0, a1, a2, a3) := a in
  let '(b0, b1, b2, b3) := b in
  PrimFloat.Leibniz.eqb a0 b0 && PrimFloat.Leibniz.eqb a1 b1
  && PrimFloat.Leibniz.eqb a2 b2 && PrimFloat.Leibniz.eqb a3 b3.

Definition mat4_eqb (a b : np.mat4) : bool :=
  let '(a0, a1, a2, a3) := a in
  let '(b0, b1, b2, b3) := b in
  vec4_eqb a0 b0 && vec4_eqb a1 b1 && vec4_eqb a2 b2 && vec4_eqb a3 b3.

(** The pose matrix of a camera at the origin with no rotation, as
    [get_matrix] builds it, and its inverse: both are the identity, the
    former with two negative zeros.  The examples come out the same
    whatever the signs of the zeros of the inverse. *)
Definition pose0 : np.mat4 :=
  ((1, 0, -0, 0), (0, 1, 0, 0), (0, -0, 1, 0), (0, 0, 0, 1))%float.

Definition identity4 : np.mat4 :=
  ((1, 0, 0, 0), (0, 1, 0, 0), (0, 0, 1, 0), (0, 0, 0, 1))%float.

Definition linalg_inv (m : np.mat4) : result np.mat4 :=
  if mat4_eqb m pose0 then Ok identity4 else Raise LinAlgError.

(** [float(tok)] on the tokens of the example logs. *)
Definition float_of_token (tok : string) : result float :=
  match
    find (fun kv => String.eqb kv.1 tok)
      [ ("0", 0); ("1", 1); ("2", 2); ("-2", -2); ("4.5", 4.5);
        ("0.5", 0.5); ("-0.5", -0.5); ("48", 48); ("64", 64); ("90", 90);
        ("4000", 4000); ("5e-324", 0x1p-1074) ]%float%string
  with
  | Some kv => Ok kv.2
  | None => Raise ValueError
  end.

(** [int(tok)] on an optional minus sign followed by decimal digits. *)
Definition int_of_token (tok : string) : result Z :=
  match NilZero.int_of_string tok with
  | Some n => Ok (Z.of_int n)
  | None => Raise ValueError
  end.

Definition extern : Extern :=
  {| np_cos := cos;
     np_sin := sin;
     np_tan := tan;
     np_linalg_inv := linalg_inv;
     py_float := float_of_token;
     py_int := int_of_token |}.

(** A log line: the text and its newline. *)
Definition ln (s : string) : string := (s ++ newline)%string.

(** The camera of the examples: 64x48 pixels, 90 degrees, at the origin,
    looking along +x.  Its focal length is 64 / (2 * 0.9999999999999999). *)
Definition header : list string :=
  [ ln "0 0 0"; ln "CAM 48 64 90"; ln "0 0 0 0 0 0 0" ].

Definition camera : Camera.t :=
  {| Camera.location := {| loc.x := 0; loc.y := 0; loc.z := 0 |};
     Camera.rotation := {| rot.yaw := 0; rot.roll := 0; rot.pitch := 0 |};
     Camera.height := 48;
     Camera.width := 64;
     Camera.fov := 90;
     Camera.calibration :=
       ((0x1.0000000000001p+5, 0, 32), (0, 0x1.0000000000001p+5, 24),
        (0, 0, 1)) |}%float.

Definition no_rot : rot.t :=
  {| rot.yaw := 0; rot.roll := 0; rot.pitch := 0 |}%float.

(** The walker that [Walker(id, info, camera)] builds for a box with
    half-extents [(ex, ey, ez)], no offset and no rotation, at [(x, y, z)]. *)
Definition walker (id : Z) (ex ey ez x y z : float)
  (bb2d : option ((Z * Z) * (Z * Z))) (dist : float) : Walker.t :=
  {| Walker.id := id;
     Walker.bb_extent := {| Extent.x := ex; Extent.y := ey; Extent.z := ez |};
     Walker.bb_location := {| loc.x := 0; loc.y := 0; loc.z := 0 |};
     Walker.bb_rotation := no_rot;
     Walker.location := {| loc.x := x; loc.y := y; loc.z := z |};
     Walker.rotation := no_rot;
     Walker.cam := camera;
     Walker.bb2d := bb2d;
     Walker.dist := dist |}.

(** A pedestrian 2 units straight ahead of the camera. *)
Definition log_ahead : list string :=
  header ++ [ ln "walker 7 0.5 0.5 1 0 0 0 2 0 0 0 0 0" ].

Definition ahead : Walker.t :=
  walker 7 0.5 0.5 1 2 0 0 (Some ((21, 2), (42, 45))) 4.

(** The same pedestrian 2 units straight behind the camera. *)
Definition log_behind : list string :=
  header ++ [ ln "walker 7 0.5 0.5 1 0 0 0 -2 0 0 0 0 0" ].

Definition behind : Walker.t :=
  walker 7 0.5 0.5 1 (-2) 0 0 (Some ((21, 2), (42, 45))) 4.

(** A box with no extent in x and y, far to the right of the optical axis
    and below it: its 8 corners project to the pixel column 128032. *)
Definition log_far_right : list string :=
  header ++ [ ln "walker 7 0 0 1 0 0 0 1 4000 -2 0 0 0" ].

Definition far_right : Walker.t :=
  walker 7 0 0 1 1 4000 (-2) (Some ((100000, 56), (128032, 120))) 16000001.

(** A pedestrian whose nearest face lies in the plane of the camera: four
    corners have depth 0.  [touching] is the object as [Walker.__init__] has
    it when it calls [get_2d_bounding_box]. *)
Definition log_touching : list string :=
  header ++ [ ln "walker 7 0.5 0.5 1 0 0 0 -0.5 1 0 0 0 0" ].

Definition touching : Walker.t :=
  walker 7 0.5 0.5 1 (-0.5) 1 0 None 0.

(** A pedestrian 2 units ahead of the camera and 2 units to its left: the
    box straddles the left edge of the image, all its corners are in front
    of the camera and four of them project to columns left of column 0. *)
Definition log_at_left_edge : list string :=
  header ++ [ ln "walker 7 0.5 0.5 1 0 0 0 2 -2 0 0 0 0" ].

Definition at_left_edge : Walker.t :=
  walker 7 0.5 0.5 1 2 (-2) 0 None 8.

(** A box with no extent in y, centred on the optical axis, whose nearest
    face lies in the plane of the camera: four corners have depth 0 and
    project to [(nan, +inf)] or [(nan, -inf)]. *)
Definition log_flat : list string :=
  header ++ [ ln "walker 9 0.5 0 1 0 0 0 -0.5 0 0 0 0 0" ].

Definition flat : Walker.t :=
  walker 9 0.5 0 1 (-0.5) 0 0 None 0.25.

(** A box with no extent in x, in front of the camera at the smallest
    positive depth. *)
Definition log_grazing : list string :=
  header ++ [ ln "walker 8 0 0.5 1 0 0 0 5e-324 1 -2 0 0 0" ].

Definition grazing : Walker.t :=
  walker 8 0 0.5 1 0x1p-1074 1 (-2) None 0.

(** Two pedestrians on the optical axis: the one of the examples above, 2
    units ahead, with its id left open, and one twice as large, 4.5 units
    ahead, whose rectangle lies inside the rectangle of the first. *)
Definition log_two (id : string) : list string :=
  header ++ [ ln ("walker " ++ id ++ " 0.5 0.5 1 0 0 0 2 0 0 0 0 0");
              ln "walker 7 1 1 2 0 0 0 4.5 0 0 0 0 0" ].

Definition nearer (id : Z) : Walker.t :=
  walker id 0.5 0.5 1 2 0 0 (Some ((21, 2), (42, 45))) 4.

Definition farther : Walker.t :=
  walker 7 1 1 2 4.5 0 0 (Some ((22, 5), (41, 42))) 20.25.

(** Rasters of the size of the camera image: every pixel pedestrian, and
    pedestrian pixels only in the block of rows 10-29, columns 28-35. *)
Definition raster (h w : nat) (f : nat -> nat -> pixel) : list (list pixel) :=
  map (fun y => map (f y) (seq 0 w)) (seq 0 h).

Definition all_pedestrian : list (list pixel) :=
  raster 48 64 (fun _ _ => (60, 20, 220)).

Definition block : list (list pixel) :=
  raster 48 64
    (fun y x =>
       if ((10 <=? y) && (y <=? 29) && (28 <=? x) && (x <=? 35))%nat
       then (60, 20, 220) else (0, 0, 0)).

End Ref.


(** ** Reading the instance buffer

    The vocabulary of the statements about the occlusion scan. *)

(** The entry at row [y], column [x] of a raster or of the buffer. *)
Definition cell {A : Type} (grid : list (list A)) (y x : nat) : option A :=
  match grid !! y with
  | Some row => row !! x
  | None => None
  end.

Definition set_cell {A : Type} (grid : list (list A)) (y x : nat) (a : A)
  : list (list A) :=
  match grid !! y with
  | Some row => <[y := <[x := a]> row]> grid
  | None => grid
  end.

(** [h] rows of [w] entries each, as numpy arrays are and as
    [new_instance] builds the buffer. *)
Definition has_shape {A : Type} (h w : nat) (grid : list (list A)) : Prop :=
  length grid = h /\ Forall (fun row => length row = w) grid.

(** A pixel that the scan would claim: unassigned in the buffer and
    pedestrian in the semantic raster. *)
Definition claimable (semantic : list (list pixel)) (instance : list (list Z))
  (yx : nat * nat) : bool :=
  match cell instance yx.1 yx.2, cell semantic yx.1 yx.2 with
  | Some v, Some p => (v =? -1) && is_pedestrian p
  | _, _ => false
  end.

(** The effect of the scan body at one pixel, on the buffer and the count. *)
Definition claim (semantic : list (list pixel)) (id : Z)
  (st : list (list Z) * Z) (yx : nat * nat) : list (list Z) * Z :=
  if claimable semantic st.1 yx then (set_cell st.1 yx.1 yx.2 id, st.2 + 1)
  else st.

(** The pixels of a rectangle that lie inside an image of [h] rows and [w]
    columns, in scan order. *)
Definition clamped_pixels (h w : Z) (bb : (Z * Z) * (Z * Z)) : list (nat * nat) :=
  let '((minx, miny), (maxx, maxy)) := bb in
  flat_map
    (fun y => map (fun x => (y, x))
                (seq (Z.to_nat minx) (Z.to_nat (Z.min (maxx + 1) w - minx))))
    (seq (Z.to_nat miny) (Z.to_nat (Z.min (maxy + 1) h - miny))).

(** The number of pixels of the clamped rectangle that are unassigned in
    [instance] and pedestrian in [semantic]. *)
Definition claimed (semantic : list (list pixel)) (instance : list (list Z))
  (h w : Z) (bb : (Z * Z) * (Z * Z)) : Z :=
  Z.of_nat (length (List.filter (claimable semantic instance)
                                (clamped_pixels h w bb))).

(** A numpy raster has as many entries in every row as [shape] says. *)
Definition rectangular (semantic : list (list pixel)) : Prop :=
  has_shape (Z.to_nat (shape0 semantic)) (Z.to_nat (shape1 semantic)) semantic.

(** The walkers of a frame are objects built by [Walker(...)]. *)
Definition built (E : Extern) (w : Walker.t) : Prop :=
  exists id info cam, Walker_init E id info cam = Ok w.

(** The state in which [process_frame] starts the loop over the walkers. *)
Definition first_state (semantic : list (list pixel)) : frame_state :=
  {| instance := new_instance (shape0 semantic) (shape1 semantic);
     drawn := [];
     written := [] |}.

(** The detection that [visit] writes for a walker with rectangle [bb]. *)
Definition detection_of (frame : Z) (walker : Walker.t)
  (bb : (Z * Z) * (Z * Z)) : detection :=
  {| det_frame := frame;
     det_id := Walker.id walker;
     det_left := bb.1.1;
     det_top := bb.1.2;
     det_width := bb.2.1 - bb.1.1 + 1;
     det_height := bb.2.2 - bb.1.2 + 1 |}.

Definition area (bb : (Z * Z) * (Z * Z)) : Z :=
  (bb.2.1 - bb.1.1 + 1) * (bb.2.2 - bb.1.2 + 1).

(** The text that the frame appends to gt.txt. *)
Definition gt_lines (st : frame_state) : list string :=
  map gt_line (written st).

(** The order of the sort: [a] is not farther from the camera than [b].
    It orders the walkers whose squared distance is a number. *)
Definition not_farther (a b : Walker.t) : Prop :=
  (Walker.dist a <=? Walker.dist b)%float = true.

Definition has_distance (a : Walker.t) : Prop :=
  is_nan (Walker.dist a) = false.

(** The walker that the reading loop builds from one actor line. *)
Definition walker_of_line (E : Extern) (cam : Camera.t) (line : string)
  : result Walker.t :=
  tok ← getitem (split line) 1;
  Walker_init E tok (skipn 2 (split line)) cam.


(** ** String and list methods of the outer loop and of cleansing.py *)

Module Str.

(** [s.split(sep)] for a separator of one character: the string is cut at
    every occurrence of the separator; the result is never empty. *)
Fixpoint split_on (sep : ascii) (s : string) : list string :=
  match s with
  | EmptyString => [EmptyString]
  | String c r =>
      if Ascii.eqb c sep then EmptyString :: split_on sep r
      else
        match split_on sep r with
        | t :: ts => String c t :: ts
        | [] => [String c EmptyString]
        end
  end.

(** ["{0:06d}".format(n)]: the decimal digits of [n], filled with zeros on
    the left up to six characters, the sign counted and put first. *)
Definition zeros (k : nat) (s : string) : string :=
  Nat.iter (k - String.length s) (String "0"%char) s.

Definition format_06d (n : Z) : string :=
  if n <? 0 then String "-"%char (zeros 5 (str (- n))) else zeros 6 (str n).

(** [l.sort()] on a list of strings: a stable sort by [<], which on strings
    is the lexicographic order of the character codes. *)
Fixpoint insert (x : string) (sorted : list string) : list string :=
  match sorted with
  | [] => [x]
  | y :: r => if String.ltb x y then x :: y :: r else y :: insert x r
  end.

Definition sort (l : list string) : list string :=
  fold_left (fun sorted x => insert x sorted) l [].

End Str.

(** ** What ends a script

    An exception of [Py.exn], or the [AttributeError] of a method called on
    the [None] that [cv2.imread] returns for a file it cannot read:
    [semantic.shape] in make_bb.py, [org.copy()] in cleansing.py. *)

Inductive crash : Type :=
| Uncaught (e : exn)
| AttributeError.

(** ** The loop over the image files (make_bb.py, lines 177-266)

    What the script finds on disk is a parameter: the listing of the
    recording directory, which companions of an image exist, what OpenCV
    reads and the lines of the label files.  A file that exists is taken to
    open; [cv2.imread] returns [None] on a file it cannot decode.  The
    images are kept abstract.  What a run leaves behind are the files it
    wrote; the state of a run that an exception ends is not kept. *)

Module make_bb.

(** The command line: [--save], [--show], [--debug]. *)
Record args : Type := { save : bool; show : bool; debug : bool }.

Inductive outcome (A : Type) : Type :=
| Done (a : A)
| Failed (c : crash).

Arguments Done {A} a.
Arguments Failed {A} c.

Section Run.

Context (E : Extern) {Image : Type}.

(** The recording directory, by the stem [num] of a file name:
    [dir_path + num + ".txt"], [dir_path + "semantic/" + num + ".png"] and
    [dir_path + num + ".png"]. *)
Record recording : Type := {
  listdir : list string;
  exists_label : string -> bool;
  exists_semantic : string -> bool;
  imread : string -> option Image;
  imread_semantic : string -> option (list (list pixel));
  readlines : string -> list string
}.

(** The image [src] after [cv2.putText] and the calls of [cv2.rectangle]. *)
Record picture : Type := {
  base : Image;
  caption : string;
  boxes : list ((Z * Z) * (Z * Z))
}.

(** The counter [frame] and what the run has written so far: the lines of
    gt.txt, the images and the copies of the labels under [save_path], the
    pictures shown and the images under [debug_path]. *)
Record state : Type := {
  frame : Z;
  gt_txt : list string;
  gt_jpg : list (string * Image);
  gt_info : list (string * list string);
  shown : list picture;
  debug_jpg : list (string * picture)
}.

Definition jpg (n : Z) : string := (Str.format_06d n ++ ".jpg")%string.

Definition info_txt (n : Z) : string :=
  ("info/" ++ Str.format_06d n ++ ".txt")%string.

(** The body of the loop of line 196 for one entry of the listing. *)
Definition body (a : args) (r : recording) (img_path : string) (st : state)
  : outcome state :=
  let tmp := Str.split_on "."%char img_path in
  if (length tmp =? 1)%nat || String.eqb (nth 1 tmp EmptyString) "txt" then Done st
  else
    let num := nth 0 tmp EmptyString in
    if negb (exists_label r num) then Done st
    else if negb (exists_semantic r num) then Done st
    else
      match imread r num with
      | None => Done st
      | Some src =>
          let semantic := imread_semantic r num in
          let label := readlines r num in
          let saved_jpg :=
            if save a then gt_jpg st ++ [(jpg (frame st), src)] else gt_jpg st in
          let saved_info :=
            if save a then gt_info st ++ [(info_txt (frame st), label)]
            else gt_info st in
          let text := str (frame st) in
          match semantic with
          | None =>
              match parse_label E label with
              | Ok _ => Failed AttributeError
              | Raise e => Failed (Uncaught e)
              end
          | Some semantic =>
              match process_frame E (save a) (frame st) semantic label with
              | Raise e => Failed (Uncaught e)
              | Ok fs =>
                  let src :=
                    {| base := src; caption := text; boxes := drawn fs |} in
                  Done {| frame := frame st + 1;
                          gt_txt := gt_txt st ++ gt_lines fs;
                          gt_jpg := saved_jpg;
                          gt_info := saved_info;
                          shown :=
                            if show a then shown st ++ [src] else shown st;
                          debug_jpg :=
                            if debug a
                            then debug_jpg st ++ [(jpg (frame st + 1), src)]
                            else debug_jpg st |}
              end
          end
      end.

Fixpoint loop (a : args) (r : recording) (file_list : list string) (st : state)
  : outcome state :=
  match file_list with
  | [] => Done st
  | img_path :: rest =>
      match body a r img_path st with
      | Done st' => loop a r rest st'
      | Failed c => Failed c
      end
  end.

Definition main (a : args) (r : recording) : outcome state :=
  loop a r (Str.sort (listdir r))
    {| frame := 0; gt_txt := []; gt_jpg := []; gt_info := [];
       shown := []; debug_jpg := [] |}.

End Run.

End make_bb.

(** ** Reading and writing gt.txt in cleansing.py

    The cleanser reads the file gt.txt that make_bb.py wrote, groups its
    lines by frame number, shows the groups one by one over the image of
    their frame, and writes them to new_gt.txt.  Here are the reader,
    [draw_bb], the choice of the image and the writer, on labels as values;
    the loop that reacts to the keys follows in [editor].  A label is a
    line of gt.txt cut at its commas: a list of strings. *)

Module cleansing.

Section Cleansing.

Context (E : Extern).

(** [draw_bb], lines 26-29: the rectangles passed to [cv2.rectangle]. *)
Definition rectangle (label : list string) : result ((Z * Z) * (Z * Z)) :=
  tx ← getitem label 2; x ← py_int E tx;
  ty ← getitem label 3; y ← py_int E ty;
  tw ← getitem label 4; w ← py_int E tw;
  th ← getitem label 5; h ← py_int E th;
  Ok ((x, y), (x + w, y + h)).

Definition draw_bb (gt : list (list string)) : result (list ((Z * Z) * (Z * Z))) :=
  mapM rectangle gt.

(** The state of the loop of lines 43-54. *)
Record reader : Type := {
  new_gt : list (list (list string));
  frame : Z;
  start_frame_idx : Z
}.

(** Lines 48-54, for one line of the file. *)
Definition read_line (start : Z) (line : string) (st : reader) : result reader :=
  let obj := Str.split_on ","%char line in
  tok ← getitem obj 0;
  n ← py_int E tok;
  st ← (if negb (n =? frame st) then
          tok ← getitem obj 0;
          n ← py_int E tok;
          let new_gt := new_gt st ++ [[]] in
          Ok {| new_gt := new_gt;
                frame := n;
                start_frame_idx :=
                  if n =? start then Z.of_nat (length new_gt) - 1
                  else start_frame_idx st |}
        else Ok st);
  let last := Z.of_nat (length (new_gt st)) - 1 in
  group ← getitem (new_gt st) last;
  new_gt' ← setitem (new_gt st) last (group ++ [obj]);
  Ok {| new_gt := new_gt';
        frame := frame st;
        start_frame_idx := start_frame_idx st |}.

(** The loop of lines 43-54 over the lines of the file.  [readline]
    returns the empty string at the end of the file. *)
Fixpoint read_lines (start : Z) (file : list string) (st : reader)
  : result reader :=
  match file with
  | [] => Ok st
  | line :: rest =>
      if String.eqb line EmptyString then Ok st
      else st' ← read_line start line st; read_lines start rest st'
  end.

Definition read_gt (start : Z) (file : list string) : result reader :=
  read_lines start file {| new_gt := []; frame := -1; start_frame_idx := 0 |}.

(** Lines 133-136: the components of a label, with a comma after each but
    the last; [i] counts the components written. *)
Fixpoint write_components (obj : list string) (i : nat) (len : nat) : string :=
  match obj with
  | [] => EmptyString
  | component :: rest =>
      (component ++ (if (i + 1 <? len)%nat then "," else EmptyString)
       ++ write_components rest (i + 1) len)%string
  end.

Definition write_label (obj : list string) : string :=
  write_components obj 0 (length obj).

(** Lines 130-136 and 141-147: the text of new_gt.txt. *)
Definition write_gt (new_gt : list (list (list string))) : string :=
  String.concat EmptyString
    (map (fun new_label => String.concat EmptyString (map write_label new_label))
       new_gt).

(** Lines 60-66: the frame number of the group at [cnt] and the image
    that is opened for it. *)
Definition frame_at (new_gt cache_new_gt : list (list (list string))) (cnt : Z)
  : result Z :=
  gt ← getitem new_gt cnt;
  cache_gt ← getitem cache_new_gt cnt;
  if negb (length gt =? 0)%nat then
    first ← getitem gt 0; tok ← getitem first 0; py_int E tok
  else
    first ← getitem cache_gt 0; tok ← getitem first 0; py_int E tok.

Definition image_at (new_gt cache_new_gt : list (list (list string))) (cnt : Z)
  : result string :=
  n ← frame_at new_gt cache_new_gt cnt;
  Ok (Str.format_06d n ++ ".jpg")%string.

(** Line 58. *)
Definition new_cache (new_gt : list (list (list string)))
  : list (list (list string)) :=
  replicate (length new_gt) [].

End Cleansing.

End cleansing.

(** ** The loop over the keys of cleansing.py (lines 56-148)

    The labels are Python lists, shared between the list [gt] of a frame
    and its list [cache_gt] of deleted labels and changed in place by the
    keys that move a box: they live in a heap, and the groups hold their
    addresses.  The keys pressed are the input; [cv2.imread] is a parameter
    and the images are kept abstract.  The window shows the picture [src]
    whenever the script waits for a key. *)

Module editor.

(** [ord(c)]. *)
Definition ord (c : ascii) : Z := Z.of_nat (nat_of_ascii c).

(** [a == b] on two labels: the same strings in the same order. *)
Fixpoint label_eqb (a b : list string) : bool :=
  match a, b with
  | [], [] => true
  | x :: a', y :: b' => String.eqb x y && label_eqb a' b'
  | _, _ => false
  end.

(** What [cv2.putText] and [cv2.rectangle] add to an image: the text, and
    the two corners and the colour of a rectangle. *)
Inductive stroke : Type :=
| PutText (text : string)
| Rectangle (r : (Z * Z) * (Z * Z)) (colour : Z * Z * Z).

Definition green : Z * Z * Z := (0, 255, 0).
Definition red : Z * Z * Z := (0, 0, 255).

Section Editor.

Context (E : Extern) {Image : Type} (imread : string -> option Image).

Record picture : Type := {
  base : Image;
  strokes : list stroke
}.

(** [org.copy()]. *)
Definition copy (org : Image) : picture := {| base := org; strokes := [] |}.

Definition rectangle (img : picture) (r : (Z * Z) * (Z * Z)) (colour : Z * Z * Z)
  : picture :=
  {| base := base img; strokes := strokes img ++ [Rectangle r colour] |}.

(** [draw_bb(img, gt, frame)], lines 24-29. *)
Definition draw_bb (img : picture) (gt : list (list string)) (frame : Z)
  : result picture :=
  rs ← cleansing.draw_bb E gt;
  Ok {| base := base img;
        strokes := strokes img ++ PutText (str frame)
                     :: map (fun r => Rectangle r green) rs |}.

(** What lives across the frames: the labels by address, the groups
    [new_gt] and [cache_new_gt] of addresses, the index [cnt] of the group
    shown, the flag [finish], the text of new_gt.txt if it was written and
    the lines printed. *)
Record session : Type := {
  heap : list (list string);
  new_gt : list (list nat);
  cache_new_gt : list (list nat);
  cnt : Z;
  finish : Z;
  new_gt_txt : option string;
  stdout : list string
}.

(** What is set when a frame is opened: its number, its image, the picture
    shown and the index [idx] of the box selected. *)
Record view : Type := {
  frame : Z;
  org : Image;
  src : picture;
  idx : Z
}.

(** The script waits for a key, has ended, or was ended by an exception. *)
Inductive outcome : Type :=
| Waiting (s : session) (v : view)
| Exited (s : session)
| Failed (c : crash).

Definition lift (m : result (session * view)) : outcome :=
  match m with
  | Ok (s, v) => Waiting s v
  | Raise e => Failed (Uncaught e)
  end.

(** The labels behind a list of addresses. *)
Definition labels (heap : list (list string)) (gt : list nat)
  : list (list string) :=
  map (fun a => heap !!! a) gt.

Definition with_cnt (s : session) (cnt : Z) : session :=
  {| heap := heap s; new_gt := new_gt s; cache_new_gt := cache_new_gt s;
     cnt := cnt; finish := finish s; new_gt_txt := new_gt_txt s;
     stdout := stdout s |}.

Definition with_finish (s : session) (finish : Z) : session :=
  {| heap := heap s; new_gt := new_gt s; cache_new_gt := cache_new_gt s;
     cnt := cnt s; finish := finish; new_gt_txt := new_gt_txt s;
     stdout := stdout s |}.

Definition with_heap (s : session) (heap : list (list string)) : session :=
  {| heap := heap; new_gt := new_gt s; cache_new_gt := cache_new_gt s;
     cnt := cnt s; finish := finish s; new_gt_txt := new_gt_txt s;
     stdout := stdout s |}.

(** [gt] and [cache_gt] are the lists [new_gt[cnt]] and
    [cache_new_gt[cnt]] themselves: a change of them is a change at [cnt]. *)
Definition with_groups (s : session) (gt cache_gt : list nat) : session :=
  {| heap := heap s;
     new_gt := <[Z.to_nat (cnt s) := gt]> (new_gt s);
     cache_new_gt := <[Z.to_nat (cnt s) := cache_gt]> (cache_new_gt s);
     cnt := cnt s; finish := finish s; new_gt_txt := new_gt_txt s;
     stdout := stdout s |}.

(** Lines 130-137 and 141-147: new_gt.txt is opened for writing and takes
    the labels of [new_gt]. *)
Definition text (s : session) : string :=
  cleansing.write_gt (map (labels (heap s)) (new_gt s)).

Definition save (s : session) : session :=
  {| heap := heap s; new_gt := new_gt s; cache_new_gt := cache_new_gt s;
     cnt := cnt s; finish := finish s; new_gt_txt := Some (text s);
     stdout := stdout s |}.

Definition print (s : session) (line : string) : session :=
  {| heap := heap s; new_gt := new_gt s; cache_new_gt := cache_new_gt s;
     cnt := cnt s; finish := finish s; new_gt_txt := new_gt_txt s;
     stdout := stdout s ++ [line] |}.

(** Lines 59-70 and 140-147: the test of the outer loop; then either the
    frame at [cnt] is opened, or the loop is left and new_gt.txt written. *)
Definition open (s : session) : outcome :=
  if (0 <=? cnt s) && (cnt s <? Z.of_nat (length (new_gt s))) then
    match cleansing.frame_at E (map (labels (heap s)) (new_gt s))
            (map (labels (heap s)) (cache_new_gt s)) (cnt s) with
    | Raise e => Failed (Uncaught e)
    | Ok frame =>
        match imread (Str.format_06d frame ++ ".jpg")%string with
        | None => Failed AttributeError
        | Some org =>
            let gt := new_gt s !!! Z.to_nat (cnt s) in
            match draw_bb (copy org) (labels (heap s) gt) frame with
            | Raise e => Failed (Uncaught e)
            | Ok src =>
                Waiting s {| frame := frame; org := org; src := src; idx := -1 |}
            end
        end
    end
  else Exited (if finish s =? 0 then save s else s).

(** [gt.remove(x)]: the first label equal to [x] is taken out of the list;
    [ValueError] if there is none. *)
Fixpoint remove (heap : list (list string)) (x : list string) (gt : list nat)
  : result (list nat) :=
  match gt with
  | [] => Raise ValueError
  | a :: rest =>
      if label_eqb (heap !!! a) x then Ok rest
      else rest' ← remove heap x rest; Ok (a :: rest')
  end.

(** [cache_gt.pop()]. *)
Definition pop (cache_gt : list nat) : result (nat * list nat) :=
  match last cache_gt with
  | Some a => Ok (a, removelast cache_gt)
  | None => Raise IndexError
  end.

(** Lines 87-94, the space bar. *)
Definition select (s : session) (v : view) : result (session * view) :=
  let gt := new_gt s !!! Z.to_nat (cnt s) in
  src ← (if negb (idx v =? -1) then
           a ← getitem gt (idx v);
           r ← cleansing.rectangle E (heap s !!! a);
           Ok (rectangle (src v) r green)
         else Ok (src v));
  let idx := (idx v + 1) mod Z.of_nat (length gt) in
  a ← getitem gt idx;
  r ← cleansing.rectangle E (heap s !!! a);
  Ok (s, {| frame := frame v; org := org v;
            src := rectangle src r red; idx := idx |}).

(** Lines 97-100, the backspace key. *)
Definition delete (s : session) (v : view) : result (session * view) :=
  let gt := new_gt s !!! Z.to_nat (cnt s) in
  let cache_gt := cache_new_gt s !!! Z.to_nat (cnt s) in
  a ← getitem gt (idx v);
  let cache_gt := cache_gt ++ [a] in
  b ← getitem gt (idx v);
  gt ← remove (heap s) (heap s !!! b) gt;
  src ← draw_bb (copy (org v)) (labels (heap s) gt) (frame v);
  Ok (with_groups s gt cache_gt,
      {| frame := frame v; org := org v; src := src; idx := idx v |}).

(** Lines 103-105, 108-110, 113-115 and 118-120: the keys d, a, w and s
    add [delta] to the component [field] of the label selected. *)
Definition move (s : session) (v : view) (field delta : Z)
  : result (session * view) :=
  let gt := new_gt s !!! Z.to_nat (cnt s) in
  a ← getitem gt (idx v);
  tok ← getitem (heap s !!! a) field;
  n ← py_int E tok;
  a ← getitem gt (idx v);
  label ← setitem (heap s !!! a) field (str (n + delta));
  let s := with_heap s (<[a := label]> (heap s)) in
  src ← draw_bb (copy (org v)) (labels (heap s) gt) (frame v);
  Ok (s, {| frame := frame v; org := org v; src := src; idx := idx v |}).

(** Lines 123-127, Ctrl+Z. *)
Definition undo (s : session) (v : view) : result (session * view) :=
  let gt := new_gt s !!! Z.to_nat (cnt s) in
  let cache_gt := cache_new_gt s !!! Z.to_nat (cnt s) in
  '(label, cache_gt) ← pop cache_gt;
  let gt := gt ++ [label] in
  r ← cleansing.rectangle E (heap s !!! label);
  Ok (with_groups s gt cache_gt,
      {| frame := frame v; org := org v;
         src := rectangle (src v) r green; idx := idx v |}).

(** Lines 73-137: what one key does. *)
Definition press (s : session) (v : view) (key : Z) : outcome :=
  let gt := new_gt s !!! Z.to_nat (cnt s) in
  let cache_gt := cache_new_gt s !!! Z.to_nat (cnt s) in
  if key =? 0x270000 then open (with_cnt s (cnt s + 1))
  else if key =? 27 then Exited (with_finish s 1)
  else if key =? 0x250000 then open (with_cnt s (cnt s - 1))
  else if (key =? 32) && (0 <? Z.of_nat (length gt)) then lift (select s v)
  else if (key =? 8) && negb (idx v =? -1) && (0 <? Z.of_nat (length gt))
  then lift (delete s v)
  else if (key =? ord "d") && negb (idx v =? -1) then lift (move s v 2 2)
  else if (key =? ord "a") && negb (idx v =? -1) then lift (move s v 2 (-2))
  else if (key =? ord "w") && negb (idx v =? -1) then lift (move s v 3 (-2))
  else if (key =? ord "s") && negb (idx v =? -1) then lift (move s v 3 2)
  else if (key =? 26) && (0 <? Z.of_nat (length cache_gt)) then lift (undo s v)
  else if key =? 13 then Waiting (print (save s) "Saved") v
  else Waiting s v.

(** The keys in the order in which they are pressed; a key pressed after
    the script has ended is lost. *)
Fixpoint run (keys : list Z) (o : outcome) : outcome :=
  match keys with
  | [] => o
  | key :: rest =>
      match o with
      | Waiting s v => run rest (press s v key)
      | _ => o
      end
  end.

(** The labels that the reader made, each a list of its own, in the order
    of the file; a group holds the addresses of its labels. *)
Fixpoint addresses (groups : list (list (list string))) (next : nat)
  : list (list nat) :=
  match groups with
  | [] => []
  | group :: rest =>
      seq next (length group) :: addresses rest (next + length group)
  end.

(** Lines 56-58. *)
Definition start (rd : cleansing.reader) : session :=
  {| heap := concat (cleansing.new_gt rd);
     new_gt := addresses (cleansing.new_gt rd) 0;
     cache_new_gt := replicate (length (cleansing.new_gt rd)) [];
     cnt := cleansing.start_frame_idx rd;
     finish := 0;
     new_gt_txt := None;
     stdout := [] |}.

(** cleansing.py from line 39 on: gt.txt is read, then the keys are. *)
Definition main (start_arg : Z) (file : list string) (keys : list Z) : outcome :=
  match cleansing.read_gt E start_arg file with
  | Raise e => Failed (Uncaught e)
  | Ok rd => run keys (open (start rd))
  end.

End Editor.

End editor.

(** ** Examples for the main loop and for cleansing.py *)

Module Ex.

(** A pedestrian 64 units straight ahead of the camera of [Ref]: its
    corners are at depth 63.5 and 64.5. *)
Definition far_ahead : Walker.t :=
  Ref.walker 7 0.5 0.5 1 64 0 0 None 4096.

Definition log_far_ahead : list string :=
  Ref.header ++ [ Ref.ln "walker 7 0.5 0.5 1 0 0 0 64 0 0 0 0 0" ].

(** A raster of the size of the camera image with no pedestrian pixel. *)
Definition background : list (list pixel) :=
  Ref.raster 48 64 (fun _ _ => (0, 0, 0)).

(** A recording directory with two images, their labels and their semantic
    images, and two entries that are no images.  An image is named by its
    stem. *)
Definition stems : list string := ["3"; "7"]%string.

Definition known (num : string) : bool := existsb (String.eqb num) stems.

Definition recording : make_bb.recording (Image := string) :=
  {| make_bb.listdir :=
       ["semantic"; "7.txt"; "7.png"; "3.png"; "3.txt"; "notes"]%string;
     make_bb.exists_label := known;
     make_bb.exists_semantic := known;
     make_bb.imread := fun num => if known num then Some num else None;
     make_bb.imread_semantic :=
       fun num => if known num then Some Ref.all_pedestrian else None;
     make_bb.readlines :=
       fun num =>
         if String.eqb num "3" then Ref.log_ahead else Ref.log_two "5" |}.

Definition saving : make_bb.args :=
  {| make_bb.save := true; make_bb.show := false; make_bb.debug := true |}.

(** The file gt.txt that the run on [recording] writes. *)
Definition gt_txt : list string :=
  [ Ref.ln "1,7,21,2,22,44,1,1,1"; Ref.ln "2,5,21,2,22,44,1,1,1" ].

(** A file gt.txt with two lines for the frame 1, one for the frame 2, and
    one for the frame 1 again. *)
Definition gt_mixed : list string :=
  [ Ref.ln "1,7,21,2,22,44,1,1,1"; Ref.ln "1,8,0,0,18,36,1,1,1";
    Ref.ln "2,5,21,2,22,44,1,1,1"; Ref.ln "1,9,5,5,20,40,1,1,1" ].

(** A directory gt/ in which every image asked for is read; an image is
    named by its file. *)
Definition photo (name : string) : option string := Some name.

(** A file gt.txt with the same line twice. *)
Definition gt_twice : list string :=
  [ Ref.ln "1,7,21,2,22,44,1,1,1"; Ref.ln "1,7,21,2,22,44,1,1,1" ].

End Ex.

(** ** The vocabulary of the further statements *)

(** A float that is a number with its sign bit clear, or nan. *)
Definition sf_nonneg (s : spec_float) : Prop :=
  match s with
  | S754_nan => True
  | S754_zero b | S754_infinity b | S754_finite b _ _ => b = false
  end.

(** A token that [float] accepts. *)
Definition is_float (E : Extern) (tok : string) : Prop :=
  exists x, py_float E tok = Ok x.

(** [int] reads back what [str] wrote. *)
Definition int_reads_str (E : Extern) : Prop :=
  forall n : Z, py_int E (str n) = Ok n.

(** The walkers at distance [d], in the order of the list. *)
Definition at_distance (d : float) (walkers : list Walker.t) : list Walker.t :=
  List.filter (fun a => (Walker.dist a =? d)%float) walkers.

(** The number of pixels of a rectangle that lie inside an image of [h]
    rows and [w] columns. *)
Definition inside (h w : Z) (bb : (Z * Z) * (Z * Z)) : Z :=
  Z.max 0 (Z.min (bb.2.1 + 1) w - bb.1.1)
  * Z.max 0 (Z.min (bb.2.2 + 1) h - bb.1.2).

(** A pixel of the pedestrian colour in the semantic raster, and the number
    of them in the clamped rectangle. *)
Definition pedestrian (semantic : list (list pixel)) (yx : nat * nat) : bool :=
  match cell semantic yx.1 yx.2 with
  | Some p => is_pedestrian p
  | None => false
  end.

Definition pedestrian_pixels (semantic : list (list pixel)) (h w : Z)
  (bb : (Z * Z) * (Z * Z)) : Z :=
  Z.of_nat (length (List.filter (pedestrian semantic) (clamped_pixels h w bb))).



(** A cell of the buffer holds the mark -1, or the id of a walker whose
    clamped rectangle contains the cell; in the second case the pixel is
    pedestrian in the semantic raster. *)
Definition sound_buffer (semantic : list (list pixel)) (walkers : list Walker.t)
  (inst : list (list Z)) : Prop :=
  forall (y x : nat) (v : Z),
    cell inst y x = Some v ->
    v = -1
    \/ (cell semantic y x = Some (60, 20, 220)
        /\ exists a bb,
            a ∈ walkers /\ Walker.id a = v /\ Walker.bb2d a = Some bb
            /\ (y, x) ∈ clamped_pixels (shape0 semantic) (shape1 semantic) bb).

(** The stem under which the loop processes an entry of the listing, if it
    does: the entry has a dot, its second component is not [txt], the label
    and the semantic image of the stem exist, and the image is read. *)
Definition stem {Image : Type} (r : make_bb.recording (Image := Image))
  (img_path : string) : option string :=
  let tmp := Str.split_on "."%char img_path in
  if (length tmp =? 1)%nat || String.eqb (nth 1 tmp EmptyString) "txt" then None
  else
    let num := nth 0 tmp EmptyString in
    if make_bb.exists_label r num && make_bb.exists_semantic r num
    then match make_bb.imread r num with
         | Some _ => Some num
         | None => None
         end
    else None.

Definition processed {Image : Type} (r : make_bb.recording (Image := Image))
  : list string :=
  omap (stem r) (Str.sort (make_bb.listdir r)).

(** The picture of the [k]-th of the entries processed, each given with its
    stem, its image and the result of its frame; [n0] is the counter before
    the first of them. *)
Definition picture_of {Image : Type} (n0 : Z) (k : nat)
  (e : string * Image * frame_state) : make_bb.picture (Image := Image) :=
  {| make_bb.base := e.1.2;
     make_bb.caption := str (n0 + Z.of_nat k);
     make_bb.boxes := drawn e.2 |}.

(** [sep.join(l)]: what the loops of the writer produce for one label. *)
Fixpoint join (sep : string) (l : list string) : string :=
  match l with
  | [] => EmptyString
  | [x] => x
  | x :: r => (x ++ sep ++ join sep r)%string
  end.

(** The characters of a string are all different from [c]. *)
Fixpoint free_of (c : ascii) (s : string) : Prop :=
  match s with
  | EmptyString => True
  | String a r => a <> c /\ free_of c r
  end.

Definition nonempty {A : Type} (l : list A) : bool :=
  match l with
  | [] => false
  | _ :: _ => true
  end.

(** The frame number of a label: [int(obj[0])]. *)
Definition label_frame (E : Extern) (obj : list string) : result Z :=
  tok ← getitem obj 0; py_int E tok.

(** The groups of the reader against the list [ns] of their frame numbers:
    every group is a non-empty run of labels with one frame number, two
    groups in a row have different numbers, and [idx] is the place of the
    last group with the number [start], or 0 if there is none. *)
Definition uniform (E : Extern) (n : Z) (group : list (list string)) : Prop :=
  group <> [] /\ Forall (fun obj => label_frame E obj = Ok n) group.

Definition runs (ns : list Z) : Prop :=
  forall (i : nat) (n m : Z), ns !! i = Some n -> ns !! S i = Some m -> n <> m.

Definition last_index (start : Z) (ns : list Z) (idx : Z) : Prop :=
  (exists i : nat,
      idx = Z.of_nat i /\ ns !! i = Some start
      /\ forall j : nat, (i < j)%nat -> ns !! j <> Some start)
  \/ ((start ∉ ns) /\ idx = 0).

Definition grouped (E : Extern) (start : Z) (ns : list Z)
  (st : cleansing.reader) : Prop :=
  Forall2 (uniform E) ns (cleansing.new_gt st)
  /\ runs ns
  /\ (ns <> [] -> last ns = Some (cleansing.frame st))
  /\ last_index start ns (cleansing.start_frame_idx st).

(** *** The sessions of the editor *)

(** A session over groups with the frame numbers [ns]: no key has ended it,
    there is a list of labels and a list of deleted labels for each group,
    not both empty, and all their labels carry the number of the group. *)
Definition tidy (E : Extern) (ns : list Z) (s : editor.session) : Prop :=
  length (editor.new_gt s) = length ns
  /\ length (editor.cache_new_gt s) = length ns
  /\ editor.finish s = 0
  /\ forall (i : nat) (n : Z) (gt cache_gt : list nat),
      ns !! i = Some n ->
      editor.new_gt s !! i = Some gt ->
      editor.cache_new_gt s !! i = Some cache_gt ->
      gt ++ cache_gt <> []
      /\ Forall (fun a => label_frame E (editor.heap s !!! a) = Ok n)
           (gt ++ cache_gt).

(** The frame on view is the one at [cnt]; its image is the one read under
    its number. *)
Definition on_view {Image : Type} (imread : string -> option Image)
  (ns : list Z) (s : editor.session) (v : editor.view) : Prop :=
  (exists i : nat, editor.cnt s = Z.of_nat i /\ ns !! i = Some (editor.frame v))
  /\ imread (make_bb.jpg (editor.frame v)) = Some (editor.org v)
  /\ -1 <= editor.idx v.

(** The list [gt] of the frame on view and its labels. *)
Definition gt_of (s : editor.session) : list nat :=
  editor.new_gt s !!! Z.to_nat (editor.cnt s).

Definition cache_gt_of (s : editor.session) : list nat :=
  editor.cache_new_gt s !!! Z.to_nat (editor.cnt s).

Definition labels_of (s : editor.session) : list (list string) :=
  editor.labels (editor.heap s) (gt_of s).

(** The keys d, a, w and s: the component that the key changes and what
    it adds to it. *)
Definition move_of (key : Z) : option (Z * Z) :=
  if key =? editor.ord "d" then Some (2, 2)
  else if key =? editor.ord "a" then Some (2, -2)
  else if key =? editor.ord "w" then Some (3, -2)
  else if key =? editor.ord "s" then Some (3, 2)
  else None.

(** A key that changes no label and no list of labels: not the backspace
    key, not Ctrl+Z, none of d, a, w and s. *)
Definition browses (key : Z) : Prop :=
  key <> 8 /\ key <> 26 /\ move_of key = None.

(** The labels of every group of gt.txt have different ids (component 1). *)
Definition distinct_ids (groups : list (list (list string))) : Prop :=
  Forall (fun group => NoDup (map (fun obj : list string => obj !! 1%nat) group))
    groups.

(** The session holds the labels that the reader made: the heap has their
    number, a label has the length that it had and, but for the components
    2 and 3, the components that it had, and the list of a group and the
    list of its deleted labels hold together the addresses of the labels of
    the group, each once. *)
Definition kept (rd : cleansing.reader) (s : editor.session) : Prop :=
  let heap := concat (cleansing.new_gt rd) in
  length (editor.heap s) = length heap
  /\ (forall a : nat,
        length (editor.heap s !!! a) = length (heap !!! a)
        /\ forall k : nat,
            k <> 2%nat -> k <> 3%nat ->
            (editor.heap s !!! a) !! k = (heap !!! a) !! k)
  /\ forall (i : nat) (group : list nat),
      editor.addresses (cleansing.new_gt rd) 0 !! i = Some group ->
      Permutation (editor.new_gt s !!! i ++ editor.cache_new_gt s !!! i) group.

(** [cv2.imread] in a directory that holds the images [files], written in
    this order, and nothing else: the image last written under the name. *)
Fixpoint imread_from {Image : Type} (files : list (string * Image))
  (name : string) : option Image :=
  match files with
  | [] => None
  | (n, image) :: rest =>
      match imread_from rest name with
      | Some later => Some later
      | None => if String.eqb n name then Some image else None
      end
  end.

(** * Properties *)

(** ** IEEE comparisons and [int] *)

Section FloatFacts.

Local Open Scope float_scope.

Lemma Prim2SF_zero : Prim2SF 0 = S754_zero false.
Proof. vm_compute. reflexivity. Qed.

(** A depth that is [<= 0] is below 60. *)
Lemma leb_zero_below_60 (d : float) : (d <=? 0) = true -> (d <? 60) = true.
Proof.
  rewrite leb_spec, ltb_spec, Prim2SF_zero.
  set (c := Prim2SF 60). vm_compute in c. subst c.
  destruct (Prim2SF d) as [[]|[]| |[] m e];
    unfold SFleb, SFltb, SFcompare; congruence.
Qed.

(** A negative coordinate fails the test [>= 0]. *)
Lemma ltb_zero_not_nonneg (u : float) : (u <? 0) = true -> (0 <=? u) = false.
Proof.
  rewrite leb_spec, ltb_spec, Prim2SF_zero.
  destruct (Prim2SF u) as [[]|[]| |[] m e];
    unfold SFleb, SFltb, SFcompare; congruence.
Qed.

End FloatFacts.

(** ** The depth test of [get_bounding_box] *)

(** The test of line 90 asks for a corner that is not in front of the camera
    and, also, for a corner at depth 60 or more: a box whose corners are all
    at depth [<= 0] passes it. *)
Lemma depth_test_all_behind (bb : list np.vec3) :
  Forall (fun p => (corner_depth p <=? 0)%float = true) bb ->
  depth_test bb = false.
Proof.
  intros H. unfold depth_test.
  assert (Hall : forallb (fun p => (corner_depth p <? 60)%float) bb = true).
  { apply forallb_forall. intros p Hp.
    rewrite Forall_forall in H.
    apply leb_zero_below_60, H. now apply list_elem_of_In. }
  rewrite Hall. apply andb_false_r.
Qed.

(** C1, at a failing input: a pedestrian 2 units straight behind the
    camera.  All 8 corner depths are negative, yet [get_bounding_box] returns
    the projected corners, and [get_2d_bounding_box] the rectangle of the
    mirror image, the same rectangle as for the pedestrian 2 units ahead. *)
Theorem behind_camera_not_rejected :
  parse_label Ref.extern Ref.log_behind = Ok [Ref.behind]
  /\ (exists bb,
        get_bounding_box Ref.extern Ref.behind = Ok (Some bb)
        /\ Forall (fun p => (corner_depth p <? 0)%float = true) bb)
  /\ get_2d_bounding_box Ref.extern Ref.behind
     = Ok (Some ((21, 2), (42, 45)))
  /\ get_2d_bounding_box Ref.extern Ref.ahead
     = Ok (Some ((21, 2), (42, 45))).
Proof.
  split; [vm_compute; reflexivity|].
  split; [|split; vm_compute; reflexivity].
  eexists. split; [vm_compute; reflexivity|].
  repeat constructor.
Qed.

(** ** Sequencing *)

Lemma bind_Ok {A B : Type} (m : result A) (k : A -> result B) (b : B) :
  m ≫= k = Ok b -> exists a, m = Ok a /\ k a = Ok b.
Proof. destruct m as [a|e]; cbn; [eauto|discriminate]. Qed.

Ltac inv_bind :=
  repeat match goal with
    | H : _ ≫= _ = Ok _ |- _ =>
        let a := fresh "a" in
        let Ha := fresh "Ha" in
        apply bind_Ok in H as (a & Ha & H)
    | H : Ok _ = Ok _ |- _ => injection H as H
    | H : Raise _ = Ok _ |- _ => discriminate H
    end.

(** ** [int] of a float *)

Lemma int_of_float_nonneg (x : float) (n : Z) :
  (0 <=? x)%float = true -> int_of_float x = Ok n -> 0 <= n.
Proof.
  rewrite leb_spec, Prim2SF_zero. unfold int_of_float.
  destruct (Prim2SF x) as [[]|[]| |[] m e];
    unfold SFleb, SFcompare; try discriminate; intros _ [= <-]; try lia.
  apply Z.shiftl_nonneg. lia.
Qed.

(** On a coordinate that passed the test [>= 0], [int] fails exactly on
    [+inf], with [OverflowError]. *)
Lemma int_of_float_raises (x : float) (e : exn) :
  (0 <=? x)%float = true ->
  int_of_float x = Raise e <-> (x = infinity /\ e = OverflowError).
Proof.
  intros Hx. split.
  - revert Hx. rewrite leb_spec, Prim2SF_zero. unfold int_of_float.
    destruct (Prim2SF x) as [[]|[]| |[] m e'] eqn:Hsf;
      unfold SFleb, SFcompare; try discriminate.
    intros _ [= <-]. split; [|reflexivity].
    apply Prim2SF_inj. rewrite Hsf. vm_compute. reflexivity.
  - intros [-> ->]. vm_compute. reflexivity.
Qed.

(** ** The rectangle of [get_2d_bounding_box] *)

Lemma corner_points_length_le (bb : list np.vec3) (points : list (Z * Z)) :
  corner_points bb = Ok points -> (length points <= length bb)%nat.
Proof.
  revert points. induction bb as [|p r IH]; intros points H; cbn in H.
  - injection H as <-. cbn. lia.
  - destruct (_ && _).
    + inv_bind. subst points. cbn. apply IH in Ha1. lia.
    + apply IH in H. cbn. lia.
Qed.

(** No corner was dropped exactly when every corner passed the test; the
    points are then the truncated coordinates, corner by corner. *)
Lemma corner_points_all (bb : list np.vec3) (points : list (Z * Z)) :
  corner_points bb = Ok points ->
  length points = length bb ->
  Forall2 (fun p pt =>
             (0 <=? corner_u p)%float = true
             /\ (0 <=? corner_v p)%float = true
             /\ int_of_float (corner_u p) = Ok pt.1
             /\ int_of_float (corner_v p) = Ok pt.2) bb points.
Proof.
  revert points. induction bb as [|p r IH]; intros points H Hlen; cbn in H.
  - injection H as <-. constructor.
  - destruct (_ && _) eqn:Htest.
    + inv_bind. subst points. cbn in Hlen.
      apply andb_true_iff in Htest as [Hu Hv].
      constructor; [cbn; auto|]. apply IH; [assumption|lia].
    + apply corner_points_length_le in H. cbn in Hlen. lia.
Qed.

Lemma corner_points_dropped (bb : list np.vec3) (points : list (Z * Z)) (p : np.vec3) :
  corner_points bb = Ok points ->
  p ∈ bb ->
  ((0 <=? corner_u p)%float = false \/ (0 <=? corner_v p)%float = false) ->
  (length points < length bb)%nat.
Proof.
  revert points. induction bb as [|q r IH]; intros points H Hin Hneg.
  - inversion Hin.
  - cbn in H. destruct (_ && _) eqn:Htest.
    + inv_bind. subst points. cbn.
      apply elem_of_cons in Hin as [->|Hin].
      * apply andb_true_iff in Htest as [Hu Hv].
        destruct Hneg; congruence.
      * specialize (IH _ Ha1 Hin Hneg). lia.
    + apply corner_points_length_le in H. cbn. lia.
Qed.

Lemma extend_rect_fold (points : list (Z * Z)) (a b c d a' b' c' d' : Z) :
  fold_left extend_rect points (a, b, c, d) = (a', b', c', d') ->
  (a' <= a /\ b' <= b /\ c <= c' /\ d <= d')
  /\ Forall (fun pt => a' <= pt.1 <= c' /\ b' <= pt.2 <= d') points
  /\ (0 <= a -> 0 <= b -> Forall (fun pt => 0 <= pt.1 /\ 0 <= pt.2) points ->
      0 <= a' /\ 0 <= b').
Proof.
  revert a b c d. induction points as [|pt r IH]; intros a b c d H; cbn in H.
  - injection H as <- <- <- <-. repeat split; try lia. constructor.
  - apply IH in H as (Hmono & Hall & Hnn).
    repeat destruct (_ <? _) eqn:? in Hmono, Hall, Hnn;
      repeat match goal with H : (_ <? _) = _ |- _ => apply Z.ltb_lt in H || apply Z.ltb_ge in H end;
      (split; [lia|]); (split; [constructor; [lia|assumption]|]);
      intros Ha Hb Hf; inversion Hf; subst; apply Hnn; try lia; assumption.
Qed.

(** What every rectangle returned by [rect_of_points] satisfies. *)
Lemma rect_of_points_Some (points : list (Z * Z)) (minx miny maxx maxy : Z) :
  rect_of_points points = Some ((minx, miny), (maxx, maxy)) ->
  17 <= maxx - minx /\ 35 <= maxy - miny
  /\ Forall (fun pt => minx <= pt.1 <= maxx /\ miny <= pt.2 <= maxy) points
  /\ (Forall (fun pt => 0 <= pt.1 /\ 0 <= pt.2) points -> 0 <= minx /\ 0 <= miny).
Proof.
  unfold rect_of_points.
  destruct (fold_left _ _ _) as [[[a b] c] d] eqn:Hfold.
  destruct (_ || _) eqn:Hsize; [discriminate|]. intros [= <- <- <- <-].
  apply orb_false_iff in Hsize as [H1 H2].
  apply Z.ltb_ge in H1, H2.
  apply extend_rect_fold in Hfold as (_ & Hall & Hnn).
  repeat split; try assumption; apply Hnn; auto; lia.
Qed.

Section Projection.

Context (E : Extern).

Lemma get_bounding_box_Ok (self : Walker.t) (r : option (list np.vec3)) :
  get_bounding_box E self = Ok r ->
  exists cords,
    walker_to_sensor E self (create_bb_points self) = Ok cords
    /\ length cords = 8%nat
    /\ let bb := map (project_corner (Camera.calibration (Walker.cam self))) cords in
       r = if depth_test bb then None else Some bb.
Proof.
  unfold get_bounding_box, walker_to_sensor, world_to_sensor.
  destruct (np_linalg_inv E _) as [m|e] eqn:Hinv;
    cbn [mbind result_bind Py.bind]; [|discriminate].
  intros H. eexists. split; [reflexivity|]. split.
  - unfold walker_to_world. now rewrite !length_map.
  - cbv zeta. destruct (depth_test _); congruence.
Qed.

Lemma get_bounding_box_length (self : Walker.t) (bb : list np.vec3) :
  get_bounding_box E self = Ok (Some bb) -> length bb = 8%nat.
Proof.
  intros H. apply get_bounding_box_Ok in H as (cords & _ & Hlen & H).
  cbn in H. destruct (depth_test _); [discriminate|].
  injection H as ->. now rewrite length_map.
Qed.

(** [get_bounding_box] raises exactly when the inversion of the camera pose
    does. *)
Lemma get_bounding_box_Raise (self : Walker.t) (e : exn) :
  get_bounding_box E self = Raise e <->
  np_linalg_inv E (get_matrix E (Camera.rotation (Walker.cam self))
                                (Camera.location (Walker.cam self))) = Raise e.
Proof.
  unfold get_bounding_box, walker_to_sensor, world_to_sensor.
  destruct (np_linalg_inv E _) as [m|e']; cbn [mbind result_bind Py.bind].
  - cbv zeta. destruct (depth_test _); split; discriminate.
  - split; intros [= ->]; reflexivity.
Qed.

Lemma get_2d_bounding_box_Some (self : Walker.t) (rect : (Z * Z) * (Z * Z)) :
  get_2d_bounding_box E self = Ok (Some rect) ->
  exists bb points,
    get_bounding_box E self = Ok (Some bb)
    /\ corner_points bb = Ok points
    /\ length points = 8%nat
    /\ rect_of_points points = Some rect.
Proof.
  unfold get_2d_bounding_box. intros H. inv_bind.
  destruct a as [bb|]; [|inv_bind; discriminate]. inv_bind.
  destruct (length a =? 8)%nat eqn:Hlen; cbn in H; [|discriminate].
  injection H as H. apply Nat.eqb_eq in Hlen. eauto 6.
Qed.

(** Every rectangle the projection returns lies in the non-negative
    quadrant and is at least 18 pixels wide and 36 pixels high, borders
    included. *)
Lemma get_2d_bounding_box_wf (self : Walker.t) (minx miny maxx maxy : Z) :
  get_2d_bounding_box E self = Ok (Some ((minx, miny), (maxx, maxy))) ->
  0 <= minx /\ 0 <= miny /\ 17 <= maxx - minx /\ 35 <= maxy - miny.
Proof.
  intros H. apply get_2d_bounding_box_Some in H as (bb & points & Hbb & Hpts & Hlen & Hrect).
  apply get_bounding_box_length in Hbb.
  apply corner_points_all in Hpts; [|congruence].
  apply rect_of_points_Some in Hrect as (Hw & Hh & _ & Hnn).
  destruct Hnn as [Hx Hy]; [|auto].
  clear -Hpts.
  induction Hpts as [|p pt bb points (Hu & Hv & Hpx & Hpy) _ IH];
    [constructor|].
  constructor; [|assumption].
  split; [exact (int_of_float_nonneg _ _ Hu Hpx)|exact (int_of_float_nonneg _ _ Hv Hpy)].
Qed.

Lemma Walker_init_Ok (id : string) (info : list string) (cam : Camera.t)
  (w : Walker.t) :
  Walker_init E id info cam = Ok w ->
  exists self,
    get_2d_bounding_box E self = Ok (Walker.bb2d w)
    /\ Walker.dist w = get_distance self
    /\ Walker.id self = Walker.id w
    /\ Walker.location self = Walker.location w
    /\ Walker.cam self = cam /\ Walker.cam w = cam.
Proof.
  unfold Walker_init. intros H. inv_bind. subst w. cbn.
  eexists. split; [eassumption|]. cbn. auto.
Qed.

End Projection.

(** ** Corners with a negative pixel coordinate *)

Lemma ltb_zero_leb (u : float) : (0 <? u)%float = true -> (0 <=? u)%float = true.
Proof.
  rewrite leb_spec, ltb_spec, Prim2SF_zero.
  destruct (Prim2SF u) as [[]|[]| |[] m e];
    unfold SFleb, SFltb, SFcompare; congruence.
Qed.

Lemma corner_points_keeps_all (bb : list np.vec3) (points : list (Z * Z)) :
  Forall (fun p => (0 <=? corner_u p)%float = true
                   /\ (0 <=? corner_v p)%float = true) bb ->
  corner_points bb = Ok points ->
  length points = length bb.
Proof.
  intros Hall. revert points.
  induction Hall as [|p r [Hu Hv] _ IH]; intros points H; cbn in H.
  - now injection H as <-.
  - rewrite Hu, Hv in H. cbn in H. inv_bind. subst points. cbn.
    f_equal. now apply IH.
Qed.

(** [int] raises in the comprehension of line 100 exactly on a corner that
    passes the test [>= 0] with an infinite coordinate. *)
Lemma corner_points_Raise (bb : list np.vec3) (e : exn) :
  corner_points bb = Raise e <->
  e = OverflowError
  /\ exists p,
      p ∈ bb
      /\ (0 <=? corner_u p)%float = true
      /\ (0 <=? corner_v p)%float = true
      /\ (corner_u p = infinity \/ corner_v p = infinity).
Proof.
  induction bb as [|q r IH]; cbn.
  - split; [discriminate|]. intros (_ & p & Hp & _). inversion Hp.
  - destruct (0 <=? corner_u q)%float eqn:Hu;
      [destruct (0 <=? corner_v q)%float eqn:Hv|]; cbn [andb].
    + destruct (int_of_float (corner_u q)) as [px|e1] eqn:Hpx;
        cbn [mbind result_bind Py.bind].
      2:{ apply int_of_float_raises in Hpx as [Hinf ->]; [|assumption].
          split.
          - intros [= <-]. split; [reflexivity|].
            exists q. repeat split; auto. now left.
          - intros [-> _]. reflexivity. }
      destruct (int_of_float (corner_v q)) as [py|e2] eqn:Hpy;
        cbn [mbind result_bind Py.bind].
      2:{ apply int_of_float_raises in Hpy as [Hinf ->]; [|assumption].
          split.
          - intros [= <-]. split; [reflexivity|].
            exists q. repeat split; auto. now left.
          - intros [-> _]. reflexivity. }
      destruct (corner_points r) as [ps|e3]; cbn [mbind result_bind Py.bind].
      * split; [discriminate|].
        intros (-> & p & Hp & Hpu & Hpv & Hinf).
        apply elem_of_cons in Hp as [->|Hp].
        -- destruct Hinf as [Hinf|Hinf]; rewrite Hinf in *; discriminate.
        -- assert (@Ok (list (Z * Z)) ps = Raise OverflowError); [|discriminate].
           apply IH. split; [reflexivity|]. eauto 6.
      * split.
        -- intros [= <-]. destruct (proj1 IH eq_refl) as (-> & p & Hp & Hrest).
           split; [reflexivity|]. exists p. split; [now right|assumption].
        -- intros (-> & p & Hp & Hpu & Hpv & Hinf).
           apply elem_of_cons in Hp as [->|Hp].
           ++ destruct Hinf as [Hinf|Hinf]; rewrite Hinf in *; discriminate.
           ++ f_equal. symmetry.
              assert (Raise e3 = @Raise (list (Z * Z)) OverflowError) as [= ->];
                [|reflexivity].
              apply IH. split; [reflexivity|]. eauto 6.
    + rewrite IH. split.
      * intros (-> & p & Hp & Hrest). split; [reflexivity|].
        exists p. split; [now right|assumption].
      * intros (-> & p & Hp & Hpu & Hpv & Hinf). split; [reflexivity|].
        apply elem_of_cons in Hp as [->|Hp]; [congruence|]. eauto 6.
    + rewrite IH. split.
      * intros (-> & p & Hp & Hrest). split; [reflexivity|].
        exists p. split; [now right|assumption].
      * intros (-> & p & Hp & Hpu & Hpv & Hinf). split; [reflexivity|].
        apply elem_of_cons in Hp as [->|Hp]; [congruence|]. eauto 6.
Qed.

(** C4, as the code has it.  Let the depth test return the 8 projected
    corners [bb].  Then
    (1) a rectangle is returned only if every corner has [u >= 0] and
    [v >= 0], and the rectangle encloses the truncated pixel of every one of
    the 8 corners: none is left out and the box is not cut;
    (2) if some corner has [u < 0] or [v < 0], no rectangle is returned: the
    box is discarded ([None]) unless some corner has both coordinates
    [>= 0] and one of them infinite; on such a corner [int] raises
    [OverflowError], which nothing catches;
    (3) corners whose coordinates are 0 or positive all pass: when [int]
    succeeds on them, the result is [rect_of_points] of all 8 points. *)
Theorem rectangle_only_if_all_corners_nonneg
  (E : Extern) (self : Walker.t) (bb : list np.vec3) :
  get_bounding_box E self = Ok (Some bb) ->
  (forall minx miny maxx maxy,
      get_2d_bounding_box E self = Ok (Some ((minx, miny), (maxx, maxy))) ->
      length bb = 8%nat
      /\ Forall (fun p =>
                   (0 <=? corner_u p)%float = true
                   /\ (0 <=? corner_v p)%float = true
                   /\ exists px py,
                       int_of_float (corner_u p) = Ok px
                       /\ int_of_float (corner_v p) = Ok py
                       /\ minx <= px <= maxx /\ miny <= py <= maxy) bb)
  /\ (forall p,
        p ∈ bb ->
        (corner_u p <? 0)%float = true \/ (corner_v p <? 0)%float = true ->
        (forall rect, get_2d_bounding_box E self <> Ok (Some rect))
        /\ (get_2d_bounding_box E self = Ok None
            \/ get_2d_bounding_box E self = Raise OverflowError)
        /\ (get_2d_bounding_box E self = Raise OverflowError <->
            exists q,
              q ∈ bb
              /\ (0 <=? corner_u q)%float = true
              /\ (0 <=? corner_v q)%float = true
              /\ (corner_u q = infinity \/ corner_v q = infinity)))
  /\ (forall points,
        Forall (fun p =>
                  (corner_u p = 0%float \/ (0 <? corner_u p)%float = true)
                  /\ (corner_v p = 0%float \/ (0 <? corner_v p)%float = true)) bb ->
        corner_points bb = Ok points ->
        length points = 8%nat
        /\ get_2d_bounding_box E self = Ok (rect_of_points points)).
Proof.
  intros Hbb. pose proof (get_bounding_box_length E self bb Hbb) as Hlen.
  split; [|split].
  - intros minx miny maxx maxy H. split; [assumption|].
    apply get_2d_bounding_box_Some in H as (bb' & points & Hbb' & Hpts & Hlen' & Hrect).
    assert (bb' = bb) as -> by congruence.
    apply corner_points_all in Hpts; [|congruence].
    apply rect_of_points_Some in Hrect as (_ & _ & Hin & _).
    clear -Hpts Hin.
    induction Hpts as [|p pt bb points (Hu & Hv & Hpx & Hpy) _ IH];
      [constructor|].
    inversion Hin as [|? ? [Hx Hy] Hin']; subst.
    constructor; [|now apply IH].
    repeat split; try assumption. exists pt.1, pt.2. auto.
  - intros p Hp Hneg.
    assert (Hfail : (0 <=? corner_u p)%float = false
                    \/ (0 <=? corner_v p)%float = false)
      by (destruct Hneg as [H|H]; apply ltb_zero_not_nonneg in H; auto).
    unfold get_2d_bounding_box. rewrite Hbb. cbn [mbind result_bind Py.bind].
    destruct (corner_points bb) as [points|e] eqn:Hpts;
      cbn [mbind result_bind Py.bind].
    + assert (Hlt : (length points < length bb)%nat)
        by (eapply corner_points_dropped; eassumption).
      replace (length points =? 8)%nat with false
        by (symmetry; apply Nat.eqb_neq; lia).
      cbn [negb]. split; [discriminate|]. split; [now left|].
      split; [discriminate|].
      intros Hq.
      assert (corner_points bb = Raise OverflowError) as Hr
        by (apply corner_points_Raise; split; [reflexivity|exact Hq]).
      congruence.
    + pose proof (proj1 (corner_points_Raise bb e) Hpts) as [-> Hq].
      split; [discriminate|]. split; [now right|]. now split.
  - intros points Hall Hpts.
    assert (Hkeep : length points = length bb).
    { eapply corner_points_keeps_all; [|eassumption].
      eapply Forall_impl; [exact Hall|].
      intros p [[->|Hu] [->|Hv]]; split;
        try (vm_compute; reflexivity); now apply ltb_zero_leb. }
    split; [congruence|].
    unfold get_2d_bounding_box. rewrite Hbb. cbn [mbind result_bind Py.bind].
    rewrite Hpts. cbn [mbind result_bind Py.bind].
    rewrite Hkeep, Hlen. reflexivity.
Qed.

Lemma rectangle_only_if_all_corners_nonneg_witness :
  (exists bb,
      get_bounding_box Ref.extern Ref.ahead = Ok (Some bb)
      /\ Forall (fun p =>
                   (0 <=? corner_u p)%float = true
                   /\ (0 <=? corner_v p)%float = true
                   /\ exists px py,
                       int_of_float (corner_u p) = Ok px
                       /\ int_of_float (corner_v p) = Ok py
                       /\ 21 <= px <= 42 /\ 2 <= py <= 45) bb)
  /\ (exists bb p,
        get_bounding_box Ref.extern Ref.at_left_edge = Ok (Some bb)
        /\ p ∈ bb
        /\ (corner_u p <? 0)%float = true
        /\ (forall rect,
              get_2d_bounding_box Ref.extern Ref.at_left_edge <> Ok (Some rect))
        /\ get_2d_bounding_box Ref.extern Ref.at_left_edge = Ok None
        /\ parse_label Ref.extern Ref.log_at_left_edge = Ok [Ref.at_left_edge]).
Proof.
  split.
  - eexists. split; [vm_compute; reflexivity|].
    eapply (rectangle_only_if_all_corners_nonneg Ref.extern Ref.ahead).
    + vm_compute. reflexivity.
    + vm_compute. reflexivity.
  - eexists. eexists. split; [vm_compute; reflexivity|].
    split; [apply list_elem_of_further, list_elem_of_further, list_elem_of_here|].
    split; [vm_compute; reflexivity|].
    split; [|split; vm_compute; reflexivity].
    eapply (rectangle_only_if_all_corners_nonneg Ref.extern Ref.at_left_edge).
    + vm_compute. reflexivity.
    + apply list_elem_of_further, list_elem_of_further, list_elem_of_here.
    + left. vm_compute. reflexivity.
Defined.

(** C4, at a failing input.  The pedestrian whose nearest face lies in the
    plane of the camera passes the depth test, and its second corner
    projects to [(-16, -8)], left of column 0 and above row 0: the box is
    one of those that are to be discarded.  It is not: the first corner
    projects to [(+inf, +inf)], [int] raises [OverflowError] in the
    comprehension that tests the corners, and the exception ends
    [Walker.__init__] and the run. *)
Lemma box_with_corner_off_image_not_discarded :
  exists bb p,
    get_bounding_box Ref.extern Ref.touching = Ok (Some bb)
    /\ length bb = 8%nat
    /\ p ∈ bb
    /\ (corner_u p <? 0)%float = true
    /\ (corner_v p <? 0)%float = true
    /\ get_2d_bounding_box Ref.extern Ref.touching = Raise OverflowError
    /\ get_2d_bounding_box Ref.extern Ref.touching <> Ok None
    /\ parse_label Ref.extern Ref.log_touching = Raise OverflowError.
Proof.
  eexists. eexists. split; [vm_compute; reflexivity|].
  split; [reflexivity|].
  split; [apply list_elem_of_further, list_elem_of_here|].
  split; [vm_compute; reflexivity|].
  split; [vm_compute; reflexivity|].
  split; [vm_compute; reflexivity|].
  split; [vm_compute; discriminate|].
  vm_compute. reflexivity.
Qed.

(** ** The size test *)

(** Where some corner has [x <= 100000] and some corner has [y <= 100000],
    [min_x] and [min_y] are the least coordinates of the points; [max_x] and
    [max_y] are always the greatest ones, the points being non-negative. *)
Lemma extend_rect_fold_attained (points : list (Z * Z)) (a b c d a' b' c' d' : Z) :
  fold_left extend_rect points (a, b, c, d) = (a', b', c', d') ->
  (a' = a \/ exists pt, pt ∈ points /\ pt.1 = a')
  /\ (b' = b \/ exists pt, pt ∈ points /\ pt.2 = b')
  /\ (c' = c \/ exists pt, pt ∈ points /\ pt.1 = c')
  /\ (d' = d \/ exists pt, pt ∈ points /\ pt.2 = d').
Proof.
  revert a b c d. induction points as [|pt r IH]; intros a b c d H; cbn in H.
  - injection H as <- <- <- <-. auto.
  - apply IH in H as (Ha & Hb & Hc & Hd).
    repeat split.
    + destruct Ha as [->|(q & Hq & <-)]; [|right; exists q; split; [now right|reflexivity]].
      destruct (_ <? _); [right; exists pt; split; [now left|reflexivity]|now left].
    + destruct Hb as [->|(q & Hq & <-)]; [|right; exists q; split; [now right|reflexivity]].
      destruct (pt.2 <? _); [right; exists pt; split; [now left|reflexivity]|now left].
    + destruct Hc as [->|(q & Hq & <-)]; [|right; exists q; split; [now right|reflexivity]].
      destruct (c <? _); [right; exists pt; split; [now left|reflexivity]|now left].
    + destruct Hd as [->|(q & Hq & <-)]; [|right; exists q; split; [now right|reflexivity]].
      destruct (d <? _); [right; exists pt; split; [now left|reflexivity]|now left].
Qed.

(** When some corner has [x <= 100000] and some corner has [y <= 100000],
    the loop computes the rectangle over the points: its four bounds are
    coordinates of points and enclose every point.  The size test of line
    117 is then a test on the rectangle over the 8 pixel corners. *)
Lemma extend_rect_fold_exact (points : list (Z * Z)) (a b c d : Z) :
  fold_left extend_rect points (100000, 100000, 0, 0) = (a, b, c, d) ->
  Forall (fun pt => 0 <= pt.1 /\ 0 <= pt.2) points ->
  (exists pt, pt ∈ points /\ pt.1 <= 100000) ->
  (exists pt, pt ∈ points /\ pt.2 <= 100000) ->
  Forall (fun pt => a <= pt.1 <= c /\ b <= pt.2 <= d) points
  /\ (exists pt, pt ∈ points /\ pt.1 = a)
  /\ (exists pt, pt ∈ points /\ pt.2 = b)
  /\ (exists pt, pt ∈ points /\ pt.1 = c)
  /\ (exists pt, pt ∈ points /\ pt.2 = d).
Proof.
  intros Hfold Hnn (px & Hpx & Hx) (py & Hpy & Hy).
  pose proof (extend_rect_fold _ _ _ _ _ _ _ _ _ Hfold) as (Hmono & Hall & _).
  pose proof (extend_rect_fold_attained _ _ _ _ _ _ _ _ _ Hfold)
    as (Ha & Hb & Hc & Hd).
  rewrite Forall_forall in Hall, Hnn.
  pose proof (Hall px Hpx) as Hbx. pose proof (Hall py Hpy) as Hby.
  pose proof (Hnn px Hpx) as Hnx. pose proof (Hnn py Hpy) as Hny.
  split; [now apply Forall_forall|].
  repeat split.
  - destruct Ha as [->|?]; [|assumption]. exists px. split; [assumption|lia].
  - destruct Hb as [->|?]; [|assumption]. exists py. split; [assumption|lia].
  - destruct Hc as [->|?]; [|assumption]. exists px. split; [assumption|lia].
  - destruct Hd as [->|?]; [|assumption]. exists py. split; [assumption|lia].
Qed.

(** C3, at a failing input: a box with no extent in x and y whose 8 corners
    all project to the pixel column 128032, between the rows 56 and 120.
    The rectangle over the 8 pixel corners has width 0, below 17; it is not
    rejected, because [min_x] starts at 100000 and no corner lies to the left
    of it: the rectangle returned runs from column 100000. *)
Theorem narrow_box_beyond_100000_not_rejected :
  parse_label Ref.extern Ref.log_far_right = Ok [Ref.far_right]
  /\ (exists bb points,
        get_bounding_box Ref.extern Ref.far_right = Ok (Some bb)
        /\ corner_points bb = Ok points
        /\ length points = 8%nat
        /\ Forall (fun pt => pt.1 = 128032 /\ 56 <= pt.2 <= 120) points)
  /\ get_2d_bounding_box Ref.extern Ref.far_right
     = Ok (Some ((100000, 56), (128032, 120))).
Proof.
  split; [vm_compute; reflexivity|].
  split; [|vm_compute; reflexivity].
  eexists. eexists.
  split; [vm_compute; reflexivity|].
  split; [vm_compute; reflexivity|].
  split; [reflexivity|].
  repeat constructor; cbn; lia.
Qed.

(** ** Exceptions raised by the projection *)

Lemma nan_not_nonneg (u : float) : is_nan u = true -> (0 <=? u)%float = false.
Proof.
  unfold is_nan. rewrite FloatAxioms.eqb_spec, leb_spec.
  destruct (Prim2SF u) as [[]|[]| |[] m e];
    unfold SFeqb, SFleb, SFcompare; try reflexivity; try discriminate.
  all: now rewrite Z.compare_refl, Pos.compare_cont_refl.
Qed.

(** C9, as the code has it.  Nothing in the script catches an exception.
    Division by a zero depth does not raise (it gives an infinity or nan).
    (1) The projection raises in exactly two cases: the inversion of the
    camera pose raises, or the box passes the depth test and one of its
    corners has both pixel coordinates [>= 0] and one of them infinite, on
    which [int] raises [OverflowError].  (2) A corner with a nan coordinate
    fails the test [>= 0]: unless [int] raises on another corner, the box is
    rejected. *)
Theorem projection_raises_iff (E : Extern) (self : Walker.t) :
  (forall e : exn,
      get_2d_bounding_box E self = Raise e <->
      np_linalg_inv E (get_matrix E (Camera.rotation (Walker.cam self))
                                    (Camera.location (Walker.cam self)))
      = Raise e
      \/ (e = OverflowError
          /\ exists bb p,
              get_bounding_box E self = Ok (Some bb)
              /\ p ∈ bb
              /\ (0 <=? corner_u p)%float = true
              /\ (0 <=? corner_v p)%float = true
              /\ (corner_u p = infinity \/ corner_v p = infinity)))
  /\ (forall bb p,
        get_bounding_box E self = Ok (Some bb) ->
        p ∈ bb ->
        is_nan (corner_u p) = true \/ is_nan (corner_v p) = true ->
        get_2d_bounding_box E self = Ok None
        \/ get_2d_bounding_box E self = Raise OverflowError).
Proof.
  split.
  - intros e.
    rewrite <- get_bounding_box_Raise. unfold get_2d_bounding_box.
    destruct (get_bounding_box E self) as [[bb|]|e'] eqn:Hbb;
      cbn [mbind result_bind Py.bind].
    + destruct (corner_points bb) as [points|e3] eqn:Hpts;
        cbn [mbind result_bind Py.bind].
      * split.
        -- destruct (negb _); discriminate.
        -- intros [H|(-> & bb' & p & [= <-] & Hp)]; [discriminate|].
           assert (corner_points bb = Raise OverflowError); [|congruence].
           apply corner_points_Raise. eauto.
      * split.
        -- intros [= <-]. right.
           apply corner_points_Raise in Hpts as (-> & p & Hp).
           split; [reflexivity|]. eauto.
        -- intros [H|(-> & bb' & p & [= <-] & Hp)]; [discriminate|].
           assert (corner_points bb = Raise OverflowError) as Hr;
             [apply corner_points_Raise; eauto|].
           rewrite Hpts in Hr. now injection Hr as ->.
    + split; [discriminate|].
      intros [H|H]; [discriminate|].
      destruct H as (He & bb' & p & H & Hp). discriminate.
    + split; [intros [= ->]; now left|].
      intros [[= ->]|H]; [reflexivity|].
      destruct H as (He & bb' & p & H & Hp). discriminate.
  - intros bb p Hbb Hp Hnan.
    pose proof (get_bounding_box_length E self bb Hbb) as Hlen.
    unfold get_2d_bounding_box. rewrite Hbb. cbn [mbind result_bind Py.bind].
    destruct (corner_points bb) as [points|e] eqn:Hpts;
      cbn [mbind result_bind Py.bind].
    + left.
      assert (Hlt : (length points < length bb)%nat).
      { eapply corner_points_dropped; [exact Hpts|exact Hp|].
        destruct Hnan as [H|H]; apply nan_not_nonneg in H; auto. }
      replace (length points =? 8)%nat with false
        by (symmetry; apply Nat.eqb_neq; lia).
      reflexivity.
    + right. apply corner_points_Raise in Hpts as [-> _]. reflexivity.
Qed.

Lemma projection_raises_iff_witness :
  exists bb,
    get_bounding_box Ref.extern Ref.flat = Ok (Some bb)
    /\ (get_2d_bounding_box Ref.extern Ref.flat = Ok None
        \/ get_2d_bounding_box Ref.extern Ref.flat = Raise OverflowError)
    /\ get_2d_bounding_box Ref.extern Ref.flat = Ok None
    /\ parse_label Ref.extern Ref.log_flat = Ok [Ref.flat].
Proof.
  eexists. split; [vm_compute; reflexivity|].
  split; [|split; vm_compute; reflexivity].
  destruct (projection_raises_iff Ref.extern Ref.flat) as [_ Hnan].
  eapply (Hnan _ (nan, infinity, 0)%float).
  - vm_compute. reflexivity.
  - constructor.
  - left. vm_compute. reflexivity.
Defined.

(** C9, counterexamples.  A pedestrian whose nearest face lies in the plane
    of the camera has corners at depth 0; the first of them projects to
    [(+inf, +inf)] and [int] raises [OverflowError], which leaves
    [Walker.__init__] and ends the run.  The same happens with every corner
    in front of the camera, at the smallest positive depth. *)
Lemma projection_raises_OverflowError :
  get_2d_bounding_box Ref.extern Ref.touching = Raise OverflowError
  /\ parse_label Ref.extern Ref.log_touching = Raise OverflowError
  /\ (exists bb,
        get_bounding_box Ref.extern Ref.grazing = Ok (Some bb)
        /\ Forall (fun p => (0 <? corner_depth p)%float = true) bb)
  /\ get_2d_bounding_box Ref.extern Ref.grazing = Raise OverflowError
  /\ parse_label Ref.extern Ref.log_grazing = Raise OverflowError.
Proof.
  split; [vm_compute; reflexivity|].
  split; [vm_compute; reflexivity|].
  split; [|split; vm_compute; reflexivity].
  eexists. split; [vm_compute; reflexivity|].
  repeat constructor.
Qed.

(** ** Python indexing at indices within bounds *)

Lemma getitem_nat {A : Type} (l : list A) (j : nat) (a : A) :
  l !! j = Some a -> getitem l (Z.of_nat j) = Ok a.
Proof.
  intros H. pose proof (lookup_lt_Some _ _ _ H) as Hlt.
  unfold getitem, norm_index.
  destruct (Z.of_nat j <? 0) eqn:Hneg; [apply Z.ltb_lt in Hneg; lia|].
  replace (0 <=? Z.of_nat j) with true by (symmetry; apply Z.leb_le; lia).
  replace (Z.of_nat j <? Z.of_nat (length l)) with true
    by (symmetry; apply Z.ltb_lt; lia).
  cbn. now rewrite Nat2Z.id, H.
Qed.

Lemma setitem_nat {A : Type} (l : list A) (j : nat) (a : A) :
  (j < length l)%nat -> setitem l (Z.of_nat j) a = Ok (<[j := a]> l).
Proof.
  intros Hlt. unfold setitem, norm_index.
  destruct (Z.of_nat j <? 0) eqn:Hneg; [apply Z.ltb_lt in Hneg; lia|].
  replace (0 <=? Z.of_nat j) with true by (symmetry; apply Z.leb_le; lia).
  replace (Z.of_nat j <? Z.of_nat (length l)) with true
    by (symmetry; apply Z.ltb_lt; lia).
  cbn. now rewrite Nat2Z.id.
Qed.

(** ** Cells of a grid *)

Lemma cell_is_Some {A : Type} (h w : nat) (grid : list (list A)) (y x : nat) :
  has_shape h w grid -> (y < h)%nat -> (x < w)%nat ->
  exists row a, grid !! y = Some row /\ row !! x = Some a /\ length row = w.
Proof.
  intros [Hh Hw] Hy Hx.
  destruct (lookup_lt_is_Some_2 grid y) as [row Hrow]; [lia|].
  assert (Hlen : length row = w).
  { rewrite Forall_forall in Hw. apply Hw. eapply list_elem_of_lookup_2, Hrow. }
  destruct (lookup_lt_is_Some_2 row x) as [a Ha]; [lia|].
  eauto.
Qed.

Lemma cell_set_cell_eq {A : Type} (grid : list (list A)) (y x : nat) (a b : A) :
  cell grid y x = Some b -> cell (set_cell grid y x a) y x = Some a.
Proof.
  unfold cell, set_cell. destruct (grid !! y) as [row|] eqn:Hrow; [|discriminate].
  intros Hb. rewrite list_lookup_insert_eq by (eapply lookup_lt_Some, Hrow).
  apply list_lookup_insert_eq. eapply lookup_lt_Some, Hb.
Qed.

Lemma cell_set_cell_ne {A : Type} (grid : list (list A)) (y x y' x' : nat) (a : A) :
  (y', x') <> (y, x) -> cell (set_cell grid y x a) y' x' = cell grid y' x'.
Proof.
  intros Hne. unfold cell, set_cell.
  destruct (grid !! y) as [row|] eqn:Hrow; [|reflexivity].
  destruct (decide (y' = y)) as [->|Hy].
  - rewrite list_lookup_insert_eq by (eapply lookup_lt_Some, Hrow).
    rewrite Hrow. apply list_lookup_insert_ne. congruence.
  - now rewrite list_lookup_insert_ne by congruence.
Qed.

Lemma has_shape_set_cell {A : Type} (h w : nat) (grid : list (list A))
  (y x : nat) (a : A) :
  has_shape h w grid -> has_shape h w (set_cell grid y x a).
Proof.
  intros [Hh Hw]. unfold set_cell.
  destruct (grid !! y) as [row|] eqn:Hrow; [|now split].
  split; [now rewrite length_insert|].
  apply Forall_insert; [assumption|].
  rewrite length_insert. rewrite Forall_forall in Hw. apply Hw.
  eapply list_elem_of_lookup_2, Hrow.
Qed.

Lemma has_shape_new_instance (h w : Z) :
  has_shape (Z.to_nat h) (Z.to_nat w) (new_instance h w).
Proof.
  unfold new_instance. split; [apply length_replicate|].
  apply Forall_replicate. apply length_replicate.
Qed.

Lemma is_pedestrian_spec (p : pixel) :
  is_pedestrian p = true <-> p = (60, 20, 220).
Proof.
  destruct p as [[b g] r]. unfold is_pedestrian.
  rewrite !andb_true_iff, !Z.eqb_eq. split.
  - intros [[-> ->] ->]. reflexivity.
  - intros [= -> -> ->]. auto.
Qed.

(** ** Loops over a range that stop at a bound *)

(** A loop [for i in range(a, a + n): if i >= bound: break; s = step(i, s)]
    whose step cannot fail on the states it meets visits the indices from
    [a] up to the bound, in order. *)
Lemma for_range_clamped {St : Type} (I : St -> Prop)
  (step : Z -> St -> result St) (f : St -> nat -> St) (bound : Z) :
  (forall (j : nat) (s : St),
      I s -> Z.of_nat j < bound ->
      step (Z.of_nat j) s = Ok (f s j) /\ I (f s j)) ->
  forall (n i : nat) (s : St),
    I s ->
    let visited := seq i (Nat.min n (Z.to_nat (bound - Z.of_nat i))) in
    for_range n (Z.of_nat i)
      (fun x st => if bound <=? x then Ok None
                   else st' ← step x st; Ok (Some st')) s
    = Ok (foldl f s visited)
    /\ I (foldl f s visited).
Proof.
  intros Hstep n. induction n as [|n IH]; intros i s Hs; cbn zeta.
  - cbn. auto.
  - cbn [for_range]. destruct (bound <=? Z.of_nat i) eqn:Hb.
    + apply Z.leb_le in Hb.
      replace (Z.to_nat (bound - Z.of_nat i)) with 0%nat by lia.
      rewrite Nat.min_0_r. cbn. auto.
    + apply Z.leb_gt in Hb.
      destruct (Hstep i s Hs Hb) as [Hi Hs'].
      rewrite Hi. cbn [Py.bind mbind result_bind].
      replace (Nat.min (S n) (Z.to_nat (bound - Z.of_nat i)))
        with (S (Nat.min n (Z.to_nat (bound - Z.of_nat (S i))))) by lia.
      cbn [seq foldl].
      replace (Z.of_nat i + 1) with (Z.of_nat (S i)) by lia.
      apply IH, Hs'.
Qed.

Lemma foldl_flat_map {A B C : Type} (f : A -> C -> A) (g : B -> list C)
  (l : list B) (a : A) :
  foldl f a (flat_map g l) = foldl (fun a b => foldl f a (g b)) a l.
Proof.
  revert a. induction l as [|b l IH]; intros a; cbn; [reflexivity|].
  now rewrite foldl_app, IH.
Qed.

(** ** The scan as a fold over the clamped rectangle *)

Section Scan.

Context (semantic : list (list pixel)) (h w : nat) (id : Z).
Context (Hsem : has_shape h w semantic).

Lemma has_shape_claim (st : list (list Z) * Z) (yx : nat * nat) :
  has_shape h w st.1 -> has_shape h w (claim semantic id st yx).1.
Proof.
  intros H. unfold claim. destruct (claimable _ _ _); [|assumption].
  now apply has_shape_set_cell.
Qed.

Lemma scan_pixel_claim (y x : nat) (st : list (list Z) * Z) :
  has_shape h w st.1 -> (y < h)%nat -> (x < w)%nat ->
  scan_pixel semantic id (Z.of_nat y) (Z.of_nat x) st
  = Ok (claim semantic id st (y, x)).
Proof.
  destruct st as [inst cnt]. cbn [fst]. intros Hinst Hy Hx.
  destruct (cell_is_Some h w inst y x Hinst Hy Hx) as (row & v & Hrow & Hv & Hlen).
  destruct (cell_is_Some h w semantic y x Hsem Hy Hx) as (srow & p & Hsrow & Hp & _).
  unfold scan_pixel, claim, claimable, cell, set_cell. cbn [fst snd].
  rewrite Hrow, Hv, Hsrow, Hp.
  rewrite (getitem_nat _ _ _ Hrow). cbn [Py.bind mbind result_bind].
  rewrite (getitem_nat _ _ _ Hv). cbn [Py.bind mbind result_bind].
  destruct (v =? -1); [|reflexivity].
  rewrite (getitem_nat _ _ _ Hsrow). cbn [Py.bind mbind result_bind].
  rewrite (getitem_nat _ _ _ Hp). cbn [Py.bind mbind result_bind andb].
  destruct (is_pedestrian p); [|reflexivity].
  rewrite setitem_nat by lia. cbn [Py.bind mbind result_bind].
  rewrite setitem_nat by (eapply lookup_lt_Some, Hrow). reflexivity.
Qed.

Lemma scan_row_claim (minx maxx : Z) (y : nat) (st : list (list Z) * Z) :
  0 <= minx -> has_shape h w st.1 -> (y < h)%nat ->
  let row :=
    map (fun x => (y, x))
      (seq (Z.to_nat minx) (Z.to_nat (Z.min (maxx + 1) (Z.of_nat w) - minx))) in
  scan_row semantic (Z.of_nat w) id minx maxx (Z.of_nat y) st
  = Ok (foldl (claim semantic id) st row)
  /\ has_shape h w (foldl (claim semantic id) st row).1.
Proof.
  intros Hminx Hst Hy. cbn zeta. unfold scan_row.
  rewrite <- (Z2Nat.id minx) at 1 by assumption.
  destruct (for_range_clamped (fun st => has_shape h w st.1)
              (fun x st => scan_pixel semantic id (Z.of_nat y) x st)
              (fun st x => claim semantic id st (y, x)) (Z.of_nat w)) with
    (n := range_len minx (maxx + 1)) (i := Z.to_nat minx) (s := st)
    as [Hrun Hshape].
  - intros j s Hs Hj. split.
    + apply scan_pixel_claim; [assumption|assumption|lia].
    + now apply has_shape_claim.
  - assumption.
  - rewrite Z2Nat.id in Hrun, Hshape by assumption.
    replace (Nat.min (range_len minx (maxx + 1))
                     (Z.to_nat (Z.of_nat w - minx)))
      with (Z.to_nat (Z.min (maxx + 1) (Z.of_nat w) - minx)) in Hrun, Hshape
      by (unfold range_len; lia).
    rewrite foldl_fmap. split; [|assumption].
    rewrite Z2Nat.id by assumption. exact Hrun.
Qed.

Lemma scan_claim (bb : (Z * Z) * (Z * Z)) (st : list (list Z) * Z) :
  0 <= bb.1.1 -> 0 <= bb.1.2 -> has_shape h w st.1 ->
  let pixels := clamped_pixels (Z.of_nat h) (Z.of_nat w) bb in
  scan semantic (Z.of_nat h) (Z.of_nat w) id bb st
  = Ok (foldl (claim semantic id) st pixels)
  /\ has_shape h w (foldl (claim semantic id) st pixels).1.
Proof.
  destruct bb as [[minx miny] [maxx maxy]]. cbn [fst snd].
  intros Hminx Hminy Hst. cbn zeta. unfold scan, clamped_pixels.
  rewrite foldl_flat_map.
  rewrite <- (Z2Nat.id miny) at 1 by assumption.
  destruct (for_range_clamped (fun st => has_shape h w st.1)
              (fun y st => scan_row semantic (Z.of_nat w) id minx maxx y st)
              (fun st y =>
                 foldl (claim semantic id) st
                   (map (fun x => (y, x))
                      (seq (Z.to_nat minx)
                         (Z.to_nat (Z.min (maxx + 1) (Z.of_nat w) - minx)))))
              (Z.of_nat h)) with
    (n := range_len miny (maxy + 1)) (i := Z.to_nat miny) (s := st)
    as [Hrun Hshape].
  - intros j s Hs Hj. apply scan_row_claim; [assumption|assumption|lia].
  - assumption.
  - rewrite Z2Nat.id in Hrun, Hshape by assumption.
    replace (Nat.min (range_len miny (maxy + 1))
                     (Z.to_nat (Z.of_nat h - miny)))
      with (Z.to_nat (Z.min (maxy + 1) (Z.of_nat h) - miny)) in Hrun, Hshape
      by (unfold range_len; lia).
    split; [|assumption].
    rewrite Z2Nat.id by assumption. exact Hrun.
Qed.

End Scan.

(** ** What the fold does to the buffer and to the count *)

Section Claim.

Context (semantic : list (list pixel)) (id : Z).

Lemma claim_cell_ne (st : list (list Z) * Z) (p : nat * nat) (y x : nat) :
  (y, x) <> p -> cell (claim semantic id st p).1 y x = cell st.1 y x.
Proof.
  intros Hne. unfold claim. destruct (claimable _ _ _); [|reflexivity].
  destruct p as [py px]. cbn [fst snd]. now apply cell_set_cell_ne.
Qed.

Lemma claim_cell_eq (st : list (list Z) * Z) (p : nat * nat) :
  cell (claim semantic id st p).1 p.1 p.2
  = if claimable semantic st.1 p then Some id else cell st.1 p.1 p.2.
Proof.
  unfold claim. destruct (claimable _ _ _) eqn:Hc; [|reflexivity].
  cbn [fst]. unfold claimable in Hc.
  destruct (cell st.1 p.1 p.2) as [v|] eqn:Hv; [|discriminate].
  eapply cell_set_cell_eq, Hv.
Qed.

Lemma claimable_claim_ne (st : list (list Z) * Z) (p q : nat * nat) :
  q <> p -> claimable semantic (claim semantic id st p).1 q
            = claimable semantic st.1 q.
Proof.
  intros Hne. unfold claimable.
  rewrite claim_cell_ne; [reflexivity|]. now destruct q.
Qed.

Lemma foldl_claim_cell_notin (ps : list (nat * nat)) (st : list (list Z) * Z)
  (y x : nat) :
  (y, x) ∉ ps -> cell (foldl (claim semantic id) st ps).1 y x = cell st.1 y x.
Proof.
  revert st. induction ps as [|p ps IH]; intros st Hnotin; [reflexivity|].
  apply not_elem_of_cons in Hnotin as [Hne Hnotin].
  cbn [foldl]. rewrite IH by assumption. now apply claim_cell_ne.
Qed.

Lemma foldl_claim_cell_in (ps : list (nat * nat)) (st : list (list Z) * Z)
  (y x : nat) :
  NoDup ps -> (y, x) ∈ ps ->
  cell (foldl (claim semantic id) st ps).1 y x
  = if claimable semantic st.1 (y, x) then Some id else cell st.1 y x.
Proof.
  revert st. induction ps as [|p ps IH]; intros st Hnd Hin; [inversion Hin|].
  apply NoDup_cons in Hnd as [Hp Hnd]. cbn [foldl].
  apply elem_of_cons in Hin as [<-|Hin].
  - rewrite foldl_claim_cell_notin by assumption.
    apply (claim_cell_eq st (y, x)).
  - assert (Hne : (y, x) <> p) by (intros <-; contradiction).
    rewrite IH by assumption.
    rewrite claimable_claim_ne by assumption.
    now rewrite claim_cell_ne.
Qed.

Lemma foldl_claim_count (ps : list (nat * nat)) (st : list (list Z) * Z) :
  NoDup ps ->
  (foldl (claim semantic id) st ps).2
  = st.2 + Z.of_nat (length (List.filter (claimable semantic st.1) ps)).
Proof.
  revert st. induction ps as [|p ps IH]; intros st Hnd; cbn [foldl].
  - cbn. lia.
  - apply NoDup_cons in Hnd as [Hp Hnd]. rewrite IH by assumption.
    rewrite (List.filter_ext_in (claimable semantic (claim semantic id st p).1)
               (claimable semantic st.1)).
    2:{ intros q Hq. apply claimable_claim_ne. intros ->.
        apply Hp. now apply list_elem_of_In. }
    cbn [List.filter]. unfold claim at 1.
    destruct (claimable semantic st.1 p); cbn [snd length]; lia.
Qed.

End Claim.

(** ** The clamped rectangle *)

Lemma NoDup_grid (ys xs : list nat) :
  NoDup ys -> NoDup xs ->
  NoDup (flat_map (fun y => map (fun x => (y, x)) xs) ys).
Proof.
  intros Hys Hxs. induction Hys as [|y ys Hy Hys IH]; cbn; [constructor|].
  apply NoDup_app. split; [|split; [|assumption]].
  - now apply (NoDup_fmap_2 (fun x => (y, x))).
  - intros p Hp Hp'.
    apply list_elem_of_fmap in Hp as (x & -> & Hx).
    apply list_elem_of_In, in_flat_map in Hp' as (y' & Hy' & Hp').
    apply in_map_iff in Hp' as (x' & [= -> ->] & _).
    apply Hy. now apply list_elem_of_In.
Qed.

Lemma NoDup_clamped_pixels (h w : Z) (bb : (Z * Z) * (Z * Z)) :
  NoDup (clamped_pixels h w bb).
Proof.
  destruct bb as [[minx miny] [maxx maxy]]. unfold clamped_pixels.
  apply NoDup_grid; apply NoDup_seq.
Qed.

Lemma elem_of_clamped_pixels (h w : Z) (minx miny maxx maxy : Z) (y x : nat) :
  0 <= minx -> 0 <= miny ->
  (y, x) ∈ clamped_pixels h w ((minx, miny), (maxx, maxy))
  <-> (miny <= Z.of_nat y <= maxy /\ Z.of_nat y < h)
      /\ (minx <= Z.of_nat x <= maxx /\ Z.of_nat x < w).
Proof.
  intros Hminx Hminy. unfold clamped_pixels.
  rewrite list_elem_of_In, in_flat_map. split.
  - intros (y' & Hy' & Hx'). apply in_map_iff in Hx' as (x' & [= -> ->] & Hx').
    apply in_seq in Hy', Hx'. lia.
  - intros [Hy Hx]. exists y. split; [apply in_seq; lia|].
    apply in_map_iff. exists x. split; [reflexivity|]. apply in_seq. lia.
Qed.

(** ** One iteration of the occlusion loop *)

Lemma built_bb2d (E : Extern) (w : Walker.t) (minx miny maxx maxy : Z) :
  built E w ->
  Walker.bb2d w = Some ((minx, miny), (maxx, maxy)) ->
  0 <= minx /\ 0 <= miny /\ 17 <= maxx - minx /\ 35 <= maxy - miny.
Proof.
  intros (id & info & cam & H) Hbb.
  apply Walker_init_Ok in H as (self & H & _). rewrite Hbb in H.
  eapply get_2d_bounding_box_wf, H.
Qed.

Section Visit.

Context (E : Extern) (save : bool) (frame : Z).
Context (semantic : list (list pixel)) (h w : nat).
Context (Hsem : has_shape h w semantic).

(** On a walker without rectangle, [visit] does nothing. *)
Lemma visit_None (walker : Walker.t) (st : frame_state) :
  Walker.bb2d walker = None ->
  visit save frame semantic (Z.of_nat h) (Z.of_nat w) walker st = Ok st.
Proof. intros H. unfold visit. now rewrite H. Qed.

(** On a walker with a rectangle, [visit] returns: the buffer is the fold of
    [claim] over the clamped rectangle, and the detection is kept unless the
    count is below a fifth of the area. *)
Lemma visit_Some (walker : Walker.t) (st : frame_state)
  (bb : (Z * Z) * (Z * Z)) :
  built E walker ->
  Walker.bb2d walker = Some bb ->
  has_shape h w (instance st) ->
  let fin :=
    foldl (claim semantic (Walker.id walker)) (instance st, 0)
      (clamped_pixels (Z.of_nat h) (Z.of_nat w) bb) in
  has_shape h w fin.1
  /\ fin.2 = claimed semantic (instance st) (Z.of_nat h) (Z.of_nat w) bb
  /\ 0 < area bb
  /\ visit save frame semantic (Z.of_nat h) (Z.of_nat w) walker st
     = Ok (if 10 * fin.2 <? 2 * area bb then
             {| instance := fin.1; drawn := drawn st; written := written st |}
           else
             {| instance := fin.1;
                drawn := drawn st ++ [bb];
                written :=
                  if save then written st ++ [detection_of frame walker bb]
                  else written st |}).
Proof.
  intros Hbuilt Hbb Hst. destruct bb as [[minx miny] [maxx maxy]].
  destruct (built_bb2d E walker _ _ _ _ Hbuilt Hbb) as (Hx & Hy & Hw & Hh).
  cbn zeta.
  destruct (scan_claim semantic h w (Walker.id walker) Hsem
              ((minx, miny), (maxx, maxy)) (instance st, 0))
    as [Hscan Hshape]; [assumption..|].
  split; [exact Hshape|]. split.
  { rewrite foldl_claim_count by apply NoDup_clamped_pixels. cbn [fst snd].
    unfold claimed. lia. }
  assert (Harea : 0 < area ((minx, miny), (maxx, maxy))).
  { unfold area. cbn [fst snd]. nia. }
  split; [exact Harea|].
  unfold visit. rewrite Hbb, Hscan. cbn [Py.bind mbind result_bind].
  destruct (foldl _ _ _) as [inst' cnt]. cbn [fst snd].
  unfold area in Harea |- *. cbn [fst snd] in Harea |- *.
  replace (0 <? (maxx - minx + 1) * (maxy - miny + 1)) with true
    by (symmetry; now apply Z.ltb_lt).
  cbn [andb]. destruct (_ <? _); reflexivity.
Qed.

(** [visit] on a walker built by the program cannot fail, and it keeps the
    shape of the buffer. *)
Lemma visit_total (walker : Walker.t) (st : frame_state) :
  built E walker ->
  has_shape h w (instance st) ->
  exists st',
    visit save frame semantic (Z.of_nat h) (Z.of_nat w) walker st = Ok st'
    /\ has_shape h w (instance st').
Proof.
  intros Hbuilt Hst. destruct (Walker.bb2d walker) as [bb|] eqn:Hbb.
  - destruct (visit_Some walker st bb Hbuilt Hbb Hst) as (Hshape & _ & _ & Hv).
    eexists. split; [exact Hv|]. now destruct (_ <? _).
  - exists st. split; [now apply visit_None|assumption].
Qed.

Lemma visit_all_total (walkers : list Walker.t) (st : frame_state) :
  Forall (built E) walkers ->
  has_shape h w (instance st) ->
  exists st',
    visit_all save frame semantic (Z.of_nat h) (Z.of_nat w) walkers st = Ok st'
    /\ has_shape h w (instance st').
Proof.
  intros Hall. revert st. induction Hall as [|walker rest Hw _ IH]; intros st Hst.
  - exists st. split; [reflexivity|assumption].
  - destruct (visit_total walker st Hw Hst) as (st1 & Hv & Hst1).
    destruct (IH st1 Hst1) as (st2 & Hrest & Hst2).
    exists st2. split; [|assumption].
    cbn [visit_all]. rewrite Hv. exact Hrest.
Qed.

(** The buffer after [visit], cell by cell. *)
Lemma visit_cell (walker : Walker.t) (st st' : frame_state) (y x : nat) :
  built E walker ->
  has_shape h w (instance st) ->
  visit save frame semantic (Z.of_nat h) (Z.of_nat w) walker st = Ok st' ->
  cell (instance st') y x
  = match Walker.bb2d walker with
    | Some bb =>
        if bool_decide ((y, x) ∈ clamped_pixels (Z.of_nat h) (Z.of_nat w) bb)
           && claimable semantic (instance st) (y, x)
        then Some (Walker.id walker)
        else cell (instance st) y x
    | None => cell (instance st) y x
    end.
Proof.
  intros Hbuilt Hst Hv. destruct (Walker.bb2d walker) as [bb|] eqn:Hbb.
  - destruct (visit_Some walker st bb Hbuilt Hbb Hst) as (_ & _ & _ & Hv').
    rewrite Hv' in Hv. injection Hv as <-.
    assert (Hinst :
      forall a b : frame_state,
        instance (if 10 * (foldl (claim semantic (Walker.id walker))
                             (instance st, 0)
                             (clamped_pixels (Z.of_nat h) (Z.of_nat w) bb)).2
                       <? 2 * area bb then a else b)
        = if 10 * (foldl (claim semantic (Walker.id walker))
                     (instance st, 0)
                     (clamped_pixels (Z.of_nat h) (Z.of_nat w) bb)).2
               <? 2 * area bb then instance a else instance b)
      by (intros; now destruct (_ <? _)).
    rewrite Hinst. cbn [instance].
    assert (forall g : list (list Z), (if 10 * (foldl (claim semantic (Walker.id walker))
                     (instance st, 0)
                     (clamped_pixels (Z.of_nat h) (Z.of_nat w) bb)).2
               <? 2 * area bb then g else g) = g) as ->
      by (intros; now destruct (_ <? _)).
    destruct (bool_decide _) eqn:Hin; cbn [andb].
    + apply bool_decide_eq_true in Hin.
      now rewrite foldl_claim_cell_in by (apply NoDup_clamped_pixels || assumption).
    + apply bool_decide_eq_false in Hin.
      now rewrite foldl_claim_cell_notin.
  - rewrite visit_None in Hv by assumption. now injection Hv as <-.
Qed.

End Visit.

Lemma shape_nat (semantic : list (list pixel)) :
  Z.of_nat (Z.to_nat (shape0 semantic)) = shape0 semantic
  /\ Z.of_nat (Z.to_nat (shape1 semantic)) = shape1 semantic.
Proof.
  unfold shape0, shape1. destruct semantic as [|row rest]; cbn [length]; lia.
Qed.

(** For a walker built by the program, with rectangle [bb], [visit] returns
    from any buffer of the shape of the raster; with [n] the number of pixels
    of the clamped rectangle that are unassigned and pedestrian when the scan
    starts, the detection is kept if [10 * n >= 2 * area] and dropped if
    [10 * n < 2 * area]. *)
Lemma visit_accepted_iff
  (E : Extern) (save : bool) (frame : Z) (semantic : list (list pixel))
  (walker : Walker.t) (bb : (Z * Z) * (Z * Z)) (st : frame_state) :
  built E walker ->
  Walker.bb2d walker = Some bb ->
  rectangular semantic ->
  has_shape (Z.to_nat (shape0 semantic)) (Z.to_nat (shape1 semantic))
    (instance st) ->
  let n := claimed semantic (instance st) (shape0 semantic) (shape1 semantic) bb in
  exists st',
    visit save frame semantic (shape0 semantic) (shape1 semantic) walker st
    = Ok st'
    /\ (10 * n >= 2 * area bb ->
        drawn st' = drawn st ++ [bb]
        /\ written st'
           = if save then written st ++ [detection_of frame walker bb]
             else written st)
    /\ (10 * n < 2 * area bb ->
        drawn st' = drawn st /\ written st' = written st).
Proof.
  intros Hbuilt Hbb Hsem Hst. cbn zeta.
  destruct (shape_nat semantic) as [Hh Hw].
  destruct (visit_Some E save frame semantic _ _ Hsem walker st bb Hbuilt Hbb Hst)
    as (_ & Hcnt & _ & Hv).
  rewrite Hh, Hw in Hcnt, Hv. rewrite Hcnt in Hv.
  eexists. split; [exact Hv|].
  destruct (_ <? _) eqn:Hlt;
    [apply Z.ltb_lt in Hlt|apply Z.ltb_ge in Hlt]; cbn [drawn written];
    split; intros; try lia; auto.
Qed.

Lemma getitem_nat_Ok {A : Type} (l : list A) (j : nat) (a : A) :
  getitem l (Z.of_nat j) = Ok a -> l !! j = Some a.
Proof.
  unfold getitem, norm_index.
  destruct (Z.of_nat j <? 0) eqn:Hneg; [apply Z.ltb_lt in Hneg; lia|].
  destruct (_ && _); [|discriminate]. rewrite Nat2Z.id.
  destruct (l !! j); [congruence|discriminate].
Qed.

Lemma setitem_nat_Ok {A : Type} (l l' : list A) (j : nat) (a : A) :
  setitem l (Z.of_nat j) a = Ok l' -> l' = <[j := a]> l.
Proof.
  unfold setitem, norm_index.
  destruct (Z.of_nat j <? 0) eqn:Hneg; [apply Z.ltb_lt in Hneg; lia|].
  destruct (_ && _); [|discriminate]. rewrite Nat2Z.id. congruence.
Qed.

(** The scan body changes the state only by claiming the pixel it is at,
    and only if that pixel is unassigned and pedestrian at that moment. *)
Lemma scan_pixel_changes (semantic : list (list pixel)) (id : Z) (y x : nat)
  (st st' : list (list Z) * Z) :
  scan_pixel semantic id (Z.of_nat y) (Z.of_nat x) st = Ok st' ->
  st' <> st ->
  cell st.1 y x = Some (-1)
  /\ cell semantic y x = Some (60, 20, 220)
  /\ st' = (set_cell st.1 y x id, st.2 + 1).
Proof.
  destruct st as [inst cnt]. unfold scan_pixel. cbn [fst snd].
  destruct (getitem inst (Z.of_nat y)) as [row|] eqn:Hrow;
    cbn [Py.bind mbind result_bind]; [|discriminate].
  destruct (getitem row (Z.of_nat x)) as [v|] eqn:Hv;
    cbn [Py.bind mbind result_bind]; [|discriminate].
  apply getitem_nat_Ok in Hrow, Hv.
  destruct (v =? -1) eqn:Hv1; [|congruence]. apply Z.eqb_eq in Hv1. subst v.
  destruct (getitem semantic (Z.of_nat y)) as [srow|] eqn:Hsrow;
    cbn [Py.bind mbind result_bind]; [|discriminate].
  destruct (getitem srow (Z.of_nat x)) as [p|] eqn:Hp;
    cbn [Py.bind mbind result_bind]; [|discriminate].
  apply getitem_nat_Ok in Hsrow, Hp.
  destruct (is_pedestrian p) eqn:Hped; [|congruence].
  apply is_pedestrian_spec in Hped. subst p.
  destruct (setitem row (Z.of_nat x) id) as [row'|] eqn:Hrow';
    cbn [Py.bind mbind result_bind]; [|discriminate].
  destruct (setitem inst (Z.of_nat y) row') as [inst'|] eqn:Hinst';
    cbn [Py.bind mbind result_bind]; [|discriminate].
  apply setitem_nat_Ok in Hrow', Hinst'.
  intros [= <-] _. unfold cell, set_cell. rewrite Hrow, Hv, Hsrow, Hp.
  repeat split. now subst.
Qed.

(** A cell of the buffer that differs after the scan of a walker held -1
    before it, lies in the clamped rectangle, is pedestrian in the semantic
    raster, and now holds the walker's id. *)
Lemma visit_changes_only_claimable
  (E : Extern) (save : bool) (frame : Z) (semantic : list (list pixel))
  (walker : Walker.t) (st st' : frame_state) :
  built E walker ->
  rectangular semantic ->
  has_shape (Z.to_nat (shape0 semantic)) (Z.to_nat (shape1 semantic))
    (instance st) ->
  visit save frame semantic (shape0 semantic) (shape1 semantic) walker st
  = Ok st' ->
  forall y x : nat,
    cell (instance st') y x <> cell (instance st) y x ->
    cell (instance st) y x = Some (-1)
    /\ cell semantic y x = Some (60, 20, 220)
    /\ cell (instance st') y x = Some (Walker.id walker)
    /\ exists bb,
        Walker.bb2d walker = Some bb
        /\ (y, x) ∈ clamped_pixels (shape0 semantic) (shape1 semantic) bb.
Proof.
  intros Hbuilt Hsem Hst Hv.
  - intros y x Hch.
    destruct (shape_nat semantic) as [Hh Hw]. rewrite <- Hh, <- Hw in Hv.
    pose proof (visit_cell E save frame semantic _ _ Hsem walker st st' y x
                  Hbuilt Hst Hv) as Hc.
    rewrite Hh, Hw in Hc.
    destruct (Walker.bb2d walker) as [bb|]; [|congruence].
    destruct (bool_decide _) eqn:Hin; cbn [andb] in Hc; [|congruence].
    apply bool_decide_eq_true in Hin.
    destruct (claimable semantic (instance st) (y, x)) eqn:Hcl; [|congruence].
    unfold claimable in Hcl. cbn [fst snd] in Hcl.
    destruct (cell (instance st) y x) as [v|]; [|discriminate].
    destruct (cell semantic y x) as [p|]; [|discriminate].
    apply andb_true_iff in Hcl as [Hv1 Hp].
    apply Z.eqb_eq in Hv1. apply is_pedestrian_spec in Hp. subst.
    repeat split; try assumption; try reflexivity. eauto.
Qed.

Lemma has_shape_first_state (semantic : list (list pixel)) :
  has_shape (Z.to_nat (shape0 semantic)) (Z.to_nat (shape1 semantic))
    (instance (first_state semantic)).
Proof. apply has_shape_new_instance. Qed.

(** ** The walkers of a frame *)

Section Frame.

Context (E : Extern).

Lemma read_walkers_built (cam : Camera.t) (label : list string)
  (acc walkers : list Walker.t) :
  Forall (built E) acc ->
  read_walkers E cam label acc = Ok walkers ->
  Forall (built E) walkers.
Proof.
  revert acc. induction label as [|line label IH]; intros acc Hacc H;
    cbn [read_walkers] in H.
  - now injection H as <-.
  - destruct (String.eqb line newline); [now injection H as <-|].
    destruct (_ <? 10)%nat; [now injection H as <-|].
    destruct (getitem (split line) 1) as [tok|] eqn:Htok;
      cbn [Py.bind mbind result_bind] in H; [|discriminate].
    destruct (Walker_init E tok (skipn 2 (split line)) cam) as [obj|] eqn:Hobj;
      cbn [Py.bind mbind result_bind] in H; [|discriminate].
    apply IH in H; [assumption|].
    apply Forall_app. split; [assumption|].
    constructor; [|constructor]. now exists tok, (skipn 2 (split line)), cam.
Qed.

Lemma parse_label_built (label : list string) (walkers : list Walker.t) :
  parse_label E label = Ok walkers -> Forall (built E) walkers.
Proof.
  unfold parse_label.
  destruct (readline label) as [vehicle_vel l1].
  destruct (readline l1) as [line2 l2].
  destruct (readline l2) as [line3 l3].
  destruct (Camera_init E _ _) as [cam|]; cbn [Py.bind mbind result_bind];
    [|discriminate].
  apply read_walkers_built. constructor.
Qed.

Lemma insert_walker_perm (w : Walker.t) (l : list Walker.t) :
  Permutation (insert_walker w l) (w :: l).
Proof.
  induction l as [|v r IH]; cbn [insert_walker]; [reflexivity|].
  destruct (_ <? _)%float; [reflexivity|].
  rewrite IH. apply perm_swap.
Qed.

Lemma sort_walkers_perm (walkers : list Walker.t) :
  Permutation (sort_walkers walkers) walkers.
Proof.
  unfold sort_walkers.
  assert (H : forall acc,
             Permutation
               (fold_left (fun sorted w => insert_walker w sorted) walkers acc)
               (walkers ++ acc)).
  { induction walkers as [|w r IH]; intros acc; cbn [fold_left]; [reflexivity|].
    rewrite IH, insert_walker_perm. cbn. symmetry. apply Permutation_middle. }
  rewrite H. now rewrite app_nil_r.
Qed.

Lemma sort_walkers_built (walkers : list Walker.t) :
  Forall (built E) walkers -> Forall (built E) (sort_walkers walkers).
Proof.
  intros H. now rewrite sort_walkers_perm.
Qed.

End Frame.

(** ** What the loop over the walkers writes *)

Section Written.

Context (E : Extern) (save : bool) (frame : Z).
Context (semantic : list (list pixel)) (h w : nat).
Context (Hsem : has_shape h w semantic).

Lemma visit_written (walker : Walker.t) (st st' : frame_state) :
  built E walker ->
  has_shape h w (instance st) ->
  visit save frame semantic (Z.of_nat h) (Z.of_nat w) walker st = Ok st' ->
  written st' = written st
  \/ exists bb,
      Walker.bb2d walker = Some bb
      /\ written st' = written st ++ [detection_of frame walker bb].
Proof.
  intros Hbuilt Hst Hv. destruct (Walker.bb2d walker) as [bb|] eqn:Hbb.
  - destruct (visit_Some E save frame semantic h w Hsem walker st bb Hbuilt Hbb Hst)
      as (_ & _ & _ & Hv').
    rewrite Hv' in Hv. injection Hv as <-.
    destruct (_ <? _); cbn [written]; [now left|].
    destruct save; [right; eauto|now left].
  - rewrite visit_None in Hv by assumption. injection Hv as <-. now left.
Qed.

Lemma visit_all_written (walkers : list Walker.t) (st st' : frame_state) :
  Forall (built E) walkers ->
  has_shape h w (instance st) ->
  visit_all save frame semantic (Z.of_nat h) (Z.of_nat w) walkers st = Ok st' ->
  exists new,
    written st' = written st ++ new
    /\ Forall (fun d => exists walker bb,
                   walker ∈ walkers /\ Walker.bb2d walker = Some bb
                   /\ d = detection_of frame walker bb) new.
Proof.
  intros Hall. revert st. induction Hall as [|walker rest Hw _ IH]; intros st Hst H.
  - injection H as <-. exists []. split; [now rewrite app_nil_r|constructor].
  - cbn [visit_all] in H.
    destruct (visit_total E save frame semantic h w Hsem walker st Hw Hst)
      as (st1 & Hv & Hst1).
    rewrite Hv in H. cbn [Py.bind mbind result_bind] in H.
    destruct (IH st1 Hst1 H) as (new & Hnew & Hall').
    assert (Hall'' :
      Forall (fun d => exists walker0 bb,
                  walker0 ∈ walker :: rest /\ Walker.bb2d walker0 = Some bb
                  /\ d = detection_of frame walker0 bb) new).
    { eapply Forall_impl; [exact Hall'|].
      intros d (w0 & bb & Hin & Hbb & ->). exists w0, bb.
      split; [now right|auto]. }
    destruct (visit_written walker st st1 Hw Hst Hv) as [Heq|(bb & Hbb & Heq)].
    + exists new. split; [congruence|assumption].
    + exists (detection_of frame walker bb :: new). split.
      * rewrite Hnew, Heq, <- app_assoc. reflexivity.
      * constructor; [|assumption]. exists walker, bb.
        split; [now left|auto].
Qed.

End Written.

(** C10.  When the label of a frame parses and the semantic raster is a
    rectangular array, the frame is processed to the end, and every line
    it writes to gt.txt is [gt_line d] for a detection [d] whose width field
    is at least 18 and whose height field is at least 36. *)
Theorem written_boxes_at_least_18_by_36
  (E : Extern) (save : bool) (frame : Z) (semantic : list (list pixel))
  (label : list string) (walkers : list Walker.t) :
  parse_label E label = Ok walkers ->
  rectangular semantic ->
  exists st,
    process_frame E save frame semantic label = Ok st
    /\ forall line,
        line ∈ gt_lines st ->
        exists d,
          line = gt_line d /\ 18 <= det_width d /\ 36 <= det_height d.
Proof.
  intros Hparse Hsem. unfold process_frame. rewrite Hparse.
  cbn [Py.bind mbind result_bind].
  pose proof (sort_walkers_built E walkers (parse_label_built E label walkers Hparse))
    as Hbuilt.
  destruct (shape_nat semantic) as [Hh Hw].
  destruct (visit_all_total E save (frame + 1) semantic _ _ Hsem
              (sort_walkers walkers) (first_state semantic) Hbuilt
              (has_shape_first_state semantic)) as (st & Hrun & _).
  pose proof (visit_all_written E save (frame + 1) semantic _ _ Hsem
                (sort_walkers walkers) (first_state semantic) st Hbuilt
                (has_shape_first_state semantic) Hrun) as (new & Hnew & Hall).
  rewrite Hh, Hw in Hrun. exists st. split; [exact Hrun|].
  intros line Hline. unfold gt_lines in Hline.
  apply list_elem_of_fmap in Hline as (d & -> & Hd).
  exists d. split; [reflexivity|].
  rewrite Hnew in Hd. cbn [first_state written app] in Hd.
  rewrite Forall_forall in Hall. rewrite Forall_forall in Hbuilt.
  destruct (Hall d Hd) as (walker & [[minx miny] [maxx maxy]] & Hin & Hbb & ->).
  destruct (built_bb2d E walker _ _ _ _ (Hbuilt walker Hin) Hbb) as (_ & _ & Hwd & Hht).
  cbn. lia.
Qed.

Lemma written_boxes_at_least_18_by_36_witness :
  exists st,
    process_frame Ref.extern true 0 Ref.all_pedestrian Ref.log_ahead = Ok st
    /\ forall line,
        line ∈ gt_lines st ->
        exists d,
          line = gt_line d /\ 18 <= det_width d /\ 36 <= det_height d.
Proof.
  apply (written_boxes_at_least_18_by_36 Ref.extern true 0 Ref.all_pedestrian
           Ref.log_ahead [Ref.ahead]).
  - vm_compute. reflexivity.
  - unfold rectangular, has_shape.
    apply (bool_decide_eq_true_1 _). vm_compute. reflexivity.
Defined.

(** ** The order of the distances *)

Section FloatOrder.

Ltac sf_cases :=
  repeat match goal with
    | |- context [Z.compare ?a ?b] => destruct (Z.compare_spec a b)
    | |- context [Pos.compare_cont Eq ?a ?b] =>
        change (Pos.compare_cont Eq a b) with (Pos.compare a b);
        destruct (Pos.compare_spec a b)
    end.

Lemma SFleb_total (x y : spec_float) :
  x <> S754_nan -> y <> S754_nan -> SFltb x y = false -> SFleb y x = true.
Proof.
  intros Hx Hy.
  destruct x as [[]|[]| |[] mx ex], y as [[]|[]| |[] my ey];
    try contradiction; unfold SFltb, SFleb, SFcompare;
    try reflexivity; try discriminate;
    sf_cases; cbn; intros; try reflexivity; try discriminate; exfalso; lia.
Qed.

Lemma SFleb_trans (x y z : spec_float) :
  SFleb x y = true -> SFleb y z = true -> SFleb x z = true.
Proof.
  destruct x as [[]|[]| |[] mx ex], y as [[]|[]| |[] my ey],
    z as [[]|[]| |[] mz ez];
    unfold SFleb, SFcompare; try reflexivity; try discriminate;
    sf_cases; cbn; intros; try reflexivity; try discriminate; exfalso; lia.
Qed.

Lemma SFltb_leb (x y : spec_float) : SFltb x y = true -> SFleb x y = true.
Proof.
  unfold SFltb, SFleb. destruct (SFcompare x y) as [[]|]; congruence.
Qed.

Local Open Scope float_scope.

Lemma is_nan_false (x : float) : is_nan x = false -> Prim2SF x <> S754_nan.
Proof.
  unfold is_nan. rewrite FloatAxioms.eqb_spec. intros H Hn. rewrite Hn in H. discriminate.
Qed.

Lemma leb_total (a b : float) :
  is_nan a = false -> is_nan b = false -> (a <? b) = false -> (b <=? a) = true.
Proof.
  intros Ha Hb. rewrite ltb_spec, leb_spec.
  apply SFleb_total; now apply is_nan_false.
Qed.

Lemma leb_trans (a b c : float) :
  (a <=? b) = true -> (b <=? c) = true -> (a <=? c) = true.
Proof. rewrite !leb_spec. apply SFleb_trans. Qed.

Lemma ltb_leb (a b : float) : (a <? b) = true -> (a <=? b) = true.
Proof. rewrite ltb_spec, leb_spec. apply SFltb_leb. Qed.

End FloatOrder.

(** ** The sort *)

Section Sort.

Lemma insert_walker_sorted (w : Walker.t) (l : list Walker.t) :
  has_distance w -> Forall has_distance l ->
  StronglySorted not_farther l -> StronglySorted not_farther (insert_walker w l).
Proof.
  intros Hw Hl Hs. induction Hs as [|v r Hs IH Hv]; cbn [insert_walker].
  - constructor; constructor.
  - apply Forall_cons in Hl as [Hnv Hl].
    destruct (_ <? _)%float eqn:Hlt.
    + apply ltb_leb in Hlt.
      constructor; [now constructor|].
      constructor; [exact Hlt|].
      eapply Forall_impl; [exact Hv|].
      intros b Hb. eapply leb_trans; eassumption.
    + constructor; [now apply IH|].
      rewrite insert_walker_perm. constructor; [|assumption].
      now apply leb_total.
Qed.

Lemma sort_walkers_sorted (walkers : list Walker.t) :
  Forall has_distance walkers -> StronglySorted not_farther (sort_walkers walkers).
Proof.
  unfold sort_walkers.
  assert (H : forall acc,
             Forall has_distance walkers -> Forall has_distance acc ->
             StronglySorted not_farther acc ->
             StronglySorted not_farther
               (fold_left (fun sorted w => insert_walker w sorted) walkers acc)).
  { induction walkers as [|w r IH]; intros acc Hws Hacc Hs; cbn [fold_left];
      [assumption|].
    apply Forall_cons in Hws as [Hw Hr].
    apply IH; [assumption| |now apply insert_walker_sorted].
    rewrite insert_walker_perm. now constructor. }
  intros Hws. apply H; [assumption|constructor|constructor].
Qed.

End Sort.

(** ** Assigned pixels stay assigned *)

Section Occlusion.

Context (E : Extern) (save : bool) (frame : Z).
Context (semantic : list (list pixel)) (h w : nat).
Context (Hsem : has_shape h w semantic).

Lemma claimable_assigned (inst : list (list Z)) (y x : nat) (v : Z) :
  cell inst y x = Some v -> v <> -1 -> claimable semantic inst (y, x) = false.
Proof.
  intros Hc Hv. unfold claimable. cbn [fst snd]. rewrite Hc.
  destruct (cell semantic y x); [|reflexivity].
  replace (v =? -1) with false by (symmetry; now apply Z.eqb_neq).
  reflexivity.
Qed.

(** A cell that holds an id other than -1 is left alone by every later
    walker. *)
Lemma visit_keeps_assigned (walker : Walker.t) (st st' : frame_state)
  (y x : nat) (v : Z) :
  built E walker ->
  has_shape h w (instance st) ->
  visit save frame semantic (Z.of_nat h) (Z.of_nat w) walker st = Ok st' ->
  cell (instance st) y x = Some v -> v <> -1 ->
  cell (instance st') y x = Some v.
Proof.
  intros Hbuilt Hst Hv Hc Hne.
  rewrite (visit_cell E save frame semantic h w Hsem walker st st' y x
             Hbuilt Hst Hv).
  destruct (Walker.bb2d walker); [|assumption].
  now rewrite (claimable_assigned _ _ _ _ Hc Hne), andb_false_r.
Qed.

Lemma visit_all_keeps_assigned (walkers : list Walker.t) (st st' : frame_state)
  (y x : nat) (v : Z) :
  Forall (built E) walkers ->
  has_shape h w (instance st) ->
  visit_all save frame semantic (Z.of_nat h) (Z.of_nat w) walkers st = Ok st' ->
  cell (instance st) y x = Some v -> v <> -1 ->
  cell (instance st') y x = Some v.
Proof.
  intros Hall. revert st.
  induction Hall as [|walker rest Hw _ IH]; intros st Hst H Hc Hne.
  - now injection H as <-.
  - cbn [visit_all] in H.
    destruct (visit_total E save frame semantic h w Hsem walker st Hw Hst)
      as (st1 & Hv & Hst1).
    rewrite Hv in H. cbn [Py.bind mbind result_bind] in H.
    apply (IH st1 Hst1 H); [|assumption].
    exact (visit_keeps_assigned walker st st1 y x v Hw Hst Hv Hc Hne).
Qed.

End Occlusion.

(** ** The distance is planar *)

Lemma built_dist (E : Extern) (a : Walker.t) :
  built E a ->
  let c := Camera.location (Walker.cam a) in
  let o := Walker.location a in
  Walker.dist a
  = ((loc.x c - loc.x o) * (loc.x c - loc.x o)
     + (loc.y c - loc.y o) * (loc.y c - loc.y o))%float.
Proof.
  intros (id & info & cam & H).
  apply Walker_init_Ok in H as (self & _ & Hd & _ & Hloc & Hcam & Hcam').
  cbn zeta. rewrite Hd. unfold get_distance. now rewrite Hloc, Hcam, Hcam'.
Qed.

(** C6, as the code has it.  The walkers of a frame are visited in the
    order of the sort by squared distance to the camera in the (x, y)
    plane, which is ascending when the distances are numbers; and a pixel
    that holds the id of a walker whose id is not -1 still holds it after
    any number of later walkers have been visited: it is never given to a
    walker farther away. *)
Theorem nearest_first_occlusion
  (E : Extern) (save : bool) (frame : Z) (semantic : list (list pixel))
  (label : list string) (walkers : list Walker.t) :
  parse_label E label = Ok walkers ->
  rectangular semantic ->
  let order := sort_walkers walkers in
  Permutation order walkers
  /\ (Forall has_distance walkers -> StronglySorted not_farther order)
  /\ Forall (fun a =>
               let c := Camera.location (Walker.cam a) in
               let o := Walker.location a in
               Walker.dist a
               = ((loc.x c - loc.x o) * (loc.x c - loc.x o)
                  + (loc.y c - loc.y o) * (loc.y c - loc.y o))%float) order
  /\ forall (pre : list Walker.t) (a : Walker.t) (mid rest : list Walker.t)
       (st_a st_later : frame_state) (y x : nat),
      order = pre ++ a :: mid ++ rest ->
      Walker.id a <> -1 ->
      visit_all save (frame + 1) semantic (shape0 semantic) (shape1 semantic)
        (pre ++ [a]) (first_state semantic) = Ok st_a ->
      visit_all save (frame + 1) semantic (shape0 semantic) (shape1 semantic)
        mid st_a = Ok st_later ->
      cell (instance st_a) y x = Some (Walker.id a) ->
      cell (instance st_later) y x = Some (Walker.id a).
Proof.
  intros Hparse Hsem. cbn zeta.
  pose proof (sort_walkers_built E walkers (parse_label_built E label walkers Hparse))
    as Hbuilt.
  split; [apply sort_walkers_perm|].
  split; [apply sort_walkers_sorted|].
  split; [eapply Forall_impl; [exact Hbuilt|apply built_dist]|].
  intros pre a mid rest st_a st_later y x Horder Hid Hrun_a Hrun_mid Hcell.
  rewrite Horder in Hbuilt.
  apply Forall_app in Hbuilt as [Hpre Hrest].
  apply Forall_cons in Hrest as [Ha Hrest].
  apply Forall_app in Hrest as [Hmid _].
  destruct (shape_nat semantic) as [Hh Hw].
  rewrite <- Hh, <- Hw in Hrun_a, Hrun_mid.
  destruct (visit_all_total E save (frame + 1) semantic _ _ Hsem (pre ++ [a])
              (first_state semantic)) as (st' & Hrun' & Hshape).
  { apply Forall_app. split; [assumption|]. now constructor. }
  { apply has_shape_first_state. }
  assert (st' = st_a) as -> by congruence.
  eapply (visit_all_keeps_assigned E save (frame + 1) semantic _ _ Hsem mid);
    eassumption.
Qed.

(** Let a walker whose id is not -1 be dropped at the visibility test.  No
    rectangle is drawn and no detection written for it; every pixel of its
    clamped rectangle that was unassigned and pedestrian holds its id after
    its scan, and still holds it after any number of later walkers, none of
    which can claim it. *)
Lemma visit_rejected_keeps
  (E : Extern) (save : bool) (frame : Z) (semantic : list (list pixel))
  (a : Walker.t) (rest : list Walker.t) (bb : (Z * Z) * (Z * Z))
  (st0 st1 st2 : frame_state) :
  built E a ->
  Forall (built E) rest ->
  rectangular semantic ->
  has_shape (Z.to_nat (shape0 semantic)) (Z.to_nat (shape1 semantic))
    (instance st0) ->
  Walker.bb2d a = Some bb ->
  Walker.id a <> -1 ->
  10 * claimed semantic (instance st0) (shape0 semantic) (shape1 semantic) bb
  < 2 * area bb ->
  visit save frame semantic (shape0 semantic) (shape1 semantic) a st0 = Ok st1 ->
  visit_all save frame semantic (shape0 semantic) (shape1 semantic) rest st1
  = Ok st2 ->
  (drawn st1 = drawn st0 /\ written st1 = written st0)
  /\ forall y x : nat,
      (y, x) ∈ clamped_pixels (shape0 semantic) (shape1 semantic) bb ->
      claimable semantic (instance st0) (y, x) = true ->
      cell (instance st1) y x = Some (Walker.id a)
      /\ cell (instance st2) y x = Some (Walker.id a)
      /\ claimable semantic (instance st2) (y, x) = false.
Proof.
  intros Ha Hrest Hsem Hst0 Hbb Hid Hlow Hv Hrun.
  destruct (shape_nat semantic) as [Hh Hw].
  revert Hlow Hv Hrun. rewrite <- Hh, <- Hw.
  set (h := Z.to_nat (shape0 semantic)) in *.
  set (w := Z.to_nat (shape1 semantic)) in *.
  intros Hlow Hv Hrun.
  destruct (visit_Some E save frame semantic h w Hsem a st0 bb Ha Hbb Hst0)
    as (Hshape & Hcnt & _ & Hv').
  rewrite Hv' in Hv. rewrite Hcnt in Hv.
  apply Z.ltb_lt in Hlow. rewrite Hlow in Hv. injection Hv as Hst1.
  assert (instance st1
          = (foldl (claim semantic (Walker.id a)) (instance st0, 0)
               (clamped_pixels (Z.of_nat h) (Z.of_nat w) bb)).1
          /\ drawn st1 = drawn st0 /\ written st1 = written st0)
    as (Hi & Hd & Hwr) by (rewrite <- Hst1; auto).
  rewrite <- Hi in Hshape.
  split; [split; assumption|].
  intros y x Hin Hcl.
  assert (H1 : cell (instance st1) y x = Some (Walker.id a)).
  { rewrite Hi.
    rewrite foldl_claim_cell_in by (apply NoDup_clamped_pixels || assumption).
    cbn [fst]. now rewrite Hcl. }
  assert (H2 : cell (instance st2) y x = Some (Walker.id a)).
  { exact (visit_all_keeps_assigned E save frame semantic h w Hsem rest st1 st2
             y x (Walker.id a) Hrest Hshape Hrun H1 Hid). }
  split; [exact H1|]. split; [exact H2|].
  eapply claimable_assigned; eassumption.
Qed.

Lemma nearest_first_occlusion_witness :
  exists st_a st_later,
    visit_all true 1 Ref.all_pedestrian 48 64 [Ref.nearer 5]
      (first_state Ref.all_pedestrian) = Ok st_a
    /\ visit_all true 1 Ref.all_pedestrian 48 64 [Ref.farther] st_a
       = Ok st_later
    /\ cell (instance st_a) 20 30 = Some 5
    /\ cell (instance st_later) 20 30 = Some 5.
Proof.
  assert (H : match visit_all true 1 Ref.all_pedestrian 48 64 [Ref.nearer 5]
                      (first_state Ref.all_pedestrian) with
              | Ok s =>
                  cell (instance s) 20 30 = Some 5
                  /\ match visit_all true 1 Ref.all_pedestrian 48 64
                             [Ref.farther] s with
                     | Ok _ => True
                     | Raise _ => False
                     end
              | Raise _ => False
              end) by (vm_compute; auto).
  destruct (visit_all true 1 Ref.all_pedestrian 48 64 [Ref.nearer 5]
              (first_state Ref.all_pedestrian)) as [st_a|e] eqn:Ha;
    [|contradiction].
  destruct H as [Hc H].
  destruct (visit_all true 1 Ref.all_pedestrian 48 64 [Ref.farther] st_a)
    as [st_later|e] eqn:Hb; [|contradiction].
  exists st_a, st_later.
  split; [reflexivity|]. split; [exact Hb|]. split; [exact Hc|].
  destruct (nearest_first_occlusion Ref.extern true 0 Ref.all_pedestrian
              (Ref.log_two "5") [Ref.nearer 5; Ref.farther])
    as (_ & _ & _ & Hkeep).
  - vm_compute. reflexivity.
  - unfold rectangular, has_shape.
    apply (bool_decide_eq_true_1 _). vm_compute. reflexivity.
  - apply (Hkeep [] (Ref.nearer 5) [Ref.farther] [] st_a st_later 20%nat 30%nat).
    + vm_compute. reflexivity.
    + cbn. lia.
    + exact Ha.
    + exact Hb.
    + exact Hc.
Defined.

(** C6, counterexample.  The nearer of two pedestrians carries the id -1.
    It is visited first and claims every pixel of its rectangle, the pixel
    (20, 30) among them: the scan body assigns its id there and counts the
    pixel, and its detection is written.  The id is the mark of an
    unassigned pixel, so the farther pedestrian claims the same pixel
    afterwards: at the end of the frame the pixel holds 7. *)
Lemma pixel_of_nearer_given_to_farther :
  parse_label Ref.extern (Ref.log_two "-1") = Ok [Ref.nearer (-1); Ref.farther]
  /\ sort_walkers [Ref.nearer (-1); Ref.farther]
     = [Ref.nearer (-1); Ref.farther]
  /\ (Walker.dist (Ref.nearer (-1)) <? Walker.dist Ref.farther)%float = true
  /\ scan_pixel Ref.all_pedestrian (Walker.id (Ref.nearer (-1))) 20 30
       (instance (first_state Ref.all_pedestrian), 0)
     = Ok (set_cell (instance (first_state Ref.all_pedestrian)) 20 30 (-1), 1)
  /\ match process_frame Ref.extern true 0 Ref.all_pedestrian
             (Ref.log_two "-1") with
     | Ok st =>
         cell (instance st) 20 30 = Some (Walker.id Ref.farther)
         /\ written st
            = [ detection_of 1 (Ref.nearer (-1)) ((21, 2), (42, 45));
                detection_of 1 Ref.farther ((22, 5), (41, 42)) ]
     | Raise _ => False
     end.
Proof.
  split; [vm_compute; reflexivity|].
  split; [vm_compute; reflexivity|].
  split; [vm_compute; reflexivity|].
  split; [vm_compute; reflexivity|].
  vm_compute. split; reflexivity.
Qed.

(** C7, counterexample.  The nearer of two pedestrians carries the id -1 and
    fails the visibility test: 160 of the 968 pixels of its rectangle are
    pedestrian.  It claims these 160 pixels, the pixel (20, 30) among them,
    and nothing is written for it.  The pixels do not block the farther
    pedestrian: it claims them in its turn, passes the test with them, and
    at the end of the frame the pixel holds 7. *)
Lemma pixels_of_rejected_walker_taken_over :
  claimed Ref.block (instance (first_state Ref.block)) 48 64 ((21, 2), (42, 45))
  = 160
  /\ area ((21, 2), (42, 45)) = 968
  /\ scan_pixel Ref.block (Walker.id (Ref.nearer (-1))) 20 30
       (instance (first_state Ref.block), 0)
     = Ok (set_cell (instance (first_state Ref.block)) 20 30 (-1), 1)
  /\ match visit true 1 Ref.block 48 64 (Ref.nearer (-1))
             (first_state Ref.block) with
     | Ok st1 =>
         written st1 = [] /\ drawn st1 = []
         /\ match visit_all true 1 Ref.block 48 64 [Ref.farther] st1 with
            | Ok st2 =>
                cell (instance st2) 20 30 = Some (Walker.id Ref.farther)
                /\ written st2
                   = [ detection_of 1 Ref.farther ((22, 5), (41, 42)) ]
            | Raise _ => False
            end
     | Raise _ => False
     end.
Proof.
  split; [vm_compute; reflexivity|].
  split; [vm_compute; reflexivity|].
  split; [vm_compute; reflexivity|].
  vm_compute. repeat split; reflexivity.
Qed.

(** ** Reading the actor lines *)

Lemma split_newline : split newline = [].
Proof. reflexivity. Qed.

Lemma read_walkers_stops (E : Extern) (cam : Camera.t) (short : string)
  (rest : list string) (acc : list Walker.t) :
  short = newline \/ (length (split short) < 10)%nat ->
  read_walkers E cam (short :: rest) acc = Ok acc.
Proof.
  intros Hshort. cbn [read_walkers].
  destruct (String.eqb short newline); [reflexivity|].
  destruct Hshort as [->|Hlen].
  - rewrite split_newline. reflexivity.
  - apply Nat.ltb_lt in Hlen. now rewrite Hlen.
Qed.

Lemma read_walkers_actors (E : Extern) (cam : Camera.t) (actors tail : list string)
  (acc : list Walker.t) :
  Forall (fun line => (10 <= length (split line))%nat) actors ->
  (forall acc', read_walkers E cam tail acc' = Ok acc') ->
  read_walkers E cam (actors ++ tail) acc
  = ws ← mapM (walker_of_line E cam) actors; Ok (acc ++ ws).
Proof.
  intros Hall Htail. revert acc.
  induction Hall as [|line actors Hline _ IH]; intros acc.
  - cbn [app mapM]. cbn. rewrite app_nil_r. apply Htail.
  - cbn [app read_walkers mapM].
    destruct (String.eqb line newline) eqn:Heq.
    { apply String.eqb_eq in Heq. subst line.
      rewrite split_newline in Hline. cbn in Hline. lia. }
    replace (length (split line) <? 10)%nat with false
      by (symmetry; apply Nat.ltb_ge; lia).
    unfold walker_of_line at 1.
    destruct (getitem (split line) 1) as [tok|e];
      cbn [Py.bind mbind result_bind]; [|reflexivity].
    destruct (Walker_init E tok (skipn 2 (split line)) cam) as [obj|e];
      cbn [Py.bind mbind result_bind]; [|reflexivity].
    rewrite IH.
    destruct (mapM (walker_of_line E cam) actors) as [ws|e];
      cbn [Py.bind mbind result_bind]; [|reflexivity].
    now rewrite <- app_assoc.
Qed.

(** C8.  A label file is a velocity line, a camera-setting line, a
    camera-pose line and actor lines of at least 10 tokens each.  If a blank
    line or a line of fewer than 10 tokens follows, nothing after it is
    read: the label parses as if the file ended before that line.  When the
    camera is built, the walkers of the frame are those of the actor lines
    before it, in order (or the exception that the first failing
    constructor raises), and the frame is processed with exactly them. *)
Theorem short_line_ends_actor_list
  (E : Extern) (save : bool) (frame : Z) (semantic : list (list pixel))
  (vel setting pose : string) (actors : list string) (short : string)
  (rest : list string) :
  Forall (fun line => (10 <= length (split line))%nat) actors ->
  short = newline \/ (length (split short) < 10)%nat ->
  let head := vel :: setting :: pose :: actors in
  parse_label E (head ++ short :: rest) = parse_label E head
  /\ (forall cam,
        Camera_init E (skipn 1 (split setting)) (skipn 1 (split pose)) = Ok cam ->
        parse_label E (head ++ short :: rest)
        = mapM (walker_of_line E cam) actors)
  /\ process_frame E save frame semantic (head ++ short :: rest)
     = process_frame E save frame semantic head.
Proof.
  intros Hall Hshort. cbn zeta.
  assert (Hparse :
    forall cam,
      Camera_init E (skipn 1 (split setting)) (skipn 1 (split pose)) = Ok cam ->
      parse_label E ((vel :: setting :: pose :: actors) ++ short :: rest)
      = mapM (walker_of_line E cam) actors
      /\ parse_label E (vel :: setting :: pose :: actors)
         = mapM (walker_of_line E cam) actors).
  { intros cam Hcam. unfold parse_label. cbn [app readline].
    rewrite Hcam. cbn [Py.bind mbind result_bind]. split.
    - rewrite (read_walkers_actors E cam actors (short :: rest) [] Hall)
        by (intros; now apply read_walkers_stops).
      now destruct (mapM _ _).
    - rewrite <- (app_nil_r actors) at 1.
      rewrite (read_walkers_actors E cam actors [] [] Hall)
        by reflexivity.
      now destruct (mapM _ _). }
  assert (Heq : parse_label E ((vel :: setting :: pose :: actors) ++ short :: rest)
                = parse_label E (vel :: setting :: pose :: actors)).
  { destruct (Camera_init E (skipn 1 (split setting)) (skipn 1 (split pose)))
      as [cam|e] eqn:Hcam.
    - destruct (Hparse cam eq_refl) as [-> ->]. reflexivity.
    - unfold parse_label. cbn [app readline]. now rewrite Hcam. }
  split; [exact Heq|]. split.
  - intros cam Hcam. now apply Hparse.
  - unfold process_frame. now rewrite Heq.
Qed.

Lemma short_line_ends_actor_list_witness :
  parse_label Ref.extern
    (Ref.log_two "5"
     ++ [ Ref.ln "walker 9 0.5";
          Ref.ln "walker 3 0.5 0.5 1 0 0 0 2 0 0 0 0 0" ])
  = Ok [Ref.nearer 5; Ref.farther].
Proof.
  assert (Hlog :
    Ref.log_two "5"
    ++ [ Ref.ln "walker 9 0.5";
         Ref.ln "walker 3 0.5 0.5 1 0 0 0 2 0 0 0 0 0" ]
    = (Ref.ln "0 0 0" :: Ref.ln "CAM 48 64 90" :: Ref.ln "0 0 0 0 0 0 0"
       :: [ Ref.ln "walker 5 0.5 0.5 1 0 0 0 2 0 0 0 0 0";
            Ref.ln "walker 7 1 1 2 0 0 0 4.5 0 0 0 0 0" ])
      ++ Ref.ln "walker 9 0.5"
      :: [ Ref.ln "walker 3 0.5 0.5 1 0 0 0 2 0 0 0 0 0" ])
    by (vm_compute; reflexivity).
  rewrite Hlog.
  destruct (short_line_ends_actor_list Ref.extern true 0 Ref.all_pedestrian
              (Ref.ln "0 0 0") (Ref.ln "CAM 48 64 90") (Ref.ln "0 0 0 0 0 0 0")
              [ Ref.ln "walker 5 0.5 0.5 1 0 0 0 2 0 0 0 0 0";
                Ref.ln "walker 7 1 1 2 0 0 0 4.5 0 0 0 0 0" ]
              (Ref.ln "walker 9 0.5")
              [ Ref.ln "walker 3 0.5 0.5 1 0 0 0 2 0 0 0 0 0" ])
    as (Heq & _ & _).
  - constructor; [vm_compute; lia|].
    constructor; [vm_compute; lia|constructor].
  - right. vm_compute. lia.
  - rewrite Heq. vm_compute. reflexivity.
Defined.

(** ** The occlusion loop of a frame

    In [process_frame] the walkers of the label are sorted and visited in
    turn, from [first_state].  The statements below are about a walker [a]
    when its turn comes: the walkers [pre] have been visited, which has left
    the state [st]. *)

Section OcclusionStage.

Context (E : Extern) (save : bool) (frame : Z).
Context (semantic : list (list pixel)) (label : list string).
Context (walkers pre post : list Walker.t) (a : Walker.t) (st : frame_state).
Context (Hparse : parse_label E label = Ok walkers).
Context (Hsem : rectangular semantic).
Context (Horder : sort_walkers walkers = pre ++ a :: post).
Context (Hpre :
  visit_all save (frame + 1) semantic (shape0 semantic) (shape1 semantic)
    pre (first_state semantic) = Ok st).

Lemma occlusion_stage :
  built E a
  /\ Forall (built E) post
  /\ has_shape (Z.to_nat (shape0 semantic)) (Z.to_nat (shape1 semantic))
       (instance st).
Proof.
  pose proof (sort_walkers_built E walkers (parse_label_built E label walkers Hparse))
    as Hbuilt.
  rewrite Horder in Hbuilt.
  apply Forall_app in Hbuilt as [Hbpre Hrest].
  apply Forall_cons in Hrest as [Ha Hpost].
  split; [assumption|]. split; [assumption|].
  destruct (shape_nat semantic) as [Hh Hw].
  destruct (visit_all_total E save (frame + 1) semantic _ _ Hsem pre
              (first_state semantic) Hbpre (has_shape_first_state semantic))
    as (st' & Hrun & Hshape).
  rewrite Hh, Hw in Hrun. congruence.
Qed.

End OcclusionStage.

(** C2.  In a frame whose label parses and whose raster is a rectangular
    array, let the turn of a walker with rectangle [bb] come.  [visit]
    returns; with [n] the number of pixels of the clamped rectangle that are
    unassigned and pedestrian at that time, the detection is kept (drawn,
    and written when saving) if [10 * n >= 2 * area], and dropped if
    [10 * n < 2 * area]. *)
Theorem accepted_iff_fifth_claimed
  (E : Extern) (save : bool) (frame : Z) (semantic : list (list pixel))
  (label : list string) (walkers pre post : list Walker.t) (a : Walker.t)
  (st : frame_state) (bb : (Z * Z) * (Z * Z)) :
  parse_label E label = Ok walkers ->
  rectangular semantic ->
  sort_walkers walkers = pre ++ a :: post ->
  visit_all save (frame + 1) semantic (shape0 semantic) (shape1 semantic)
    pre (first_state semantic) = Ok st ->
  Walker.bb2d a = Some bb ->
  let n := claimed semantic (instance st) (shape0 semantic) (shape1 semantic) bb in
  exists st',
    visit save (frame + 1) semantic (shape0 semantic) (shape1 semantic) a st
    = Ok st'
    /\ (10 * n >= 2 * area bb ->
        drawn st' = drawn st ++ [bb]
        /\ written st'
           = if save then written st ++ [detection_of (frame + 1) a bb]
             else written st)
    /\ (10 * n < 2 * area bb ->
        drawn st' = drawn st /\ written st' = written st).
Proof.
  intros Hparse Hsem Horder Hpre Hbb.
  destruct (occlusion_stage E save frame semantic label walkers pre post a st
              Hparse Hsem Horder Hpre) as (Ha & _ & Hst).
  now apply (visit_accepted_iff E).
Qed.

Lemma accepted_iff_fifth_claimed_witness :
  exists st',
    visit true 1 Ref.all_pedestrian 48 64 Ref.ahead
      (first_state Ref.all_pedestrian) = Ok st'
    /\ drawn st' = [((21, 2), (42, 45))]
    /\ written st' = [detection_of 1 Ref.ahead ((21, 2), (42, 45))].
Proof.
  destruct (accepted_iff_fifth_claimed Ref.extern true 0 Ref.all_pedestrian
              Ref.log_ahead [Ref.ahead] [] [] Ref.ahead
              (first_state Ref.all_pedestrian) ((21, 2), (42, 45)))
    as (st' & Hv & Hkeep & _).
  - vm_compute. reflexivity.
  - unfold rectangular, has_shape.
    apply (bool_decide_eq_true_1 _). vm_compute. reflexivity.
  - vm_compute. reflexivity.
  - reflexivity.
  - reflexivity.
  - exists st'. split; [exact Hv|]. apply Hkeep. vm_compute. discriminate.
Defined.

(** C5.  (1) At any pixel, the scan body assigns the pixel and counts it
    only if the buffer holds -1 there and the semantic raster holds the
    triple (60, 20, 220) at that moment.  (2) In a frame, over the whole
    scan of a walker: a cell of the buffer that differs after the scan held
    -1 before it, lies in the clamped rectangle of the walker, is pedestrian
    in the semantic raster, and now holds the walker's id. *)
Theorem claimed_only_if_unassigned_pedestrian
  (E : Extern) (save : bool) (frame : Z) (semantic : list (list pixel))
  (label : list string) (walkers pre post : list Walker.t) (a : Walker.t)
  (st st' : frame_state) :
  parse_label E label = Ok walkers ->
  rectangular semantic ->
  sort_walkers walkers = pre ++ a :: post ->
  visit_all save (frame + 1) semantic (shape0 semantic) (shape1 semantic)
    pre (first_state semantic) = Ok st ->
  visit save (frame + 1) semantic (shape0 semantic) (shape1 semantic) a st
  = Ok st' ->
  (forall (y x : nat) (s s' : list (list Z) * Z),
      scan_pixel semantic (Walker.id a) (Z.of_nat y) (Z.of_nat x) s = Ok s' ->
      s' <> s ->
      cell s.1 y x = Some (-1)
      /\ cell semantic y x = Some (60, 20, 220)
      /\ s' = (set_cell s.1 y x (Walker.id a), s.2 + 1))
  /\ (forall y x : nat,
        cell (instance st') y x <> cell (instance st) y x ->
        cell (instance st) y x = Some (-1)
        /\ cell semantic y x = Some (60, 20, 220)
        /\ cell (instance st') y x = Some (Walker.id a)
        /\ exists bb,
            Walker.bb2d a = Some bb
            /\ (y, x) ∈ clamped_pixels (shape0 semantic) (shape1 semantic) bb).
Proof.
  intros Hparse Hsem Horder Hpre Hv.
  destruct (occlusion_stage E save frame semantic label walkers pre post a st
              Hparse Hsem Horder Hpre) as (Ha & _ & Hst).
  split.
  - intros y x s s'. apply scan_pixel_changes.
  - now apply (visit_changes_only_claimable E save (frame + 1) semantic a st st').
Qed.

Lemma claimed_only_if_unassigned_pedestrian_witness :
  exists st',
    visit true 1 Ref.all_pedestrian 48 64 Ref.ahead
      (first_state Ref.all_pedestrian) = Ok st'
    /\ cell (instance (first_state Ref.all_pedestrian)) 20 30 = Some (-1)
    /\ cell Ref.all_pedestrian 20 30 = Some (60, 20, 220)
    /\ cell (instance st') 20 30 = Some 7.
Proof.
  assert (H : match visit true 1 Ref.all_pedestrian 48 64 Ref.ahead
                      (first_state Ref.all_pedestrian) with
              | Ok s => cell (instance s) 20 30 = Some 7
              | Raise _ => False
              end) by (vm_compute; reflexivity).
  destruct (visit true 1 Ref.all_pedestrian 48 64 Ref.ahead
              (first_state Ref.all_pedestrian)) as [st'|e] eqn:Hv;
    [|contradiction].
  exists st'. split; [reflexivity|].
  destruct (claimed_only_if_unassigned_pedestrian Ref.extern true 0
              Ref.all_pedestrian Ref.log_ahead [Ref.ahead] [] [] Ref.ahead
              (first_state Ref.all_pedestrian) st')
    as [_ Hscan].
  - vm_compute. reflexivity.
  - unfold rectangular, has_shape.
    apply (bool_decide_eq_true_1 _). vm_compute. reflexivity.
  - vm_compute. reflexivity.
  - reflexivity.
  - exact Hv.
  - destruct (Hscan 20%nat 30%nat) as (H1 & H2 & H3 & _); [|auto].
    rewrite H. vm_compute. discriminate.
Defined.

(** C7, as the code has it.  In a frame, let a walker whose id is not -1 be
    dropped at the visibility test: fewer than a fifth of the pixels of its
    rectangle are unassigned and pedestrian.  No rectangle is drawn and no
    detection written for it; every one of those pixels holds its id after
    its scan, and still holds it after any number of later walkers of the
    frame, none of which can claim it. *)
Theorem rejected_walker_keeps_its_pixels
  (E : Extern) (save : bool) (frame : Z) (semantic : list (list pixel))
  (label : list string) (walkers pre mid rest : list Walker.t) (a : Walker.t)
  (bb : (Z * Z) * (Z * Z)) (st st1 st2 : frame_state) :
  parse_label E label = Ok walkers ->
  rectangular semantic ->
  sort_walkers walkers = pre ++ a :: mid ++ rest ->
  visit_all save (frame + 1) semantic (shape0 semantic) (shape1 semantic)
    pre (first_state semantic) = Ok st ->
  Walker.bb2d a = Some bb ->
  Walker.id a <> -1 ->
  10 * claimed semantic (instance st) (shape0 semantic) (shape1 semantic) bb
  < 2 * area bb ->
  visit save (frame + 1) semantic (shape0 semantic) (shape1 semantic) a st
  = Ok st1 ->
  visit_all save (frame + 1) semantic (shape0 semantic) (shape1 semantic)
    mid st1 = Ok st2 ->
  (drawn st1 = drawn st /\ written st1 = written st)
  /\ forall y x : nat,
      (y, x) ∈ clamped_pixels (shape0 semantic) (shape1 semantic) bb ->
      claimable semantic (instance st) (y, x) = true ->
      cell (instance st1) y x = Some (Walker.id a)
      /\ cell (instance st2) y x = Some (Walker.id a)
      /\ claimable semantic (instance st2) (y, x) = false.
Proof.
  intros Hparse Hsem Horder Hpre Hbb Hid Hlow Hv Hmid.
  destruct (occlusion_stage E save frame semantic label walkers pre
              (mid ++ rest) a st Hparse Hsem Horder Hpre) as (Ha & Hpost & Hst).
  apply Forall_app in Hpost as [Hbmid _].
  now apply (visit_rejected_keeps E save (frame + 1) semantic a mid bb st st1 st2).
Qed.

Lemma rejected_walker_keeps_its_pixels_witness :
  exists st1 st2,
    visit true 1 Ref.block 48 64 (Ref.nearer 5) (first_state Ref.block) = Ok st1
    /\ visit_all true 1 Ref.block 48 64 [Ref.farther] st1 = Ok st2
    /\ written st1 = []
    /\ cell (instance st2) 20 30 = Some 5
    /\ written st2 = [].
Proof.
  assert (H : match visit true 1 Ref.block 48 64 (Ref.nearer 5)
                      (first_state Ref.block) with
              | Ok s =>
                  match visit_all true 1 Ref.block 48 64 [Ref.farther] s with
                  | Ok s' => written s' = []
                  | Raise _ => False
                  end
              | Raise _ => False
              end) by (vm_compute; reflexivity).
  destruct (visit true 1 Ref.block 48 64 (Ref.nearer 5) (first_state Ref.block))
    as [st1|e] eqn:Hv; [|contradiction].
  destruct (visit_all true 1 Ref.block 48 64 [Ref.farther] st1)
    as [st2|e] eqn:Hrun; [|contradiction].
  exists st1, st2. split; [reflexivity|]. split; [exact Hrun|].
  destruct (rejected_walker_keeps_its_pixels Ref.extern true 0 Ref.block
              (Ref.log_two "5") [Ref.nearer 5; Ref.farther] [] [Ref.farther] []
              (Ref.nearer 5) ((21, 2), (42, 45))
              (first_state Ref.block) st1 st2)
    as ((_ & Hwr) & Hkeep).
  - vm_compute. reflexivity.
  - unfold rectangular, has_shape.
    apply (bool_decide_eq_true_1 _). vm_compute. reflexivity.
  - vm_compute. reflexivity.
  - reflexivity.
  - reflexivity.
  - cbn. lia.
  - vm_compute. reflexivity.
  - exact Hv.
  - exact Hrun.
  - split; [exact Hwr|]. split; [|exact H].
    apply (Hkeep 20%nat 30%nat).
    + apply (bool_decide_eq_true_1 _). vm_compute. reflexivity.
    + vm_compute. reflexivity.
Defined.


(** * Further properties

    Properties of the code that the statements above leave aside: the depth
    test from both sides, the arity of the lines of a label, the order and
    the stability of the sort, what a frame draws and writes, the numbering
    of the frames in the main loop, and gt.txt as cleansing.py reads it. *)

(** ** The depth test *)

Lemma forallb_false_elem {A : Type} (f : A -> bool) (l : list A) :
  forallb f l = false <-> exists a, a ∈ l /\ f a = false.
Proof.
  induction l as [|a l IH]; cbn.
  - split; [discriminate|]. intros (a & Ha & _). inversion Ha.
  - rewrite andb_false_iff, IH. split.
    + intros [H|(b & Hb & H)]; [exists a|exists b]; split; auto; now constructor.
    + intros (b & Hb & H). apply elem_of_cons in Hb as [->|Hb]; eauto.
Qed.

Lemma is_nan_Prim2SF (d : float) : is_nan d = true -> Prim2SF d = S754_nan.
Proof.
  unfold is_nan. rewrite FloatAxioms.eqb_spec.
  destruct (Prim2SF d) as [[]|[]| |[] m e];
    unfold SFeqb, SFcompare; try reflexivity; try discriminate.
  all: now rewrite Z.compare_refl, Pos.compare_cont_refl.
Qed.

(** Every comparison with nan is false. *)
Lemma nan_not_lt (d x : float) :
  is_nan d = true -> (d <? x)%float = false /\ (x <? d)%float = false.
Proof.
  intros H. apply is_nan_Prim2SF in H. rewrite !ltb_spec, H.
  split; [reflexivity|]. now destruct (Prim2SF x) as [[]|[]| |[] m e].
Qed.

(** X1.  Let the inversion of the camera pose succeed.  [get_bounding_box]
    returns the 8 projected corners or [None], and it returns [None]
    exactly when some corner has a depth that is not [> 0] and some corner
    has a depth that is not [< 60].  So a box with every corner in front of
    the camera is kept at any distance, beyond 60 too, and a box with a
    corner of depth nan is rejected. *)
Theorem depth_test_rejects_iff (E : Extern) (self : Walker.t)
  (cords : list np.vec4) :
  walker_to_sensor E self (create_bb_points self) = Ok cords ->
  let bb := map (project_corner (Camera.calibration (Walker.cam self))) cords in
  (get_bounding_box E self = Ok None <->
   (exists p, p ∈ bb /\ (0 <? corner_depth p)%float = false)
   /\ (exists p, p ∈ bb /\ (corner_depth p <? 60)%float = false))
  /\ (get_bounding_box E self = Ok None \/ get_bounding_box E self = Ok (Some bb))
  /\ (Forall (fun p => (0 <? corner_depth p)%float = true) bb ->
      get_bounding_box E self = Ok (Some bb))
  /\ (forall p, p ∈ bb -> is_nan (corner_depth p) = true ->
      get_bounding_box E self = Ok None).
Proof.
  intros Hc. cbv zeta. unfold get_bounding_box. rewrite Hc.
  cbn [mbind result_bind Py.bind]. cbv zeta.
  set (bb := map _ cords).
  assert (Hiff : depth_test bb = true <->
    (exists p, p ∈ bb /\ (0 <? corner_depth p)%float = false)
    /\ (exists p, p ∈ bb /\ (corner_depth p <? 60)%float = false)).
  { unfold depth_test.
    rewrite andb_true_iff, !negb_true_iff, !forallb_false_elem. reflexivity. }
  split; [|split; [|split]].
  - rewrite <- Hiff. destruct (depth_test bb); split; congruence.
  - destruct (depth_test bb); auto.
  - intros Hall. destruct (depth_test bb) eqn:Ht; [|reflexivity].
    destruct (proj1 Hiff eq_refl) as [(p & Hp & Hlt) _].
    rewrite Forall_forall in Hall. rewrite (Hall p Hp) in Hlt. discriminate.
  - intros p Hp Hnan. replace (depth_test bb) with true; [reflexivity|].
    symmetry. apply Hiff. split; exists p; split; try assumption.
    + exact (proj2 (nan_not_lt _ 0%float Hnan)).
    + exact (proj1 (nan_not_lt _ 60%float Hnan)).
Qed.

Lemma depth_test_rejects_iff_witness :
  exists bb,
    get_bounding_box Ref.extern Ex.far_ahead = Ok (Some bb)
    /\ Forall (fun p => (60 <? corner_depth p)%float = true) bb
    /\ parse_label Ref.extern Ex.log_far_ahead = Ok [Ex.far_ahead].
Proof.
  destruct (walker_to_sensor Ref.extern Ex.far_ahead
              (create_bb_points Ex.far_ahead)) as [cords|e] eqn:Hc;
    [|vm_compute in Hc; discriminate].
  destruct (depth_test_rejects_iff Ref.extern Ex.far_ahead cords Hc)
    as (_ & _ & Hfront & _).
  eexists. split; [apply Hfront|split].
  - injection Hc as <-. vm_compute. repeat constructor.
  - injection Hc as <-. vm_compute. repeat constructor.
  - vm_compute. reflexivity.
Defined.

(** ** The squared distance *)

Lemma binary_round_aux_nonneg (prec emax mx ex : Z) (lx : location) :
  sf_nonneg (binary_round_aux prec emax false mx ex lx).
Proof.
  unfold binary_round_aux.
  destruct (shr_fexp prec emax mx ex lx) as [mrs' e'].
  destruct (shr_fexp prec emax _ e' loc_Exact) as [mrs'' e''].
  destruct (shr_m mrs''); cbn; [reflexivity| |exact I].
  destruct (_ <=? _); reflexivity.
Qed.

Lemma SFmul_square_nonneg (prec emax : Z) (x : spec_float) :
  sf_nonneg (SFmul prec emax x x).
Proof.
  destruct x as [[]|[]| |[] m e]; cbn; try reflexivity; try exact I;
    apply binary_round_aux_nonneg.
Qed.

Lemma SFadd_nonneg (prec emax : Z) (x y : spec_float) :
  sf_nonneg x -> sf_nonneg y -> sf_nonneg (SFadd prec emax x y).
Proof.
  destruct x as [sx|sx| |sx mx ex], y as [sy|sy| |sy my ey]; cbn;
    intros Hx Hy; subst; cbn; try reflexivity; try exact I.
  change (Z.pos ?a + Z.pos ?b) with (Z.pos (a + b)).
  cbn [binary_normalize]. unfold binary_round.
  destruct (shl_align (_ + _) _ _) as [mz ez]. apply binary_round_aux_nonneg.
Qed.

Lemma sf_nonneg_leb (d : float) :
  sf_nonneg (Prim2SF d) -> is_nan d = true \/ (0 <=? d)%float = true.
Proof.
  unfold is_nan. rewrite FloatAxioms.eqb_spec, leb_spec, Prim2SF_zero.
  destruct (Prim2SF d) as [s|s| |s m e]; cbn; intros H; subst; auto.
Qed.

(** X2.  The key of the sort is never negative: the squared planar
    distance of a walker built by [Walker(...)] is nan or [>= 0]. *)
Theorem distance_not_negative (E : Extern) (w : Walker.t) :
  built E w ->
  is_nan (Walker.dist w) = true \/ (0 <=? Walker.dist w)%float = true.
Proof.
  intros Hw. rewrite (built_dist E w Hw). cbv zeta.
  apply sf_nonneg_leb. rewrite add_spec, !mul_spec.
  apply SFadd_nonneg; apply SFmul_square_nonneg.
Qed.

Lemma distance_not_negative_witness :
  is_nan (Walker.dist Ref.ahead) = true
  \/ (0 <=? Walker.dist Ref.ahead)%float = true.
Proof.
  apply (distance_not_negative Ref.extern).
  exists "7"%string,
    ["0.5"; "0.5"; "1"; "0"; "0"; "0"; "2"; "0"; "0"; "0"; "0"; "0"]%string,
    Ref.camera.
  vm_compute. reflexivity.
Defined.

(** ** The arity of the lines of a label *)

Lemma mapM_length {A B : Type} (f : A -> result B) (l : list A) (l' : list B) :
  mapM f l = Ok l' -> length l' = length l.
Proof.
  revert l'. induction l as [|a l IH]; intros l' H; cbn in H.
  - now injection H as <-.
  - destruct (f a) as [b|]; cbn in H; [|discriminate].
    destruct (mapM f l) as [bs|]; cbn in H; [|discriminate].
    injection H as <-. cbn. f_equal. now apply IH.
Qed.

Lemma mapM_Ok {A B : Type} (f : A -> result B) (l : list A) :
  Forall (fun a => exists b, f a = Ok b) l ->
  exists l', mapM f l = Ok l' /\ length l' = length l.
Proof.
  induction 1 as [|a l [b Hb] _ (l' & IH & Hlen)]; cbn.
  - now exists [].
  - rewrite Hb, IH. cbn. exists (b :: l'). split; [reflexivity|]. cbn. lia.
Qed.

Lemma length_slice {A : Type} (l : list A) (a b : nat) :
  length (slice l a b) = Nat.min (b - a) (length l - a).
Proof. unfold slice. now rewrite length_firstn, length_skipn. Qed.

Lemma getitem_long {A : Type} (l : list A) (i : nat) :
  (i < length l)%nat -> exists a, getitem l (Z.of_nat i) = Ok a /\ l !! i = Some a.
Proof.
  intros H. destruct (lookup_lt_is_Some_2 l i H) as [a Ha].
  exists a. split; [now apply getitem_nat|assumption].
Qed.

(** [loc(info)] and [rot(info)] read three entries: a list of fewer than
    three raises [IndexError]. *)
Lemma loc_init_short (l : list float) :
  (length l < 3)%nat -> loc.init l = Raise IndexError.
Proof.
  intros H. unfold loc.init.
  destruct l as [|a [|b [|c r]]]; cbn in H; try lia; reflexivity.
Qed.

Lemma rot_init_short (l : list float) :
  (length l < 3)%nat -> rot.init l = Raise IndexError.
Proof.
  intros H. unfold rot.init.
  destruct l as [|a [|b [|c r]]]; cbn in H; try lia; reflexivity.
Qed.

Lemma loc_init_long (l : list float) :
  (3 <= length l)%nat -> exists t, loc.init l = Ok t.
Proof.
  intros H. destruct l as [|a [|b [|c r]]]; cbn in H; try lia.
  eexists. unfold loc.init.
  change 0 with (Z.of_nat 0). change 1 with (Z.of_nat 1).
  change 2 with (Z.of_nat 2).
  rewrite (getitem_nat (a :: b :: c :: r) 0 a eq_refl).
  rewrite (getitem_nat (a :: b :: c :: r) 1 b eq_refl).
  rewrite (getitem_nat (a :: b :: c :: r) 2 c eq_refl). reflexivity.
Qed.

Lemma rot_init_long (l : list float) :
  (3 <= length l)%nat -> exists t, rot.init l = Ok t.
Proof.
  intros H. destruct l as [|a [|b [|c r]]]; cbn in H; try lia.
  eexists. unfold rot.init.
  change 0 with (Z.of_nat 0). change 1 with (Z.of_nat 1).
  change 2 with (Z.of_nat 2).
  rewrite (getitem_nat (a :: b :: c :: r) 0 a eq_refl).
  rewrite (getitem_nat (a :: b :: c :: r) 1 b eq_refl).
  rewrite (getitem_nat (a :: b :: c :: r) 2 c eq_refl). reflexivity.
Qed.

Lemma Forall_slice {A : Type} (P : A -> Prop) (l : list A) (a b : nat) :
  Forall P l -> Forall P (slice l a b).
Proof. intros H. unfold slice. now apply Forall_take, Forall_drop. Qed.

Lemma slice_firstn_6 {A : Type} (l : list A) (a b : nat) :
  (b <= 6)%nat -> slice (firstn 6 l) a b = slice l a b.
Proof.
  intros Hb. unfold slice. rewrite skipn_firstn_comm, firstn_firstn.
  f_equal. lia.
Qed.

Lemma Camera_init_Ok (E : Extern) (setting info : list string) (cam : Camera.t) :
  Camera_init E setting info = Ok cam ->
  length setting = 3%nat /\ (6 <= length info)%nat.
Proof.
  unfold Camera_init. intros H.
  destruct (mapM (py_float E) (slice info 0 3)) as [l|] eqn:Hl;
    cbn [mbind result_bind Py.bind] in H; [|discriminate].
  destruct (loc.init l); cbn [mbind result_bind Py.bind] in H; [|discriminate].
  destruct (mapM (py_float E) (slice info 3 6)) as [r|] eqn:Hr;
    cbn [mbind result_bind Py.bind] in H; [|discriminate].
  destruct (rot.init r) eqn:Hrot; cbn [mbind result_bind Py.bind] in H;
    [|discriminate].
  destruct (mapM (py_float E) setting) as [s|] eqn:Hs;
    cbn [mbind result_bind Py.bind] in H; [|discriminate].
  apply mapM_length in Hr, Hs. rewrite length_slice in Hr.
  split.
  - destruct s as [|s0 [|s1 [|s2 [|s3 s4]]]]; try discriminate. now rewrite <- Hs.
  - destruct (le_lt_dec 6 (length info)); [assumption|].
    rewrite rot_init_short in Hrot by lia. discriminate.
Qed.

Lemma Camera_init_arity (E : Extern) (setting info : list string) :
  Forall (is_float E) setting ->
  Forall (is_float E) (firstn 6 info) ->
  ((length info < 6)%nat -> Camera_init E setting info = Raise IndexError)
  /\ ((6 <= length info)%nat -> length setting <> 3%nat ->
      Camera_init E setting info = Raise ValueError)
  /\ ((6 <= length info)%nat -> length setting = 3%nat ->
      exists cam, Camera_init E setting info = Ok cam).
Proof.
  intros Hset Hinfo. unfold Camera_init.
  assert (Hs : forall a b, (b <= 6)%nat ->
                 exists l, mapM (py_float E) (slice info a b) = Ok l
                 /\ length l = Nat.min (b - a) (length info - a)).
  { intros a b Hb.
    destruct (mapM_Ok (py_float E) (slice info a b)) as (l & Hl & Hlen').
    - rewrite <- (slice_firstn_6 info a b Hb). now apply Forall_slice.
    - exists l. split; [assumption|]. now rewrite Hlen', length_slice. }
  destruct (Hs 0 3)%nat as (l & -> & Hl); [lia|].
  destruct (Hs 3 6)%nat as (r & Hr & Hlr); [lia|].
  destruct (mapM_Ok (py_float E) setting Hset) as (s & Hsok & Hls).
  cbn [mbind result_bind Py.bind].
  split; [|split].
  - intros Hlen. destruct (le_lt_dec 3 (length info)) as [H3|H3].
    + destruct (loc_init_long l ltac:(lia)) as [t ->].
      cbn [mbind result_bind Py.bind]. rewrite Hr.
      cbn [mbind result_bind Py.bind].
      rewrite rot_init_short by lia. reflexivity.
    + rewrite loc_init_short by lia. reflexivity.
  - intros Hlen Hne.
    destruct (loc_init_long l ltac:(lia)) as [t ->].
    cbn [mbind result_bind Py.bind]. rewrite Hr.
    cbn [mbind result_bind Py.bind].
    destruct (rot_init_long r ltac:(lia)) as [t' ->].
    cbn [mbind result_bind Py.bind]. rewrite Hsok.
    cbn [mbind result_bind Py.bind].
    destruct s as [|s0 [|s1 [|s2 [|s3 s4]]]]; try reflexivity.
    cbn in Hls. lia.
  - intros Hlen He.
    destruct (loc_init_long l ltac:(lia)) as [t ->].
    cbn [mbind result_bind Py.bind]. rewrite Hr.
    cbn [mbind result_bind Py.bind].
    destruct (rot_init_long r ltac:(lia)) as [t' ->].
    cbn [mbind result_bind Py.bind]. rewrite Hsok.
    cbn [mbind result_bind Py.bind].
    destruct s as [|s0 [|s1 [|s2 [|s3 s4]]]]; cbn in Hls; try lia.
    eexists. reflexivity.
Qed.

(** X3.  The header of a label file.  An empty file raises [IndexError].
    A label that parses has exactly three values after the first token of
    its second line and at least six after the first token of its third
    line.  When these values are tokens that [float] accepts: fewer than
    six in the third line raise [IndexError], a number other than three in
    the second line raises [ValueError], and otherwise the camera is built
    and the actor lines are read. *)
Theorem label_header_arity
  (E : Extern) (vel setting pose : string) (actors : list string) :
  let label := vel :: setting :: pose :: actors in
  parse_label E [] = Raise IndexError
  /\ (forall walkers,
        parse_label E label = Ok walkers ->
        length (split setting) = 4%nat /\ (7 <= length (split pose))%nat)
  /\ (Forall (is_float E) (skipn 1 (split setting)) ->
      Forall (is_float E) (firstn 6 (skipn 1 (split pose))) ->
      ((length (split pose) < 7)%nat ->
       parse_label E label = Raise IndexError)
      /\ ((7 <= length (split pose))%nat ->
          length (split setting) <> 4%nat ->
          parse_label E label = Raise ValueError)
      /\ ((7 <= length (split pose))%nat ->
          length (split setting) = 4%nat ->
          exists cam,
            Camera_init E (skipn 1 (split setting)) (skipn 1 (split pose))
            = Ok cam
            /\ parse_label E label = read_walkers E cam actors [])).
Proof.
  cbv zeta. split; [reflexivity|]. split.
  - intros walkers H. unfold parse_label in H. cbn [readline] in H.
    destruct (Camera_init E _ _) as [cam|] eqn:Hcam;
      cbn [mbind result_bind Py.bind] in H; [|discriminate].
    apply Camera_init_Ok in Hcam as [H3 H6].
    rewrite length_skipn in H3, H6. lia.
  - intros Hset Hpose.
    destruct (Camera_init_arity E _ _ Hset Hpose) as (Hidx & Hval & Hok).
    rewrite !length_skipn in Hidx, Hval, Hok.
    unfold parse_label. cbn [readline].
    split; [|split].
    + intros H. rewrite Hidx by lia. reflexivity.
    + intros H Hne. rewrite Hval by (rewrite ?length_skipn; lia). reflexivity.
    + intros H He. destruct Hok as [cam Hcam]; [lia|rewrite length_skipn; lia|].
      exists cam. split; [assumption|]. rewrite Hcam. reflexivity.
Qed.

Lemma label_header_arity_witness :
  parse_label Ref.extern
    [ Ref.ln "0 0 0"; Ref.ln "CAM 48 64"; Ref.ln "0 0 0 0 0 0 0" ]
  = Raise ValueError
  /\ parse_label Ref.extern
       [ Ref.ln "0 0 0"; Ref.ln "CAM 48 64 90"; Ref.ln "0 0 0 0 0" ]
     = Raise IndexError.
Proof.
  split.
  - apply (label_header_arity Ref.extern (Ref.ln "0 0 0") (Ref.ln "CAM 48 64")
             (Ref.ln "0 0 0 0 0 0 0") []).
    + vm_compute. repeat constructor; eexists; vm_compute; reflexivity.
    + vm_compute. repeat constructor; eexists; vm_compute; reflexivity.
    + vm_compute. lia.
    + vm_compute. discriminate.
  - apply (label_header_arity Ref.extern (Ref.ln "0 0 0") (Ref.ln "CAM 48 64 90")
             (Ref.ln "0 0 0 0 0") []).
    + vm_compute. repeat constructor; eexists; vm_compute; reflexivity.
    + vm_compute. repeat constructor; eexists; vm_compute; reflexivity.
    + vm_compute. lia.
Defined.

(** [Walker(id, info, cam)] needs 12 entries in [info]. *)
Lemma Walker_init_short (E : Extern) (id : string) (info : list string)
  (cam : Camera.t) :
  (length info < 12)%nat ->
  (exists e, Walker_init E id info cam = Raise e)
  /\ ((exists n, py_int E id = Ok n) -> Forall (is_float E) info ->
      Walker_init E id info cam = Raise IndexError).
Proof.
  intros Hlen. split.
  - destruct (Walker_init E id info cam) as [w|e] eqn:H; [|eauto].
    exfalso. unfold Walker_init in H.
    repeat match type of H with
      | mapM (py_float E) (slice info 9 12) ≫= _ = Ok _ => fail 1
      | ?m ≫= _ = Ok _ =>
          destruct m; cbn [mbind result_bind Py.bind] in H; [|discriminate]
      end.
    destruct (mapM (py_float E) (slice info 9 12)) as [r|] eqn:Hr;
      cbn [mbind result_bind Py.bind] in H; [|discriminate].
    apply mapM_length in Hr. rewrite length_slice in Hr.
    rewrite rot_init_short in H by lia. discriminate.
  - intros [n Hn] Hall. unfold Walker_init. rewrite Hn.
    cbn [mbind result_bind Py.bind].
    destruct (le_lt_dec 3 (length info)) as [H3|H3].
    2:{ destruct info as [|a [|b [|c r]]]; cbn in H3; try lia; reflexivity. }
    destruct (getitem_long info 0 ltac:(lia)) as (e0 & Hg0 & He0).
    destruct (getitem_long info 1 ltac:(lia)) as (e1 & Hg1 & He1).
    destruct (getitem_long info 2 ltac:(lia)) as (e2 & Hg2 & He2).
    change (Z.of_nat 0) with 0 in Hg0. change (Z.of_nat 1) with 1 in Hg1.
    change (Z.of_nat 2) with 2 in Hg2. rewrite Hg0, Hg1, Hg2.
    cbn [mbind result_bind Py.bind].
    rewrite Forall_forall in Hall.
    destruct (Hall e0 (list_elem_of_lookup_2 _ _ _ He0)) as [x0 Hx0].
    destruct (Hall e1 (list_elem_of_lookup_2 _ _ _ He1)) as [x1 Hx1].
    destruct (Hall e2 (list_elem_of_lookup_2 _ _ _ He2)) as [x2 Hx2].
    unfold Extent_init. rewrite Hx0, Hx1, Hx2. cbn [mbind result_bind Py.bind].
    assert (Hs : forall a b, exists l, mapM (py_float E) (slice info a b) = Ok l
                 /\ length l = Nat.min (b - a) (length info - a)).
    { intros a b. destruct (mapM_Ok (py_float E) (slice info a b)) as (l & Hl & Hlen').
      - apply Forall_slice. now apply Forall_forall.
      - exists l. split; [assumption|]. now rewrite Hlen', length_slice. }
    destruct (Hs 3 6)%nat as (l1 & -> & Hl1). cbn [mbind result_bind Py.bind].
    destruct (le_lt_dec 6 (length info)) as [H6|H6].
    2:{ rewrite loc_init_short by lia. reflexivity. }
    destruct (loc_init_long l1 ltac:(lia)) as [t1 ->].
    cbn [mbind result_bind Py.bind].
    destruct (Hs 6 9)%nat as (l2 & -> & Hl2). cbn [mbind result_bind Py.bind].
    destruct (le_lt_dec 9 (length info)) as [H9|H9].
    2:{ rewrite loc_init_short by lia. reflexivity. }
    destruct (loc_init_long l2 ltac:(lia)) as [t2 ->].
    cbn [mbind result_bind Py.bind].
    destruct (Hs 9 12)%nat as (l3 & -> & Hl3). cbn [mbind result_bind Py.bind].
    rewrite rot_init_short by lia. reflexivity.
Qed.

(** X4.  An actor line of 10 to 13 tokens passes the length test of line
    227 and is handed to [Walker(...)], which reads 14: the loop does not
    stop at the line, it raises; [IndexError] when the id and the values are
    tokens that [int] and [float] accept. *)
Theorem actor_line_of_10_to_13_tokens_raises
  (E : Extern) (cam : Camera.t) (line : string) (rest : list string)
  (acc : list Walker.t) :
  (10 <= length (split line) < 14)%nat ->
  (exists e, read_walkers E cam (line :: rest) acc = Raise e)
  /\ ((exists tok n, split line !! 1%nat = Some tok /\ py_int E tok = Ok n) ->
      Forall (is_float E) (skipn 2 (split line)) ->
      read_walkers E cam (line :: rest) acc = Raise IndexError).
Proof.
  intros [Hlo Hhi]. cbn [read_walkers].
  destruct (String.eqb line newline) eqn:Heq.
  { apply String.eqb_eq in Heq. subst line. rewrite split_newline in Hlo.
    cbn in Hlo. lia. }
  replace (length (split line) <? 10)%nat with false
    by (symmetry; apply Nat.ltb_ge; lia).
  destruct (getitem_long (split line) 1 ltac:(lia)) as (tok & Htok & Hl).
  change (Z.of_nat 1) with 1 in Htok. rewrite Htok.
  cbn [mbind result_bind Py.bind].
  destruct (Walker_init_short E tok (skipn 2 (split line)) cam) as [[e He] Hidx].
  { rewrite length_skipn. lia. }
  split.
  - exists e. now rewrite He.
  - intros (tok' & n & Htok' & Hn) Hall.
    assert (tok' = tok) as -> by congruence.
    rewrite Hidx; [reflexivity|eauto|assumption].
Qed.

Lemma actor_line_of_10_to_13_tokens_raises_witness :
  parse_label Ref.extern
    (Ref.header ++ [ Ref.ln "walker 7 0.5 0.5 1 0 0 0 2 0" ])
  = Raise IndexError.
Proof.
  change (read_walkers Ref.extern Ref.camera
            [ Ref.ln "walker 7 0.5 0.5 1 0 0 0 2 0" ] [] = Raise IndexError).
  apply actor_line_of_10_to_13_tokens_raises.
  - vm_compute. lia.
  - exists "7"%string, 7. split; vm_compute; reflexivity.
  - vm_compute. repeat constructor; eexists; vm_compute; reflexivity.
Defined.

Lemma getitem_firstn {A : Type} (l : list A) (n i : nat) :
  (i < n)%nat -> (n <= length l)%nat ->
  getitem (firstn n l) (Z.of_nat i) = getitem l (Z.of_nat i).
Proof.
  intros Hi Hn.
  destruct (getitem_long l i ltac:(lia)) as (a & -> & Ha).
  apply getitem_nat. now rewrite lookup_take_lt.
Qed.

Lemma slice_firstn {A : Type} (l : list A) (n a b : nat) :
  (b <= n)%nat -> slice (firstn n l) a b = slice l a b.
Proof.
  intros Hb. unfold slice. rewrite skipn_firstn_comm, firstn_firstn.
  f_equal. lia.
Qed.

(** [Walker(id, info, cam)] reads [info[0]] to [info[11]] only. *)
Lemma Walker_init_firstn (E : Extern) (id : string) (info : list string)
  (cam : Camera.t) :
  (12 <= length info)%nat ->
  Walker_init E id (firstn 12 info) cam = Walker_init E id info cam.
Proof.
  intros H. unfold Walker_init.
  change 0 with (Z.of_nat 0). change 1 with (Z.of_nat 1).
  change 2 with (Z.of_nat 2).
  rewrite !getitem_firstn by lia.
  rewrite !slice_firstn by lia. reflexivity.
Qed.

(** X5.  An actor line of 14 tokens or more: the walker depends on the
    tokens 1 to 13 only.  The first token, the kind of the actor, is never
    looked at, and the tokens after the fourteenth are ignored. *)
Theorem walker_of_tokens_1_to_13
  (E : Extern) (cam : Camera.t) (line line' : string) :
  (14 <= length (split line))%nat ->
  (14 <= length (split line'))%nat ->
  firstn 13 (skipn 1 (split line)) = firstn 13 (skipn 1 (split line')) ->
  walker_of_line E cam line = walker_of_line E cam line'
  /\ forall rest acc,
      read_walkers E cam (line :: rest) acc
      = read_walkers E cam (line' :: rest) acc.
Proof.
  intros H H' Heq.
  assert (Hw : walker_of_line E cam line = walker_of_line E cam line').
  { unfold walker_of_line.
    assert (Htok : getitem (split line) 1 = getitem (split line') 1).
    { destruct (getitem_long (split line) 1 ltac:(lia)) as (a & Ha & Hl).
      destruct (getitem_long (split line') 1 ltac:(lia)) as (a' & Ha' & Hl').
      change (Z.of_nat 1) with 1 in Ha, Ha'. rewrite Ha, Ha'. f_equal.
      assert (Hh : firstn 13 (skipn 1 (split line)) !! 0%nat = Some a)
        by (rewrite lookup_take_lt, lookup_drop by lia; exact Hl).
      rewrite Heq, lookup_take_lt, lookup_drop in Hh by lia.
      cbn in Hh. congruence. }
    rewrite Htok.
    destruct (getitem (split line') 1) as [tok|e];
      cbn [mbind result_bind Py.bind]; [|reflexivity].
    rewrite <- (Walker_init_firstn E _ (skipn 2 (split line)))
      by (rewrite length_skipn; lia).
    rewrite <- (Walker_init_firstn E _ (skipn 2 (split line')))
      by (rewrite length_skipn; lia).
    assert (Hinfo : firstn 12 (skipn 2 (split line))
                    = firstn 12 (skipn 2 (split line'))).
    { apply (f_equal (skipn 1)) in Heq.
      rewrite !skipn_firstn_comm, !skipn_skipn in Heq. exact Heq. }
    now rewrite Hinfo. }
  split; [exact Hw|].
  intros rest acc. cbn [read_walkers].
  assert (Hnl : forall l, (14 <= length (split l))%nat -> String.eqb l newline = false).
  { intros l Hl. destruct (String.eqb l newline) eqn:He; [|reflexivity].
    apply String.eqb_eq in He. subst l. rewrite split_newline in Hl.
    cbn in Hl. lia. }
  rewrite (Hnl line H), (Hnl line' H').
  replace (length (split line) <? 10)%nat with false
    by (symmetry; apply Nat.ltb_ge; lia).
  replace (length (split line') <? 10)%nat with false
    by (symmetry; apply Nat.ltb_ge; lia).
  unfold walker_of_line in Hw.
  destruct (getitem (split line) 1) as [tok|e];
    destruct (getitem (split line') 1) as [tok'|e'];
    cbn [mbind result_bind Py.bind] in Hw |- *.
  - now rewrite Hw.
  - destruct (Walker_init E tok _ cam); discriminate || (cbn; congruence).
  - destruct (Walker_init E tok' _ cam); discriminate || (cbn; congruence).
  - congruence.
Qed.

Lemma walker_of_tokens_1_to_13_witness :
  walker_of_line Ref.extern Ref.camera
    (Ref.ln "car 7 0.5 0.5 1 0 0 0 2 0 0 0 0 0 and more")
  = Ok Ref.ahead.
Proof.
  destruct (walker_of_tokens_1_to_13 Ref.extern Ref.camera
              (Ref.ln "car 7 0.5 0.5 1 0 0 0 2 0 0 0 0 0 and more")
              (Ref.ln "walker 7 0.5 0.5 1 0 0 0 2 0 0 0 0 0")) as [-> _].
  - vm_compute. lia.
  - vm_compute. lia.
  - vm_compute. reflexivity.
  - vm_compute. reflexivity.
Defined.

(** ** The sort is stable *)

Ltac sf_order :=
  repeat match goal with
    | |- context [Z.compare ?a ?b] => destruct (Z.compare_spec a b)
    | |- context [Pos.compare_cont Eq ?a ?b] =>
        change (Pos.compare_cont Eq a b) with (Pos.compare a b);
        destruct (Pos.compare_spec a b)
    end.

Lemma SFltb_leb_neq (x y z : spec_float) :
  SFltb x y = true -> SFleb y z = true -> SFeqb z x = false.
Proof.
  destruct x as [[]|[]| |[] mx ex], y as [[]|[]| |[] my ey],
    z as [[]|[]| |[] mz ez];
    unfold SFltb, SFleb, SFeqb, SFcompare; try reflexivity; try discriminate;
    sf_order; cbn; intros; try reflexivity; try discriminate; exfalso; lia.
Qed.

Lemma ltb_leb_neq (a b c : float) :
  (a <? b)%float = true -> (b <=? c)%float = true -> (c =? a)%float = false.
Proof. rewrite ltb_spec, leb_spec, FloatAxioms.eqb_spec. apply SFltb_leb_neq. Qed.

(** Inserting a walker into a sorted list puts it behind the walkers at
    its own distance. *)
Lemma insert_walker_at_distance (d : float) (w : Walker.t) (l : list Walker.t) :
  StronglySorted not_farther l ->
  at_distance d (insert_walker w l) = at_distance d l ++ at_distance d [w].
Proof.
  intros Hs. induction Hs as [|v r Hs IH Hv]; [reflexivity|].
  cbn [insert_walker]. destruct (Walker.dist w <? Walker.dist v)%float eqn:Hlt.
  - change (w :: v :: r) with ([w] ++ v :: r).
    unfold at_distance. rewrite List.filter_app.
    destruct (Walker.dist w =? d)%float eqn:Hw.
    2:{ assert (List.filter (fun a => (Walker.dist a =? d)%float) [w] = []) as ->
          by (cbn; now rewrite Hw).
        now rewrite app_nil_r. }
    assert (Hnone : forall b, b ∈ v :: r -> (Walker.dist b =? d)%float = false).
    { intros b Hb.
      assert (Hvb : (Walker.dist v <=? Walker.dist b)%float = true).
      { apply elem_of_cons in Hb as [->|Hb].
        - rewrite leb_spec. rewrite ltb_spec in Hlt.
          destruct (Prim2SF (Walker.dist v)) as [[]|[]| |[] m e];
            unfold SFleb, SFcompare; try reflexivity.
          + now destruct (Prim2SF (Walker.dist w)) as [[]|[]| |[] m' e'].
          + now rewrite Z.compare_refl, Pos.compare_cont_refl.
          + now rewrite Z.compare_refl, Pos.compare_cont_refl.
        - rewrite Forall_forall in Hv. now apply Hv. }
      pose proof (ltb_leb_neq _ _ _ Hlt Hvb) as Hne.
      rewrite FloatAxioms.eqb_spec in Hne |- *.
      rewrite FloatAxioms.eqb_spec in Hw.
      destruct (SFeqb (Prim2SF (Walker.dist b)) (Prim2SF d)) eqn:Hbd; [|reflexivity].
      revert Hne Hw Hbd.
      destruct (Prim2SF (Walker.dist b)) as [[]|[]| |[] mx ex],
        (Prim2SF (Walker.dist w)) as [[]|[]| |[] my ey],
        (Prim2SF d) as [[]|[]| |[] mz ez];
        unfold SFeqb, SFcompare; try reflexivity; try discriminate;
        sf_order; cbn; intros; try reflexivity; try discriminate; exfalso; lia. }
    assert (Hempty : List.filter (fun a => (Walker.dist a =? d)%float) (v :: r) = []).
    { clear -Hnone. induction (v :: r) as [|b t IHt]; [reflexivity|].
      cbn [List.filter]. rewrite Hnone by now left.
      apply IHt. intros c Hc. apply Hnone. now right. }
    now rewrite Hempty, app_nil_r.
  - unfold at_distance in *. cbn [List.filter].
    destruct (Walker.dist v =? d)%float; rewrite IH; reflexivity.
Qed.

(** X6.  The sort is stable: walkers at the same distance from the camera
    are visited in the order of their lines in the label, whenever the
    distances are numbers. *)
Theorem sort_keeps_file_order_of_ties (walkers : list Walker.t) (d : float) :
  Forall has_distance walkers ->
  at_distance d (sort_walkers walkers) = at_distance d walkers.
Proof.
  unfold sort_walkers.
  assert (H : forall acc,
             Forall has_distance walkers -> Forall has_distance acc ->
             StronglySorted not_farther acc ->
             at_distance d (fold_left (fun sorted w => insert_walker w sorted)
                              walkers acc)
             = at_distance d acc ++ at_distance d walkers).
  { induction walkers as [|w r IH]; intros acc Hws Hacc Hs; cbn [fold_left].
    - now rewrite app_nil_r.
    - apply Forall_cons in Hws as [Hw Hr].
      rewrite IH.
      + rewrite insert_walker_at_distance by assumption.
        rewrite <- app_assoc. f_equal.
        change (w :: r) with ([w] ++ r). unfold at_distance.
        now rewrite List.filter_app.
      + assumption.
      + rewrite insert_walker_perm. now constructor.
      + now apply insert_walker_sorted. }
  intros Hws. now rewrite H by (assumption || constructor).
Qed.

Lemma sort_keeps_file_order_of_ties_witness :
  sort_walkers [Ref.farther; Ref.nearer 5; Ref.nearer 6]
  = [Ref.nearer 5; Ref.nearer 6; Ref.farther]
  /\ at_distance 4 (sort_walkers [Ref.farther; Ref.nearer 5; Ref.nearer 6])
     = [Ref.nearer 5; Ref.nearer 6].
Proof.
  split; [vm_compute; reflexivity|].
  rewrite (sort_keeps_file_order_of_ties [Ref.farther; Ref.nearer 5; Ref.nearer 6] 4).
  - vm_compute. reflexivity.
  - repeat constructor.
Defined.

(** ** What decides on a detection *)

Lemma length_flat_map_const {A B : Type} (f : A -> list B) (l : list A) (n : nat) :
  (forall a, length (f a) = n) -> length (flat_map f l) = (length l * n)%nat.
Proof.
  intros H. induction l as [|a l IH]; cbn; [reflexivity|].
  rewrite length_app, H, IH. lia.
Qed.

Lemma length_clamped_pixels (h w : Z) (bb : (Z * Z) * (Z * Z)) :
  Z.of_nat (length (clamped_pixels h w bb)) = inside h w bb.
Proof.
  destruct bb as [[minx miny] [maxx maxy]]. unfold clamped_pixels, inside.
  cbn [fst snd].
  rewrite (length_flat_map_const _ _
             (Z.to_nat (Z.min (maxx + 1) w - minx)))
    by (intros; now rewrite length_map, length_seq).
  rewrite length_seq. lia.
Qed.

Lemma claimed_le_inside (semantic : list (list pixel)) (inst : list (list Z))
  (h w : Z) (bb : (Z * Z) * (Z * Z)) :
  0 <= claimed semantic inst h w bb <= inside h w bb.
Proof.
  unfold claimed. rewrite <- length_clamped_pixels.
  pose proof (List.filter_length_le (claimable semantic inst)
                (clamped_pixels h w bb)). lia.
Qed.

(** X7.  The scan stops at the borders of the image, while the area that
    the count is compared with is that of the whole rectangle: a walker
    with less than a fifth of the pixels of its rectangle inside the image
    is dropped, whatever the semantic raster holds. *)
Theorem mostly_outside_image_rejected
  (E : Extern) (save : bool) (frame : Z) (semantic : list (list pixel))
  (label : list string) (walkers pre post : list Walker.t) (a : Walker.t)
  (st : frame_state) (bb : (Z * Z) * (Z * Z)) :
  parse_label E label = Ok walkers ->
  rectangular semantic ->
  sort_walkers walkers = pre ++ a :: post ->
  visit_all save (frame + 1) semantic (shape0 semantic) (shape1 semantic)
    pre (first_state semantic) = Ok st ->
  Walker.bb2d a = Some bb ->
  10 * inside (shape0 semantic) (shape1 semantic) bb < 2 * area bb ->
  exists st',
    visit save (frame + 1) semantic (shape0 semantic) (shape1 semantic) a st
    = Ok st'
    /\ drawn st' = drawn st /\ written st' = written st.
Proof.
  intros Hparse Hsem Horder Hpre Hbb Hin.
  destruct (occlusion_stage E save frame semantic label walkers pre post a st
              Hparse Hsem Horder Hpre) as (Ha & _ & Hst).
  destruct (visit_accepted_iff E save (frame + 1) semantic a bb st Ha Hbb Hsem Hst)
    as (st' & Hv & _ & Hrej).
  exists st'. split; [exact Hv|]. apply Hrej.
  pose proof (claimed_le_inside semantic (instance st) (shape0 semantic)
                (shape1 semantic) bb). lia.
Qed.

Lemma mostly_outside_image_rejected_witness :
  exists st',
    visit true 1 Ref.all_pedestrian 48 64 Ref.far_right
      (first_state Ref.all_pedestrian) = Ok st'
    /\ drawn st' = [] /\ written st' = [].
Proof.
  apply (mostly_outside_image_rejected Ref.extern true 0 Ref.all_pedestrian
           Ref.log_far_right [Ref.far_right] [] [] Ref.far_right
           (first_state Ref.all_pedestrian) ((100000, 56), (128032, 120))).
  - vm_compute. reflexivity.
  - unfold rectangular, has_shape.
    apply (bool_decide_eq_true_1 _). vm_compute. reflexivity.
  - vm_compute. reflexivity.
  - reflexivity.
  - reflexivity.
  - vm_compute. reflexivity.
Defined.

Lemma cell_raster (h w : nat) (f : nat -> nat -> pixel) (y x : nat) (p : pixel) :
  cell (Ref.raster h w f) y x = Some p -> p = f y x.
Proof.
  unfold cell, Ref.raster. rewrite list_lookup_fmap.
  destruct (seq 0 h !! y) as [y'|] eqn:Hy; [|discriminate]. cbn.
  rewrite list_lookup_fmap.
  destruct (seq 0 w !! x) as [x'|] eqn:Hx; [|discriminate]. cbn.
  apply lookup_seq in Hy as [-> _]. apply lookup_seq in Hx as [-> _].
  now intros [= <-].
Qed.

Lemma rectangular_raster (h w : nat) (f : nat -> nat -> pixel) :
  rectangular (Ref.raster h w f).
Proof.
  assert (Hrows : Forall (fun row => length row = w) (Ref.raster h w f)).
  { apply Forall_forall. intros row Hrow.
    apply list_elem_of_fmap in Hrow as (y & -> & _).
    now rewrite length_map, length_seq. }
  unfold rectangular, has_shape. split.
  - unfold shape0, Ref.raster. now rewrite length_map, length_seq, Nat2Z.id.
  - destruct h as [|h]; [constructor|].
    assert (Hw : shape1 (Ref.raster (S h) w f) = Z.of_nat w).
    { unfold shape1, Ref.raster. cbn [seq map].
      now rewrite length_map, length_seq. }
    rewrite Hw, Nat2Z.id. exact Hrows.
Qed.

Lemma claimable_pedestrian (semantic : list (list pixel)) (inst : list (list Z))
  (yx : nat * nat) :
  claimable semantic inst yx = true -> pedestrian semantic yx = true.
Proof.
  unfold claimable, pedestrian.
  destruct (cell inst yx.1 yx.2); [|discriminate].
  destruct (cell semantic yx.1 yx.2); [|discriminate].
  now intros [_ H]%andb_true_iff.
Qed.

Lemma foldl_claim_none (semantic : list (list pixel)) (id : Z)
  (ps : list (nat * nat)) (st : list (list Z) * Z) :
  (forall yx, pedestrian semantic yx = false) ->
  foldl (claim semantic id) st ps = st.
Proof.
  intros Hno. revert st. induction ps as [|p ps IH]; intros st; cbn [foldl];
    [reflexivity|].
  rewrite IH. unfold claim.
  destruct (claimable semantic st.1 p) eqn:Hc; [|reflexivity].
  apply claimable_pedestrian in Hc. now rewrite Hno in Hc.
Qed.

(** X8.  A frame whose semantic raster has no pixel of the pedestrian colour
    (60, 20, 220): for any label that parses, every walker is dropped,
    nothing is drawn, nothing is written, and the instance buffer is left as
    it was created (all -1). *)
Theorem no_pedestrian_pixel_no_detection
  (E : Extern) (save : bool) (frame : Z) (semantic : list (list pixel))
  (label : list string) (walkers : list Walker.t) :
  parse_label E label = Ok walkers ->
  rectangular semantic ->
  (forall y x : nat, cell semantic y x <> Some (60, 20, 220)) ->
  process_frame E save frame semantic label = Ok (first_state semantic).
Proof.
  intros Hparse Hsem Hno. unfold process_frame. rewrite Hparse.
  cbn [Py.bind mbind result_bind].
  pose proof (sort_walkers_built E walkers (parse_label_built E label walkers Hparse))
    as Hbuilt.
  assert (Hped : forall yx, pedestrian semantic yx = false).
  { intros [y x]. unfold pedestrian. cbn [fst snd].
    destruct (cell semantic y x) as [p|] eqn:Hp; [|reflexivity].
    destruct (is_pedestrian p) eqn:Hi; [|reflexivity].
    apply is_pedestrian_spec in Hi. subst p. now apply Hno in Hp. }
  change {| instance := new_instance (shape0 semantic) (shape1 semantic);
            drawn := []; written := [] |} with (first_state semantic).
  destruct (shape_nat semantic) as [Hh Hw]. rewrite <- Hh, <- Hw.
  induction Hbuilt as [|a rest Ha _ IH]; [reflexivity|].
  cbn [visit_all].
  assert (Hv : visit save (frame + 1) semantic
                 (Z.of_nat (Z.to_nat (shape0 semantic)))
                 (Z.of_nat (Z.to_nat (shape1 semantic))) a (first_state semantic)
               = Ok (first_state semantic)).
  { destruct (Walker.bb2d a) as [bb|] eqn:Hbb; [|now apply visit_None].
    destruct (visit_Some E save (frame + 1) semantic _ _ Hsem a
                (first_state semantic) bb Ha Hbb (has_shape_first_state semantic))
      as (_ & _ & Harea & Hv).
    rewrite Hv, foldl_claim_none by assumption. cbn [fst snd].
    replace (10 * 0 <? 2 * area bb) with true by (symmetry; apply Z.ltb_lt; lia).
    reflexivity. }
  rewrite Hv. cbn [Py.bind mbind result_bind]. exact IH.
Qed.

Lemma no_pedestrian_pixel_no_detection_witness :
  process_frame Ref.extern true 0 Ex.background Ref.log_ahead
  = Ok (first_state Ex.background).
Proof.
  apply (no_pedestrian_pixel_no_detection Ref.extern true 0 Ex.background
           Ref.log_ahead [Ref.ahead]).
  - vm_compute. reflexivity.
  - apply rectangular_raster.
  - intros y x H. apply cell_raster in H. discriminate.
Defined.

Lemma cell_new_instance (h w : Z) (y x : nat) :
  (y < Z.to_nat h)%nat -> (x < Z.to_nat w)%nat ->
  cell (new_instance h w) y x = Some (-1).
Proof.
  intros Hy Hx. unfold cell, new_instance.
  rewrite lookup_replicate_2 by assumption.
  now apply lookup_replicate_2.
Qed.

Lemma claimable_first_state (semantic : list (list pixel)) (bb : (Z * Z) * (Z * Z))
  (yx : nat * nat) :
  0 <= bb.1.1 -> 0 <= bb.1.2 ->
  yx ∈ clamped_pixels (shape0 semantic) (shape1 semantic) bb ->
  claimable semantic (instance (first_state semantic)) yx
  = pedestrian semantic yx.
Proof.
  destruct bb as [[minx miny] [maxx maxy]], yx as [y x]. cbn [fst snd].
  intros Hx Hy Hin. apply elem_of_clamped_pixels in Hin; [|assumption..].
  unfold claimable, pedestrian. cbn [fst snd first_state instance].
  rewrite cell_new_instance by lia.
  now destruct (cell semantic y x).
Qed.

Lemma visit_all_no_rectangle (save : bool) (frame : Z)
  (semantic : list (list pixel)) (h w : Z) (pre : list Walker.t)
  (st : frame_state) :
  Forall (fun b => Walker.bb2d b = None) pre ->
  visit_all save frame semantic h w pre st = Ok st.
Proof.
  induction 1 as [|b pre Hb _ IH]; cbn [visit_all]; [reflexivity|].
  unfold visit at 1. rewrite Hb. exact IH.
Qed.

Lemma visit_all_snoc (save : bool) (frame : Z) (semantic : list (list pixel))
  (h w : Z) (l : list Walker.t) (a : Walker.t) (st0 st1 : frame_state) :
  visit_all save frame semantic h w l st0 = Ok st1 ->
  visit_all save frame semantic h w (l ++ [a]) st0
  = visit save frame semantic h w a st1.
Proof.
  revert st0. induction l as [|b l IH]; intros st0 H; cbn [visit_all app] in *.
  - injection H as <-. destruct (visit save frame semantic h w a st0); reflexivity.
  - destruct (visit save frame semantic h w b st0) as [s|];
      cbn [Py.bind mbind result_bind] in *; [now apply IH|discriminate].
Qed.

Lemma sorted_middle {A : Type} (R : A -> A -> Prop) (pre post : list A) (a : A) :
  StronglySorted R (pre ++ a :: post) ->
  Forall (fun b => R b a) pre /\ Forall (R a) post.
Proof.
  induction pre as [|b pre IH]; cbn [app]; intros Hs.
  - apply StronglySorted_inv in Hs as [_ Hpost]. now split.
  - apply StronglySorted_inv in Hs as [Hs Hb].
    destruct (IH Hs) as [Hpre Hpost]. split; [|assumption].
    constructor; [|assumption].
    rewrite Forall_forall in Hb. apply Hb.
    apply elem_of_app. right. apply list_elem_of_here.
Qed.

(** X9.  When the distances are numbers, the walkers are visited nearest
    first.  The first of them that has a rectangle, which no walker visited
    before it is farther than and no walker visited after it is nearer
    than, meets an empty buffer: it is kept exactly when at least a fifth of
    the pixels of its rectangle are pedestrian pixels of the image. *)
Theorem nearest_walker_judged_on_raster
  (E : Extern) (save : bool) (frame : Z) (semantic : list (list pixel))
  (label : list string) (walkers pre post : list Walker.t) (a : Walker.t)
  (bb : (Z * Z) * (Z * Z)) :
  parse_label E label = Ok walkers ->
  Forall has_distance walkers ->
  rectangular semantic ->
  sort_walkers walkers = pre ++ a :: post ->
  Forall (fun b => Walker.bb2d b = None) pre ->
  Walker.bb2d a = Some bb ->
  let n := pedestrian_pixels semantic (shape0 semantic) (shape1 semantic) bb in
  Permutation (pre ++ a :: post) walkers
  /\ Forall (fun b => not_farther b a) pre
  /\ Forall (not_farther a) post
  /\ exists st',
      visit_all save (frame + 1) semantic (shape0 semantic) (shape1 semantic)
        (pre ++ [a]) (first_state semantic) = Ok st'
      /\ (10 * n >= 2 * area bb ->
          drawn st' = [bb]
          /\ written st'
             = if save then [detection_of (frame + 1) a bb] else [])
      /\ (10 * n < 2 * area bb -> drawn st' = [] /\ written st' = []).
Proof.
  intros Hparse Hdist Hsem Horder Hpre Hbb. cbv zeta.
  split; [rewrite <- Horder; apply sort_walkers_perm|].
  pose proof (sort_walkers_sorted walkers Hdist) as Hsorted.
  rewrite Horder in Hsorted.
  destruct (sorted_middle not_farther pre post a Hsorted) as [Hnear Hfar].
  split; [exact Hnear|]. split; [exact Hfar|].
  pose proof (visit_all_no_rectangle save (frame + 1) semantic
                (shape0 semantic) (shape1 semantic) pre (first_state semantic)
                Hpre) as Hrun.
  destruct (occlusion_stage E save frame semantic label walkers pre post a
              (first_state semantic) Hparse Hsem Horder Hrun) as (Ha & _ & Hst).
  destruct (visit_accepted_iff E save (frame + 1) semantic a bb
              (first_state semantic) Ha Hbb Hsem Hst)
    as (st' & Hv & Hkeep & Hdrop).
  assert (Hn : claimed semantic (instance (first_state semantic))
                 (shape0 semantic) (shape1 semantic) bb
               = pedestrian_pixels semantic (shape0 semantic) (shape1 semantic) bb).
  { unfold claimed, pedestrian_pixels. do 2 f_equal.
    apply List.filter_ext_in. intros yx Hin.
    destruct bb as [[minx miny] [maxx maxy]].
    destruct (built_bb2d E a _ _ _ _ Ha Hbb) as (Hx & Hy & _).
    apply claimable_first_state with (bb := ((minx, miny), (maxx, maxy)));
      [assumption..|]. now apply list_elem_of_In. }
  rewrite Hn in Hkeep, Hdrop.
  exists st'. split.
  - rewrite (visit_all_snoc _ _ _ _ _ _ _ _ _ Hrun). exact Hv.
  - split; [exact Hkeep|exact Hdrop].
Qed.

Lemma nearest_walker_judged_on_raster_witness :
  pedestrian_pixels Ref.block 48 64 ((21, 2), (42, 45)) = 160
  /\ area ((21, 2), (42, 45)) = 968
  /\ exists st',
      visit_all true 1 Ref.block 48 64 [Ref.ahead] (first_state Ref.block)
      = Ok st'
      /\ drawn st' = [] /\ written st' = [].
Proof.
  split; [vm_compute; reflexivity|]. split; [vm_compute; reflexivity|].
  destruct (nearest_walker_judged_on_raster Ref.extern true 0 Ref.block
              Ref.log_ahead [Ref.ahead] [] [] Ref.ahead ((21, 2), (42, 45)))
    as (_ & _ & _ & st' & Hv & _ & Hdrop).
  - vm_compute. reflexivity.
  - repeat constructor.
  - apply rectangular_raster.
  - vm_compute. reflexivity.
  - constructor.
  - reflexivity.
  - exists st'. split; [exact Hv|]. apply Hdrop. vm_compute. reflexivity.
Defined.

(** ** What a frame draws and writes *)




(** What [visit_all] appends to the rectangles drawn and to the detections
    written comes from a sublist of the walkers, in their order. *)
Lemma visit_all_kept (save : bool) (frame : Z) (semantic : list (list pixel))
  (h w : Z) (walkers : list Walker.t) (st st' : frame_state) :
  visit_all save frame semantic h w walkers st = Ok st' ->
  exists kept,
    sublist kept walkers
    /\ drawn st' = drawn st ++ omap Walker.bb2d kept
    /\ Forall (fun a => is_Some (Walker.bb2d a)) kept
    /\ written st'
       = written st
         ++ (if save
             then omap (fun a => detection_of frame a <$> Walker.bb2d a) kept
             else []).
Proof.
  revert st. induction walkers as [|a rest IH]; intros st H; cbn [visit_all] in H.
  - injection H as <-. exists []. repeat split; try constructor.
    + now rewrite app_nil_r.
    + destruct save; now rewrite app_nil_r.
  - destruct (visit save frame semantic h w a st) as [st1|e] eqn:Hv;
      cbn [Py.bind mbind result_bind] in H; [|discriminate].
    destruct (IH st1 H) as (kept & Hsub & Hd & Hall & Hw).
    unfold visit in Hv.
    destruct (Walker.bb2d a) as [[[minx miny] [maxx maxy]]|] eqn:Hbb.
    2:{ injection Hv as <-. exists kept. repeat split; try assumption.
        now apply sublist_cons. }
    destruct (scan semantic h w (Walker.id a) _ _) as [[inst cnt]|e];
      cbn [Py.bind mbind result_bind] in Hv; [|discriminate].
    destruct (_ && _); injection Hv as <-; cbn [drawn written] in Hd, Hw.
    + exists kept. repeat split; try assumption. now apply sublist_cons.
    + exists (a :: kept). split; [now apply sublist_skip|].
      split; [|split].
      * cbn [omap list_omap]. rewrite Hbb. cbn. now rewrite Hd, <- app_assoc.
      * constructor; [rewrite Hbb; eauto|assumption].
      * rewrite Hw. destruct save; [|reflexivity].
        cbn [omap list_omap]. rewrite Hbb. cbn. now rewrite <- app_assoc.
Qed.

Lemma sorted_sublist {A : Type} (R : A -> A -> Prop) (k l : list A) :
  sublist k l -> StronglySorted R l -> StronglySorted R k.
Proof.
  induction 1 as [|x k l Hsub IH|x k l Hsub IH]; intros Hs.
  - constructor.
  - apply StronglySorted_inv in Hs as [Hs Hx].
    constructor; [now apply IH|].
    rewrite Forall_forall in Hx |- *. intros y Hy. apply Hx.
    eapply elem_of_sublist; eassumption.
  - apply StronglySorted_inv in Hs as [Hs _]. now apply IH.
Qed.

(** X11.  When the distances are numbers, the rectangles drawn and the
    lines written in a frame belong to walkers of the label, at most one to
    each, and come nearest first: they are those of a sublist [kept] of the
    walkers in the ascending order of their distances in which they are
    visited, and no walker of [kept] is farther than one that follows it. *)
Theorem detections_in_sort_order
  (E : Extern) (save : bool) (frame : Z) (semantic : list (list pixel))
  (label : list string) (walkers : list Walker.t) (st : frame_state) :
  parse_label E label = Ok walkers ->
  Forall has_distance walkers ->
  process_frame E save frame semantic label = Ok st ->
  exists kept,
    sublist kept (sort_walkers walkers)
    /\ Permutation (sort_walkers walkers) walkers
    /\ StronglySorted not_farther (sort_walkers walkers)
    /\ StronglySorted not_farther kept
    /\ Forall (fun a => is_Some (Walker.bb2d a)) kept
    /\ drawn st = omap Walker.bb2d kept
    /\ written st
       = if save
         then omap (fun a => detection_of (frame + 1) a <$> Walker.bb2d a) kept
         else [].
Proof.
  intros Hparse Hdist. unfold process_frame. rewrite Hparse.
  cbn [Py.bind mbind result_bind]. intros H.
  apply visit_all_kept in H as (kept & Hsub & Hd & Hall & Hw).
  pose proof (sort_walkers_sorted walkers Hdist) as Hsorted.
  exists kept. split; [assumption|]. split; [apply sort_walkers_perm|].
  split; [assumption|].
  split; [exact (sorted_sublist not_farther _ _ Hsub Hsorted)|]. auto.
Qed.

Lemma detections_in_sort_order_witness :
  exists st,
    process_frame Ref.extern true 0 Ref.all_pedestrian (Ref.log_two "5") = Ok st
    /\ drawn st = [((21, 2), (42, 45))]
    /\ written st = [detection_of 1 (Ref.nearer 5) ((21, 2), (42, 45))].
Proof.
  assert (H : match process_frame Ref.extern true 0 Ref.all_pedestrian
                      (Ref.log_two "5") with
              | Ok s => drawn s = [((21, 2), (42, 45))]
              | Raise _ => False
              end) by (vm_compute; reflexivity).
  destruct (process_frame Ref.extern true 0 Ref.all_pedestrian (Ref.log_two "5"))
    as [st|e] eqn:Hrun; [|contradiction].
  exists st. split; [reflexivity|]. split; [exact H|].
  destruct (detections_in_sort_order Ref.extern true 0 Ref.all_pedestrian
              (Ref.log_two "5") [Ref.nearer 5; Ref.farther] st)
    as (kept & Hsub & _ & _ & _ & Hall & Hd & Hw).
  - vm_compute. reflexivity.
  - repeat constructor.
  - exact Hrun.
  - rewrite H in Hd.
    assert (Hsort : sort_walkers [Ref.nearer 5; Ref.farther]
                    = [Ref.nearer 5; Ref.farther]) by (vm_compute; reflexivity).
    rewrite Hsort in Hsub.
    rewrite Hw. clear Hw Hrun H.
    apply sublist_cons_r in Hsub as [Hsub|(k' & -> & Hsub)].
    + apply sublist_cons_r in Hsub as [Hsub|(k' & -> & Hsub)].
      * apply sublist_nil_r in Hsub as ->. discriminate.
      * apply sublist_nil_r in Hsub as ->. discriminate.
    + apply sublist_cons_r in Hsub as [Hsub|(k'' & -> & Hsub)].
      * apply sublist_nil_r in Hsub as ->. reflexivity.
      * apply sublist_nil_r in Hsub as ->. discriminate.
Defined.

Lemma sound_buffer_mono (semantic : list (list pixel)) (l l' : list Walker.t)
  (inst : list (list Z)) :
  (forall a, a ∈ l -> a ∈ l') ->
  sound_buffer semantic l inst -> sound_buffer semantic l' inst.
Proof.
  intros Hsub H y x v Hc. destruct (H y x v Hc) as [?|(Hp & a & bb & Ha & Hrest)];
    [now left|right]. split; [assumption|]. exists a, bb. auto.
Qed.

Lemma visit_all_sound (E : Extern) (save : bool) (frame : Z)
  (semantic : list (list pixel)) (seen walkers : list Walker.t)
  (st st' : frame_state) :
  rectangular semantic ->
  Forall (built E) walkers ->
  has_shape (Z.to_nat (shape0 semantic)) (Z.to_nat (shape1 semantic))
    (instance st) ->
  sound_buffer semantic seen (instance st) ->
  visit_all save frame semantic (shape0 semantic) (shape1 semantic) walkers st
  = Ok st' ->
  sound_buffer semantic (seen ++ walkers) (instance st').
Proof.
  intros Hsem Hall. revert seen st.
  induction Hall as [|a rest Ha _ IH]; intros seen st Hst Hsound H;
    cbn [visit_all] in H.
  - injection H as <-. now rewrite app_nil_r.
  - destruct (shape_nat semantic) as [Hh Hw].
    destruct (visit_total E save frame semantic _ _ Hsem a st Ha Hst)
      as (st1 & Hv & Hst1).
    rewrite Hh, Hw in Hv. rewrite Hv in H. cbn [Py.bind mbind result_bind] in H.
    replace (seen ++ a :: rest) with ((seen ++ [a]) ++ rest)
      by now rewrite <- app_assoc.
    apply (IH (seen ++ [a]) st1 Hst1); [|exact H].
    intros y x v Hc.
    destruct (decide (cell (instance st1) y x = cell (instance st) y x)) as [He|Hne].
    + rewrite He in Hc.
      eapply sound_buffer_mono; [|exact Hsound|exact Hc].
      intros b Hb. apply elem_of_app. now left.
    + destruct (visit_changes_only_claimable E save frame semantic a st st1
                  Ha Hsem Hst Hv y x Hne) as (_ & Hp & Hid & bb & Hbb & Hin).
      right. split; [assumption|]. exists a, bb.
      split; [apply elem_of_app; right; now constructor|].
      split; [congruence|auto].
Qed.

(** X12.  At the end of a frame the instance buffer has the shape of the
    image and is a sound labelling: every pixel that holds an id other than
    -1 is a pedestrian pixel of the semantic raster and lies in the
    rectangle of a walker of the label that has this id. *)
Theorem instance_buffer_sound
  (E : Extern) (save : bool) (frame : Z) (semantic : list (list pixel))
  (label : list string) (walkers : list Walker.t) (st : frame_state) :
  parse_label E label = Ok walkers ->
  rectangular semantic ->
  process_frame E save frame semantic label = Ok st ->
  has_shape (Z.to_nat (shape0 semantic)) (Z.to_nat (shape1 semantic))
    (instance st)
  /\ forall (y x : nat) (v : Z),
      cell (instance st) y x = Some v ->
      v <> -1 ->
      cell semantic y x = Some (60, 20, 220)
      /\ exists a bb,
          a ∈ walkers /\ Walker.id a = v /\ Walker.bb2d a = Some bb
          /\ (y, x) ∈ clamped_pixels (shape0 semantic) (shape1 semantic) bb.
Proof.
  intros Hparse Hsem. unfold process_frame. rewrite Hparse.
  cbn [Py.bind mbind result_bind]. intros H.
  pose proof (sort_walkers_built E walkers (parse_label_built E label walkers Hparse))
    as Hbuilt.
  split.
  - destruct (shape_nat semantic) as [Hh Hw].
    destruct (visit_all_total E save (frame + 1) semantic _ _ Hsem
                (sort_walkers walkers) (first_state semantic) Hbuilt
                (has_shape_first_state semantic)) as (st' & Hrun & Hshape).
    rewrite Hh, Hw in Hrun. unfold first_state in Hrun. congruence.
  - pose proof (visit_all_sound E save (frame + 1) semantic []
                  (sort_walkers walkers) (first_state semantic) st Hsem Hbuilt
                  (has_shape_first_state semantic)) as Hsound.
    intros y x v Hc Hv.
    destruct Hsound with (y := y) (x := x) (v := v) as [?|(Hp & a & bb & Ha & Hrest)];
      try assumption; try contradiction.
    + intros y' x' v' Hc'. left.
      unfold first_state, instance, new_instance, cell in Hc'.
      destruct (replicate _ _ !! y') as [row|] eqn:Hrow; [|discriminate].
      apply lookup_replicate in Hrow as [-> _].
      apply lookup_replicate in Hc' as [-> _]. reflexivity.
    + split; [assumption|]. exists a, bb. split; [|assumption].
      cbn [app] in Ha. now rewrite sort_walkers_perm in Ha.
Qed.

Lemma instance_buffer_sound_witness :
  exists st,
    process_frame Ref.extern true 0 Ref.block Ref.log_ahead = Ok st
    /\ cell (instance st) 20 30 = Some 7
    /\ cell Ref.block 20 30 = Some (60, 20, 220).
Proof.
  assert (H : match process_frame Ref.extern true 0 Ref.block Ref.log_ahead with
              | Ok s => cell (instance s) 20 30 = Some 7
              | Raise _ => False
              end) by (vm_compute; reflexivity).
  destruct (process_frame Ref.extern true 0 Ref.block Ref.log_ahead)
    as [st|e] eqn:Hrun; [|contradiction].
  exists st. split; [reflexivity|]. split; [exact H|].
  destruct (instance_buffer_sound Ref.extern true 0 Ref.block Ref.log_ahead
              [Ref.ahead] st) as [_ Hsound].
  - vm_compute. reflexivity.
  - apply rectangular_raster.
  - exact Hrun.
  - destruct (Hsound 20%nat 30%nat 7 H) as [Hp _]; [lia|exact Hp].
Defined.

(** ** The numbering of the frames in the main loop *)

Section Outer.

Context (E : Extern) {Image : Type}.
Context (a : make_bb.args) (r : make_bb.recording (Image := Image)).

Lemma process_frame_number (save : bool) (n : Z) (semantic : list (list pixel))
  (label : list string) (fs : frame_state) :
  process_frame E save n semantic label = Ok fs ->
  Forall (fun d => det_frame d = n + 1) (written fs).
Proof.
  unfold process_frame.
  destruct (parse_label E label) as [walkers|]; cbn [Py.bind mbind result_bind];
    [|discriminate].
  intros H. apply visit_all_kept in H as (kept & _ & _ & _ & Hw).
  rewrite Hw. cbn [written app]. destruct save; [|constructor].
  clear. induction kept as [|b kept IH]; cbn [omap list_omap]; [constructor|].
  destruct (Walker.bb2d b); cbn; [|exact IH]. now constructor.
Qed.

Lemma body_skip (img_path : string) (st : make_bb.state) :
  stem r img_path = None -> make_bb.body E a r img_path st = make_bb.Done st.
Proof.
  unfold stem, make_bb.body. destruct (_ || _); [reflexivity|]. cbv zeta.
  destruct (make_bb.exists_label r _); [|reflexivity].
  destruct (make_bb.exists_semantic r _); [|reflexivity].
  cbn [negb andb]. now destruct (make_bb.imread r _).
Qed.

Lemma body_process (img_path num : string) (st st' : make_bb.state) :
  stem r img_path = Some num ->
  make_bb.body E a r img_path st = make_bb.Done st' ->
  exists src semantic fs,
    make_bb.imread r num = Some src
    /\ make_bb.imread_semantic r num = Some semantic
    /\ process_frame E (make_bb.save a) (make_bb.frame st) semantic
         (make_bb.readlines r num) = Ok fs
    /\ st' = {| make_bb.frame := make_bb.frame st + 1;
                make_bb.gt_txt := make_bb.gt_txt st ++ gt_lines fs;
                make_bb.gt_jpg :=
                  if make_bb.save a
                  then make_bb.gt_jpg st
                       ++ [(make_bb.jpg (make_bb.frame st), src)]
                  else make_bb.gt_jpg st;
                make_bb.gt_info :=
                  if make_bb.save a
                  then make_bb.gt_info st
                       ++ [(make_bb.info_txt (make_bb.frame st),
                            make_bb.readlines r num)]
                  else make_bb.gt_info st;
                make_bb.shown :=
                  if make_bb.show a
                  then make_bb.shown st
                       ++ [picture_of (make_bb.frame st) 0 (num, src, fs)]
                  else make_bb.shown st;
                make_bb.debug_jpg :=
                  if make_bb.debug a
                  then make_bb.debug_jpg st
                       ++ [(make_bb.jpg (make_bb.frame st + 1),
                            picture_of (make_bb.frame st) 0 (num, src, fs))]
                  else make_bb.debug_jpg st |}.
Proof.
  unfold stem, make_bb.body. destruct (_ || _); [discriminate|]. cbv zeta.
  destruct (make_bb.exists_label r _); [|discriminate].
  destruct (make_bb.exists_semantic r _); [|discriminate].
  cbn [negb andb].
  destruct (make_bb.imread r _) as [src|] eqn:Hsrc; [|discriminate].
  intros [= <-].
  destruct (make_bb.imread_semantic r _) as [semantic|] eqn:Hsem.
  2:{ destruct (parse_label E _); discriminate. }
  destruct (process_frame E _ _ _ _) as [fs|] eqn:Hfs; [|discriminate].
  intros [= <-]. exists src, semantic, fs.
  rewrite Hsrc. repeat split; try assumption.
  unfold picture_of. cbn [fst snd]. rewrite Z.add_0_r. reflexivity.
Qed.

Lemma loop_done (files : list string) (st out : make_bb.state) :
  make_bb.loop E a r files st = make_bb.Done out ->
  exists done : list (string * Image * frame_state),
    map (fun e => e.1.1) done = omap (stem r) files
    /\ (forall (k : nat) num src fs,
          done !! k = Some (num, src, fs) ->
          make_bb.imread r num = Some src
          /\ exists semantic,
              make_bb.imread_semantic r num = Some semantic
              /\ process_frame E (make_bb.save a)
                   (make_bb.frame st + Z.of_nat k) semantic
                   (make_bb.readlines r num) = Ok fs)
    /\ make_bb.frame out = make_bb.frame st + Z.of_nat (length done)
    /\ make_bb.gt_txt out
       = make_bb.gt_txt st ++ concat (map (fun e => gt_lines e.2) done)
    /\ make_bb.gt_jpg out
       = make_bb.gt_jpg st
         ++ (if make_bb.save a
             then imap (fun k e =>
                          (make_bb.jpg (make_bb.frame st + Z.of_nat k), e.1.2))
                    done
             else [])
    /\ make_bb.gt_info out
       = make_bb.gt_info st
         ++ (if make_bb.save a
             then imap (fun k e =>
                          (make_bb.info_txt (make_bb.frame st + Z.of_nat k),
                           make_bb.readlines r e.1.1))
                    done
             else [])
    /\ make_bb.shown out
       = make_bb.shown st
         ++ (if make_bb.show a
             then imap (picture_of (make_bb.frame st)) done
             else [])
    /\ make_bb.debug_jpg out
       = make_bb.debug_jpg st
         ++ (if make_bb.debug a
             then imap (fun k e =>
                          (make_bb.jpg (make_bb.frame st + Z.of_nat k + 1),
                           picture_of (make_bb.frame st) k e))
                    done
             else []).
Proof.
  revert st. induction files as [|img_path rest IH]; intros st H;
    cbn [make_bb.loop] in H.
  - injection H as <-. exists []. cbn.
    split; [reflexivity|].
    split; [intros k num src fs Hk; discriminate|].
    split; [lia|].
    split; [now rewrite app_nil_r|].
    split; [destruct (make_bb.save a); now rewrite app_nil_r|].
    split; [destruct (make_bb.save a); now rewrite app_nil_r|].
    split; [destruct (make_bb.show a); now rewrite app_nil_r|].
    destruct (make_bb.debug a); now rewrite app_nil_r.
  - destruct (make_bb.body E a r img_path st) as [st1|c] eqn:Hbody;
      [|discriminate].
    destruct (IH st1 H) as (done & Hnums & Hdone & Hframe & Hgt & Hjpg & Hinfo
                            & Hshown & Hdebug).
    cbn [omap list_omap]. destruct (stem r img_path) as [num|] eqn:Hstem.
    2:{ rewrite body_skip in Hbody by assumption. injection Hbody as <-.
        exists done. repeat (split; [assumption|]). assumption. }
    destruct (body_process img_path num st st1 Hstem Hbody)
      as (src & semantic & fs & Hsrc & Hsem & Hfs & ->).
    cbn [make_bb.frame make_bb.gt_txt make_bb.gt_jpg make_bb.gt_info
         make_bb.shown make_bb.debug_jpg] in *.
    exists ((num, src, fs) :: done).
    assert (Hshift : forall k : nat,
              make_bb.frame st + 1 + Z.of_nat k
              = make_bb.frame st + Z.of_nat (S k)) by (intros; lia).
    split; [cbn; now rewrite Hnums|].
    split.
    { intros [|k] num' src' fs' Hk.
      - injection Hk as <- <- <-. rewrite Z.add_0_r. eauto.
      - rewrite <- Hshift. now apply Hdone. }
    split; [rewrite Hframe; cbn [length]; lia|].
    split; [rewrite Hgt; cbn; now rewrite <- app_assoc|].
    split.
    { rewrite Hjpg. destruct (make_bb.save a); [|reflexivity].
      rewrite <- app_assoc. cbn [imap app]. rewrite Z.add_0_r. do 2 f_equal.
      apply imap_ext. intros k e _. cbn. now rewrite Hshift. }
    split.
    { rewrite Hinfo. destruct (make_bb.save a); [|reflexivity].
      rewrite <- app_assoc. cbn [imap app]. rewrite Z.add_0_r. do 2 f_equal.
      apply imap_ext. intros k e _. cbn. now rewrite Hshift. }
    split.
    { rewrite Hshown. destruct (make_bb.show a); [|reflexivity].
      rewrite <- app_assoc. cbn [imap app]. do 2 f_equal.
      apply imap_ext. intros k e _. unfold picture_of. cbn.
      now rewrite Hshift. }
    { rewrite Hdebug. destruct (make_bb.debug a); [|reflexivity].
      rewrite <- app_assoc. cbn [imap app]. rewrite Z.add_0_r. do 2 f_equal.
      apply imap_ext. intros k e _. unfold picture_of. cbn.
      now rewrite !Hshift. }
Qed.

End Outer.

(** X13.  A run that ends processes the entries of [processed], in the
    order of the sorted listing.  The [k]-th of them, counting from 0, is
    saved as [k].jpg and its label as info/[k].txt, while the lines that
    its frame writes to gt.txt carry the number [k + 1], and so does the
    name of its debug image. *)
Theorem saved_image_k_has_frame_number_k_plus_1
  (E : Extern) {Image : Type} (a : make_bb.args)
  (r : make_bb.recording (Image := Image)) (out : make_bb.state) :
  make_bb.main E a r = make_bb.Done out ->
  exists done : list (string * Image * frame_state),
    map (fun e => e.1.1) done = processed r
    /\ make_bb.frame out = Z.of_nat (length done)
    /\ (forall (k : nat) num src fs,
          done !! k = Some (num, src, fs) ->
          make_bb.imread r num = Some src
          /\ (exists semantic,
                make_bb.imread_semantic r num = Some semantic
                /\ process_frame E (make_bb.save a) (Z.of_nat k) semantic
                     (make_bb.readlines r num) = Ok fs)
          /\ Forall (fun d => det_frame d = Z.of_nat k + 1) (written fs))
    /\ make_bb.gt_txt out = concat (map (fun e => gt_lines e.2) done)
    /\ (make_bb.save a = true ->
        make_bb.gt_jpg out
        = imap (fun k e => (make_bb.jpg (Z.of_nat k), e.1.2)) done
        /\ make_bb.gt_info out
           = imap (fun k e => (make_bb.info_txt (Z.of_nat k),
                               make_bb.readlines r e.1.1)) done)
    /\ (make_bb.debug a = true ->
        make_bb.debug_jpg out
        = imap (fun k e => (make_bb.jpg (Z.of_nat k + 1), picture_of 0 k e))
            done).
Proof.
  unfold make_bb.main. intros H.
  apply loop_done in H as (done & Hnums & Hdone & Hframe & Hgt & Hjpg & Hinfo
                           & _ & Hdebug).
  cbn [make_bb.frame make_bb.gt_txt make_bb.gt_jpg make_bb.gt_info
       make_bb.debug_jpg app] in *.
  exists done.
  split; [exact Hnums|]. split; [lia|].
  split.
  { intros k num src fs Hk.
    destruct (Hdone k num src fs Hk) as (Hsrc & semantic & Hsem & Hfs).
    cbn in Hfs. split; [assumption|]. split; [eauto|].
    eapply process_frame_number, Hfs. }
  split; [exact Hgt|]. split.
  - intros Hs. rewrite Hs in Hjpg, Hinfo. auto.
  - intros Hd. now rewrite Hd in Hdebug.
Qed.

Lemma saved_image_k_has_frame_number_k_plus_1_witness :
  exists out done,
    make_bb.main Ref.extern Ex.saving Ex.recording = make_bb.Done out
    /\ map (fun e : string * string * frame_state => e.1.1) done = ["3"; "7"]%string
    /\ make_bb.frame out = Z.of_nat (length done)
    /\ map fst (make_bb.gt_jpg out) = ["000000.jpg"; "000001.jpg"]%string
    /\ map fst (make_bb.debug_jpg out) = ["000001.jpg"; "000002.jpg"]%string
    /\ make_bb.gt_txt out = Ex.gt_txt.
Proof.
  destruct (make_bb.main Ref.extern Ex.saving Ex.recording) as [out|c] eqn:Hmain;
    [|vm_compute in Hmain; discriminate].
  destruct (saved_image_k_has_frame_number_k_plus_1 Ref.extern Ex.saving
              Ex.recording out Hmain) as (done & Hnums & Hframe & _).
  exists out, done. split; [reflexivity|].
  split; [rewrite Hnums; vm_compute; reflexivity|].
  split; [exact Hframe|].
  vm_compute in Hmain. injection Hmain as <-.
  repeat split; vm_compute; reflexivity.
Defined.

(** ** gt.txt between make_bb.py and cleansing.py *)

Lemma split_on_nonempty (sep : ascii) (s : string) : Str.split_on sep s <> [].
Proof.
  destruct s as [|c r]; cbn; [discriminate|].
  destruct (Ascii.eqb c sep); [discriminate|].
  destruct (Str.split_on sep r); discriminate.
Qed.

Lemma split_on_app (sep : ascii) (s t : string) :
  free_of sep s ->
  Str.split_on sep (s ++ String sep t) = s :: Str.split_on sep t.
Proof.
  induction s as [|c r IH]; cbn.
  - intros _. now rewrite Ascii.eqb_refl.
  - intros [Hc Hr]. apply Ascii.eqb_neq in Hc. rewrite Hc, (IH Hr). reflexivity.
Qed.

Lemma join_cons (sep x : string) (y : string) (r : list string) :
  join sep (x :: y :: r) = (x ++ sep ++ join sep (y :: r))%string.
Proof. reflexivity. Qed.

Lemma join_split_on (sep : ascii) (s : string) :
  join (String sep EmptyString) (Str.split_on sep s) = s.
Proof.
  induction s as [|c r IH]; cbn [Str.split_on]; [reflexivity|].
  pose proof (split_on_nonempty sep r) as Hne.
  destruct (Str.split_on sep r) as [|t ts] eqn:Hr; [contradiction|].
  destruct (Ascii.eqb c sep) eqn:Hc.
  - apply Ascii.eqb_eq in Hc. subst c. rewrite join_cons, IH. reflexivity.
  - destruct ts as [|u ts]; rewrite <- IH; reflexivity.
Qed.

Lemma append_empty_r (s : string) : (s ++ EmptyString)%string = s.
Proof. induction s as [|c r IH]; cbn; [reflexivity|now rewrite IH]. Qed.

Lemma write_components_join (obj : list string) (i len : nat) :
  (i + length obj = len)%nat ->
  cleansing.write_components obj i len = join "," obj.
Proof.
  revert i. induction obj as [|c rest IH]; intros i Hlen; cbn [cleansing.write_components join];
    [reflexivity|].
  destruct rest as [|c' rest'].
  - cbn in Hlen. replace (i + 1 <? len)%nat with false
      by (symmetry; apply Nat.ltb_ge; lia).
    cbn. now rewrite append_empty_r.
  - cbn [length] in Hlen. replace (i + 1 <? len)%nat with true
      by (symmetry; apply Nat.ltb_lt; lia).
    rewrite IH by (cbn [length]; lia). reflexivity.
Qed.

Lemma string_of_uint_free (c : ascii) (u : Decimal.uint) :
  (forall d : ascii,
      In d ["0"; "1"; "2"; "3"; "4"; "5"; "6"; "7"; "8"; "9"]%char -> d <> c) ->
  free_of c (NilEmpty.string_of_uint u).
Proof.
  intros Hc. induction u; cbn; [exact I|..];
    (split; [apply Hc; cbn; tauto|assumption]).
Qed.

(** [str(n)] is made of digits and, for a negative number, a minus sign. *)
Lemma str_free_of_comma (n : Z) : free_of ","%char (str n).
Proof.
  assert (Hd : forall d : ascii,
             In d ["0"; "1"; "2"; "3"; "4"; "5"; "6"; "7"; "8"; "9"]%char ->
             d <> ","%char).
  { intros d Hin. cbn in Hin.
    repeat destruct Hin as [<-|Hin]; try discriminate. contradiction. }
  assert (Hu : forall u, free_of ","%char (NilZero.string_of_uint u)).
  { intros u. unfold NilZero.string_of_uint.
    destruct u; try (now apply string_of_uint_free).
    cbn. split; [discriminate|exact I]. }
  unfold str. destruct (Z.to_int n) as [u|u]; cbn [NilZero.string_of_int].
  - apply Hu.
  - split; [discriminate|apply Hu].
Qed.

(** A line of gt.txt, cut at the commas, gives back its nine fields. *)
Lemma split_gt_line (d : detection) :
  Str.split_on ","%char (gt_line d)
  = [ str (det_frame d); str (det_id d); str (det_left d); str (det_top d);
      str (det_width d); str (det_height d); "1"; "1";
      String "1" newline ]%string.
Proof.
  unfold gt_line.
  repeat (change (?s ++ "," ++ ?t)%string with (s ++ String ","%char t)%string;
          rewrite split_on_app by apply str_free_of_comma).
  reflexivity.
Qed.

Lemma rectangle_gt_line (E : Extern) (d : detection) :
  int_reads_str E ->
  cleansing.rectangle E (Str.split_on ","%char (gt_line d))
  = Ok ((det_left d, det_top d),
        (det_left d + det_width d, det_top d + det_height d)).
Proof.
  intros Hint. rewrite split_gt_line. unfold cleansing.rectangle.
  change 2 with (Z.of_nat 2). change 3 with (Z.of_nat 3).
  change 4 with (Z.of_nat 4). change 5 with (Z.of_nat 5).
  repeat match goal with
    | |- context [getitem ?l (Z.of_nat ?i)] =>
        rewrite (getitem_nat l i _ eq_refl)
    end.
  cbn [mbind result_bind Py.bind]. rewrite !Hint. reflexivity.
Qed.

(** X14.  A line written by make_bb.py has nine fields.  The rectangle
    that cleansing.py draws for it reaches one pixel further to the right
    and to the bottom than the rectangle that make_bb.py drew: the line
    carries the width and the height with both borders counted, and
    [draw_bb] adds them to the left top corner. *)
Theorem cleansing_draws_one_pixel_more
  (E : Extern) (frame : Z) (walker : Walker.t) (bb : (Z * Z) * (Z * Z)) :
  int_reads_str E ->
  let line := gt_line (detection_of frame walker bb) in
  length (Str.split_on ","%char line) = 9%nat
  /\ cleansing.draw_bb E [Str.split_on ","%char line]
     = Ok [(bb.1, (bb.2.1 + 1, bb.2.2 + 1))].
Proof.
  intros Hint. cbv zeta. split.
  - now rewrite split_gt_line.
  - unfold cleansing.draw_bb. cbn [mapM].
    rewrite rectangle_gt_line by assumption.
    destruct bb as [[minx miny] [maxx maxy]]. cbn.
    do 4 f_equal; lia.
Qed.

Lemma int_reads_str_Ref : int_reads_str Ref.extern.
Proof.
  intros n. cbn [py_int Ref.extern]. unfold Ref.int_of_token, str.
  rewrite NilZero.isi.
  - now rewrite DecimalZ.of_to.
  - destruct n; cbn; try discriminate.
    intros [= H]. now apply Unsigned.to_uint_nonnil in H.
  - destruct n; cbn; try discriminate.
    intros [= H]. now apply Unsigned.to_uint_nonnil in H.
Qed.

Lemma cleansing_draws_one_pixel_more_witness :
  cleansing.draw_bb Ref.extern
    [Str.split_on ","%char (Ref.ln "1,7,21,2,22,44,1,1,1")]
  = Ok [((21, 2), (43, 46))].
Proof.
  apply (cleansing_draws_one_pixel_more Ref.extern 1 Ref.ahead
           ((21, 2), (42, 45)) int_reads_str_Ref).
Defined.

Section Reader.

Context (E : Extern) (start : Z).

Lemma getitem_last {A : Type} (l : list A) (a : A) :
  getitem (l ++ [a]) (Z.of_nat (length (l ++ [a])) - 1) = Ok a.
Proof.
  rewrite length_app. cbn [length].
  replace (Z.of_nat (length l + 1) - 1) with (Z.of_nat (length l)) by lia.
  apply getitem_nat. rewrite lookup_app_r by lia.
  now rewrite Nat.sub_diag.
Qed.

Lemma setitem_last {A : Type} (l : list A) (a b : A) :
  setitem (l ++ [a]) (Z.of_nat (length (l ++ [a])) - 1) b = Ok (l ++ [b]).
Proof.
  rewrite length_app. cbn [length].
  replace (Z.of_nat (length l + 1) - 1) with (Z.of_nat (length l)) by lia.
  rewrite setitem_nat by (rewrite length_app; cbn; lia).
  f_equal. rewrite insert_app_r_alt by lia. now rewrite Nat.sub_diag.
Qed.

(** One line whose frame number differs from the current one opens a new
    group; one with the current frame number joins the last group. *)
Lemma read_line_new (line : string) (st : cleansing.reader) (n : Z) :
  label_frame E (Str.split_on ","%char line) = Ok n ->
  n <> cleansing.frame st ->
  cleansing.read_line E start line st
  = Ok {| cleansing.new_gt :=
            cleansing.new_gt st ++ [[Str.split_on ","%char line]];
          cleansing.frame := n;
          cleansing.start_frame_idx :=
            if n =? start then Z.of_nat (length (cleansing.new_gt st))
            else cleansing.start_frame_idx st |}.
Proof.
  unfold label_frame, cleansing.read_line. intros Hn Hne.
  destruct (getitem (Str.split_on ","%char line) 0) as [tok|];
    cbn [mbind result_bind Py.bind] in Hn |- *; [|discriminate].
  rewrite Hn. cbn [mbind result_bind Py.bind].
  replace (n =? cleansing.frame st) with false by (symmetry; now apply Z.eqb_neq).
  cbn [negb mbind result_bind Py.bind cleansing.new_gt cleansing.frame
       cleansing.start_frame_idx].
  rewrite getitem_last. cbn [mbind result_bind Py.bind].
  rewrite setitem_last. cbn [mbind result_bind Py.bind].
  do 2 f_equal. rewrite length_app. cbn [length].
  destruct (n =? start); [lia|reflexivity].
Qed.

Lemma read_line_same (line : string) (st : cleansing.reader) (groups : list (list (list string)))
  (group : list (list string)) :
  label_frame E (Str.split_on ","%char line) = Ok (cleansing.frame st) ->
  cleansing.new_gt st = groups ++ [group] ->
  cleansing.read_line E start line st
  = Ok {| cleansing.new_gt :=
            groups ++ [group ++ [Str.split_on ","%char line]];
          cleansing.frame := cleansing.frame st;
          cleansing.start_frame_idx := cleansing.start_frame_idx st |}.
Proof.
  unfold label_frame, cleansing.read_line. intros Hn Hg.
  destruct (getitem (Str.split_on ","%char line) 0) as [tok|];
    cbn [mbind result_bind Py.bind] in Hn |- *; [|discriminate].
  rewrite Hn. cbn [mbind result_bind Py.bind].
  rewrite Z.eqb_refl.
  cbn [negb mbind result_bind Py.bind]. rewrite Hg.
  rewrite getitem_last. cbn [mbind result_bind Py.bind].
  rewrite setitem_last. reflexivity.
Qed.

(** With no group yet, a line with the frame number that the reader
    starts from finds no group to join. *)
Lemma read_line_no_group (line : string) (st : cleansing.reader) :
  label_frame E (Str.split_on ","%char line) = Ok (cleansing.frame st) ->
  cleansing.new_gt st = [] ->
  cleansing.read_line E start line st = Raise IndexError.
Proof.
  unfold label_frame, cleansing.read_line. intros Hn Hg.
  destruct (getitem (Str.split_on ","%char line) 0) as [tok|];
    cbn [mbind result_bind Py.bind] in Hn |- *; [|discriminate].
  rewrite Hn. cbn [mbind result_bind Py.bind].
  rewrite Z.eqb_refl.
  cbn [negb mbind result_bind Py.bind]. rewrite Hg. reflexivity.
Qed.

Lemma read_line_frame (line : string) (st st' : cleansing.reader) :
  cleansing.read_line E start line st = Ok st' ->
  label_frame E (Str.split_on ","%char line) = Ok (cleansing.frame st').
Proof.
  unfold label_frame, cleansing.read_line. intros H.
  destruct (getitem (Str.split_on ","%char line) 0) as [tok|];
    cbn [mbind result_bind Py.bind] in H |- *; [|discriminate].
  destruct (py_int E tok) as [n|] eqn:Hn;
    cbn [mbind result_bind Py.bind] in H |- *; [|discriminate].
  destruct (n =? cleansing.frame st) eqn:Heq;
    cbn [negb mbind result_bind Py.bind] in H.
  - apply Z.eqb_eq in Heq. subst n.
    destruct (getitem _ _); cbn [mbind result_bind Py.bind] in H; [|discriminate].
    destruct (setitem _ _ _); cbn [mbind result_bind Py.bind] in H; [|discriminate].
    now injection H as <-.
  - cbn [mbind result_bind Py.bind cleansing.new_gt
         cleansing.frame cleansing.start_frame_idx] in H.
    destruct (getitem _ _); cbn [mbind result_bind Py.bind] in H; [|discriminate].
    destruct (setitem _ _ _); cbn [mbind result_bind Py.bind] in H; [|discriminate].
    now injection H as <-.
Qed.

End Reader.

Section Groups.

Context (E : Extern) (start : Z).

Lemma runs_snoc (ns : list Z) (n : Z) :
  runs ns -> last ns <> Some n -> runs (ns ++ [n]).
Proof.
  intros Hr Hl i a b Ha Hb.
  destruct (decide (S i < length ns)%nat) as [Hlt|Hge].
  - rewrite lookup_app_l in Ha, Hb by lia. eauto.
  - assert (S i = length ns).
    { apply lookup_lt_Some in Hb. rewrite length_app in Hb. cbn in Hb. lia. }
    rewrite lookup_app_l in Ha by lia.
    rewrite lookup_app_r in Hb by lia.
    replace (S i - length ns)%nat with 0%nat in Hb by lia.
    injection Hb as <-. intros ->. apply Hl.
    rewrite last_lookup. rewrite <- H. exact Ha.
Qed.

Lemma last_index_snoc (ns : list Z) (n idx : Z) :
  last_index start ns idx ->
  last_index start (ns ++ [n])
    (if n =? start then Z.of_nat (length ns) else idx).
Proof.
  intros H. destruct (n =? start) eqn:Hn.
  - apply Z.eqb_eq in Hn. subst n. left. exists (length ns).
    split; [reflexivity|]. split.
    + rewrite lookup_app_r by lia. now rewrite Nat.sub_diag.
    + intros j Hj Hs. apply lookup_lt_Some in Hs.
      rewrite length_app in Hs. cbn in Hs. lia.
  - apply Z.eqb_neq in Hn. destruct H as [(i & -> & Hi & Hlast)|[Hnot ->]].
    + left. exists i. split; [reflexivity|]. split.
      * rewrite lookup_app_l by (eapply lookup_lt_Some, Hi). exact Hi.
      * intros j Hj Hs. apply lookup_app_Some in Hs as [Hs|[_ Hs]].
        -- now apply (Hlast j).
        -- destruct (j - length ns)%nat; cbn in Hs; [congruence|discriminate].
    + right. split; [|reflexivity].
      rewrite not_elem_of_app. split; [assumption|].
      intros Hin. apply list_elem_of_singleton in Hin. congruence.
Qed.

Lemma read_line_grouped (line : string) (ns : list Z) (st st' : cleansing.reader) :
  grouped E start ns st ->
  cleansing.read_line E start line st = Ok st' ->
  exists ns',
    grouped E start ns' st'
    /\ concat (cleansing.new_gt st')
       = concat (cleansing.new_gt st) ++ [Str.split_on ","%char line].
Proof.
  intros (Hgroups & Hruns & Hlast & Hidx) Hread.
  pose proof (read_line_frame E start line st st' Hread) as Hn.
  pose proof (Forall2_length _ _ _ Hgroups) as Hlen.
  destruct (decide (cleansing.frame st' = cleansing.frame st)) as [Heq|Hne].
  - rewrite Heq in Hn.
    destruct (decide (cleansing.new_gt st = [])) as [Hnil|Hnil].
    { rewrite read_line_no_group in Hread by assumption. discriminate. }
    destruct (exists_last Hnil) as (gs & g & Hg).
    rewrite (read_line_same E start line st gs g Hn Hg) in Hread.
    injection Hread as <-. exists ns.
    cbn [cleansing.new_gt cleansing.frame cleansing.start_frame_idx].
    rewrite Hg in Hgroups |- *.
    apply Forall2_app_inv_r in Hgroups as (ns0 & ns1 & Hgs & Hlastg & ->).
    apply Forall2_length in Hlastg as Hl1.
    destruct ns1 as [|n0 [|? ?]]; try discriminate.
    apply Forall2_cons_1 in Hlastg as [[Hne0 Hall] _].
    rewrite last_snoc in Hlast.
    assert (n0 = cleansing.frame st) as ->
      by (enough (Some n0 = Some (cleansing.frame st)) by congruence;
          apply Hlast; now destruct ns0).
    split; [|rewrite !concat_app; cbn; rewrite ?app_nil_r; now rewrite app_assoc].
    split; [|split; [assumption|split; [|assumption]]].
    + apply Forall2_app; [assumption|]. constructor; [|constructor].
      split; [now destruct g|].
      apply Forall_app. split; [assumption|]. now constructor.
    + intros _. now rewrite last_snoc.
  - rewrite (read_line_new E start line st _ Hn Hne) in Hread.
    injection Hread as <-. exists (ns ++ [cleansing.frame st']).
    cbn [cleansing.new_gt cleansing.frame cleansing.start_frame_idx].
    split; [|now rewrite concat_app].
    split; [|split; [|split]].
    + apply Forall2_app; [assumption|]. constructor; [|constructor].
      split; [discriminate|]. now constructor.
    + apply runs_snoc; [assumption|].
      destruct (decide (ns = [])) as [->|Hns]; [discriminate|].
      rewrite (Hlast Hns). congruence.
    + intros _. now rewrite last_snoc.
    + rewrite <- Hlen. now apply last_index_snoc.
Qed.

End Groups.

Section ReadGt.

Context (E : Extern) (start : Z).

Lemma read_lines_grouped (file : list string) (ns : list Z)
  (st rd : cleansing.reader) :
  grouped E start ns st ->
  Forall (fun line => line <> EmptyString) file ->
  cleansing.read_lines E start file st = Ok rd ->
  exists ns',
    grouped E start ns' rd
    /\ concat (cleansing.new_gt rd)
       = concat (cleansing.new_gt st) ++ map (Str.split_on ","%char) file.
Proof.
  intros Hst Hfile. revert ns st Hst.
  induction Hfile as [|line rest Hline _ IH]; intros ns st Hst H;
    cbn [cleansing.read_lines] in H.
  - injection H as <-. exists ns. split; [assumption|]. now rewrite app_nil_r.
  - apply String.eqb_neq in Hline. rewrite Hline in H.
    destruct (cleansing.read_line E start line st) as [st1|] eqn:H1;
      cbn [mbind result_bind Py.bind] in H; [|discriminate].
    destruct (read_line_grouped E start line ns st st1 Hst H1) as (ns1 & Hst1 & Hc1).
    destruct (IH ns1 st1 Hst1 H) as (ns' & Hrd & Hc).
    exists ns'. split; [assumption|].
    rewrite Hc, Hc1, <- app_assoc. reflexivity.
Qed.

Lemma grouped_init :
  grouped E start []
    {| cleansing.new_gt := []; cleansing.frame := -1;
       cleansing.start_frame_idx := 0 |}.
Proof.
  split; [constructor|]. split; [intros i n m Hi; discriminate|].
  split; [congruence|]. right. split; [apply not_elem_of_nil|reflexivity].
Qed.

Lemma concat_empty_cons (x : string) (l : list string) :
  String.concat EmptyString (x :: l) = (x ++ String.concat EmptyString l)%string.
Proof.
  destruct l as [|y l]; cbn [String.concat]; [now rewrite append_empty_r|reflexivity].
Qed.

Lemma append_assoc (a b c : string) : ((a ++ b) ++ c = a ++ b ++ c)%string.
Proof. induction a as [|x a IH]; cbn; [reflexivity|now rewrite IH]. Qed.

Lemma concat_empty_app (l1 l2 : list string) :
  String.concat EmptyString (l1 ++ l2)
  = (String.concat EmptyString l1 ++ String.concat EmptyString l2)%string.
Proof.
  induction l1 as [|x l1 IH]; [reflexivity|].
  cbn [app]. now rewrite !concat_empty_cons, IH, append_assoc.
Qed.

Lemma write_gt_concat (groups : list (list (list string))) :
  cleansing.write_gt groups
  = String.concat EmptyString (map cleansing.write_label (concat groups)).
Proof.
  unfold cleansing.write_gt. induction groups as [|g groups IH]; [reflexivity|].
  cbn [map concat]. now rewrite concat_empty_cons, map_app, concat_empty_app, IH.
Qed.

Lemma write_label_split (line : string) :
  cleansing.write_label (Str.split_on ","%char line) = line.
Proof.
  unfold cleansing.write_label.
  rewrite write_components_join by reflexivity. apply join_split_on.
Qed.

End ReadGt.

(** X15.  The reader of cleansing.py.  The groups of [new_gt] are the runs
    of lines with one frame number, in the order of the file: every group
    is non-empty, two groups in a row have different frame numbers, and the
    groups put end to end are the lines of the file, each cut at its
    commas.  The option [--start] selects the last group with that frame
    number, and the first group of the file when there is none. *)
Theorem reader_groups_runs_of_frames
  (E : Extern) (start : Z) (file : list string) (rd : cleansing.reader) :
  Forall (fun line => line <> EmptyString) file ->
  cleansing.read_gt E start file = Ok rd ->
  concat (cleansing.new_gt rd) = map (Str.split_on ","%char) file
  /\ exists ns : list Z,
      Forall2 (uniform E) ns (cleansing.new_gt rd)
      /\ runs ns
      /\ last_index start ns (cleansing.start_frame_idx rd).
Proof.
  intros Hfile H.
  destruct (read_lines_grouped E start file [] _ rd (grouped_init E start) Hfile H)
    as (ns & (Hg & Hr & _ & Hi) & Hc).
  split; [exact Hc|]. exists ns. auto.
Qed.

Lemma reader_groups_runs_of_frames_witness :
  exists rd,
    cleansing.read_gt Ref.extern 1 Ex.gt_mixed = Ok rd
    /\ concat (cleansing.new_gt rd)
       = map (Str.split_on ","%char) Ex.gt_mixed
    /\ map length (cleansing.new_gt rd) = [2; 1; 1]%nat
    /\ cleansing.start_frame_idx rd = 2.
Proof.
  destruct (cleansing.read_gt Ref.extern 1 Ex.gt_mixed) as [rd|e] eqn:Hrd;
    [|vm_compute in Hrd; discriminate].
  exists rd. split; [reflexivity|].
  destruct (reader_groups_runs_of_frames Ref.extern 1 Ex.gt_mixed rd)
    as [Hc _]; [|exact Hrd|].
  - repeat constructor; discriminate.
  - split; [exact Hc|]. vm_compute in Hrd. injection Hrd as <-.
    split; reflexivity.
Defined.

(** X16.  Read and written back with no change in between, gt.txt comes
    out character by character as it went in. *)
Theorem read_then_write_is_identity
  (E : Extern) (start : Z) (file : list string) (rd : cleansing.reader) :
  Forall (fun line => line <> EmptyString) file ->
  cleansing.read_gt E start file = Ok rd ->
  cleansing.write_gt (cleansing.new_gt rd) = String.concat EmptyString file.
Proof.
  intros Hfile H.
  destruct (read_lines_grouped E start file [] _ rd (grouped_init E start) Hfile H) as (ns & _ & Hc).
  cbn [cleansing.new_gt concat app] in Hc.
  rewrite write_gt_concat, Hc, map_map.
  f_equal. clear. induction file as [|line file IH]; [reflexivity|].
  cbn [map]. now rewrite write_label_split, IH.
Qed.

Lemma read_then_write_is_identity_witness :
  exists rd,
    cleansing.read_gt Ref.extern 0 Ex.gt_txt = Ok rd
    /\ cleansing.write_gt (cleansing.new_gt rd)
       = (Ref.ln "1,7,21,2,22,44,1,1,1" ++ Ref.ln "2,5,21,2,22,44,1,1,1")%string.
Proof.
  destruct (cleansing.read_gt Ref.extern 0 Ex.gt_txt) as [rd|e] eqn:Hrd;
    [|vm_compute in Hrd; discriminate].
  exists rd. split; [reflexivity|].
  rewrite (read_then_write_is_identity Ref.extern 0 Ex.gt_txt rd).
  - reflexivity.
  - repeat constructor; discriminate.
  - exact Hrd.
Defined.

(** X17.  The reader starts from the frame number -1 with no group.  A
    file whose first line carries the frame number -1 opens no group, and
    the line finds none to join: [IndexError]. *)
Theorem first_line_of_frame_minus_1_raises
  (E : Extern) (start : Z) (line : string) (rest : list string) :
  line <> EmptyString ->
  label_frame E (Str.split_on ","%char line) = Ok (-1) ->
  cleansing.read_gt E start (line :: rest) = Raise IndexError.
Proof.
  intros Hline Hn. unfold cleansing.read_gt. cbn [cleansing.read_lines].
  apply String.eqb_neq in Hline. rewrite Hline.
  rewrite read_line_no_group; [reflexivity|exact Hn|reflexivity].
Qed.

Lemma first_line_of_frame_minus_1_raises_witness :
  cleansing.read_gt Ref.extern 0
    [ Ref.ln "-1,7,21,2,22,44,1,1,1"; Ref.ln "2,5,21,2,22,44,1,1,1" ]
  = Raise IndexError.
Proof.
  apply first_line_of_frame_minus_1_raises.
  - discriminate.
  - vm_compute. reflexivity.
Defined.

(** ** File names and frame numbers *)

(** The decimal digits of a number that is not negative. *)
Lemma str_nonneg (n : Z) :
  0 <= n ->
  exists u, str n = NilEmpty.string_of_uint u /\ Z.of_uint u = n.
Proof.
  intros Hn. unfold str. pose proof (DecimalZ.of_to n) as Hof.
  destruct n as [|p|p]; [| |lia]; cbn [Z.to_int NilZero.string_of_int] in *.
  - exists (Decimal.D0 Decimal.Nil). split; reflexivity.
  - exists (Pos.to_uint p). split; [|exact Hof].
    unfold NilZero.string_of_uint.
    pose proof (Unsigned.to_uint_nonnil p).
    now destruct (Pos.to_uint p).
Qed.

Lemma uint_of_zeros (k : nat) (u : Decimal.uint) :
  NilEmpty.uint_of_string
    (Nat.iter k (String "0"%char) (NilEmpty.string_of_uint u))
  = Some (Nat.iter k Decimal.D0 u).
Proof.
  induction k as [|k IH]; cbn [Nat.iter].
  - apply NilEmpty.usu.
  - change (uint_of_char "0"
              (NilEmpty.uint_of_string
                 (Nat.iter k (String "0"%char) (NilEmpty.string_of_uint u)))
            = Some (Decimal.D0 (Nat.iter k Decimal.D0 u))).
    now rewrite IH.
Qed.

Lemma of_uint_zeros (k : nat) (u : Decimal.uint) :
  Z.of_uint (Nat.iter k Decimal.D0 u) = Z.of_uint u.
Proof. induction k as [|k IH]; [reflexivity|exact IH]. Qed.

(** The number in a file name can be read back: the names of different
    frames are different. *)
Lemma format_06d_value (n : Z) :
  0 <= n ->
  option_map Z.of_uint (NilEmpty.uint_of_string (Str.format_06d n)) = Some n.
Proof.
  intros Hn. unfold Str.format_06d, Str.zeros.
  replace (n <? 0) with false by (symmetry; apply Z.ltb_ge; lia).
  destruct (str_nonneg n Hn) as (u & -> & Hu).
  rewrite uint_of_zeros. cbn. now rewrite of_uint_zeros, Hu.
Qed.

Lemma format_06d_inj (n m : Z) :
  0 <= n -> 0 <= m -> Str.format_06d n = Str.format_06d m -> n = m.
Proof.
  intros Hn Hm H. pose proof (format_06d_value n Hn) as Hv.
  rewrite H, (format_06d_value m Hm) in Hv. congruence.
Qed.

Lemma length_append (s t : string) :
  String.length (s ++ t) = (String.length s + String.length t)%nat.
Proof. induction s as [|a s IH]; cbn; [reflexivity|now rewrite IH]. Qed.

Lemma append_inj_l (s t u : string) : (s ++ u = t ++ u)%string -> s = t.
Proof.
  revert t. induction s as [|a s IH]; intros [|b t] H; cbn in H.
  - reflexivity.
  - exfalso. apply (f_equal String.length) in H. cbn in H.
    rewrite length_append in H. lia.
  - exfalso. apply (f_equal String.length) in H. cbn in H.
    rewrite length_append in H. lia.
  - injection H as -> H. f_equal. now apply IH.
Qed.

Lemma jpg_inj (n m : Z) :
  0 <= n -> 0 <= m -> make_bb.jpg n = make_bb.jpg m -> n = m.
Proof.
  intros Hn Hm H. apply append_inj_l in H. now apply format_06d_inj.
Qed.

(** ** cleansing.py on the files written by make_bb.py *)

Section ReadWritten.

Context (E : Extern) (start : Z).
Context (Hint : int_reads_str E).

Lemma label_frame_gt_line (d : detection) :
  label_frame E (Str.split_on ","%char (gt_line d)) = Ok (det_frame d).
Proof.
  rewrite split_gt_line. unfold label_frame.
  change 0 with (Z.of_nat 0).
  match goal with
  | |- context [getitem ?l (Z.of_nat 0)] => rewrite (getitem_nat l 0 _ eq_refl)
  end.
  cbn [mbind result_bind Py.bind]. apply Hint.
Qed.

Lemma gt_line_not_empty (d : detection) : gt_line d <> EmptyString.
Proof.
  intros H. pose proof (split_gt_line d) as Hs. rewrite H in Hs. discriminate.
Qed.

Lemma read_same_block (n : Z) (ds : list detection) (rest : list string)
  (st : cleansing.reader) (gs : list (list (list string)))
  (g : list (list string)) :
  Forall (fun d => det_frame d = n) ds ->
  cleansing.frame st = n ->
  cleansing.new_gt st = gs ++ [g] ->
  cleansing.read_lines E start (map gt_line ds ++ rest) st
  = cleansing.read_lines E start rest
      {| cleansing.new_gt :=
           gs ++ [g ++ map (fun d => Str.split_on ","%char (gt_line d)) ds];
         cleansing.frame := n;
         cleansing.start_frame_idx := cleansing.start_frame_idx st |}.
Proof.
  intros Hds. revert st g. induction Hds as [|d ds Hd _ IH]; intros st g Hn Hg.
  - cbn [map app]. rewrite app_nil_r. destruct st. cbn in *. now subst.
  - cbn [map app cleansing.read_lines].
    pose proof (gt_line_not_empty d) as Hne. apply String.eqb_neq in Hne.
    rewrite Hne.
    rewrite (read_line_same E start (gt_line d) st gs g)
      by (rewrite ?label_frame_gt_line; congruence).
    cbn [mbind result_bind Py.bind].
    rewrite (IH _ (g ++ [Str.split_on ","%char (gt_line d)])) by (cbn; congruence).
    cbn [cleansing.start_frame_idx]. rewrite <- app_assoc. reflexivity.
Qed.

Lemma read_block (n : Z) (d : detection) (ds : list detection)
  (rest : list string) (st : cleansing.reader) :
  Forall (fun d => det_frame d = n) (d :: ds) ->
  cleansing.frame st <> n ->
  cleansing.read_lines E start (map gt_line (d :: ds) ++ rest) st
  = cleansing.read_lines E start rest
      {| cleansing.new_gt :=
           cleansing.new_gt st
           ++ [map (fun d => Str.split_on ","%char (gt_line d)) (d :: ds)];
         cleansing.frame := n;
         cleansing.start_frame_idx :=
           if n =? start then Z.of_nat (length (cleansing.new_gt st))
           else cleansing.start_frame_idx st |}.
Proof.
  intros Hall Hne. apply Forall_cons in Hall as [Hd Hds].
  cbn [map app cleansing.read_lines].
  pose proof (gt_line_not_empty d) as Hnd. apply String.eqb_neq in Hnd.
  rewrite Hnd.
  rewrite (read_line_new E start (gt_line d) st n)
    by (rewrite ?label_frame_gt_line; congruence).
  cbn [mbind result_bind Py.bind].
  rewrite (read_same_block n ds rest _ (cleansing.new_gt st)
             [Str.split_on ","%char (gt_line d)] Hds) by reflexivity.
  reflexivity.
Qed.

(** Reading the lines of the frames [n0 + 1], [n0 + 2], ... in this order:
    every frame with a line gives one group. *)
Lemma read_blocks (blocks : list (list detection)) (n0 : Z)
  (st : cleansing.reader) :
  (forall (k : nat) ds,
      blocks !! k = Some ds ->
      Forall (fun d => det_frame d = n0 + Z.of_nat k + 1) ds) ->
  cleansing.frame st <= n0 ->
  exists rd,
    cleansing.read_lines E start (concat (map (map gt_line) blocks)) st = Ok rd
    /\ cleansing.new_gt rd
       = cleansing.new_gt st
         ++ map (map (fun d => Str.split_on ","%char (gt_line d)))
              (List.filter nonempty blocks).
Proof.
  revert n0 st. induction blocks as [|ds blocks IH]; intros n0 st Hk Hst.
  - exists st. split; [reflexivity|]. cbn. now rewrite app_nil_r.
  - assert (Hk' : forall (k : nat) ds',
               blocks !! k = Some ds' ->
               Forall (fun d => det_frame d = n0 + 1 + Z.of_nat k + 1) ds').
    { intros k ds' H. specialize (Hk (S k) ds' H).
      eapply Forall_impl; [exact Hk|]. cbn. intros; lia. }
    cbn [map concat List.filter].
    destruct ds as [|d ds]; cbn [nonempty].
    + cbn [map app]. apply (IH (n0 + 1)); [assumption|lia].
    + rewrite (read_block (n0 + 1) d ds).
      2:{ specialize (Hk 0%nat (d :: ds) eq_refl).
          eapply Forall_impl; [exact Hk|]. cbn. intros; lia. }
      2:{ lia. }
      destruct (IH (n0 + 1)
                  {| cleansing.new_gt :=
                       cleansing.new_gt st
                       ++ [map (fun d => Str.split_on ","%char (gt_line d))
                             (d :: ds)];
                     cleansing.frame := n0 + 1;
                     cleansing.start_frame_idx :=
                       if n0 + 1 =? start
                       then Z.of_nat (length (cleansing.new_gt st))
                       else cleansing.start_frame_idx st |} Hk')
        as (rd & Hrd & Hgroups); [cbn; lia|].
      exists rd. split; [exact Hrd|].
      rewrite Hgroups. cbn [cleansing.new_gt map]. now rewrite <- app_assoc.
Qed.

(** The image that is opened for a group whose first label was written by
    make_bb.py for the frame number [n]. *)
Lemma image_at_written (groups : list (list (list string))) (cnt : nat)
  (d : detection) (ds : list detection) :
  groups !! cnt
  = Some (map (fun d => Str.split_on ","%char (gt_line d)) (d :: ds)) ->
  cleansing.image_at E groups (cleansing.new_cache groups) (Z.of_nat cnt)
  = Ok (make_bb.jpg (det_frame d)).
Proof.
  intros Hg. unfold cleansing.image_at, cleansing.frame_at.
  rewrite (getitem_nat _ _ _ Hg). cbn [mbind result_bind Py.bind].
  assert (Hc : cleansing.new_cache groups !! cnt = Some []).
  { unfold cleansing.new_cache. apply lookup_replicate_2.
    eapply lookup_lt_Some, Hg. }
  rewrite (getitem_nat _ _ _ Hc). cbn [mbind result_bind Py.bind].
  cbn [map length Nat.eqb negb].
  change 0 with (Z.of_nat 0).
  match goal with
  | |- context [getitem (?x :: ?l) (Z.of_nat 0)] =>
      rewrite (getitem_nat (x :: l) 0 x eq_refl)
  end.
  cbn [mbind result_bind Py.bind].
  pose proof (label_frame_gt_line d) as Hn. unfold label_frame in Hn.
  change (Z.of_nat 0) with 0. rewrite Hn. reflexivity.
Qed.

End ReadWritten.

(** X18.  make_bb.py, run with [--save], and then cleansing.py on the
    directory it wrote.  The reader takes gt.txt as it is.  The image of
    the [k]-th frame processed was saved as [k].jpg, its detections carry
    the frame number [k + 1], and for their group the cleanser opens
    [k + 1].jpg: another file, which holds the image of the frame processed
    next, if there is one. *)
Theorem cleansing_opens_the_next_image
  (E : Extern) {Image : Type} (a : make_bb.args)
  (r : make_bb.recording (Image := Image)) (out : make_bb.state) (start : Z) :
  int_reads_str E ->
  make_bb.save a = true ->
  make_bb.main E a r = make_bb.Done out ->
  exists (done : list (string * Image * frame_state)) (rd : cleansing.reader),
    map (fun e => e.1.1) done = processed r
    /\ cleansing.read_gt E start (make_bb.gt_txt out) = Ok rd
    /\ forall (k : nat) num src fs,
        done !! k = Some (num, src, fs) ->
        make_bb.gt_jpg out !! k = Some (make_bb.jpg (Z.of_nat k), src)
        /\ (written fs <> [] ->
            exists cnt : nat,
              cleansing.new_gt rd !! cnt
              = Some (map (fun d => Str.split_on ","%char (gt_line d))
                        (written fs))
              /\ cleansing.image_at E (cleansing.new_gt rd)
                   (cleansing.new_cache (cleansing.new_gt rd)) (Z.of_nat cnt)
                 = Ok (make_bb.jpg (Z.of_nat k + 1))
              /\ make_bb.jpg (Z.of_nat k + 1) <> make_bb.jpg (Z.of_nat k)
              /\ forall (j : nat) src',
                  make_bb.gt_jpg out !! j
                  = Some (make_bb.jpg (Z.of_nat k + 1), src') ->
                  j = S k).
Proof.
  intros Hint Hsave Hmain. unfold make_bb.main in Hmain.
  apply (loop_done E a r) in Hmain
    as (done & Hnums & Hdone & _ & Hgt & Hjpg & _).
  rewrite Hsave in Hjpg.
  cbn [make_bb.frame make_bb.gt_txt make_bb.gt_jpg app] in *.
  set (blocks := map (fun e : string * Image * frame_state => written e.2) done).
  assert (Hlines : make_bb.gt_txt out = concat (map (map gt_line) blocks)).
  { rewrite Hgt. unfold blocks. rewrite map_map. reflexivity. }
  assert (Hframes : forall (k : nat) ds,
             blocks !! k = Some ds ->
             Forall (fun d => det_frame d = 0 + Z.of_nat k + 1) ds).
  { intros k ds Hk. unfold blocks in Hk. rewrite list_lookup_fmap in Hk.
    destruct (done !! k) as [[[num src] fs]|] eqn:He; [|discriminate].
    injection Hk as <-.
    destruct (Hdone k num src fs He) as (_ & semantic & _ & Hfs).
    apply (process_frame_number E) in Hfs. exact Hfs. }
  destruct (read_blocks E start Hint blocks 0
              {| cleansing.new_gt := []; cleansing.frame := -1;
                 cleansing.start_frame_idx := 0 |} Hframes)
    as (rd & Hrd & Hgroups); [cbn; lia|].
  cbn [cleansing.new_gt app] in Hgroups.
  exists done, rd. split; [exact Hnums|].
  split; [unfold cleansing.read_gt; now rewrite Hlines|].
  intros k num src fs Hk. split.
  { rewrite Hjpg, list_lookup_imap, Hk. reflexivity. }
  intros Hne.
  assert (Hin : written fs ∈ List.filter nonempty blocks).
  { apply list_elem_of_In, filter_In. split.
    - apply list_elem_of_In. unfold blocks. apply list_elem_of_fmap.
      exists (num, src, fs). split; [reflexivity|].
      eapply list_elem_of_lookup_2, Hk.
    - now destruct (written fs). }
  apply list_elem_of_lookup_1 in Hin as [cnt Hcnt].
  assert (Hg : cleansing.new_gt rd !! cnt
               = Some (map (fun d => Str.split_on ","%char (gt_line d))
                         (written fs))).
  { rewrite Hgroups, list_lookup_fmap, Hcnt. reflexivity. }
  exists cnt. split; [exact Hg|].
  assert (Hfk : Forall (fun d => det_frame d = Z.of_nat k + 1) (written fs)).
  { apply (Hframes k). unfold blocks. now rewrite list_lookup_fmap, Hk. }
  destruct (written fs) as [|d ds] eqn:Hw; [contradiction|].
  apply Forall_cons in Hfk as [Hd _].
  split; [rewrite (image_at_written E Hint _ cnt d ds Hg); now rewrite Hd|].
  split.
  - intros Heq. apply jpg_inj in Heq; lia.
  - intros j src' Hj. rewrite Hjpg, list_lookup_imap in Hj.
    destruct (done !! j) as [e|]; [|discriminate]. cbn in Hj.
    injection Hj as Hj _. apply jpg_inj in Hj; lia.
Qed.

Lemma cleansing_opens_the_next_image_witness :
  exists out rd,
    make_bb.main Ref.extern Ex.saving Ex.recording = make_bb.Done out
    /\ cleansing.read_gt Ref.extern 0 (make_bb.gt_txt out) = Ok rd
    /\ make_bb.gt_jpg out = [("000000.jpg", "3"); ("000001.jpg", "7")]%string
    /\ cleansing.image_at Ref.extern (cleansing.new_gt rd)
         (cleansing.new_cache (cleansing.new_gt rd)) 0
       = Ok "000001.jpg"%string
    /\ cleansing.image_at Ref.extern (cleansing.new_gt rd)
         (cleansing.new_cache (cleansing.new_gt rd)) 1
       = Ok "000002.jpg"%string.
Proof.
  destruct (make_bb.main Ref.extern Ex.saving Ex.recording) as [out|c] eqn:Hmain;
    [|vm_compute in Hmain; discriminate].
  destruct (cleansing_opens_the_next_image Ref.extern Ex.saving Ex.recording
              out 0 int_reads_str_Ref eq_refl Hmain)
    as (done & rd & _ & Hrd & _).
  exists out, rd. split; [reflexivity|]. split; [exact Hrd|].
  vm_compute in Hmain. injection Hmain as <-.
  vm_compute in Hrd. injection Hrd as <-.
  repeat split; vm_compute; reflexivity.
Defined.


(** * The editor of cleansing.py

    The loop over the keys: what a key does to the labels and to the
    selection, what new_gt.txt holds when the script has ended, and the
    editor on the directory that make_bb.py wrote. *)

(** ** The keys one by one *)

Section EditorFacts.

Context (E : Extern) {Image : Type} (imread : string -> option Image).

Lemma label_eqb_eq (a b : list string) : editor.label_eqb a b = true <-> a = b.
Proof.
  revert b. induction a as [|x a IH]; intros [|y b]; cbn; try easy.
  rewrite andb_true_iff, String.eqb_eq, IH. split.
  - now intros [-> ->].
  - intros [= -> ->]. easy.
Qed.

Lemma remove_Ok (heap : list (list string)) (x : list string)
  (gt gt' : list nat) :
  editor.remove heap x gt = Ok gt' ->
  exists pre b post,
    gt = pre ++ b :: post /\ gt' = pre ++ post /\ heap !!! b = x
    /\ Forall (fun c => heap !!! c <> x) pre.
Proof.
  revert gt'. induction gt as [|a rest IH]; intros gt'; cbn; [discriminate|].
  destruct (editor.label_eqb (heap !!! a) x) eqn:Heq.
  - intros [= <-]. apply label_eqb_eq in Heq.
    exists [], a, rest. now repeat split.
  - intros H. apply bind_Ok in H as (rest' & Hr & [= <-]).
    destruct (IH _ Hr) as (pre & b & post & -> & -> & Hb & Hpre).
    exists (a :: pre), b, post. repeat split; [assumption|].
    constructor; [|assumption].
    intros Hx. apply label_eqb_eq in Hx. congruence.
Qed.

Lemma lift_Waiting (m : result (editor.session * editor.view (Image := Image)))
  (s : editor.session) (v : editor.view) :
  editor.lift m = editor.Waiting s v <-> m = Ok (s, v).
Proof.
  unfold editor.lift. destruct m as [[s' v']|e]; split; intros H;
    try discriminate; now inversion H.
Qed.

(** What a key can have done when the script waits again. *)
Lemma press_Waiting (s s' : editor.session) (v v' : editor.view) (key : Z) :
  editor.press E imread s v key = editor.Waiting s' v' ->
  ((key = 0x270000 \/ key = 0x250000)
   /\ exists c, editor.open E imread (editor.with_cnt s c) = editor.Waiting s' v')
  \/ (key = 32 /\ editor.select E s v = Ok (s', v'))
  \/ (key = 8 /\ editor.idx v <> -1 /\ editor.delete E s v = Ok (s', v'))
  \/ (exists field delta,
        move_of key = Some (field, delta)
        /\ (field = 2 \/ field = 3) /\ editor.idx v <> -1
        /\ editor.move E s v field delta = Ok (s', v'))
  \/ (key = 26 /\ editor.undo E s v = Ok (s', v'))
  \/ (key = 13 /\ s' = editor.print (editor.save s) "Saved" /\ v' = v)
  \/ (s' = s /\ v' = v).
Proof.
  unfold editor.press.
  repeat match goal with
         | |- (if ?b then _ else _) = _ -> _ => destruct b eqn:?
         end;
    rewrite ?lift_Waiting; intros H; try discriminate;
    repeat match goal with
           | H : _ && _ = true |- _ => apply andb_true_iff in H as [? ?]
           | H : negb _ = true |- _ => apply negb_true_iff, Z.eqb_neq in H
           | H : (_ =? _) = true |- _ => apply Z.eqb_eq in H
           end.
  - left. eauto.
  - left. eauto.
  - right. left. now split.
  - right. right. left. now split.
  - right. right. right. left. exists 2, 2. subst key. auto.
  - right. right. right. left. exists 2, (-2). subst key. auto.
  - right. right. right. left. exists 3, (-2). subst key. auto.
  - right. right. right. left. exists 3, 2. subst key. auto.
  - do 4 right. left. now split.
  - do 5 right. left. now inversion H.
  - do 6 right. now inversion H.
Qed.

Lemma open_Exited (s s' : editor.session) :
  editor.open E imread s = editor.Exited s' ->
  s' = (if editor.finish s =? 0 then editor.save s else s).
Proof.
  unfold editor.open. destruct (_ && _).
  - destruct (cleansing.frame_at _ _ _ _); [|discriminate].
    destruct (imread _); [|discriminate].
    destruct (editor.draw_bb _ _ _ _); discriminate.
  - now intros [= <-].
Qed.

Lemma lift_Exited (m : result (editor.session * editor.view (Image := Image)))
  (s : editor.session) :
  editor.lift m <> editor.Exited s.
Proof. unfold editor.lift. now destruct m as [[s' v']|e]. Qed.

(** The keys that end the script. *)
Lemma press_Exited (s s' : editor.session) (v : editor.view) (key : Z) :
  editor.press E imread s v key = editor.Exited s' ->
  (key = 27 /\ s' = editor.with_finish s 1)
  \/ (key <> 27 /\ (key = 0x270000 \/ key = 0x250000)
      /\ exists c, editor.open E imread (editor.with_cnt s c) = editor.Exited s').
Proof.
  unfold editor.press.
  repeat match goal with
         | |- (if ?b then _ else _) = _ -> _ => destruct b eqn:?
         end;
    intros H; try discriminate; try (now apply lift_Exited in H);
    repeat match goal with
           | H : (_ =? _) = true |- _ => apply Z.eqb_eq in H
           end.
  - right. subst key. split; [discriminate|]. eauto.
  - left. now inversion H.
  - right. subst key. split; [discriminate|]. eauto.
Qed.

End EditorFacts.

Section EditorSteps.

Context (E : Extern) {Image : Type} (imread : string -> option Image).

Lemma open_Waiting (s s' : editor.session) (v' : editor.view) :
  editor.open E imread s = editor.Waiting s' v' ->
  s' = s
  /\ 0 <= editor.cnt s < Z.of_nat (length (editor.new_gt s))
  /\ cleansing.frame_at E (map (editor.labels (editor.heap s)) (editor.new_gt s))
       (map (editor.labels (editor.heap s)) (editor.cache_new_gt s))
       (editor.cnt s) = Ok (editor.frame v')
  /\ imread (make_bb.jpg (editor.frame v')) = Some (editor.org v')
  /\ editor.draw_bb E (editor.copy (editor.org v')) (labels_of s)
       (editor.frame v') = Ok (editor.src v')
  /\ editor.idx v' = -1.
Proof.
  unfold editor.open.
  destruct (_ && _) eqn:Hc; [|discriminate].
  apply andb_true_iff in Hc as [Hc1%Z.leb_le Hc2%Z.ltb_lt].
  destruct (cleansing.frame_at _ _ _ _) as [frame|] eqn:Hf; [|discriminate].
  change (Str.format_06d frame ++ ".jpg")%string with (make_bb.jpg frame).
  destruct (imread _) as [org|] eqn:Hi; [|discriminate].
  destruct (editor.draw_bb _ _ _ _) as [src|] eqn:Hd; [|discriminate].
  intros [= <- <-]. cbn. repeat split; try assumption; lia.
Qed.

Lemma select_Ok (s s' : editor.session) (v v' : editor.view (Image := Image)) :
  editor.select E s v = Ok (s', v') ->
  s' = s
  /\ editor.frame v' = editor.frame v
  /\ editor.org v' = editor.org v
  /\ editor.idx v' = (editor.idx v + 1) mod Z.of_nat (length (gt_of s))
  /\ exists a, getitem (gt_of s) (editor.idx v') = Ok a.
Proof.
  unfold editor.select. fold (gt_of s).
  intros H. apply bind_Ok in H as (src & _ & H).
  apply bind_Ok in H as (a & Ha & H).
  apply bind_Ok in H as (r & _ & H).
  injection H as <- <-. cbn. repeat split. eauto.
Qed.

Lemma delete_Ok (s s' : editor.session) (v v' : editor.view (Image := Image)) :
  editor.delete E s v = Ok (s', v') ->
  editor.frame v' = editor.frame v
  /\ editor.org v' = editor.org v
  /\ editor.idx v' = editor.idx v
  /\ exists a gt',
      getitem (gt_of s) (editor.idx v) = Ok a
      /\ editor.remove (editor.heap s) (editor.heap s !!! a) (gt_of s) = Ok gt'
      /\ s' = editor.with_groups s gt' (cache_gt_of s ++ [a])
      /\ editor.draw_bb E (editor.copy (editor.org v))
           (editor.labels (editor.heap s) gt') (editor.frame v)
         = Ok (editor.src v').
Proof.
  unfold editor.delete. fold (gt_of s) (cache_gt_of s).
  intros H. apply bind_Ok in H as (a & Ha & H).
  apply bind_Ok in H as (b & Hb & H).
  assert (b = a) as -> by congruence.
  apply bind_Ok in H as (gt' & Hr & H).
  apply bind_Ok in H as (src & Hd & H).
  injection H as <- <-. cbn. repeat split. eauto 10.
Qed.

Lemma move_Ok (s s' : editor.session) (v v' : editor.view (Image := Image))
  (field delta : Z) :
  editor.move E s v field delta = Ok (s', v') ->
  editor.frame v' = editor.frame v
  /\ editor.org v' = editor.org v
  /\ editor.idx v' = editor.idx v
  /\ exists a tok n label,
      getitem (gt_of s) (editor.idx v) = Ok a
      /\ getitem (editor.heap s !!! a) field = Ok tok
      /\ py_int E tok = Ok n
      /\ setitem (editor.heap s !!! a) field (str (n + delta)) = Ok label
      /\ s' = editor.with_heap s (<[a := label]> (editor.heap s))
      /\ editor.draw_bb E (editor.copy (editor.org v))
           (editor.labels (editor.heap s') (gt_of s)) (editor.frame v)
         = Ok (editor.src v').
Proof.
  unfold editor.move. fold (gt_of s).
  intros H. apply bind_Ok in H as (a & Ha & H).
  apply bind_Ok in H as (tok & Htok & H).
  apply bind_Ok in H as (n & Hn & H).
  apply bind_Ok in H as (b & Hb & H).
  assert (b = a) as -> by congruence.
  apply bind_Ok in H as (label & Hl & H).
  apply bind_Ok in H as (src & Hd & H).
  injection H as <- <-. cbn. repeat split. eauto 12.
Qed.

Lemma pop_Ok (cache_gt cache_gt' : list nat) (a : nat) :
  editor.pop cache_gt = Ok (a, cache_gt') <-> cache_gt = cache_gt' ++ [a].
Proof.
  unfold editor.pop. split.
  - destruct (last cache_gt) as [b|] eqn:Hl; [|discriminate].
    intros [= -> <-].
    destruct (last_Some cache_gt a) as [[l' ->] _]; [assumption|].
    now rewrite removelast_last.
  - intros ->. now rewrite last_snoc, removelast_last.
Qed.

Lemma undo_Ok (s s' : editor.session) (v v' : editor.view (Image := Image)) :
  editor.undo E s v = Ok (s', v') ->
  editor.frame v' = editor.frame v
  /\ editor.org v' = editor.org v
  /\ editor.idx v' = editor.idx v
  /\ exists a cache_gt' r,
      cache_gt_of s = cache_gt' ++ [a]
      /\ cleansing.rectangle E (editor.heap s !!! a) = Ok r
      /\ s' = editor.with_groups s (gt_of s ++ [a]) cache_gt'
      /\ editor.src v' = editor.rectangle (editor.src v) r editor.green.
Proof.
  unfold editor.undo. fold (gt_of s) (cache_gt_of s).
  intros H. apply bind_Ok in H as ([a cache'] & Hp & H).
  apply pop_Ok in Hp.
  apply bind_Ok in H as (r & Hr & H).
  injection H as <- <-. cbn. repeat split. eauto 10.
Qed.

End EditorSteps.

(** ** What every key keeps *)

Section EditorTidy.

Context (E : Extern) {Image : Type} (imread : string -> option Image).

Lemma lookup_map {A B : Type} (f : A -> B) (l : list A) (i : nat) :
  map f l !! i = f <$> l !! i.
Proof. exact (list_lookup_fmap f l i). Qed.

Lemma gt_of_lookup (s : editor.session) (i : nat) :
  editor.cnt s = Z.of_nat i ->
  (i < length (editor.new_gt s))%nat ->
  editor.new_gt s !! i = Some (gt_of s).
Proof.
  intros Hc Hi. unfold gt_of. rewrite Hc, Nat2Z.id.
  now apply list_lookup_lookup_total_lt.
Qed.

Lemma cache_gt_of_lookup (s : editor.session) (i : nat) :
  editor.cnt s = Z.of_nat i ->
  (i < length (editor.cache_new_gt s))%nat ->
  editor.cache_new_gt s !! i = Some (cache_gt_of s).
Proof.
  intros Hc Hi. unfold cache_gt_of. rewrite Hc, Nat2Z.id.
  now apply list_lookup_lookup_total_lt.
Qed.

Lemma frame_at_tidy (ns : list Z) (s : editor.session) (i : nat) (n : Z) :
  tidy E ns s ->
  ns !! i = Some n ->
  cleansing.frame_at E (map (editor.labels (editor.heap s)) (editor.new_gt s))
    (map (editor.labels (editor.heap s)) (editor.cache_new_gt s)) (Z.of_nat i)
  = Ok n.
Proof.
  intros (Hl1 & Hl2 & _ & Hg) Hn.
  pose proof (lookup_lt_Some _ _ _ Hn) as Hi.
  destruct (lookup_lt_is_Some_2 (editor.new_gt s) i) as [gt Hgt]; [lia|].
  destruct (lookup_lt_is_Some_2 (editor.cache_new_gt s) i) as [cache Hcache];
    [lia|].
  destruct (Hg i n gt cache Hn Hgt Hcache) as [Hne Hall].
  unfold cleansing.frame_at.
  rewrite (getitem_nat (map (editor.labels (editor.heap s)) (editor.new_gt s))
             i (editor.labels (editor.heap s) gt))
    by (now rewrite lookup_map, Hgt).
  cbn [Py.bind mbind result_bind].
  rewrite (getitem_nat
             (map (editor.labels (editor.heap s)) (editor.cache_new_gt s))
             i (editor.labels (editor.heap s) cache))
    by (now rewrite lookup_map, Hcache).
  cbn [Py.bind mbind result_bind].
  unfold editor.labels at 1. rewrite length_map.
  destruct gt as [|a gt]; cbn [length Nat.eqb negb].
  - destruct cache as [|a cache]; [easy|].
    apply Forall_cons in Hall as [Ha _].
    change 0 with (Z.of_nat 0).
    rewrite (getitem_nat _ 0 (editor.heap s !!! a)) by reflexivity.
    exact Ha.
  - apply Forall_cons in Hall as [Ha _].
    change 0 with (Z.of_nat 0).
    rewrite (getitem_nat _ 0 (editor.heap s !!! a)) by reflexivity.
    exact Ha.
Qed.

Lemma tidy_with_cnt (ns : list Z) (s : editor.session) (c : Z) :
  tidy E ns s -> tidy E ns (editor.with_cnt s c).
Proof. intros H. exact H. Qed.

Lemma tidy_saved (ns : list Z) (s : editor.session) (line : string) :
  tidy E ns s -> tidy E ns (editor.print (editor.save s) line).
Proof. intros H. exact H. Qed.

Lemma tidy_with_groups (ns : list Z) (s : editor.session) (i : nat) (n : Z)
  (gt cache_gt : list nat) :
  tidy E ns s ->
  editor.cnt s = Z.of_nat i ->
  ns !! i = Some n ->
  gt ++ cache_gt <> [] ->
  Forall (fun a => label_frame E (editor.heap s !!! a) = Ok n) (gt ++ cache_gt) ->
  tidy E ns (editor.with_groups s gt cache_gt).
Proof.
  intros (Hl1 & Hl2 & Hf & Hg) Hc Hn Hne Hall.
  unfold tidy, editor.with_groups. cbn.
  rewrite !length_insert, Hc, Nat2Z.id.
  split; [assumption|]. split; [assumption|]. split; [assumption|].
  intros j m gt' cache' Hm Hgt' Hcache'.
  destruct (decide (i = j)) as [<-|Hij].
  - pose proof (lookup_lt_Some _ _ _ Hn) as Hi.
    rewrite list_lookup_insert_eq in Hgt' by lia.
    rewrite list_lookup_insert_eq in Hcache' by lia.
    injection Hgt' as <-. injection Hcache' as <-.
    assert (m = n) as -> by congruence. now split.
  - rewrite list_lookup_insert_ne in Hgt' by assumption.
    rewrite list_lookup_insert_ne in Hcache' by assumption.
    now apply Hg with (i := j).
Qed.

Lemma tidy_with_heap (ns : list Z) (s : editor.session)
  (heap : list (list string)) :
  tidy E ns s ->
  (forall a, label_frame E (heap !!! a) = label_frame E (editor.heap s !!! a)) ->
  tidy E ns (editor.with_heap s heap).
Proof.
  intros (Hl1 & Hl2 & Hf & Hg) Hh.
  unfold tidy, editor.with_heap. cbn.
  split; [assumption|]. split; [assumption|]. split; [assumption|].
  intros j m gt' cache' Hm Hgt' Hcache'.
  destruct (Hg j m gt' cache' Hm Hgt' Hcache') as [Hne Hall].
  split; [assumption|].
  eapply Forall_impl; [exact Hall|]. cbn. intros a Ha. now rewrite Hh.
Qed.

Lemma setitem_Ok {A : Type} (l l' : list A) (i : Z) (a : A) :
  setitem l i a = Ok l' ->
  exists j : nat, norm_index (length l) i = Some j /\ l' = <[j := a]> l.
Proof.
  unfold setitem. destruct (norm_index _ _) as [j|]; [|discriminate].
  intros [= <-]. eauto.
Qed.

Lemma norm_index_nat (n : nat) (i : Z) (j : nat) :
  0 <= i -> norm_index n i = Some j -> i = Z.of_nat j /\ (j < n)%nat.
Proof.
  intros Hi. unfold norm_index.
  destruct (i <? 0) eqn:Hneg; [apply Z.ltb_lt in Hneg; lia|].
  destruct (_ && _) eqn:Hb; [|discriminate].
  apply andb_true_iff in Hb as [_ Hb%Z.ltb_lt].
  intros [= <-]. lia.
Qed.

Lemma getitem_insert_ne {A : Type} (l : list A) (i j : nat) (a : A) :
  i <> j -> getitem (<[j := a]> l) (Z.of_nat i) = getitem l (Z.of_nat i).
Proof.
  intros Hij. unfold getitem. rewrite length_insert.
  destruct (norm_index _ _) as [k|] eqn:Hk; [|reflexivity].
  apply norm_index_nat in Hk as [Hk _]; [|lia].
  apply Nat2Z.inj in Hk as <-.
  now rewrite list_lookup_insert_ne by congruence.
Qed.

Lemma label_frame_moved (l l' : list string) (field : Z) (tok : string) :
  field = 2 \/ field = 3 ->
  setitem l field tok = Ok l' ->
  label_frame E l' = label_frame E l.
Proof.
  intros Hf Hs. apply setitem_Ok in Hs as (j & Hj & ->).
  apply norm_index_nat in Hj as [Hj _]; [|lia].
  unfold label_frame. change 0 with (Z.of_nat 0).
  rewrite getitem_insert_ne by lia. reflexivity.
Qed.

Lemma lookup_total_insert (heap : list (list string)) (a b : nat)
  (label : list string) :
  (<[a := label]> heap) !!! b
  = if decide (a = b /\ (a < length heap)%nat) then label else heap !!! b.
Proof.
  destruct (decide _) as [[<- Hlt]|Hn].
  - now apply list_lookup_total_insert_eq.
  - destruct (decide (a = b)) as [<-|Hab].
    + rewrite list_insert_ge by lia. reflexivity.
    + now apply list_lookup_total_insert_ne.
Qed.

(** A key that leaves the script waiting keeps the session tidy and the
    frame on view in step with [cnt]. *)
Lemma press_tidy (ns : list Z) (s s' : editor.session) (v v' : editor.view)
  (key : Z) :
  tidy E ns s ->
  on_view imread ns s v ->
  editor.press E imread s v key = editor.Waiting s' v' ->
  tidy E ns s' /\ on_view imread ns s' v'.
Proof.
  intros Ht ((i & Hc & Hn) & Him & Hidx) Hp.
  pose proof Ht as (Hl1 & Hl2 & Hfin & Hg).
  pose proof (lookup_lt_Some _ _ _ Hn) as Hi.
  pose proof (gt_of_lookup s i Hc ltac:(lia)) as Hgt.
  pose proof (cache_gt_of_lookup s i Hc ltac:(lia)) as Hcache.
  destruct (Hg i _ _ _ Hn Hgt Hcache) as [Hne Hall].
  apply press_Waiting in Hp
    as [(_ & c & Ho)|[[_ Hs]|[(_ & _ & Hd)|[(field & delta & _ & Hf & _ & Hm)
        |[[_ Hu]|[(_ & -> & ->)|[-> ->]]]]]]].
  - apply open_Waiting in Ho as (-> & Hr & Hfr & Him' & _ & Hidx').
    split; [assumption|]. cbn in Hr, Hfr.
    assert (exists j : nat, c = Z.of_nat j) as [j ->]
      by (exists (Z.to_nat c); lia).
    destruct (lookup_lt_is_Some_2 ns j) as [m Hm]; [lia|].
    rewrite (frame_at_tidy ns s j m Ht Hm) in Hfr. injection Hfr as Hfr.
    split; [|split; [assumption|lia]].
    exists j. cbn. split; [reflexivity|congruence].
  - apply select_Ok in Hs as (-> & Hfr & Ho & Hi' & _).
    split; [assumption|].
    split; [exists i; split; congruence|].
    split; [congruence|]. rewrite Hi'.
    destruct (length (gt_of s)) as [|k].
    + change (Z.of_nat 0) with 0. rewrite Z.mod_0_r. lia.
    + pose proof (Z.mod_pos_bound (editor.idx v + 1) (Z.of_nat (S k))). lia.
  - apply delete_Ok in Hd
      as (Hfr & Ho & Hi' & a & gt' & Ha & Hr & -> & _).
    apply remove_Ok in Hr as (pre & b & post & Hgt0 & -> & _ & _).
    assert (Hina : a ∈ gt_of s).
    { unfold getitem in Ha. destruct (norm_index _ _); [|discriminate].
      destruct (gt_of s !! _) eqn:Hl; [|discriminate].
      injection Ha as ->. eapply list_elem_of_lookup_2, Hl. }
    rewrite Hgt0 in Hall, Hina.
    split.
    + apply tidy_with_groups with (i := i) (n := editor.frame v); try assumption.
      * intros Happ. apply app_eq_nil in Happ as [_ Happ].
        now apply app_eq_nil in Happ as [_ Happ].
      * rewrite !Forall_app in Hall |- *.
        destruct Hall as [[Hpre Hpost] Hca].
        apply Forall_cons in Hpost as [Hb Hpost].
        split; [now split|]. apply Forall_app. split; [assumption|].
        apply Forall_singleton.
        assert (Hall' : Forall (fun a => label_frame E (editor.heap s !!! a)
                                      = Ok (editor.frame v))
                          (pre ++ b :: post))
          by (apply Forall_app; split; [assumption|now constructor]).
        rewrite Forall_forall in Hall'. now apply Hall'.
    + split; [exists i; cbn; split; congruence|].
      split; [congruence|lia].
  - apply move_Ok in Hm
      as (Hfr & Ho & Hi' & a & tok & m & label & Ha & _ & _ & Hset & -> & _).
    split.
    + apply tidy_with_heap; [assumption|].
      intros b. rewrite lookup_total_insert.
      destruct (decide _) as [[<- _]|_]; [|reflexivity].
      now apply label_frame_moved with (field := field) (tok := str (m + delta)).
    + split; [exists i; cbn; split; congruence|].
      split; [congruence|lia].
  - apply undo_Ok in Hu
      as (Hfr & Ho & Hi' & a & cache' & r & Hca & _ & -> & _).
    rewrite Hca in Hall.
    split.
    + apply tidy_with_groups with (i := i) (n := editor.frame v); try assumption.
      * intros Happ. apply app_eq_nil in Happ as [Happ _].
        now apply app_eq_nil in Happ as [_ Happ].
      * rewrite !Forall_app in Hall |- *.
        destruct Hall as (Hgt' & Hc' & Ha). now repeat split.
    + split; [exists i; cbn; split; congruence|].
      split; [congruence|lia].
  - split; [now apply tidy_saved|].
    split; [exists i; cbn; split; congruence|]. now split.
  - split; [assumption|].
    split; [exists i; split; congruence|]. now split.
Qed.

Lemma run_tidy (ns : list Z) (keys : list Z) (s s' : editor.session)
  (v v' : editor.view) :
  tidy E ns s ->
  on_view imread ns s v ->
  editor.run E imread keys (editor.Waiting s v) = editor.Waiting s' v' ->
  tidy E ns s' /\ on_view imread ns s' v'.
Proof.
  revert s v. induction keys as [|key keys IH]; intros s v Ht Hv; cbn.
  - intros [= <- <-]. now split.
  - destruct (editor.press E imread s v key) as [s1 v1| |] eqn:Hp.
    + destruct (press_tidy ns s s1 v v1 key Ht Hv Hp) as [Ht1 Hv1].
      now apply IH.
    + destruct keys; discriminate.
    + destruct keys; discriminate.
Qed.

End EditorTidy.

(** ** The session that the reader leaves *)

Section EditorStart.

Context (E : Extern) {Image : Type} (imread : string -> option Image).

Lemma labels_seq (pre group post : list (list string)) :
  editor.labels (pre ++ group ++ post) (seq (length pre) (length group)) = group.
Proof.
  revert pre. induction group as [|x group IH]; intros pre; [reflexivity|].
  cbn [length seq editor.labels map].
  change ((x :: group) ++ post) with (x :: (group ++ post)). f_equal.
  - now apply list_lookup_total_middle.
  - specialize (IH (pre ++ [x])).
    rewrite length_app, Nat.add_1_r, <- app_assoc in IH. exact IH.
Qed.

Lemma labels_addresses (pre : list (list string))
  (groups : list (list (list string))) :
  map (editor.labels (pre ++ concat groups))
    (editor.addresses groups (length pre)) = groups.
Proof.
  revert pre. induction groups as [|group groups IH]; intros pre; [reflexivity|].
  cbn [editor.addresses concat map]. f_equal.
  - apply labels_seq.
  - specialize (IH (pre ++ group)).
    rewrite length_app, <- app_assoc in IH. exact IH.
Qed.

Lemma labels_start (rd : cleansing.reader) :
  map (editor.labels (editor.heap (editor.start rd)))
    (editor.new_gt (editor.start rd)) = cleansing.new_gt rd.
Proof. exact (labels_addresses [] (cleansing.new_gt rd)). Qed.

Lemma start_tidy (ns : list Z) (rd : cleansing.reader) :
  Forall2 (uniform E) ns (cleansing.new_gt rd) ->
  tidy E ns (editor.start rd).
Proof.
  intros Hu. pose proof (labels_start rd) as Hl.
  pose proof (Forall2_length _ _ _ Hu) as Hlen.
  assert (Hlen' : length (editor.new_gt (editor.start rd)) = length ns).
  { rewrite Hlen, <- Hl at 1. now rewrite length_map. }
  split; [assumption|]. split; [cbn; now rewrite length_replicate|].
  split; [reflexivity|].
  intros i n gt cache_gt Hn Hgt Hcache.
  cbn [editor.start editor.cache_new_gt] in Hcache.
  apply lookup_replicate in Hcache as [-> _]. rewrite app_nil_r.
  destruct (Forall2_lookup_l _ _ _ _ _ Hu Hn) as (group & Hgroup & Hne & Hall).
  assert (Hlab : editor.labels (editor.heap (editor.start rd)) gt = group).
  { rewrite <- Hl, lookup_map, Hgt in Hgroup. now injection Hgroup. }
  split.
  - intros ->. now subst group.
  - rewrite <- Hlab in Hall. unfold editor.labels in Hall.
    now apply Forall_map in Hall.
Qed.

Lemma open_tidy (ns : list Z) (s s' : editor.session) (v' : editor.view) :
  tidy E ns s ->
  editor.open E imread s = editor.Waiting s' v' ->
  tidy E ns s' /\ on_view imread ns s' v'.
Proof.
  intros Ht Ho. pose proof Ht as (Hl1 & _).
  apply open_Waiting in Ho as (-> & Hr & Hfr & Him & _ & Hidx).
  split; [assumption|].
  assert (exists j : nat, editor.cnt s = Z.of_nat j) as [j Hj]
    by (exists (Z.to_nat (editor.cnt s)); lia).
  destruct (lookup_lt_is_Some_2 ns j) as [m Hm]; [lia|].
  rewrite Hj, (frame_at_tidy E ns s j m Ht Hm) in Hfr. injection Hfr as Hfr.
  split; [|split; [assumption|lia]].
  exists j. split; [assumption|congruence].
Qed.

(** Where the script waits after the keys, the session is tidy over the
    frame numbers of the groups that the reader made. *)
Lemma main_Waiting (start : Z) (file : list string) (keys : list Z)
  (s : editor.session) (v : editor.view) :
  Forall (fun line => line <> EmptyString) file ->
  editor.main E imread start file keys = editor.Waiting s v ->
  exists rd ns,
    cleansing.read_gt E start file = Ok rd
    /\ Forall2 (uniform E) ns (cleansing.new_gt rd)
    /\ tidy E ns s /\ on_view imread ns s v.
Proof.
  intros Hfile. unfold editor.main.
  destruct (cleansing.read_gt E start file) as [rd|] eqn:Hrd; [|discriminate].
  destruct (read_lines_grouped E start file [] _ rd (grouped_init E start)
              Hfile Hrd) as (ns & (Hu & _) & _).
  intros Hrun. exists rd, ns. split; [reflexivity|]. split; [assumption|].
  pose proof (start_tidy ns rd Hu) as Ht.
  destruct (editor.open E imread (editor.start rd)) as [s0 v0| |] eqn:Ho.
  - destruct (open_tidy ns _ s0 v0 Ht Ho) as [Ht0 Hv0].
    exact (run_tidy E imread ns keys s0 s v0 v Ht0 Hv0 Hrun).
  - destruct keys; discriminate.
  - destruct keys; discriminate.
Qed.

End EditorStart.

(** ** The editor: the frame and the image of a group *)

(** X19.  Whatever keys were pressed, where the editor waits there are as
    many groups as the reader made, the look-up of lines 63-64 finds for
    every group the frame number that it had in gt.txt, also when all its
    boxes were deleted, and the image on view is the one read under the
    number of the group at [cnt]. *)
Theorem group_keeps_its_frame_and_image
  (E : Extern) {Image : Type} (imread : string -> option Image)
  (start : Z) (file : list string) (keys : list Z)
  (s : editor.session) (v : editor.view) :
  Forall (fun line => line <> EmptyString) file ->
  editor.main E imread start file keys = editor.Waiting s v ->
  exists rd ns,
    cleansing.read_gt E start file = Ok rd
    /\ Forall2 (uniform E) ns (cleansing.new_gt rd)
    /\ length (editor.new_gt s) = length ns
    /\ (forall (i : nat) (n : Z),
          ns !! i = Some n ->
          cleansing.image_at E
            (map (editor.labels (editor.heap s)) (editor.new_gt s))
            (map (editor.labels (editor.heap s)) (editor.cache_new_gt s))
            (Z.of_nat i)
          = Ok (make_bb.jpg n))
    /\ exists i : nat,
        editor.cnt s = Z.of_nat i
        /\ ns !! i = Some (editor.frame v)
        /\ imread (make_bb.jpg (editor.frame v)) = Some (editor.org v).
Proof.
  intros Hfile Hmain.
  destruct (main_Waiting E imread start file keys s v Hfile Hmain)
    as (rd & ns & Hrd & Hu & Ht & (i & Hc & Hn) & Him & _).
  exists rd, ns. split; [assumption|]. split; [assumption|].
  split; [apply Ht|]. split.
  - intros j n Hj. unfold cleansing.image_at.
    now rewrite (frame_at_tidy E ns s j n Ht Hj).
  - exists i. now repeat split.
Qed.

Lemma group_keeps_its_frame_and_image_witness :
  exists s v,
    editor.main Ref.extern Ex.photo 0 Ex.gt_mixed [32; 8; 32; 8]
    = editor.Waiting s v
    /\ gt_of s = []
    /\ cleansing.image_at Ref.extern
         (map (editor.labels (editor.heap s)) (editor.new_gt s))
         (map (editor.labels (editor.heap s)) (editor.cache_new_gt s)) 0
       = Ok "000001.jpg"%string
    /\ editor.frame v = 1.
Proof.
  destruct (editor.main Ref.extern Ex.photo 0 Ex.gt_mixed [32; 8; 32; 8])
    as [s v| |] eqn:Hmain; [|vm_compute in Hmain; discriminate..].
  exists s, v. split; [reflexivity|].
  assert (Hfile : Forall (fun line => line <> EmptyString) Ex.gt_mixed)
    by (repeat constructor; discriminate).
  destruct (group_keeps_its_frame_and_image Ref.extern Ex.photo 0 Ex.gt_mixed
              [32; 8; 32; 8] s v Hfile Hmain)
    as (rd & ns & Hrd & _ & _ & _ & _).
  vm_compute in Hmain. injection Hmain as <- <-.
  repeat split; vm_compute; reflexivity.
Defined.

(** ** The keys that change a list *)

Section EditorKeys.

Context (E : Extern) {Image : Type} (imread : string -> option Image).

Lemma getitem_length {A : Type} (l : list A) :
  getitem l (Z.of_nat (length l)) = Raise IndexError.
Proof.
  unfold getitem, norm_index.
  destruct (Z.of_nat (length l) <? 0) eqn:Hneg; [apply Z.ltb_lt in Hneg; lia|].
  replace (Z.of_nat (length l) <? Z.of_nat (length l)) with false
    by (symmetry; apply Z.ltb_ge; lia).
  now rewrite andb_false_r.
Qed.

Lemma getitem_elem {A : Type} (l : list A) (i : Z) (a : A) :
  getitem l i = Ok a -> a ∈ l.
Proof.
  unfold getitem. destruct (norm_index _ _); [|discriminate].
  destruct (l !! _) eqn:Hl; [|discriminate].
  intros [= ->]. eapply list_elem_of_lookup_2, Hl.
Qed.

Lemma length_nonempty {A : Type} (l : list A) :
  l <> [] -> (0 <? Z.of_nat (length l)) = true.
Proof. destruct l; [easy|]. intros _. apply Z.ltb_lt. cbn [length]. lia. Qed.

(** The backspace key with a box selected in a list that is not empty. *)
Lemma press_backspace (s : editor.session) (v : editor.view) :
  editor.idx v <> -1 ->
  gt_of s <> [] ->
  editor.press E imread s v 8 = editor.lift (editor.delete E s v).
Proof.
  intros Hidx Hgt. unfold editor.press. fold (gt_of s).
  cbn [Z.eqb Pos.eqb andb].
  apply Z.eqb_neq in Hidx. rewrite Hidx, (length_nonempty _ Hgt). reflexivity.
Qed.

Lemma press_ctrl_z (s : editor.session) (v : editor.view) :
  cache_gt_of s <> [] ->
  editor.press E imread s v 26 = editor.lift (editor.undo E s v).
Proof.
  intros Hc. unfold editor.press. fold (cache_gt_of s).
  change (editor.ord "d") with 100. change (editor.ord "a") with 97.
  change (editor.ord "w") with 119. change (editor.ord "s") with 115.
  cbn [Z.eqb Pos.eqb andb].
  rewrite (length_nonempty _ Hc). reflexivity.
Qed.

Lemma press_move (s : editor.session) (v : editor.view) (key field delta : Z) :
  editor.idx v <> -1 ->
  move_of key = Some (field, delta) ->
  editor.press E imread s v key = editor.lift (editor.move E s v field delta).
Proof.
  intros Hidx%Z.eqb_neq. unfold move_of, editor.press. rewrite Hidx.
  change (editor.ord "d") with 100. change (editor.ord "a") with 97.
  change (editor.ord "w") with 119. change (editor.ord "s") with 115.
  destruct (key =? 100) eqn:Hd;
    [apply Z.eqb_eq in Hd as ->; now intros [= <- <-]|].
  destruct (key =? 97) eqn:Ha;
    [apply Z.eqb_eq in Ha as ->; now intros [= <- <-]|].
  destruct (key =? 119) eqn:Hw;
    [apply Z.eqb_eq in Hw as ->; now intros [= <- <-]|].
  destruct (key =? 115) eqn:Hs;
    [apply Z.eqb_eq in Hs as ->; now intros [= <- <-]|].
  discriminate.
Qed.

Lemma gt_of_with_groups (s : editor.session) (i : nat) (gt cache_gt : list nat) :
  editor.cnt s = Z.of_nat i ->
  (i < length (editor.new_gt s))%nat ->
  gt_of (editor.with_groups s gt cache_gt) = gt.
Proof.
  intros Hc Hi. unfold gt_of, editor.with_groups. cbn. rewrite Hc, Nat2Z.id.
  now apply list_lookup_total_insert_eq.
Qed.

Lemma cache_gt_of_with_groups (s : editor.session) (i : nat)
  (gt cache_gt : list nat) :
  editor.cnt s = Z.of_nat i ->
  (i < length (editor.cache_new_gt s))%nat ->
  cache_gt_of (editor.with_groups s gt cache_gt) = cache_gt.
Proof.
  intros Hc Hi. unfold cache_gt_of, editor.with_groups. cbn.
  rewrite Hc, Nat2Z.id. now apply list_lookup_total_insert_eq.
Qed.

End EditorKeys.

(** ** The editor: the selection after a deletion *)

(** X20.  The backspace key leaves [idx] as it is.  When the last box of
    the list was selected and is deleted, [idx] is the length of what is
    left: the next key d, a, w or s raises [IndexError], and so do the space
    bar and the backspace key unless the list is now empty. *)
Theorem key_after_deleting_the_last_box_raises
  (E : Extern) {Image : Type} (imread : string -> option Image)
  (start : Z) (file : list string) (keys : list Z)
  (s s' : editor.session) (v v' : editor.view) :
  Forall (fun line => line <> EmptyString) file ->
  editor.main E imread start file keys = editor.Waiting s v ->
  0 <= editor.idx v ->
  editor.idx v = Z.of_nat (length (gt_of s)) - 1 ->
  editor.press E imread s v 8 = editor.Waiting s' v' ->
  editor.idx v' = Z.of_nat (length (gt_of s'))
  /\ forall key : Z,
      is_Some (move_of key) \/ ((key = 32 \/ key = 8) /\ gt_of s' <> []) ->
      editor.press E imread s' v' key = editor.Failed (Uncaught IndexError).
Proof.
  intros Hfile Hmain Hidx Hlast Hdel.
  destruct (main_Waiting E imread start file keys s v Hfile Hmain)
    as (rd & ns & _ & _ & Ht & (i & Hc & Hn) & _).
  pose proof Ht as (Hl1 & _).
  pose proof (lookup_lt_Some _ _ _ Hn) as Hi.
  assert (Hgt : gt_of s <> [])
    by (intros Hnil; rewrite Hnil in Hlast; cbn in Hlast; lia).
  rewrite press_backspace in Hdel by (assumption || lia).
  apply lift_Waiting, delete_Ok in Hdel
    as (_ & _ & Hidx' & a & gt' & _ & Hr & -> & _).
  apply remove_Ok in Hr as (pre & b & post & Hgt0 & -> & _).
  rewrite (gt_of_with_groups s i) by (assumption || lia).
  assert (Hlen : editor.idx v' = Z.of_nat (length (pre ++ post))).
  { rewrite Hidx', Hlast, Hgt0, !length_app. cbn [length]. lia. }
  split; [assumption|].
  assert (Hsel : editor.idx v' <> -1) by lia.
  intros key [[[field delta] Hm]|[Hkey Hne]].
  - rewrite (press_move E imread _ v' key field delta Hsel Hm).
    unfold editor.move.
    change (editor.new_gt _ !!! Z.to_nat _)
      with (gt_of (editor.with_groups s (pre ++ post) (cache_gt_of s ++ [a]))).
    rewrite (gt_of_with_groups s i) by (assumption || lia).
    now rewrite Hlen, getitem_length.
  - assert (Hgt' : gt_of (editor.with_groups s (pre ++ post) (cache_gt_of s ++ [a]))
                   = pre ++ post)
      by (apply (gt_of_with_groups s i); assumption || lia).
    destruct Hkey as [-> | ->].
    + unfold editor.press.
      change (editor.new_gt _ !!! Z.to_nat _)
        with (gt_of (editor.with_groups s (pre ++ post) (cache_gt_of s ++ [a]))).
      rewrite Hgt'. cbn [Z.eqb Pos.eqb andb].
      rewrite (length_nonempty _ Hne).
      unfold editor.select.
      change (editor.new_gt _ !!! Z.to_nat _)
        with (gt_of (editor.with_groups s (pre ++ post) (cache_gt_of s ++ [a]))).
      rewrite Hgt'. apply Z.eqb_neq in Hsel. rewrite Hsel. cbn [negb].
      now rewrite Hlen, getitem_length.
    + rewrite press_backspace by (assumption || now rewrite Hgt').
      unfold editor.delete.
      change (editor.new_gt _ !!! Z.to_nat _)
        with (gt_of (editor.with_groups s (pre ++ post) (cache_gt_of s ++ [a]))).
      rewrite Hgt'. now rewrite Hlen, getitem_length.
Qed.

Lemma key_after_deleting_the_last_box_raises_witness :
  exists s v s' v',
    editor.main Ref.extern Ex.photo 0 Ex.gt_mixed [32; 32] = editor.Waiting s v
    /\ editor.idx v = 1
    /\ editor.press Ref.extern Ex.photo s v 8 = editor.Waiting s' v'
    /\ editor.press Ref.extern Ex.photo s' v' (editor.ord "d")
       = editor.Failed (Uncaught IndexError)
    /\ editor.press Ref.extern Ex.photo s' v' 32
       = editor.Failed (Uncaught IndexError).
Proof.
  destruct (editor.main Ref.extern Ex.photo 0 Ex.gt_mixed [32; 32])
    as [s v| |] eqn:Hmain; [|vm_compute in Hmain; discriminate..].
  destruct (editor.press Ref.extern Ex.photo s v 8) as [s' v'| |] eqn:Hdel;
    [|vm_compute in Hmain; injection Hmain as <- <-;
      vm_compute in Hdel; discriminate..].
  exists s, v, s', v'. split; [reflexivity|].
  assert (Hfile : Forall (fun line => line <> EmptyString) Ex.gt_mixed)
    by (repeat constructor; discriminate).
  assert (Hidx : editor.idx v = 1)
    by (vm_compute in Hmain; injection Hmain as <- <-; reflexivity).
  assert (Hlen : editor.idx v = Z.of_nat (length (gt_of s)) - 1)
    by (vm_compute in Hmain; injection Hmain as <- <-; reflexivity).
  destruct (key_after_deleting_the_last_box_raises Ref.extern Ex.photo 0
              Ex.gt_mixed [32; 32] s s' v v' Hfile Hmain ltac:(lia) Hlen Hdel)
    as [_ Hkeys].
  split; [assumption|]. split; [assumption|]. split.
  - apply Hkeys. left. now exists (2, 2).
  - apply Hkeys. right. split; [now left|].
    vm_compute in Hmain. injection Hmain as <- <-.
    vm_compute in Hdel. injection Hdel as <- <-. discriminate.
Defined.

(** ** The editor: deleting and taking back *)

Lemma map_insert {A B : Type} (f : A -> B) (l : list A) (i : nat) (a : A) :
  map f (<[i := a]> l) = <[i := f a]> (map f l).
Proof. exact (list_fmap_insert f l i a). Qed.

Lemma getitem_map {A B : Type} (f : A -> B) (l : list A) (i : Z) (a : A) :
  getitem l i = Ok a -> getitem (map f l) i = Ok (f a).
Proof.
  unfold getitem. rewrite length_map.
  destruct (norm_index _ _) as [j|]; [|discriminate].
  rewrite lookup_map. destruct (l !! j); [|discriminate].
  now intros [= ->].
Qed.

Lemma elem_of_labels (heap : list (list string)) (gt : list nat)
  (x : list string) :
  x ∈ editor.labels heap gt -> exists a, a ∈ gt /\ heap !!! a = x.
Proof.
  unfold editor.labels. intros Hin.
  apply list_elem_of_In, in_map_iff in Hin as (a & Ha & Hin).
  exists a. split; [now apply list_elem_of_In|assumption].
Qed.

(** X21.  With a box selected in a list that is not empty, the backspace
    key takes the first label equal to the selected one out of the list,
    and Ctrl+Z pressed next puts the selected label back, at the end of the
    list, not at its place: the lines of the frame change their order in
    new_gt.txt unless the label was the last.  The labels, the deleted
    labels of all frames and the selection are as before. *)
Theorem deleted_label_comes_back_last
  (E : Extern) {Image : Type} (imread : string -> option Image)
  (start : Z) (file : list string) (keys : list Z)
  (s s1 s2 : editor.session) (v v1 v2 : editor.view) :
  Forall (fun line => line <> EmptyString) file ->
  editor.main E imread start file keys = editor.Waiting s v ->
  editor.idx v <> -1 ->
  gt_of s <> [] ->
  editor.press E imread s v 8 = editor.Waiting s1 v1 ->
  editor.press E imread s1 v1 26 = editor.Waiting s2 v2 ->
  exists (i : nat) (pre post : list (list string)) (x : list string),
    editor.cnt s = Z.of_nat i
    /\ labels_of s = pre ++ x :: post
    /\ getitem (labels_of s) (editor.idx v) = Ok x
    /\ (x ∉ pre)
    /\ map (editor.labels (editor.heap s2)) (editor.new_gt s2)
       = <[i := pre ++ post ++ [x]]>
           (map (editor.labels (editor.heap s)) (editor.new_gt s))
    /\ editor.cache_new_gt s2 = editor.cache_new_gt s
    /\ editor.heap s2 = editor.heap s
    /\ editor.idx v2 = editor.idx v.
Proof.
  intros Hfile Hmain Hidx Hgt Hdel Hundo.
  destruct (main_Waiting E imread start file keys s v Hfile Hmain)
    as (rd & ns & _ & _ & Ht & (i & Hc & Hn) & _).
  pose proof Ht as (Hl1 & Hl2 & _).
  pose proof (lookup_lt_Some _ _ _ Hn) as Hi.
  rewrite press_backspace in Hdel by assumption.
  apply lift_Waiting, delete_Ok in Hdel
    as (_ & _ & Hidx1 & a & gt' & Ha & Hr & -> & _).
  apply remove_Ok in Hr as (pre & b & post & Hgt0 & -> & Hb & Hpre).
  assert (Hcache1 : cache_gt_of (editor.with_groups s (pre ++ post)
                                   (cache_gt_of s ++ [a]))
                    = cache_gt_of s ++ [a])
    by (apply (cache_gt_of_with_groups s i); assumption || lia).
  assert (Hgt1 : gt_of (editor.with_groups s (pre ++ post) (cache_gt_of s ++ [a]))
                 = pre ++ post)
    by (apply (gt_of_with_groups s i); assumption || lia).
  rewrite press_ctrl_z in Hundo
    by (rewrite Hcache1; intros [_ [=]]%app_eq_nil).
  apply lift_Waiting, undo_Ok in Hundo
    as (_ & _ & Hidx2 & a' & cache' & r & Hca & _ & -> & _).
  rewrite Hcache1 in Hca. apply app_inj_tail in Hca as [<- <-].
  rewrite Hgt1.
  exists i, (editor.labels (editor.heap s) pre),
    (editor.labels (editor.heap s) post), (editor.heap s !!! a).
  split; [assumption|]. split.
  { unfold labels_of, editor.labels. rewrite Hgt0, map_app. cbn [map].
    now rewrite Hb. }
  split;
    [exact (getitem_map (fun a => editor.heap s !!! a) _ _ _ Ha)|].
  split.
  { intros (c & Hin & Heq)%elem_of_labels.
    rewrite Forall_forall in Hpre. now apply (Hpre c). }
  cbn [editor.with_groups editor.heap editor.new_gt editor.cache_new_gt
       editor.cnt].
  rewrite Hc, Nat2Z.id, !list_insert_insert_eq.
  split.
  { rewrite map_insert. unfold editor.labels at 1.
    rewrite !map_app. cbn [map]. now rewrite <- app_assoc. }
  split.
  { apply list_insert_id. apply (cache_gt_of_lookup s i); assumption || lia. }
  split; [reflexivity|congruence].
Qed.

Lemma deleted_label_comes_back_last_witness :
  exists s v s2 v2,
    editor.main Ref.extern Ex.photo 0 Ex.gt_mixed [32] = editor.Waiting s v
    /\ editor.run Ref.extern Ex.photo [8; 26] (editor.Waiting s v)
       = editor.Waiting s2 v2
    /\ editor.text s
       = String.concat EmptyString
           [ Ref.ln "1,7,21,2,22,44,1,1,1"; Ref.ln "1,8,0,0,18,36,1,1,1";
             Ref.ln "2,5,21,2,22,44,1,1,1"; Ref.ln "1,9,5,5,20,40,1,1,1" ]
    /\ editor.text s2
       = String.concat EmptyString
           [ Ref.ln "1,8,0,0,18,36,1,1,1"; Ref.ln "1,7,21,2,22,44,1,1,1";
             Ref.ln "2,5,21,2,22,44,1,1,1"; Ref.ln "1,9,5,5,20,40,1,1,1" ].
Proof.
  destruct (editor.main Ref.extern Ex.photo 0 Ex.gt_mixed [32])
    as [s v| |] eqn:Hmain; [|vm_compute in Hmain; discriminate..].
  destruct (editor.press Ref.extern Ex.photo s v 8) as [s1 v1| |] eqn:Hdel;
    [|vm_compute in Hmain; injection Hmain as <- <-;
      vm_compute in Hdel; discriminate..].
  destruct (editor.press Ref.extern Ex.photo s1 v1 26) as [s2 v2| |] eqn:Hundo;
    [|vm_compute in Hmain; injection Hmain as <- <-;
      vm_compute in Hdel; injection Hdel as <- <-;
      vm_compute in Hundo; discriminate..].
  exists s, v, s2, v2. split; [reflexivity|].
  split; [cbn [editor.run]; now rewrite Hdel, Hundo|].
  assert (Hfile : Forall (fun line => line <> EmptyString) Ex.gt_mixed)
    by (repeat constructor; discriminate).
  assert (Hidx : editor.idx v <> -1)
    by (vm_compute in Hmain; injection Hmain as <- <-; discriminate).
  assert (Hgt : gt_of s <> [])
    by (vm_compute in Hmain; injection Hmain as <- <-; discriminate).
  destruct (deleted_label_comes_back_last Ref.extern Ex.photo 0 Ex.gt_mixed
              [32] s s1 s2 v v1 v2 Hfile Hmain Hidx Hgt Hdel Hundo)
    as (i & pre & post & x & Hc & Hl & Hx & Hpre & Hnew & _).
  unfold editor.text. rewrite Hnew.
  vm_compute in Hmain. injection Hmain as <- <-.
  assert (i = 0%nat) as -> by (cbn in Hc; lia).
  vm_compute in Hx. injection Hx as <-.
  destruct pre as [|p pre].
  - cbn [app] in Hl. vm_compute in Hl. injection Hl as <-.
    split; vm_compute; reflexivity.
  - exfalso. apply Hpre. cbn [app] in Hl. vm_compute in Hl.
    injection Hl as <- _. apply list_elem_of_here.
Defined.

(** ** The end of a run *)

Section EditorFile.

Context (E : Extern) {Image : Type} (imread : string -> option Image).

Lemma run_Exited (keys : list Z) (s : editor.session) :
  editor.run E imread keys (editor.Exited s) = editor.Exited s.
Proof. now destruct keys. Qed.

Lemma run_Failed (keys : list Z) (c : crash) :
  editor.run E imread keys (editor.Failed c) = editor.Failed c.
Proof. now destruct keys. Qed.

Lemma run_app (k1 k2 : list Z) (o : editor.outcome) :
  editor.run E imread (k1 ++ k2) o
  = editor.run E imread k2 (editor.run E imread k1 o).
Proof.
  revert o. induction k1 as [|key k1 IH]; intros o; [reflexivity|].
  cbn [app editor.run]. destruct o as [s v|s|c].
  - apply IH.
  - now rewrite run_Exited.
  - now rewrite run_Failed.
Qed.

(** A key that leaves the script waiting: what it can have done to the
    labels and to new_gt.txt. *)
Lemma press_Waiting_file (s s' : editor.session) (v v' : editor.view)
  (key : Z) :
  editor.press E imread s v key = editor.Waiting s' v' ->
  editor.finish s' = editor.finish s
  /\ (key <> 13 -> editor.new_gt_txt s' = editor.new_gt_txt s)
  /\ (key = 13 -> editor.new_gt_txt s' = Some (editor.text s)
                  \/ editor.new_gt_txt s' = editor.new_gt_txt s)
  /\ (browses key ->
      editor.heap s' = editor.heap s /\ editor.new_gt s' = editor.new_gt s).
Proof.
  intros Hp. apply press_Waiting in Hp
    as [(Hk & c & Ho)|[[Hk Hs]|[(Hk & _ & Hd)|[(field & delta & Hk & _ & _ & Hm)
        |[[Hk Hu]|[(Hk & -> & ->)|[-> ->]]]]]]].
  - apply open_Waiting in Ho as (-> & _). cbn.
    repeat split; auto.
  - apply select_Ok in Hs as (-> & _). repeat split; auto.
  - apply delete_Ok in Hd as (_ & _ & _ & a & gt' & _ & _ & -> & _). cbn.
    split; [reflexivity|]. split; [reflexivity|].
    split; [now right|]. now intros [Hb _].
  - apply move_Ok in Hm
      as (_ & _ & _ & a & tok & n & label & _ & _ & _ & _ & -> & _). cbn.
    split; [reflexivity|]. split; [reflexivity|]. split; [now right|].
    intros (_ & _ & Hb). congruence.
  - apply undo_Ok in Hu as (_ & _ & _ & a & cache' & r & _ & _ & -> & _). cbn.
    split; [reflexivity|]. split; [reflexivity|].
    split; [now right|]. now intros (_ & Hb & _).
  - cbn. split; [reflexivity|]. split; [easy|]. split; [now left|].
    now split.
  - repeat split; auto.
Qed.

Lemma press_enter (s : editor.session) (v : editor.view) :
  editor.press E imread s v 13
  = editor.Waiting (editor.print (editor.save s) "Saved") v.
Proof.
  unfold editor.press.
  change (editor.ord "d") with 100. change (editor.ord "a") with 97.
  change (editor.ord "w") with 119. change (editor.ord "s") with 115.
  cbn [Z.eqb Pos.eqb andb]. reflexivity.
Qed.

Lemma run_Waiting_finish (keys : list Z) (s s' : editor.session)
  (v v' : editor.view) :
  editor.run E imread keys (editor.Waiting s v) = editor.Waiting s' v' ->
  editor.finish s' = editor.finish s.
Proof.
  revert s v. induction keys as [|key keys IH]; intros s v; cbn [editor.run].
  - now intros [= <- <-].
  - destruct (editor.press E imread s v key) as [s1 v1|s1|c] eqn:Hp.
    + intros H. rewrite (IH _ _ H). now apply press_Waiting_file in Hp.
    + now rewrite run_Exited.
    + now rewrite run_Failed.
Qed.

(** How a run ends: past the groups, with the labels written as they are,
    or by the Esc key, with new_gt.txt as it was if Enter was not pressed. *)
Lemma run_ends (keys : list Z) (s s' : editor.session) (v : editor.view) :
  editor.finish s = 0 ->
  editor.run E imread keys (editor.Waiting s v) = editor.Exited s' ->
  (editor.finish s' = 0 /\ editor.new_gt_txt s' = Some (editor.text s'))
  \/ (editor.finish s' = 1
      /\ (13 ∉ keys -> editor.new_gt_txt s' = editor.new_gt_txt s)).
Proof.
  revert s v. induction keys as [|key keys IH]; intros s v Hfin;
    cbn [editor.run]; [discriminate|].
  destruct (editor.press E imread s v key) as [s1 v1|s1|c] eqn:Hp.
  - intros Hrun. pose proof (press_Waiting_file _ _ _ _ _ Hp) as (Hf1 & Htxt & _).
    destruct (IH s1 v1 ltac:(congruence) Hrun) as [Hl|[Hr1 Hr2]]; [now left|].
    right. split; [assumption|]. intros Hnot.
    rewrite not_elem_of_cons in Hnot. destruct Hnot as [Hne Hnot].
    rewrite Hr2, Htxt by (assumption || congruence). reflexivity.
  - rewrite run_Exited. intros [= <-].
    apply press_Exited in Hp as [[_ ->]|(_ & _ & c & Ho)].
    + right. cbn. now split.
    + apply open_Exited in Ho as ->. cbn [editor.with_cnt editor.finish].
      rewrite Hfin. cbn. left. now split.
  - now rewrite run_Failed.
Qed.

Lemma open_start_finish (rd : cleansing.reader) (s : editor.session)
  (v : editor.view) :
  editor.open E imread (editor.start rd) = editor.Waiting s v ->
  s = editor.start rd.
Proof. now intros (-> & _)%open_Waiting. Qed.

End EditorFile.

(** ** The editor: what new_gt.txt holds *)

Lemma text_start (E : Extern) (start : Z) (file : list string)
  (rd : cleansing.reader) :
  Forall (fun line => line <> EmptyString) file ->
  cleansing.read_gt E start file = Ok rd ->
  editor.text (editor.start rd) = String.concat EmptyString file.
Proof.
  intros Hfile Hrd. unfold editor.text. rewrite labels_start.
  destruct (read_lines_grouped E start file [] _ rd (grouped_init E start)
              Hfile Hrd) as (ns & _ & Hc).
  cbn [cleansing.new_gt concat app] in Hc.
  rewrite write_gt_concat, Hc, map_map.
  f_equal. clear. induction file as [|line file IH]; [reflexivity|].
  cbn [map]. now rewrite write_label_split, IH.
Qed.

Lemma run_browses (E : Extern) {Image : Type} (imread : string -> option Image)
  (keys : list Z) (s s' : editor.session) (v : editor.view) :
  Forall browses keys ->
  editor.finish s = 0 ->
  editor.run E imread keys (editor.Waiting s v) = editor.Exited s' ->
  (editor.finish s' = 0 -> editor.new_gt_txt s' = Some (editor.text s))
  /\ (editor.new_gt_txt s' = editor.new_gt_txt s
      \/ editor.new_gt_txt s' = Some (editor.text s)).
Proof.
  intros Hkeys. revert s v.
  induction Hkeys as [|key keys Hkey _ IH]; intros s v Hfin;
    cbn [editor.run]; [discriminate|].
  destruct (editor.press E imread s v key) as [s1 v1|s1|c] eqn:Hp.
  - intros Hrun.
    pose proof (press_Waiting_file E imread _ _ _ _ _ Hp)
      as (Hf1 & Hne & Heq & Hb).
    destruct (Hb Hkey) as [Hheap Hgt].
    assert (Htext : editor.text s1 = editor.text s)
      by (unfold editor.text; now rewrite Hheap, Hgt).
    destruct (IH s1 v1 ltac:(congruence) Hrun) as [H0 H1].
    rewrite Htext in H0, H1. split; [assumption|].
    destruct H1 as [H1|H1]; [|now right].
    rewrite H1. destruct (decide (key = 13)) as [Hk|Hk]; auto.
    destruct (Heq Hk); auto.
  - rewrite run_Exited. intros [= <-].
    apply press_Exited in Hp as [[_ ->]|(_ & _ & c & Ho)].
    + cbn. split; [discriminate|now left].
    + apply open_Exited in Ho as ->. cbn [editor.with_cnt editor.finish].
      rewrite Hfin. cbn. split; [reflexivity|now right].
  - now rewrite run_Failed.
Qed.

(** X22.  Keys that change nothing, and the file comes out as it went in:
    when only keys other than backspace, Ctrl+Z, d, a, w and s were pressed
    and the script has ended, new_gt.txt is, character by character, the
    file gt.txt, if it was written at all; and it was written unless the
    script was ended by Esc. *)
Theorem browsing_copies_gt_txt
  (E : Extern) {Image : Type} (imread : string -> option Image)
  (start : Z) (file : list string) (keys : list Z) (s : editor.session) :
  Forall (fun line => line <> EmptyString) file ->
  Forall browses keys ->
  editor.main E imread start file keys = editor.Exited s ->
  (editor.finish s = 0 ->
   editor.new_gt_txt s = Some (String.concat EmptyString file))
  /\ (editor.new_gt_txt s = None
      \/ editor.new_gt_txt s = Some (String.concat EmptyString file)).
Proof.
  intros Hfile Hkeys. unfold editor.main.
  destruct (cleansing.read_gt E start file) as [rd|] eqn:Hrd; [|discriminate].
  rewrite <- (text_start E start file rd Hfile Hrd).
  destruct (editor.open E imread (editor.start rd)) as [s0 v0|s0|c] eqn:Ho.
  - apply open_start_finish in Ho as ->.
    intros Hrun.
    exact (run_browses E imread keys (editor.start rd) s v0 Hkeys eq_refl Hrun).
  - rewrite run_Exited. intros [= <-].
    apply open_Exited in Ho as ->. cbn. split; [reflexivity|now right].
  - now rewrite run_Failed.
Qed.

Lemma browsing_copies_gt_txt_witness :
  exists s,
    editor.main Ref.extern Ex.photo 0 Ex.gt_mixed
      [0x270000; 32; 0x250000; 13; 0x270000; 0x270000; 0x270000]
    = editor.Exited s
    /\ editor.new_gt_txt s = Some (String.concat EmptyString Ex.gt_mixed).
Proof.
  destruct (editor.main Ref.extern Ex.photo 0 Ex.gt_mixed
              [0x270000; 32; 0x250000; 13; 0x270000; 0x270000; 0x270000])
    as [s v|s|c] eqn:Hmain; [vm_compute in Hmain; discriminate| |
                             vm_compute in Hmain; discriminate].
  exists s. split; [reflexivity|].
  assert (Hfile : Forall (fun line => line <> EmptyString) Ex.gt_mixed)
    by (repeat constructor; discriminate).
  assert (Hkeys : Forall browses
                    [0x270000; 32; 0x250000; 13; 0x270000; 0x270000; 0x270000])
    by (repeat constructor; discriminate).
  destruct (browsing_copies_gt_txt Ref.extern Ex.photo 0 Ex.gt_mixed
              [0x270000; 32; 0x250000; 13; 0x270000; 0x270000; 0x270000] s
              Hfile Hkeys Hmain) as [Hwritten _].
  apply Hwritten. vm_compute in Hmain. injection Hmain as <-. reflexivity.
Defined.

(** X23.  When new_gt.txt is written.  A run that ends past the first or
    the last group has written the labels as they are at the end.  A run
    that the Esc key ends writes nothing at the end: new_gt.txt is what the
    last Enter wrote, without the changes made since, and there is no
    new_gt.txt if Enter was not pressed. *)
Theorem esc_writes_nothing
  (E : Extern) {Image : Type} (imread : string -> option Image)
  (start : Z) (file : list string) (keys : list Z) (s : editor.session) :
  editor.main E imread start file keys = editor.Exited s ->
  (editor.finish s = 0 /\ editor.new_gt_txt s = Some (editor.text s))
  \/ (editor.finish s = 1
      /\ (13 ∉ keys -> editor.new_gt_txt s = None)
      /\ forall (k1 k2 : list Z) (s1 : editor.session) (v1 : editor.view),
          keys = k1 ++ 13 :: k2 ->
          13 ∉ k2 ->
          editor.main E imread start file k1 = editor.Waiting s1 v1 ->
          editor.new_gt_txt s = Some (editor.text s1)).
Proof.
  unfold editor.main.
  destruct (cleansing.read_gt E start file) as [rd|] eqn:Hrd; [|discriminate].
  destruct (editor.open E imread (editor.start rd)) as [s0 v0|s0|c] eqn:Ho.
  - apply open_start_finish in Ho as ->. intros Hrun.
    destruct (run_ends E imread keys (editor.start rd) s v0 eq_refl Hrun)
      as [Hl|[Hf Hno]];
      [now left|].
    right. split; [assumption|]. split; [exact Hno|].
    intros k1 k2 s1 v1 -> Hk2 Hk1.
    rewrite run_app, Hk1 in Hrun. cbn [editor.run] in Hrun.
    rewrite press_enter in Hrun.
    pose proof (run_Waiting_finish E imread k1 _ s1 v0 v1 Hk1) as Hf1.
    destruct (run_ends E imread k2 (editor.print (editor.save s1) "Saved")
                s v1 Hf1 Hrun) as [[Hf0 _]|[_ Htxt]];
      [congruence|].
    now rewrite Htxt.
  - rewrite run_Exited. intros [= <-].
    apply open_Exited in Ho as ->. cbn. now left.
  - now rewrite run_Failed.
Qed.

Lemma esc_writes_nothing_witness :
  exists s,
    editor.main Ref.extern Ex.photo 0 Ex.gt_mixed [32; 8; 13; 32; 8; 27]
    = editor.Exited s
    /\ editor.new_gt_txt s
       = Some (String.concat EmptyString
                 [ Ref.ln "1,8,0,0,18,36,1,1,1"; Ref.ln "2,5,21,2,22,44,1,1,1";
                   Ref.ln "1,9,5,5,20,40,1,1,1" ])
    /\ editor.text s
       = String.concat EmptyString
           [ Ref.ln "2,5,21,2,22,44,1,1,1"; Ref.ln "1,9,5,5,20,40,1,1,1" ].
Proof.
  destruct (editor.main Ref.extern Ex.photo 0 Ex.gt_mixed [32; 8; 13; 32; 8; 27])
    as [s v|s|c] eqn:Hmain; [vm_compute in Hmain; discriminate| |
                             vm_compute in Hmain; discriminate].
  exists s. split; [reflexivity|].
  destruct (editor.main Ref.extern Ex.photo 0 Ex.gt_mixed [32; 8])
    as [s1 v1|s1|c] eqn:Hk1; [|vm_compute in Hk1; discriminate..].
  destruct (esc_writes_nothing Ref.extern Ex.photo 0 Ex.gt_mixed _ s Hmain)
    as [[Hf _]|(_ & _ & Hsaved)].
  - vm_compute in Hmain. injection Hmain as <-. discriminate.
  - rewrite (Hsaved [32; 8] [32; 8; 27] s1 v1 eq_refl) by
      (assumption || (intros Hin; repeat (apply elem_of_cons in Hin as [Hin|Hin];
                       [discriminate|]); now apply elem_of_nil in Hin)).
    vm_compute in Hk1. injection Hk1 as <- <-.
    vm_compute in Hmain. injection Hmain as <-.
    split; vm_compute; reflexivity.
Defined.

(** ** The editor: moving a box *)

Lemma getitem_Ok {A : Type} (l : list A) (i : Z) (a : A) :
  getitem l i = Ok a <->
  exists j : nat, norm_index (length l) i = Some j /\ l !! j = Some a.
Proof.
  unfold getitem. destruct (norm_index _ _) as [j|]; split.
  - destruct (l !! j) eqn:Hl; [|discriminate]. intros [= ->]. eauto.
  - intros (j' & [= <-] & ->). reflexivity.
  - discriminate.
  - now intros (j' & [=] & _).
Qed.

Lemma with_heap_id (s : editor.session) (heap : list (list string)) :
  heap = editor.heap s -> editor.with_heap s heap = s.
Proof. intros ->. now destruct s. Qed.

(** X24.  With a box selected, a key that moves it and then the key that
    moves it back leave every label and every list as they were, when the
    component that they change is a numeral as [str] writes it and [int]
    reads back what [str] wrote: d and a, or w and s, in any order. *)
Theorem moving_back_restores_the_label
  (E : Extern) {Image : Type} (imread : string -> option Image)
  (s s1 s2 : editor.session) (v v1 v2 : editor.view)
  (key back field delta n : Z) (a : nat) :
  int_reads_str E ->
  editor.idx v <> -1 ->
  move_of key = Some (field, delta) ->
  move_of back = Some (field, - delta) ->
  getitem (gt_of s) (editor.idx v) = Ok a ->
  getitem (editor.heap s !!! a) field = Ok (str n) ->
  editor.press E imread s v key = editor.Waiting s1 v1 ->
  editor.press E imread s1 v1 back = editor.Waiting s2 v2 ->
  s2 = s /\ editor.idx v2 = editor.idx v.
Proof.
  intros Hint Hidx Hkey Hback Ha Htok Hp1 Hp2.
  rewrite (press_move E imread s v key field delta Hidx Hkey) in Hp1.
  apply lift_Waiting, move_Ok in Hp1
    as (_ & _ & Hidx1 & a1 & tok1 & n1 & label1 & Ha1 & Htok1 & Hn1 & Hset1
        & -> & _).
  assert (a1 = a) as -> by congruence.
  assert (tok1 = str n) as -> by congruence.
  rewrite Hint in Hn1. injection Hn1 as <-.
  rewrite (press_move E imread _ v1 back field (- delta)) in Hp2
    by (assumption || congruence).
  apply lift_Waiting, move_Ok in Hp2
    as (_ & _ & Hidx2 & a2 & tok2 & n2 & label2 & Ha2 & Htok2 & Hn2 & Hset2
        & -> & _).
  change (gt_of (editor.with_heap s _)) with (gt_of s) in Ha2.
  rewrite Hidx1 in Ha2. assert (a2 = a) as -> by congruence.
  cbn [editor.with_heap editor.heap] in *.
  split; [|congruence].
  change (editor.with_heap (editor.with_heap s ?h1) ?h2)
    with (editor.with_heap s h2).
  apply with_heap_id. cbn [editor.with_heap editor.heap] in *.
  destruct (decide (a < length (editor.heap s))%nat) as [Hlt|Hge].
  - rewrite list_lookup_total_insert_eq in Htok2, Hset2 by assumption.
    apply setitem_Ok in Hset1 as (j & Hj & ->).
    apply getitem_Ok in Htok as (j' & Hj' & Hl).
    assert (j' = j) as -> by congruence.
    pose proof (lookup_lt_Some _ _ _ Hl) as Hjlt.
    assert (Hmoved : getitem (<[j := str (n + delta)]> (editor.heap s !!! a)) field
                     = Ok (str (n + delta))).
    { apply getitem_Ok. exists j. rewrite length_insert. split; [assumption|].
      now apply list_lookup_insert_eq. }
    rewrite Hmoved in Htok2. injection Htok2 as <-.
    rewrite Hint in Hn2. injection Hn2 as <-.
    apply setitem_Ok in Hset2 as (j2 & Hj2 & ->).
    rewrite length_insert in Hj2. assert (j2 = j) as -> by congruence.
    replace (n + delta + - delta) with n by lia.
    rewrite !list_insert_insert_eq.
    rewrite (list_insert_id (editor.heap s !!! a) j (str n)) by assumption.
    apply list_insert_id. now apply list_lookup_lookup_total_lt.
  - rewrite !list_insert_ge by (rewrite ?length_insert; lia). reflexivity.
Qed.

Lemma moving_back_restores_the_label_witness :
  exists s v s1 v1,
    editor.main Ref.extern Ex.photo 0 Ex.gt_mixed [32] = editor.Waiting s v
    /\ editor.press Ref.extern Ex.photo s v (editor.ord "w")
       = editor.Waiting s1 v1
    /\ editor.text s1
       = String.concat EmptyString
           [ Ref.ln "1,7,21,0,22,44,1,1,1"; Ref.ln "1,8,0,0,18,36,1,1,1";
             Ref.ln "2,5,21,2,22,44,1,1,1"; Ref.ln "1,9,5,5,20,40,1,1,1" ]
    /\ exists v2,
        editor.press Ref.extern Ex.photo s1 v1 (editor.ord "s")
        = editor.Waiting s v2.
Proof.
  destruct (editor.main Ref.extern Ex.photo 0 Ex.gt_mixed [32])
    as [s v| |] eqn:Hmain; [|vm_compute in Hmain; discriminate..].
  destruct (editor.press Ref.extern Ex.photo s v (editor.ord "w"))
    as [s1 v1| |] eqn:Hw;
    [|vm_compute in Hmain; injection Hmain as <- <-;
      vm_compute in Hw; discriminate..].
  destruct (editor.press Ref.extern Ex.photo s1 v1 (editor.ord "s"))
    as [s2 v2| |] eqn:Hs;
    [|vm_compute in Hmain; injection Hmain as <- <-;
      vm_compute in Hw; injection Hw as <- <-;
      vm_compute in Hs; discriminate..].
  exists s, v, s1, v1. split; [reflexivity|]. split; [assumption|].
  destruct (moving_back_restores_the_label Ref.extern Ex.photo s s1 s2 v v1 v2
              (editor.ord "w") (editor.ord "s") 3 (-2) 2 0%nat)
    as [-> _]; try assumption; try reflexivity.
  - exact int_reads_str_Ref.
  - vm_compute in Hmain. injection Hmain as <- <-. discriminate.
  - vm_compute in Hmain. injection Hmain as <- <-. reflexivity.
  - vm_compute in Hmain. injection Hmain as <- <-. reflexivity.
  - split; [|now exists v2].
    vm_compute in Hmain. injection Hmain as <- <-.
    vm_compute in Hw. injection Hw as <- <-. reflexivity.
Defined.

(** ** The labels of a group *)

Section EditorKept.

Context (E : Extern) {Image : Type} (imread : string -> option Image).

Lemma NoDup_map_inj {A B : Type} (f : A -> B) (l : list A) (a b : A) :
  NoDup (map f l) -> a ∈ l -> b ∈ l -> f a = f b -> a = b.
Proof.
  induction l as [|x l IH]; [now intros _ ?%elem_of_nil|].
  cbn [map]. intros [Hx Hl]%NoDup_cons Ha Hb Hf.
  assert (Hin : forall c, c ∈ l -> f c ∈ map f l).
  { intros c Hc. apply list_elem_of_In, in_map, list_elem_of_In, Hc. }
  apply elem_of_cons in Ha as [->|Ha]; apply elem_of_cons in Hb as [->|Hb].
  - reflexivity.
  - exfalso. apply Hx. rewrite Hf. now apply Hin.
  - exfalso. apply Hx. rewrite <- Hf. now apply Hin.
  - now apply IH.
Qed.

Lemma kept_start (rd : cleansing.reader) : kept rd (editor.start rd).
Proof.
  unfold kept. cbn [editor.start editor.heap editor.new_gt editor.cache_new_gt].
  split; [reflexivity|]. split; [now split|].
  intros i group Hg.
  rewrite (list_lookup_total_correct _ _ _ Hg).
  assert (Hi : (i < length (cleansing.new_gt rd))%nat).
  { apply lookup_lt_Some in Hg.
    rewrite <- (labels_start rd), length_map. exact Hg. }
  rewrite lookup_total_replicate_2 by assumption. now rewrite app_nil_r.
Qed.

Lemma kept_with_groups (rd : cleansing.reader) (s : editor.session) (i : nat)
  (gt cache_gt : list nat) :
  kept rd s ->
  editor.cnt s = Z.of_nat i ->
  (i < length (editor.new_gt s))%nat ->
  (i < length (editor.cache_new_gt s))%nat ->
  Permutation (gt ++ cache_gt) (gt_of s ++ cache_gt_of s) ->
  kept rd (editor.with_groups s gt cache_gt).
Proof.
  intros (Hh & Hl & Hp) Hc Hi1 Hi2 Hperm. unfold kept, editor.with_groups. cbn.
  split; [assumption|]. split; [assumption|].
  intros j group Hg. rewrite Hc, Nat2Z.id.
  destruct (decide (i = j)) as [<-|Hij].
  - rewrite !list_lookup_total_insert_eq by assumption.
    rewrite Hperm. unfold gt_of, cache_gt_of. rewrite Hc, Nat2Z.id.
    now apply Hp.
  - rewrite !list_lookup_total_insert_ne by assumption. now apply Hp.
Qed.

Lemma kept_with_heap (rd : cleansing.reader) (s : editor.session) (a : nat)
  (field : Z) (tok : string) (label : list string) :
  kept rd s ->
  field = 2 \/ field = 3 ->
  setitem (editor.heap s !!! a) field tok = Ok label ->
  kept rd (editor.with_heap s (<[a := label]> (editor.heap s))).
Proof.
  intros (Hh & Hl & Hp) Hf Hset. unfold kept, editor.with_heap. cbn.
  split; [now rewrite length_insert|]. split; [|assumption].
  intros b. rewrite lookup_total_insert.
  destruct (decide _) as [[<- _]|_]; [|apply Hl].
  apply setitem_Ok in Hset as (j & Hj & ->).
  apply norm_index_nat in Hj as [Hj _]; [|lia].
  destruct (Hl a) as [Hlen Hk]. rewrite length_insert.
  split; [assumption|].
  intros k Hk2 Hk3. rewrite list_lookup_insert_ne by lia. now apply Hk.
Qed.

(** The ids tell the labels of a group apart, whatever was moved. *)
Lemma same_label_same_address (rd : cleansing.reader) (s : editor.session)
  (i : nat) (a b : nat) :
  distinct_ids (cleansing.new_gt rd) ->
  kept rd s ->
  (i < length (editor.new_gt s))%nat ->
  length (editor.new_gt s) = length (cleansing.new_gt rd) ->
  a ∈ editor.new_gt s !!! i ->
  b ∈ editor.new_gt s !!! i ->
  editor.heap s !!! b = editor.heap s !!! a ->
  b = a.
Proof.
  intros Hd (Hh & Hl & Hp) Hi Hlen Ha Hb Heq.
  pose proof (labels_addresses [] (cleansing.new_gt rd)) as Hlab.
  cbn [app length] in Hlab.
  assert (Hi' : (i < length (editor.addresses (cleansing.new_gt rd) 0))%nat).
  { rewrite <- (length_map (editor.labels (concat (cleansing.new_gt rd)))),
      Hlab. lia. }
  destruct (lookup_lt_is_Some_2 _ _ Hi') as [group Hg].
  specialize (Hp i group Hg).
  assert (Hgroup : cleansing.new_gt rd !! i
                   = Some (editor.labels (concat (cleansing.new_gt rd)) group)).
  { rewrite <- Hlab at 1. now rewrite lookup_map, Hg. }
  unfold distinct_ids in Hd. rewrite Forall_lookup in Hd.
  specialize (Hd _ _ Hgroup). unfold editor.labels in Hd. rewrite map_map in Hd.
  apply (NoDup_map_inj _ group b a Hd).
  - rewrite <- Hp. apply elem_of_app. now left.
  - rewrite <- Hp. apply elem_of_app. now left.
  - destruct (Hl a) as [_ Hka]. destruct (Hl b) as [_ Hkb].
    rewrite <- Hka, <- Hkb by lia. now rewrite Heq.
Qed.

Lemma press_kept (rd : cleansing.reader) (ns : list Z)
  (s s' : editor.session) (v v' : editor.view) (key : Z) :
  distinct_ids (cleansing.new_gt rd) ->
  length ns = length (cleansing.new_gt rd) ->
  tidy E ns s ->
  on_view imread ns s v ->
  kept rd s ->
  editor.press E imread s v key = editor.Waiting s' v' ->
  kept rd s'.
Proof.
  intros Hd Hns Ht ((i & Hc & Hn) & _) Hk Hp.
  pose proof Ht as (Hl1 & Hl2 & _).
  pose proof (lookup_lt_Some _ _ _ Hn) as Hi.
  apply press_Waiting in Hp
    as [(_ & c & Ho)|[[_ Hs]|[(_ & _ & Hdel)|[(field & delta & _ & Hf & _ & Hm)
        |[[_ Hu]|[(_ & -> & ->)|[-> ->]]]]]]].
  - apply open_Waiting in Ho as (-> & _). exact Hk.
  - now apply select_Ok in Hs as (-> & _).
  - apply delete_Ok in Hdel as (_ & _ & _ & a & gt' & Ha & Hr & -> & _).
    apply remove_Ok in Hr as (pre & b & post & Hgt0 & -> & Hb & _).
    assert (b = a) as ->.
    { apply (same_label_same_address rd s i); try assumption; try lia.
      - replace (editor.new_gt s !!! i) with (gt_of s)
          by (unfold gt_of; now rewrite Hc, Nat2Z.id).
        eapply getitem_elem, Ha.
      - replace (editor.new_gt s !!! i) with (gt_of s)
          by (unfold gt_of; now rewrite Hc, Nat2Z.id).
        rewrite Hgt0. apply elem_of_app. right. apply list_elem_of_here. }
    apply (kept_with_groups rd s i); try assumption; try lia.
    rewrite Hgt0, <- !app_assoc. apply Permutation_app_head.
    cbn [app]. rewrite (Permutation_app_comm (cache_gt_of s) [a]).
    cbn [app]. symmetry. apply Permutation_middle.
  - apply move_Ok in Hm
      as (_ & _ & _ & a & tok & n & label & _ & _ & _ & Hset & -> & _).
    now apply (kept_with_heap rd s a field (str (n + delta))).
  - apply undo_Ok in Hu as (_ & _ & _ & a & cache' & r & Hca & _ & -> & _).
    apply (kept_with_groups rd s i); try assumption; try lia.
    rewrite Hca, <- app_assoc. apply Permutation_app_head.
    apply Permutation_app_comm.
  - exact Hk.
  - exact Hk.
Qed.

Lemma run_kept (rd : cleansing.reader) (ns : list Z) (keys : list Z)
  (s s' : editor.session) (v v' : editor.view) :
  distinct_ids (cleansing.new_gt rd) ->
  length ns = length (cleansing.new_gt rd) ->
  tidy E ns s ->
  on_view imread ns s v ->
  kept rd s ->
  editor.run E imread keys (editor.Waiting s v) = editor.Waiting s' v' ->
  kept rd s'.
Proof.
  intros Hd Hns. revert s v.
  induction keys as [|key keys IH]; intros s v Ht Hv Hk; cbn [editor.run].
  - now intros [= <- <-].
  - destruct (editor.press E imread s v key) as [s1 v1|s1|c] eqn:Hp.
    + destruct (press_tidy E imread ns s s1 v v1 key Ht Hv Hp) as [Ht1 Hv1].
      pose proof (press_kept rd ns s s1 v v1 key Hd Hns Ht Hv Hk Hp) as Hk1.
      now apply IH.
    + now rewrite run_Exited.
    + now rewrite run_Failed.
Qed.

End EditorKept.

(** ** The editor: the labels that it holds *)

(** X25.  When the labels of every group of gt.txt have different ids,
    no key loses a label or makes two of one: where the editor waits,
    every label that was read is, once, in the list of its group or in the
    list of the deleted labels of its group, with the length that it had
    and, but for the components 2 and 3 that the keys d, a, w and s change,
    the components that it had. *)
Theorem no_label_is_lost
  (E : Extern) {Image : Type} (imread : string -> option Image)
  (start : Z) (file : list string) (keys : list Z) (rd : cleansing.reader)
  (s : editor.session) (v : editor.view) :
  Forall (fun line => line <> EmptyString) file ->
  cleansing.read_gt E start file = Ok rd ->
  distinct_ids (cleansing.new_gt rd) ->
  editor.main E imread start file keys = editor.Waiting s v ->
  kept rd s.
Proof.
  intros Hfile Hrd Hd. unfold editor.main. rewrite Hrd.
  destruct (read_lines_grouped E start file [] _ rd (grouped_init E start)
              Hfile Hrd) as (ns & (Hu & _) & _).
  pose proof (Forall2_length _ _ _ Hu) as Hns.
  pose proof (start_tidy E ns rd Hu) as Ht.
  destruct (editor.open E imread (editor.start rd)) as [s0 v0|s0|c] eqn:Ho.
  - destruct (open_tidy E imread ns _ s0 v0 Ht Ho) as [Ht0 Hv0].
    apply open_start_finish in Ho as ->.
    apply (run_kept E imread rd ns keys (editor.start rd) s v0 v Hd Hns Ht0 Hv0).
    apply kept_start.
  - now rewrite run_Exited.
  - now rewrite run_Failed.
Qed.

Lemma no_label_is_lost_witness :
  exists rd s v,
    cleansing.read_gt Ref.extern 0 Ex.gt_mixed = Ok rd
    /\ editor.main Ref.extern Ex.photo 0 Ex.gt_mixed
         [32; 8; 32; editor.ord "d"; 26] = editor.Waiting s v
    /\ editor.new_gt s = [[1; 0]; [2]; [3]]%nat
    /\ Permutation (editor.new_gt s !!! 0%nat ++ editor.cache_new_gt s !!! 0%nat)
         [0; 1]%nat
    /\ editor.text s
       = String.concat EmptyString
           [ Ref.ln "1,8,2,0,18,36,1,1,1"; Ref.ln "1,7,21,2,22,44,1,1,1";
             Ref.ln "2,5,21,2,22,44,1,1,1"; Ref.ln "1,9,5,5,20,40,1,1,1" ].
Proof.
  destruct (cleansing.read_gt Ref.extern 0 Ex.gt_mixed) as [rd|e] eqn:Hrd;
    [|vm_compute in Hrd; discriminate].
  destruct (editor.main Ref.extern Ex.photo 0 Ex.gt_mixed
              [32; 8; 32; editor.ord "d"; 26])
    as [s v| |] eqn:Hmain; [|vm_compute in Hmain; discriminate..].
  exists rd, s, v. split; [reflexivity|]. split; [reflexivity|].
  assert (Hfile : Forall (fun line => line <> EmptyString) Ex.gt_mixed)
    by (repeat constructor; discriminate).
  assert (Hd : distinct_ids (cleansing.new_gt rd)).
  { vm_compute in Hrd. injection Hrd as <-.
    repeat constructor; cbn; intros Hin;
      repeat (apply elem_of_cons in Hin as [Hin|Hin]; [discriminate|]);
      now apply elem_of_nil in Hin. }
  destruct (no_label_is_lost Ref.extern Ex.photo 0 Ex.gt_mixed _ rd s v
              Hfile Hrd Hd Hmain) as (_ & _ & Hperm).
  split; [vm_compute in Hmain; injection Hmain as <- <-; reflexivity|].
  split.
  - apply Hperm. vm_compute in Hrd. injection Hrd as <-. reflexivity.
  - vm_compute in Hmain. injection Hmain as <- <-. vm_compute. reflexivity.
Defined.

(** ** The editor: two equal labels in a frame *)

Lemma remove_first (heap : list (list string)) (x : list string)
  (pre rest : list nat) (b : nat) :
  Forall (fun c => heap !!! c <> x) pre ->
  heap !!! b = x ->
  editor.remove heap x (pre ++ b :: rest) = Ok (pre ++ rest).
Proof.
  intros Hpre Hb. induction Hpre as [|c pre Hc _ IH]; cbn.
  - now rewrite (proj2 (label_eqb_eq _ _) Hb).
  - destruct (editor.label_eqb (heap !!! c) x) eqn:Heq.
    + now apply label_eqb_eq in Heq.
    + now rewrite IH.
Qed.

(** X26.  [gt.remove(gt[idx])] compares the labels, it does not look for
    the selected one: when a label before the selected one in the list is
    equal to it, the backspace key takes the first such label out of the
    list, and the selected label stays in the list while it is also put
    among the deleted ones, one Python list in two places. *)
Theorem backspace_takes_the_first_equal_label
  (E : Extern) {Image : Type} (imread : string -> option Image)
  (start : Z) (file : list string) (keys : list Z)
  (s s' : editor.session) (v v' : editor.view)
  (pre mid post : list nat) (a b : nat) :
  Forall (fun line => line <> EmptyString) file ->
  editor.main E imread start file keys = editor.Waiting s v ->
  gt_of s = pre ++ b :: mid ++ a :: post ->
  editor.idx v = Z.of_nat (length pre + 1 + length mid) ->
  editor.heap s !!! b = editor.heap s !!! a ->
  Forall (fun c => editor.heap s !!! c <> editor.heap s !!! a) pre ->
  editor.press E imread s v 8 = editor.Waiting s' v' ->
  gt_of s' = pre ++ mid ++ a :: post
  /\ cache_gt_of s' = cache_gt_of s ++ [a]
  /\ editor.heap s' = editor.heap s
  /\ editor.idx v' = editor.idx v.
Proof.
  intros Hfile Hmain Hgt Hidx Hb Hpre Hdel.
  destruct (main_Waiting E imread start file keys s v Hfile Hmain)
    as (rd & ns & _ & _ & Ht & (i & Hc & Hn) & _).
  pose proof Ht as (Hl1 & Hl2 & _).
  pose proof (lookup_lt_Some _ _ _ Hn) as Hi.
  rewrite press_backspace in Hdel
    by (lia || (rewrite Hgt; now destruct pre)).
  apply lift_Waiting, delete_Ok in Hdel
    as (_ & _ & Hidx' & a' & gt' & Ha & Hr & -> & _).
  assert (a' = a) as ->.
  { rewrite Hidx, Hgt in Ha. apply getitem_nat_Ok in Ha.
    change (pre ++ b :: mid ++ a :: post)
      with (pre ++ (b :: mid) ++ a :: post) in Ha.
    rewrite app_assoc, list_lookup_middle in Ha
      by (rewrite length_app; cbn [length]; lia).
    now injection Ha. }
  rewrite Hgt, (remove_first _ _ pre (mid ++ a :: post) b Hpre Hb) in Hr.
  injection Hr as <-.
  rewrite (gt_of_with_groups s i), (cache_gt_of_with_groups s i)
    by (assumption || lia).
  now repeat split.
Qed.

Lemma backspace_takes_the_first_equal_label_witness :
  exists s v s' v',
    editor.main Ref.extern Ex.photo 0 Ex.gt_twice [32; 32] = editor.Waiting s v
    /\ editor.press Ref.extern Ex.photo s v 8 = editor.Waiting s' v'
    /\ gt_of s = [0; 1]%nat /\ editor.idx v = 1
    /\ gt_of s' = [1]%nat /\ cache_gt_of s' = [1]%nat.
Proof.
  destruct (editor.main Ref.extern Ex.photo 0 Ex.gt_twice [32; 32])
    as [s v| |] eqn:Hmain; [|vm_compute in Hmain; discriminate..].
  destruct (editor.press Ref.extern Ex.photo s v 8) as [s' v'| |] eqn:Hdel;
    [|vm_compute in Hmain; injection Hmain as <- <-;
      vm_compute in Hdel; discriminate..].
  exists s, v, s', v'. split; [reflexivity|]. split; [assumption|].
  assert (Hfile : Forall (fun line => line <> EmptyString) Ex.gt_twice)
    by (repeat constructor; discriminate).
  assert (Hgt : gt_of s = [] ++ 0%nat :: [] ++ 1%nat :: [])
    by (vm_compute in Hmain; injection Hmain as <- <-; reflexivity).
  assert (Hidx : editor.idx v
                 = Z.of_nat (length (@nil nat) + 1 + length (@nil nat)))
    by (vm_compute in Hmain; injection Hmain as <- <-; reflexivity).
  assert (Hcache : cache_gt_of s = [])
    by (vm_compute in Hmain; injection Hmain as <- <-; reflexivity).
  destruct (backspace_takes_the_first_equal_label Ref.extern Ex.photo 0
              Ex.gt_twice [32; 32] s s' v v' [] [] [] 1%nat 0%nat Hfile Hmain
              Hgt Hidx)
    as (Hgt' & Hcache' & _); [| |assumption|].
  - vm_compute in Hmain. injection Hmain as <- <-. reflexivity.
  - constructor.
  - rewrite Hcache in Hcache'. now repeat split.
Defined.

(** ** From make_bb.py to the editor *)

Section EditorAfterMakeBb.

Context (E : Extern) {Image : Type}.

Lemma imread_from_imap {A : Type} (f : A -> Image) (l : list A) (n0 m : Z)
  (image : Image) :
  0 <= n0 -> 0 <= m ->
  imread_from (imap (fun k e => (make_bb.jpg (n0 + Z.of_nat k), f e)) l)
    (make_bb.jpg m) = Some image ->
  exists (j : nat) (e : A), m = n0 + Z.of_nat j /\ l !! j = Some e /\ image = f e.
Proof.
  revert n0. induction l as [|x l IH]; intros n0 Hn0 Hm; [discriminate|].
  cbn [imap imread_from].
  assert (Hext : imap ((fun k e => (make_bb.jpg (n0 + Z.of_nat k), f e)) ∘ S) l
                 = imap (fun k e => (make_bb.jpg (n0 + 1 + Z.of_nat k), f e)) l).
  { apply imap_ext. intros k e _. cbn. do 2 f_equal. lia. }
  rewrite Hext.
  destruct (imread_from _ _) as [later|] eqn:Hl.
  - intros [= <-]. destruct (IH (n0 + 1) ltac:(lia) Hm Hl) as (j & e & -> & He & ->).
    exists (S j), e. split; [lia|]. now split.
  - destruct (String.eqb _ _) eqn:Heq; [|discriminate].
    intros [= <-]. apply String.eqb_eq, jpg_inj in Heq; [|lia..].
    exists 0%nat, x. split; [lia|]. now split.
Qed.

Lemma filter_nonempty_snoc {A : Type} (blocks : list (list A)) (ds : list A) :
  ds <> [] ->
  List.filter nonempty (blocks ++ [ds]) = List.filter nonempty blocks ++ [ds].
Proof.
  intros Hne. rewrite List.filter_app. cbn. now destruct ds.
Qed.

Lemma elem_of_filter_nonempty {A : Type} (blocks : list (list A)) (ds : list A) :
  ds ∈ List.filter nonempty blocks -> ds <> [] /\ ds ∈ blocks.
Proof.
  intros [Hin Hne]%list_elem_of_In%filter_In. split.
  - now destruct ds.
  - now apply list_elem_of_In.
Qed.

(** A run of make_bb.py with [--save] that ends, and gt.txt as the reader
    of cleansing.py takes it. *)
Lemma saved_then_read (a : make_bb.args) (r : make_bb.recording (Image := Image))
  (out : make_bb.state) (start : Z) :
  int_reads_str E ->
  make_bb.save a = true ->
  make_bb.main E a r = make_bb.Done out ->
  exists (done : list (string * Image * frame_state)) (rd : cleansing.reader),
    map (fun e => e.1.1) done = processed r
    /\ (forall (k : nat) e,
          done !! k = Some e ->
          Forall (fun d => det_frame d = Z.of_nat k + 1) (written e.2))
    /\ make_bb.frame out = Z.of_nat (length done)
    /\ make_bb.gt_jpg out
       = imap (fun k e => (make_bb.jpg (0 + Z.of_nat k), e.1.2)) done
    /\ Forall (fun line => line <> EmptyString) (make_bb.gt_txt out)
    /\ cleansing.read_gt E start (make_bb.gt_txt out) = Ok rd
    /\ cleansing.new_gt rd
       = map (map (fun d => Str.split_on ","%char (gt_line d)))
           (List.filter nonempty
              (map (fun e : string * Image * frame_state => written e.2) done)).
Proof.
  intros Hint Hsave Hmain. unfold make_bb.main in Hmain.
  apply (loop_done E a r) in Hmain
    as (done & Hnums & Hdone & Hlen & Hgt & Hjpg & _).
  rewrite Hsave in Hjpg.
  cbn [make_bb.frame make_bb.gt_txt make_bb.gt_jpg app] in *.
  set (blocks := map (fun e : string * Image * frame_state => written e.2) done).
  assert (Hlines : make_bb.gt_txt out = concat (map (map gt_line) blocks)).
  { rewrite Hgt. unfold blocks. rewrite map_map. reflexivity. }
  assert (Hframes : forall (k : nat) e,
             done !! k = Some e ->
             Forall (fun d => det_frame d = Z.of_nat k + 1) (written e.2)).
  { intros k [[num src] fs] He.
    destruct (Hdone k num src fs He) as (_ & semantic & _ & Hfs).
    apply (process_frame_number E) in Hfs. exact Hfs. }
  assert (Hblocks : forall (k : nat) ds,
             blocks !! k = Some ds ->
             Forall (fun d => det_frame d = 0 + Z.of_nat k + 1) ds).
  { intros k ds Hk. unfold blocks in Hk. rewrite lookup_map in Hk.
    destruct (done !! k) as [e|] eqn:He; [|discriminate].
    injection Hk as <-. now apply Hframes. }
  destruct (read_blocks E start Hint blocks 0
              {| cleansing.new_gt := []; cleansing.frame := -1;
                 cleansing.start_frame_idx := 0 |} Hblocks)
    as (rd & Hrd & Hgroups); [cbn; lia|].
  cbn [cleansing.new_gt app] in Hgroups.
  exists done, rd. split; [exact Hnums|]. split; [exact Hframes|].
  split; [exact Hlen|]. split; [exact Hjpg|]. split.
  { rewrite Hlines. clear. induction blocks as [|ds blocks IH]; [constructor|].
    cbn [map concat]. apply Forall_app. split; [|assumption].
    apply Forall_map, Forall_forall. intros d _. apply gt_line_not_empty. }
  split; [unfold cleansing.read_gt; now rewrite Hlines|].
  exact Hgroups.
Qed.

End EditorAfterMakeBb.

Section EditorOnSaved.

Context (E : Extern) {Image : Type} (imread : string -> option Image).
Context (Hint : int_reads_str E).

(** The frame numbers of the groups read from the lines of the frames 1,
    2, ...: the group at [i] holds the detections of a frame [k], and its
    number is [k + 1]. *)
Lemma number_of_group (blocks : list (list detection)) (ns : list Z)
  (i : nat) (n : Z) :
  (forall (k : nat) ds,
      blocks !! k = Some ds ->
      Forall (fun d => det_frame d = Z.of_nat k + 1) ds) ->
  Forall2 (uniform E) ns
    (map (map (fun d => Str.split_on ","%char (gt_line d)))
       (List.filter nonempty blocks)) ->
  ns !! i = Some n ->
  exists (k : nat) ds,
    blocks !! k = Some ds
    /\ List.filter nonempty blocks !! i = Some ds
    /\ ds <> []
    /\ n = Z.of_nat k + 1.
Proof.
  intros Hframes Hu Hn.
  destruct (Forall2_lookup_l _ _ _ _ _ Hu Hn) as (g & Hg & _ & Hall).
  rewrite lookup_map in Hg.
  destruct (List.filter nonempty blocks !! i) as [ds|] eqn:Hds; [|discriminate].
  injection Hg as <-.
  destruct (elem_of_filter_nonempty blocks ds) as [Hne Hin];
    [eapply list_elem_of_lookup_2, Hds|].
  apply list_elem_of_lookup_1 in Hin as [k Hk].
  exists k, ds. split; [assumption|]. split; [reflexivity|].
  split; [assumption|].
  specialize (Hframes k ds Hk).
  destruct ds as [|d ds]; [contradiction|].
  apply Forall_cons in Hframes as [Hd _].
  cbn [map] in Hall. apply Forall_cons in Hall as [Hl _].
  rewrite (label_frame_gt_line E Hint d) in Hl. injection Hl as <-.
  exact Hd.
Qed.

Lemma open_missing_image (ns : list Z) (s : editor.session) (c : nat) (n : Z) :
  tidy E ns s ->
  editor.cnt s = Z.of_nat c ->
  ns !! c = Some n ->
  imread (make_bb.jpg n) = None ->
  editor.open E imread s = editor.Failed AttributeError.
Proof.
  intros Ht Hc Hn Him. pose proof Ht as (Hl1 & _).
  pose proof (lookup_lt_Some _ _ _ Hn) as Hlt.
  unfold editor.open.
  replace ((0 <=? editor.cnt s)
           && (editor.cnt s <? Z.of_nat (length (editor.new_gt s)))) with true
    by (symmetry; apply andb_true_iff; split;
        [apply Z.leb_le|apply Z.ltb_lt]; lia).
  rewrite Hc, (frame_at_tidy E ns s c n Ht Hn).
  change (Str.format_06d n ++ ".jpg")%string with (make_bb.jpg n).
  now rewrite Him.
Qed.

End EditorOnSaved.

(** ** The editor on the directory that make_bb.py wrote *)

(** X27.  cleansing.py on the directory that a run of make_bb.py with
    [--save] wrote, with no other image in it.  Where the editor waits, the
    group on view was read from the detections of a processed frame [k],
    the frame number shown is [k + 1], and the image under the boxes is the
    one of the frame processed next. *)
Theorem editor_shows_the_next_image
  (E : Extern) {Image : Type} (a : make_bb.args)
  (r : make_bb.recording (Image := Image)) (out : make_bb.state)
  (start : Z) (keys : list Z) (s : editor.session) (v : editor.view) :
  int_reads_str E ->
  make_bb.save a = true ->
  make_bb.main E a r = make_bb.Done out ->
  editor.main E (imread_from (make_bb.gt_jpg out)) start (make_bb.gt_txt out)
    keys = editor.Waiting s v ->
  exists (done : list (string * Image * frame_state)) (rd : cleansing.reader)
         (i k : nat) (e e' : string * Image * frame_state),
    map (fun e => e.1.1) done = processed r
    /\ cleansing.read_gt E start (make_bb.gt_txt out) = Ok rd
    /\ editor.cnt s = Z.of_nat i
    /\ done !! k = Some e
    /\ cleansing.new_gt rd !! i
       = Some (map (fun d => Str.split_on ","%char (gt_line d)) (written e.2))
    /\ editor.frame v = Z.of_nat k + 1
    /\ done !! S k = Some e'
    /\ editor.org v = e'.1.2.
Proof.
  intros Hint Hsave Hmake Hmain.
  destruct (saved_then_read E a r out start Hint Hsave Hmake)
    as (done & rd & Hnums & Hframes & _ & Hjpg & Hfile & Hrd & Hgroups).
  destruct (main_Waiting E _ start _ keys s v Hfile Hmain)
    as (rd' & ns & Hrd' & Hu & Ht & ((i & Hc & Hn) & Him & _)).
  assert (rd' = rd) as -> by congruence.
  set (blocks := map (fun e : string * Image * frame_state => written e.2) done)
    in *.
  assert (Hblocks : forall (k : nat) ds,
             blocks !! k = Some ds ->
             Forall (fun d => det_frame d = Z.of_nat k + 1) ds).
  { intros k ds Hk. unfold blocks in Hk. rewrite lookup_map in Hk.
    destruct (done !! k) as [e|] eqn:He; [|discriminate].
    injection Hk as <-. now apply Hframes. }
  rewrite Hgroups in Hu.
  destruct (number_of_group E Hint blocks ns i _ Hblocks Hu Hn)
    as (k & ds & Hk & Hi & _ & Hnum).
  unfold blocks in Hk. rewrite lookup_map in Hk.
  destruct (done !! k) as [e|] eqn:He; [|discriminate].
  injection Hk as <-.
  rewrite Hjpg, Hnum in Him.
  apply (imread_from_imap (fun e : string * Image * frame_state => e.1.2))
    in Him as (j & e' & Hj & He' & Horg); [|lia..].
  assert (j = S k) as -> by lia.
  exists done, rd, i, k, e, e'.
  repeat (split; [assumption|]).
  split; [now rewrite Hgroups, lookup_map, Hi|].
  now repeat split.
Qed.

Lemma editor_shows_the_next_image_witness :
  exists out s v,
    make_bb.main Ref.extern Ex.saving Ex.recording = make_bb.Done out
    /\ editor.main Ref.extern (imread_from (make_bb.gt_jpg out)) 0
         (make_bb.gt_txt out) [32] = editor.Waiting s v
    /\ make_bb.gt_jpg out = [("000000.jpg", "3"); ("000001.jpg", "7")]%string
    /\ labels_of s = [Str.split_on ","%char (Ref.ln "1,7,21,2,22,44,1,1,1")]
    /\ editor.frame v = 1
    /\ editor.org v = "7"%string.
Proof.
  destruct (make_bb.main Ref.extern Ex.saving Ex.recording) as [out|c] eqn:Hmake;
    [|vm_compute in Hmake; discriminate].
  destruct (editor.main Ref.extern (imread_from (make_bb.gt_jpg out)) 0
              (make_bb.gt_txt out) [32]) as [s v| |] eqn:Hmain;
    [|vm_compute in Hmake; injection Hmake as <-;
      vm_compute in Hmain; discriminate..].
  exists out, s, v. split; [reflexivity|]. split; [assumption|].
  destruct (editor_shows_the_next_image Ref.extern Ex.saving Ex.recording out 0
              [32] s v int_reads_str_Ref eq_refl Hmake Hmain)
    as (done & rd & i & k & e & e' & _).
  vm_compute in Hmake. injection Hmake as <-.
  vm_compute in Hmain. injection Hmain as <- <-.
  repeat split; vm_compute; reflexivity.
Defined.

(** X28.  On the same directory, when the frame processed last has
    detections: their group is the last one, the image that it asks for was
    not written, and [org.copy()] raises [AttributeError].  The right arrow
    on the group before the last ends the script in this way, and so does
    the option [--start] with the number of the last group, before any key
    is read. *)
Theorem last_frame_cannot_be_opened
  (E : Extern) {Image : Type} (a : make_bb.args)
  (r : make_bb.recording (Image := Image)) (out : make_bb.state) (start : Z) :
  int_reads_str E ->
  make_bb.save a = true ->
  make_bb.main E a r = make_bb.Done out ->
  exists done : list (string * Image * frame_state),
    map (fun e => e.1.1) done = processed r
    /\ make_bb.frame out = Z.of_nat (length done)
    /\ forall last_e : string * Image * frame_state,
        last done = Some last_e ->
        written last_e.2 <> [] ->
        let imread := imread_from (make_bb.gt_jpg out) in
        (forall (keys : list Z) (s : editor.session) (v : editor.view),
            editor.main E imread start (make_bb.gt_txt out) keys
            = editor.Waiting s v ->
            editor.cnt s = Z.of_nat (length (editor.new_gt s)) - 2 ->
            editor.press E imread s v 0x270000 = editor.Failed AttributeError)
        /\ (start = make_bb.frame out ->
            forall keys : list Z,
              editor.main E imread start (make_bb.gt_txt out) keys
              = editor.Failed AttributeError).
Proof.
  intros Hint Hsave Hmake.
  destruct (saved_then_read E a r out start Hint Hsave Hmake)
    as (done & rd & Hnums & Hframes & Hlen & Hjpg & Hfile & Hrd & Hgroups).
  exists done. split; [assumption|]. split; [assumption|].
  intros last_e Hlast Hne imread.
  apply last_Some in Hlast as [done' ->].
  set (K := length (done' ++ [last_e])) in *.
  set (blocks := map (fun e : string * Image * frame_state => written e.2)
                   (done' ++ [last_e])) in *.
  assert (Hblocks : forall (k : nat) ds,
             blocks !! k = Some ds ->
             Forall (fun d => det_frame d = Z.of_nat k + 1) ds).
  { intros k ds Hk. unfold blocks in Hk. rewrite lookup_map in Hk.
    destruct ((done' ++ [last_e]) !! k) as [e|] eqn:He; [|discriminate].
    injection Hk as <-. now apply Hframes. }
  assert (Hfilter : List.filter nonempty blocks
                    = List.filter nonempty
                        (map (fun e : string * Image * frame_state => written e.2)
                           done')
                      ++ [written last_e.2]).
  { unfold blocks. rewrite map_app. now apply filter_nonempty_snoc. }
  assert (Hmissing : imread (make_bb.jpg (Z.of_nat K)) = None).
  { unfold imread. rewrite Hjpg.
    destruct (imread_from _ _) as [image|] eqn:Him; [|reflexivity].
    apply (imread_from_imap (fun e : string * Image * frame_state => e.1.2))
      in Him as (j & e' & Hj & He' & _); [|lia..].
    apply lookup_lt_Some in He'. fold K in He'. lia. }
  (* the number of the last group *)
  assert (Hnumber : forall ns : list Z,
             Forall2 (uniform E) ns (cleansing.new_gt rd) ->
             (0 < length ns)%nat
             /\ ns !! (length ns - 1)%nat = Some (Z.of_nat K)).
  { intros ns Hu. pose proof (Forall2_length _ _ _ Hu) as Hl.
    rewrite Hgroups, length_map, Hfilter, length_app in Hl. cbn [length] in Hl.
    split; [lia|].
    destruct (lookup_lt_is_Some_2 ns (length ns - 1)) as [n Hn]; [lia|].
    rewrite Hgroups in Hu.
    destruct (number_of_group E Hint blocks ns _ n Hblocks Hu Hn)
      as (k & ds & Hk & Hi & Hds & ->).
    rewrite Hfilter, Hl in Hi.
    replace (length (List.filter nonempty
                       (map (fun e : string * Image * frame_state => written e.2)
                          done')) + 1 - 1)%nat
      with (length (List.filter nonempty
                      (map (fun e : string * Image * frame_state => written e.2)
                         done')) + 0)%nat in Hi by lia.
    rewrite lookup_app_r, Nat.add_comm, Nat.add_sub in Hi by lia.
    injection Hi as <-.
    pose proof (Hblocks k _ Hk) as Hfk.
    assert (Hlast : blocks !! (K - 1)%nat = Some (written last_e.2)).
    { unfold blocks, K. rewrite lookup_map, length_app. cbn [length].
      replace (length done' + 1 - 1)%nat with (length done' + 0)%nat by lia.
      now rewrite lookup_app_r, Nat.add_comm, Nat.add_sub by lia. }
    pose proof (Hblocks _ _ Hlast) as HfK.
    destruct (written last_e.2) as [|d ds]; [contradiction|].
    apply Forall_cons in Hfk as [Hd1 _]. apply Forall_cons in HfK as [Hd2 _].
    rewrite Hn. f_equal.
    assert (0 < K)%nat by (unfold K; rewrite length_app; cbn; lia). lia. }
  split.
  - intros keys s v Hmain Hcnt.
    destruct (main_Waiting E imread start _ keys s v Hfile Hmain)
      as (rd' & ns & Hrd' & Hu & Ht & _).
    assert (rd' = rd) as -> by congruence.
    destruct (Hnumber ns Hu) as [Hpos Hn].
    pose proof Ht as (Hl1 & _).
    unfold editor.press. cbn [Z.eqb Pos.eqb].
    apply (open_missing_image E imread ns _ (length ns - 1) (Z.of_nat K)).
    + now apply tidy_with_cnt.
    + cbn [editor.with_cnt editor.cnt]. lia.
    + assumption.
    + assumption.
  - intros -> keys. unfold editor.main. rewrite Hrd.
    destruct (read_lines_grouped E (make_bb.frame out) (make_bb.gt_txt out) [] _ rd
                (grouped_init E (make_bb.frame out)) Hfile Hrd)
      as (ns & (Hu & _ & _ & Hidx) & _).
    destruct (Hnumber ns Hu) as [Hpos Hn].
    rewrite Hlen in Hidx. fold K in Hidx.
    assert (Hcnt : cleansing.start_frame_idx rd = Z.of_nat (length ns - 1)).
    { destruct Hidx as [(i & -> & Hi & Hlater)|[Hnot _]].
      - pose proof (lookup_lt_Some _ _ _ Hi) as Hlt.
        destruct (decide (i = length ns - 1)%nat) as [->|Hneq]; [reflexivity|].
        exfalso. apply (Hlater (length ns - 1)%nat); [lia|assumption].
      - exfalso. apply Hnot. eapply list_elem_of_lookup_2, Hn. }
    rewrite (open_missing_image E imread ns (editor.start rd) (length ns - 1)
               (Z.of_nat K)); try assumption.
    + apply run_Failed.
    + now apply start_tidy.
Qed.

Lemma last_frame_cannot_be_opened_witness :
  exists out,
    make_bb.main Ref.extern Ex.saving Ex.recording = make_bb.Done out
    /\ make_bb.frame out = 2
    /\ editor.main Ref.extern (imread_from (make_bb.gt_jpg out)) 0
         (make_bb.gt_txt out) [32; 0x270000] = editor.Failed AttributeError
    /\ editor.main Ref.extern (imread_from (make_bb.gt_jpg out)) 2
         (make_bb.gt_txt out) [] = editor.Failed AttributeError.
Proof.
  destruct (make_bb.main Ref.extern Ex.saving Ex.recording) as [out|c] eqn:Hmake;
    [|vm_compute in Hmake; discriminate].
  exists out. split; [reflexivity|].
  assert (Hframe : make_bb.frame out = 2)
    by (vm_compute in Hmake; injection Hmake as <-; reflexivity).
  split; [assumption|].
  destruct (last_frame_cannot_be_opened Ref.extern Ex.saving Ex.recording out 2
              int_reads_str_Ref eq_refl Hmake) as (done & _ & Hlen & _).
  split.
  - vm_compute in Hmake. injection Hmake as <-. vm_compute. reflexivity.
  - vm_compute in Hmake. injection Hmake as <-. vm_compute. reflexivity.
Defined.
